(** * Verification of the wrapping engine of @brokerize/telemetry

    A shallow embedding of [src/tracing/tracingDecorator.ts] (class [Traces]),
    [src/tracing/tracing-config.ts] and [src/metrics/metricsDecorator.ts]
    (class [Metrics]), followed by the properties of the specification that
    are proved about them.  Around these, [src/metrics/metrics.ts],
    [src/metrics/defineMetrics.ts], [src/util/getCallerFile.ts] and
    [src/instrumentation.ts] are embedded, with further properties of the
    whole at the end.

    JavaScript objects that are mutated through a reference live in typed
    heaps; exceptions are completion records; promises and their reactions
    are run by an explicit job queue; every call on a collaborator
    (OpenTelemetry span or tracer, prom-client metric, user callback) is
    appended to a chronological log, but for a call that prom-client
    refuses: it throws and leaves no entry. *)

From Stdlib Require Import QArith Ascii ssreflect.
From stdpp Require Import base option list strings gmap fin_maps fin_sets.

Set Warnings "-register-all,-rewrite-rw,-clear-no-such-hyp".

(* ===================================================================== *)
(** * JavaScript values and completions                                   *)
(* ===================================================================== *)

Module Js.

(** Values that cross the wrappers.  Numbers are never computed with,
    only copied, so rationals stand for them.  [VObject] is a plain
    immutable object literal (thrown errors are such objects, with a
    [name] and a [message] property); [VPromise] is a handle of the
    promise store. *)
Inductive Value :=
  | VUndefined
  | VNull
  | VBool (b : bool)
  | VNum (q : Q)
  | VStr (s : string)
  | VPromise (p : nat)
  | VObject (props : list (string * Value)).

(** [!!v] *)
Definition truthy (v : Value) : bool :=
  match v with
  | VUndefined | VNull => false
  | VBool b => b
  | VNum q => negb (Qeq_bool q 0)
  | VStr s => negb (String.eqb s "")
  | VPromise _ | VObject _ => true
  end.

Fixpoint assoc (k : string) (props : list (string * Value)) : Value :=
  match props with
  | [] => VUndefined
  | (k', v) :: rest => if String.eqb k k' then v else assoc k rest
  end.

(** [v?.k] for the two properties the wrappers read, [name] and
    [message]: primitives and promises have neither. *)
Definition get_prop (v : Value) (k : string) : Value :=
  match v with
  | VObject props => assoc k props
  | _ => VUndefined
  end.

(** [a || b] *)
Definition or_else (a b : Value) : Value := if truthy a then a else b.

(** [result && typeof result.then === 'function'], and
    [res instanceof Promise]: promise handles are the only thenables of
    the value universe. *)
Definition isThenable (v : Value) : bool :=
  match v with VPromise _ => true | _ => false end.

Definition is_undefined (v : Value) : bool :=
  match v with VUndefined => true | _ => false end.

(** [new Error(message)] and friends. *)
Definition mkError (name message : string) : Value :=
  VObject [("name", VStr name); ("message", VStr message)].

(** Completion of a call: normal, or abrupt by [throw]. *)
Inductive Result (A : Type) :=
  | Ok (a : A)
  | Throw (e : Value).
Arguments Ok {A} a.
Arguments Throw {A} e.

(** How a promise has settled. *)
Inductive Outcome :=
  | Fulfilled (v : Value)
  | Rejected (e : Value).

End Js.
Export Js.

Abbreviation loc := nat.
Abbreviation Rec := (gmap string Value).

(* ===================================================================== *)
(** * Collaborators: OpenTelemetry API and prom-client                    *)
(* ===================================================================== *)

(** [SpanContext]: the identity of a span. *)
Record Span := mkSpan { traceId : nat; spanId : nat }.

Inductive SpanStatusCode := UNSET | OK | ERROR.

(** [SpanOptions], the fields the code reads or writes.  [attributes] is a
    reference to an attributes object of the record heap. *)
Record SpanOptions := mkSpanOptions {
  so_attributes : option loc;
  so_root : option bool;
  so_links : option (list Span)
}.

Inductive StartMode := reuse | createChild | newTrace | newTraceWithLink.

Inductive TracingMode := legacy_always_promise | natural_sync_async.

Inductive MetricType := Counter | Gauge | Histogram | Summary.

(** [CounterConfiguration], [GaugeConfiguration], [HistogramConfiguration]
    and [SummaryConfiguration] of prom-client, as one record. *)
Record Config := mkConfig {
  cfg_name : string;
  cfg_help : string;
  cfg_labelNames : option (list string);
  cfg_collect : bool;
  cfg_buckets : option (list Q);
  cfg_percentiles : option (list Q)
}.

(** A metric object of prom-client, built from a configuration. *)
Record Metric := mkMetric { m_type : MetricType; m_config : Config }.

(** [metric.labelNames]: prom-client stores [config.labelNames || []]. *)
Definition labelNames (m : Metric) : list string :=
  default [] (cfg_labelNames (m_config m)).

(** The calls on a metric: [inc], [set], [observe], [startTimer], and the
    call of the end function that [startTimer] returned. *)
Inductive BackendOp := OpInc | OpSet | OpObserve | OpStartTimer | OpEndTimer.

(** [endTimer]: the end function of [metric.startTimer(labels)], which
    keeps the metric and the label object, or [() => {}]. *)
Definition Timer : Type := option (Metric * loc).

(* ===================================================================== *)
(** * Closures, promises, events                                          *)
(* ===================================================================== *)

(** The closures that the wrappers hand to [then], [catch] and [finally],
    with what each captures. *)
Inductive Callback :=
  | CbTraceOk (span : Span)
  | CbTraceErr (span : Span)
  | CbEndSpan (spanEnded : loc) (span : Span) (createdSpan : bool)
  | CbIdentity
  | CbLabelErr (labels : loc)
  | CbCounterInc (counter : Metric) (labels : loc)
  | CbStopWrite (endTimer : Timer) (metric : Metric) (op : BackendOp)
      (labels : loc) (timed : bool)
  | CbStopThrow (endTimer : Timer)
  | CbStop (endTimer : Timer)
  | CbLabelErrStop (labels : loc) (endTimer : Timer).

Inductive Method := MThen | MCatch | MFinally.

(** A reaction registered on a promise: method, callback, derived promise. *)
Definition Reaction : Type := Method * Callback * nat.

Inductive PromiseState :=
  | Pending (reactions : list Reaction)
  | Settled (o : Outcome).

Inductive Job :=
  | JReact (r : Reaction) (o : Outcome)
  | JSettle (p : nat) (o : Outcome).

Inductive Event :=
  | EvGate (args : list Value) (this : Value) (currentSpan : option Span)
  | EvDynamic (args : list Value)
  | EvStartSpan (tracer name : string) (attrs : Rec) (root : bool)
      (links : list Span) (span : Span)
  | EvCall (fname : string) (args : list Value) (this : Value)
      (activeSpan : option Span)
  | EvSetStatus (span : Span) (code : SpanStatusCode) (message : Value)
  | EvRecordException (span : Span) (e : Value)
  | EvEnd (span : Span)
  | EvLabelAssign (labels : loc) (key : string) (v : Value)
  | EvMetric (m : Metric) (op : BackendOp) (labels : option Rec)
      (value : option Q)
  | EvSettled (p : nat) (o : Outcome).

(* ===================================================================== *)
(** * The world and its monad                                             *)
(* ===================================================================== *)

(** The static maps of class [Metrics]. *)
Record MetricsClass := mkMetricsClass {
  counterConfigs : gmap string Config;
  gaugeConfigs : gmap string Config;
  histogramConfigs : gmap string Config;
  summaryConfigs : gmap string Config;
  counters : gmap string Metric;
  gauges : gmap string Metric;
  histograms : gmap string Metric;
  summaries : gmap string Metric
}.

Record World := mkWorld {
  mode : TracingMode;                (* tracing-config.ts, [let mode] *)
  active : option Span;              (* trace.getSpan(context.active()) *)
  started : list Span;               (* spans issued by the tracer provider *)
  optionObjs : gmap loc SpanOptions; (* heap of SpanOptions objects *)
  records : gmap loc Rec;            (* heap of attribute and label objects *)
  flags : gmap loc bool;             (* closure variables [let spanEnded] *)
  promises : gmap nat PromiseState;
  jobs : list Job;                   (* job queue, oldest first *)
  statics : MetricsClass;
  register : gmap string Metric;     (* prom-client's global registry *)
  log : list Event                   (* oldest first *)
}.

Definition set_mode (x : TracingMode) (w : World) : World :=
  let '(mkWorld _ a b c d e f g h i j) := w in mkWorld x a b c d e f g h i j.
Definition set_active (x : option Span) (w : World) : World :=
  let '(mkWorld m _ b c d e f g h i j) := w in mkWorld m x b c d e f g h i j.
Definition set_started (x : list Span) (w : World) : World :=
  let '(mkWorld m a _ c d e f g h i j) := w in mkWorld m a x c d e f g h i j.
Definition set_optionObjs (x : gmap loc SpanOptions) (w : World) : World :=
  let '(mkWorld m a b _ d e f g h i j) := w in mkWorld m a b x d e f g h i j.
Definition set_records (x : gmap loc Rec) (w : World) : World :=
  let '(mkWorld m a b c _ e f g h i j) := w in mkWorld m a b c x e f g h i j.
Definition set_flags (x : gmap loc bool) (w : World) : World :=
  let '(mkWorld m a b c d _ f g h i j) := w in mkWorld m a b c d x f g h i j.
Definition set_promises (x : gmap nat PromiseState) (w : World) : World :=
  let '(mkWorld m a b c d e _ g h i j) := w in mkWorld m a b c d e x g h i j.
Definition set_jobs (x : list Job) (w : World) : World :=
  let '(mkWorld m a b c d e f _ h i j) := w in mkWorld m a b c d e f x h i j.
Definition set_statics (x : MetricsClass) (w : World) : World :=
  let '(mkWorld m a b c d e f g _ i j) := w in mkWorld m a b c d e f g x i j.
Definition set_register (x : gmap string Metric) (w : World) : World :=
  let '(mkWorld m a b c d e f g h _ j) := w in mkWorld m a b c d e f g h x j.
Definition set_log (x : list Event) (w : World) : World :=
  let '(mkWorld m a b c d e f g h i _) := w in mkWorld m a b c d e f g h i x.

Definition emptyStatics : MetricsClass := mkMetricsClass ∅ ∅ ∅ ∅ ∅ ∅ ∅ ∅.

(** The world when the modules have just been loaded, in the given mode. *)
Definition initialWorld (m : TracingMode) : World :=
  mkWorld m None [] ∅ ∅ ∅ ∅ [] emptyStatics ∅ [].

(** A computation may change the world and then complete either way: what
    was done before a [throw] stays done. *)
Definition M (A : Type) : Type := World → Result A * World.

#[global] Instance M_ret : MRet M := λ A a w, (Ok a, w).
#[global] Instance M_bind : MBind M := λ A B k m w,
  match m w with
  | (Ok a, w') => k a w'
  | (Throw e, w') => (Throw e, w')
  end.

Definition throw {A} (e : Value) : M A := λ w, (Throw e, w).

(** [try { body } catch (error) { handler }] *)
Definition try_catch {A} (body : M A) (handler : Value → M A) : M A := λ w,
  match body w with
  | (Ok a, w') => (Ok a, w')
  | (Throw e, w') => handler e w'
  end.

Definition gets {A} (f : World → A) : M A := λ w, (Ok (f w), w).
Definition modify (f : World → World) : M unit := λ w, (Ok tt, f w).
Definition emit (e : Event) : M unit := modify (λ w, set_log (log w ++ [e]) w).

(** A user callback that either returns or throws. *)
Definition lift {A} (r : Result A) : M A := λ w, (r, w).

(* ===================================================================== *)
(** * prom-client, as far as class [Metrics] uses it                      *)
(* ===================================================================== *)

Module Prom.

(** The character classes of prom-client's two name patterns. *)
Definition isLetter (c : ascii) : bool :=
  let n := nat_of_ascii c in
  (65 <=? n) && (n <=? 90) || (97 <=? n) && (n <=? 122).
Definition isDigit (c : ascii) : bool :=
  let n := nat_of_ascii c in (48 <=? n) && (n <=? 57).
Definition isUnderscore (c : ascii) : bool := Ascii.eqb c "_".
Definition isColon (c : ascii) : bool := Ascii.eqb c ":".

Fixpoint allChars (P : ascii → bool) (s : string) : bool :=
  match s with
  | EmptyString => true
  | String c rest => P c && allChars P rest
  end.

(** [/^first rest*$/] *)
Definition matches (first rest : ascii → bool) (s : string) : bool :=
  match s with
  | EmptyString => false
  | String c s' => first c && allChars rest s'
  end.

(** [validateMetricName(name)]: [/^[a-zA-Z_:][a-zA-Z0-9_:]*$/] *)
Definition validateMetricName (name : string) : bool :=
  matches (λ c, isLetter c || isUnderscore c || isColon c)
    (λ c, isLetter c || isDigit c || isUnderscore c || isColon c) name.

(** [validateLabelName(names)]: every name matches
    [/^[a-zA-Z_][a-zA-Z0-9_]*$/]. *)
Definition validateLabelName (names : list string) : bool :=
  forallb
    (matches (λ c, isLetter c || isUnderscore c)
       (λ c, isLetter c || isDigit c || isUnderscore c))
    names.

(** What the constructor of a metric checks before the metric enters the
    registry, in the order of the checks, and the registry's own check,
    [registerMetric]: a name is registered once. *)
Definition refusal (cfg : Config) (w : World) : option Value :=
  if String.eqb (cfg_help cfg) "" then
    Some (mkError "Error" "Missing mandatory help parameter")
  else if String.eqb (cfg_name cfg) "" then
    Some (mkError "Error" "Missing mandatory name parameter")
  else if negb (validateMetricName (cfg_name cfg)) then
    Some (mkError "Error" "Invalid metric name")
  else if negb (validateLabelName (default [] (cfg_labelNames cfg))) then
    Some (mkError "Error" "Invalid label name")
  else if register w !! cfg_name cfg is Some _ then
    Some (mkError "Error"
            ("A metric with the name " +:+ cfg_name cfg +:+
             " has already been registered."))
  else None.

(** What the constructors of [Histogram] and [Summary] check once the
    metric is in the registry. *)
Definition reserved (k : MetricType) (cfg : Config) : option Value :=
  let names := default [] (cfg_labelNames cfg) in
  match k with
  | Histogram =>
      if bool_decide ("le" ∈ names)
      then Some (mkError "Error" "le is a reserved label keyword") else None
  | Summary =>
      if bool_decide ("quantile" ∈ names)
      then Some (mkError "Error" "quantile is a reserved label keyword")
      else None
  | Counter | Gauge => None
  end.

(** [new Counter(cfg)], [new Gauge(cfg)], ...: the object keeps the
    configuration it was built from and enters the global registry, unless
    the constructor throws. *)
Definition new (k : MetricType) (cfg : Config) : M Metric := λ w,
  match refusal cfg w with
  | Some e => (Throw e, w)
  | None =>
      let m := mkMetric k cfg in
      let w' := set_register (<[cfg_name cfg := m]> (register w)) w in
      match reserved k cfg with
      | Some e => (Throw e, w')
      | None => (Ok m, w')
      end
  end.

(** [register.clear()] *)
Definition clear : M unit := modify (set_register ∅).

Definition quote : string := String (ascii_of_nat 34) EmptyString.

(** [util.inspect(labelNames)], for a list that Node prints on one line. *)
Definition inspect (names : list string) : string :=
  match names with
  | [] => "[]"
  | _ => "[ " +:+ String.concat ", " ((λ n, "'" +:+ n +:+ "'") <$> names) +:+ " ]"
  end.

(** The keys of a label object that the metric has not declared. *)
Definition undeclared (m : Metric) (labels : Rec) : list string :=
  filter (λ key, key ∉ labelNames m) (map_to_list labels).*1.

(** [validateLabel(metric.labelNames, labels)].  prom-client names the
    first undeclared key in the order of the keys of the object; label
    objects are finite maps here, and the first in the order of the map
    is named. *)
Definition validateLabel (m : Metric) (labels : Rec) : option Value :=
  match undeclared m labels with
  | key :: _ =>
      Some (mkError "Error"
              ("Added label " +:+ quote +:+ key +:+ quote +:+
               " is not included in initial labelset: " +:+
               inspect (labelNames m)))
  | [] => None
  end.

Definition decrease : Value :=
  mkError "Error" "It is not possible to decrease a counter".

(** What [metric.inc], [metric.set], [metric.observe] and the end
    function of a timer refuse: a label that the metric has not declared
    and, for [inc], a negative value.  [startTimer] checks nothing; the
    labels it was given are checked when the timer is stopped. *)
Definition refused (m : Metric) (op : BackendOp) (labels : option Rec)
    (value : option Q) : option Value :=
  match op with
  | OpStartTimer => None
  | _ =>
      match validateLabel m (default ∅ labels) with
      | Some e => Some e
      | None =>
          match op, value with
          | OpInc, Some q => if Qle_bool 0 q then None else Some decrease
          | _, _ => None
          end
      end
  end.

(** [metric.inc], [metric.set], [metric.observe], [metric.startTimer] and
    the call of the end function of a timer: a call that the metric takes
    is recorded with the arguments it was given, one that it refuses
    throws and records nothing. *)
Definition call (m : Metric) (op : BackendOp) (labels : option Rec)
    (value : option Q) : M unit :=
  match refused m op labels value with
  | Some e => throw e
  | None => emit (EvMetric m op labels value)
  end.

End Prom.

(* ===================================================================== *)
(** * OpenTelemetry API, as far as class [Traces] uses it                 *)
(* ===================================================================== *)

Module Otel.

(** The spans whose identifiers are in use: those the tracer has started,
    and the active one, wherever it came from. *)
Definition known (w : World) : list Span :=
  started w ++ option_list (active w).

Definition freshTraceId (w : World) : nat :=
  fresh (list_to_set (traceId <$> known w) : gset nat).
Definition freshSpanId (w : World) : nat :=
  fresh (list_to_set (spanId <$> known w) : gset nat).

(** [tracer.startSpan(name, options)].  The tracer reads the attributes
    object that the options refer to.  A span that is not a root and has
    an active span in the context joins the trace of that span; any
    other span opens a trace of its own.  The tracer draws identifiers at
    random: they are taken to be fresh, that is in use by no span started
    so far and not by the active span. *)
Definition startSpan (tracer name : string) (options : SpanOptions) : M Span := λ w,
  let attrs :=
    match so_attributes options with
    | Some la => default ∅ (records w !! la)
    | None => ∅
    end in
  let root := default false (so_root options) in
  let links := default [] (so_links options) in
  let parent := if root then None else active w in
  let tid :=
    match parent with
    | Some p => traceId p
    | None => freshTraceId w
    end in
  let span := mkSpan tid (freshSpanId w) in
  (Ok span,
   set_log (log w ++ [EvStartSpan tracer name attrs root links span])
     (set_started (started w ++ [span]) w)).

(** [span.setStatus({ code, message })] *)
Definition setStatus (span : Span) (code : SpanStatusCode) (message : Value) : M unit :=
  emit (EvSetStatus span code message).

(** [span.recordException(error)] *)
Definition recordException (span : Span) (error : Value) : M unit :=
  emit (EvRecordException span error).

(** [span.end()] *)
Definition end_ (span : Span) : M unit := emit (EvEnd span).

(** [context.with(trace.setSpan(context.active(), span), body)]: the span
    is the active one while [body] runs, and the previous context is
    back afterwards, however [body] completes. *)
Definition withSpan {A} (span : Span) (body : M A) : M A := λ w,
  let '(r, w') := body (set_active (Some span) w) in
  (r, set_active (active w) w').

End Otel.

(* ===================================================================== *)
(** * Objects under reference                                             *)
(* ===================================================================== *)

Module Heap.

Definition allocRecord (r : Rec) : M loc := λ w,
  let l := fresh (dom (records w)) in
  (Ok l, set_records (<[l := r]> (records w)) w).

Definition allocOptions (o : SpanOptions) : M loc := λ w,
  let l := fresh (dom (optionObjs w)) in
  (Ok l, set_optionObjs (<[l := o]> (optionObjs w)) w).

Definition allocFlag (b : bool) : M loc := λ w,
  let l := fresh (dom (flags w)) in
  (Ok l, set_flags (<[l := b]> (flags w)) w).

Definition readRecord (l : loc) : M Rec :=
  gets (λ w, default ∅ (records w !! l)).

Definition readOptions (l : loc) : M SpanOptions :=
  gets (λ w, default (mkSpanOptions None None None) (optionObjs w !! l)).

Definition readFlag (l : loc) : M bool :=
  gets (λ w, default false (flags w !! l)).

(** [obj[key] = v] *)
Definition assign (l : loc) (key : string) (v : Value) : M unit :=
  modify (λ w,
    set_records (<[l := <[key := v]> (default ∅ (records w !! l))]> (records w)) w).

Definition writeOptions (l : loc) (o : SpanOptions) : M unit :=
  modify (λ w, set_optionObjs (<[l := o]> (optionObjs w)) w).

Definition writeFlag (l : loc) (b : bool) : M unit :=
  modify (λ w, set_flags (<[l := b]> (flags w)) w).

End Heap.

(* ===================================================================== *)
(** * Promises and the job queue                                          *)
(* ===================================================================== *)

Module Promise.

(** The closure [endSpan] of the tracing wrappers:
    [if (!spanEnded && createdSpan) { span.end(); spanEnded = true; }] *)
Definition endSpan (spanEnded : loc) (span : Span) (createdSpan : bool) : M unit :=
  ended ← Heap.readFlag spanEnded;
  if negb ended && createdSpan then
    Otel.end_ span ;; Heap.writeFlag spanEnded true
  else mret tt.

(** [labels.error = err?.name || 'unknown_error'] *)
Definition assignErrorLabel (labels : loc) (err : Value) : M unit :=
  let v := or_else (get_prop err "name") (VStr "unknown_error") in
  emit (EvLabelAssign labels "error" v) ;;
  Heap.assign labels "error" v.

(** [counter.inc(labels)], with the label object as it is at the call. *)
Definition incWith (counter : Metric) (labels : loc) : M unit :=
  ls ← Heap.readRecord labels;
  Prom.call counter OpInc (Some ls) None.

(** [endTimer()]: the end function reads the label object when called. *)
Definition stopTimer (endTimer : Timer) : M unit :=
  match endTimer with
  | Some (metric, labels) =>
      ls ← Heap.readRecord labels;
      Prom.call metric OpEndTimer (Some ls) None
  | None => mret tt
  end.

(** [if (!timed && typeof v === 'number') gauge.set(labels, v)], and the
    same with [summary.observe]. *)
Definition writeNumber (metric : Metric) (op : BackendOp) (labels : loc)
    (timed : bool) (v : Value) : M unit :=
  match v with
  | VNum q =>
      if negb timed then
        ls ← Heap.readRecord labels;
        Prom.call metric op (Some ls) (Some q)
      else mret tt
  | _ => mret tt
  end.

(** The bodies of the closures. *)
Definition runCallback (cb : Callback) (arg : Value) : M Value :=
  match cb with
  | CbTraceOk span =>
      Otel.setStatus span OK VUndefined ;; mret arg
  | CbTraceErr span =>
      Otel.setStatus span ERROR (get_prop arg "message") ;;
      Otel.recordException span arg ;;
      throw arg
  | CbEndSpan spanEnded span createdSpan =>
      endSpan spanEnded span createdSpan ;; mret VUndefined
  | CbIdentity => mret arg
  | CbLabelErr labels =>
      assignErrorLabel labels arg ;; throw arg
  | CbCounterInc counter labels =>
      incWith counter labels ;; mret VUndefined
  | CbStopWrite endTimer metric op labels timed =>
      stopTimer endTimer ;;
      writeNumber metric op labels timed arg ;;
      mret arg
  | CbStopThrow endTimer =>
      stopTimer endTimer ;; throw arg
  | CbStop endTimer =>
      stopTimer endTimer ;; mret arg
  | CbLabelErrStop labels endTimer =>
      assignErrorLabel labels arg ;; stopTimer endTimer ;; throw arg
  end.

Definition newPromise (st : PromiseState) : M nat := λ w,
  let p := fresh (dom (promises w)) in
  (Ok p, set_promises (<[p := st]> (promises w)) w).

(** A promise settles once; its reactions become jobs, in order. *)
Definition settle (p : nat) (o : Outcome) : M unit := λ w,
  match promises w !! p with
  | Some (Settled _) => (Ok tt, w)
  | st =>
      let rs := match st with Some (Pending rs) => rs | _ => [] end in
      (Ok tt,
       set_log (log w ++ [EvSettled p o])
         (set_jobs (jobs w ++ ((λ r, JReact r o) <$> rs))
            (set_promises (<[p := Settled o]> (promises w)) w)))
  end.

(** [p.then(cb)], [p.catch(cb)], [p.finally(cb)]: a derived promise is
    created, and the reaction is queued at once when [p] has settled and
    kept with [p] otherwise. *)
Definition react (m : Method) (p : nat) (cb : Callback) : M nat := λ w,
  let q := fresh ({[p]} ∪ dom (promises w)) in
  let w := set_promises (<[q := Pending []]> (promises w)) w in
  match promises w !! p with
  | Some (Settled o) => (Ok q, set_jobs (jobs w ++ [JReact (m, cb, q) o]) w)
  | st =>
      let rs := match st with Some (Pending rs) => rs | _ => [] end in
      (Ok q, set_promises (<[p := Pending (rs ++ [(m, cb, q)])]> (promises w)) w)
  end.

Definition then_ := react MThen.
Definition catch_ := react MCatch.
Definition finally_ := react MFinally.

(** [Promise.resolve(v)]: a promise is returned as it is, any other
    value in a new promise fulfilled with it. *)
Definition resolve (v : Value) : M Value :=
  match v with
  | VPromise p => mret v
  | _ =>
      p ← newPromise (Settled (Fulfilled v));
      emit (EvSettled p (Fulfilled v)) ;;
      mret (VPromise p)
  end.

(** [Promise.reject(e)] *)
Definition reject (e : Value) : M Value :=
  p ← newPromise (Settled (Rejected e));
  emit (EvSettled p (Rejected e)) ;;
  mret (VPromise p).

Definition asOutcome (r : Result Value * World) : Result Outcome * World :=
  match r with
  | (Ok v, w) => (Ok (Fulfilled v), w)
  | (Throw e, w) => (Ok (Rejected e), w)
  end.

(** What the derived promise of a reaction settles with.  The callbacks
    of this development return the settled value they were given or
    [undefined], never a promise, so resolving the derived promise is
    fulfilling it. *)
Definition reactionOutcome (m : Method) (cb : Callback) (o : Outcome) : M Outcome := λ w,
  match m, o with
  | MThen, Fulfilled v => asOutcome (runCallback cb v w)
  | MThen, Rejected _ => (Ok o, w)
  | MCatch, Fulfilled _ => (Ok o, w)
  | MCatch, Rejected e => asOutcome (runCallback cb e w)
  | MFinally, _ =>
      match runCallback cb VUndefined w with
      | (Ok _, w') => (Ok o, w')
      | (Throw e, w') => (Ok (Rejected e), w')
      end
  end.

Definition runJob (j : Job) : M unit :=
  match j with
  | JSettle p o => settle p o
  | JReact (m, cb, q) o => o' ← reactionOutcome m cb o; settle q o'
  end.

(** The event loop: jobs run oldest first until none is left. *)
Fixpoint runJobs (fuel : nat) (w : World) : World :=
  match fuel, jobs w with
  | S fuel, j :: rest => runJobs fuel (runJob j (set_jobs rest w)).2
  | _, _ => w
  end.

End Promise.

Arguments Promise.runJobs : simpl never.
Arguments Prom.refused : simpl never.
Arguments Prom.refusal : simpl never.
Arguments Prom.reserved : simpl never.

(* ===================================================================== *)
(** * The wrapped callable                                                *)
(* ===================================================================== *)

(** What a call of the original function does, as seen by its caller: it
    throws, returns a value, or returns a promise of its own making which
    has settled already, settles in a later job, or never settles. *)
Inductive Behaviour :=
  | BThrow (e : Value)
  | BReturn (v : Value)
  | BSettled (o : Outcome)
  | BPending (o : Outcome)
  | BNever.

(** A function: its [name] and what a call does, given the arguments, the
    receiver and the span that is active while it runs. *)
Record Callee := mkCallee {
  fn_name : string;
  fn_body : list Value → Value → option Span → Behaviour
}.

(** [fn.apply(this, args)] *)
Definition applyFn (fn : Callee) (this : Value) (args : list Value) : M Value :=
  cur ← gets active;
  emit (EvCall (fn_name fn) args this cur) ;;
  match fn_body fn args this cur with
  | BThrow e => throw e
  | BReturn v => mret v
  | BSettled o => p ← Promise.newPromise (Settled o); mret (VPromise p)
  | BPending o =>
      p ← Promise.newPromise (Pending []);
      modify (λ w, set_jobs (jobs w ++ [JSettle p o]) w) ;;
      mret (VPromise p)
  | BNever => p ← Promise.newPromise (Pending []); mret (VPromise p)
  end.

(* ===================================================================== *)
(** * metricsDecorator.ts: class [Metrics]                                *)
(* ===================================================================== *)

Module Metrics.

Definition configsOf (k : MetricType) (s : MetricsClass) : gmap string Config :=
  match k with
  | Counter => counterConfigs s
  | Gauge => gaugeConfigs s
  | Histogram => histogramConfigs s
  | Summary => summaryConfigs s
  end.

Definition instancesOf (k : MetricType) (s : MetricsClass) : gmap string Metric :=
  match k with
  | Counter => counters s
  | Gauge => gauges s
  | Histogram => histograms s
  | Summary => summaries s
  end.

Definition setConfigs (k : MetricType) (x : gmap string Config)
    (s : MetricsClass) : MetricsClass :=
  let '(mkMetricsClass cc gc hc sc c g h su) := s in
  match k with
  | Counter => mkMetricsClass x gc hc sc c g h su
  | Gauge => mkMetricsClass cc x hc sc c g h su
  | Histogram => mkMetricsClass cc gc x sc c g h su
  | Summary => mkMetricsClass cc gc hc x c g h su
  end.

Definition setInstances (k : MetricType) (x : gmap string Metric)
    (s : MetricsClass) : MetricsClass :=
  let '(mkMetricsClass cc gc hc sc c g h su) := s in
  match k with
  | Counter => mkMetricsClass cc gc hc sc x g h su
  | Gauge => mkMetricsClass cc gc hc sc c x h su
  | Histogram => mkMetricsClass cc gc hc sc c g x su
  | Summary => mkMetricsClass cc gc hc sc c g h x
  end.

Definition storeConfig (k : MetricType) (cfg : Config) : M unit :=
  modify (λ w, set_statics
    (setConfigs k (<[cfg_name cfg := cfg]> (configsOf k (statics w))) (statics w)) w).

Definition storeInstance (k : MetricType) (name : string) (m : Metric) : M unit :=
  modify (λ w, set_statics
    (setInstances k (<[name := m]> (instancesOf k (statics w))) (statics w)) w).

Definition with_labelNames (l : option (list string)) (c : Config) : Config :=
  mkConfig (cfg_name c) (cfg_help c) l (cfg_collect c) (cfg_buckets c)
    (cfg_percentiles c).
Definition with_buckets (b : option (list Q)) (c : Config) : Config :=
  mkConfig (cfg_name c) (cfg_help c) (cfg_labelNames c) (cfg_collect c) b
    (cfg_percentiles c).
Definition with_percentiles (p : option (list Q)) (c : Config) : Config :=
  mkConfig (cfg_name c) (cfg_help c) (cfg_labelNames c) (cfg_collect c)
    (cfg_buckets c) p.

Definition defaultBuckets : list Q :=
  [5 # 1000; 1 # 100; 25 # 1000; 5 # 100; 1 # 10; 25 # 100; 5 # 10; 1 # 1;
   25 # 10; 5 # 1; 10 # 1]%Q.
Definition defaultPercentiles : list Q := [5 # 10; 9 # 10; 95 # 100; 99 # 100]%Q.

(** [static clear()] *)
Definition clear : M unit :=
  Prom.clear ;;
  modify (λ w, set_statics (setInstances Counter ∅ (statics w)) w) ;;
  modify (λ w, set_statics (setInstances Gauge ∅ (statics w)) w) ;;
  modify (λ w, set_statics (setInstances Histogram ∅ (statics w)) w).

(** The first lines of [registerCounter], [registerGauge],
    [registerHistogram] and [registerSummary]: missing fields receive
    their defaults. *)
Definition withDefaults (k : MetricType) (cfg : Config) : Config :=
  let cfg := if cfg_labelNames cfg is Some _ then cfg else with_labelNames (Some []) cfg in
  match k with
  | Counter | Gauge => cfg
  | Histogram =>
      if cfg_buckets cfg is Some _ then cfg else with_buckets (Some defaultBuckets) cfg
  | Summary =>
      if cfg_percentiles cfg is Some _ then cfg
      else with_percentiles (Some defaultPercentiles) cfg
  end.

(** The common body of the four [register...] functions. *)
Definition registerMetric (k : MetricType) (cfg : Config) : M unit :=
  let cfg := withDefaults k cfg in
  if cfg_collect cfg then
    m ← Prom.new k cfg; storeInstance k (cfg_name cfg) m
  else storeConfig k cfg.

Definition registerCounter := registerMetric Counter.

(** The common body of [getCounter], [getGauge], [getHistogram] and
    [getSummary]. *)
Definition getMetric (k : MetricType) (metricName : string) : M (option Metric) :=
  has ← gets (λ w, instancesOf k (statics w) !! metricName);
  (if has is None then
     config ← gets (λ w, configsOf k (statics w) !! metricName);
     match config with
     | Some config => m ← Prom.new k config; storeInstance k metricName m
     | None => mret tt
     end
   else mret tt) ;;
  gets (λ w, instancesOf k (statics w) !! metricName).

Definition getCounter := getMetric Counter.
Definition getGauge := getMetric Gauge.
Definition getHistogram := getMetric Histogram.
Definition getSummary := getMetric Summary.

(** [private static _convertLabels(labels?)] *)
Definition _convertLabels (labels : option Rec) : Rec :=
  match labels with
  | None => ∅
  | Some labels =>
      map_fold (λ k v out,
        match v with
        | VUndefined => out
        | VBool b => <[k := VStr (if b then "true" else "false")]> out
        | _ => <[k := v]> out
        end) ∅ labels
  end.

(** [private static _filterAllowed(metric, labels)] *)
Definition _filterAllowed (metric : Metric) (labels : Rec) : Rec :=
  let allow := labelNames metric in
  if bool_decide (length allow = 0) then ∅
  else filter (λ kv, kv.1 ∈ allow) labels.

(** [labels ? Object.keys(labels).filter((k) => labels[k] !== undefined) : []] *)
Definition definedKeys (labels : option Rec) : list string :=
  match labels with
  | Some labels =>
      (map_to_list (filter (λ kv, is_undefined kv.2 = false) labels)).*1
  | None => []
  end.

(** The defaults that [_ensureHistogramWithLabels] and
    [_ensureSummaryWithLabels] fill in before the label names. *)
Definition ensureDefaults (k : MetricType) (cfg : Config) : Config :=
  match k with
  | Counter | Gauge => cfg
  | Histogram =>
      if cfg_buckets cfg is Some _ then cfg else with_buckets (Some defaultBuckets) cfg
  | Summary =>
      if cfg_percentiles cfg is Some _ then cfg
      else with_percentiles (Some defaultPercentiles) cfg
  end.

(** The common body of the four [_ensure...WithLabels] functions.  The
    configuration object held by the config map is itself updated. *)
Definition _ensureWithLabels (k : MetricType) (metricName : string)
    (labels : option Rec) : M (option Metric) :=
  c ← gets (λ w, instancesOf k (statics w) !! metricName);
  match c with
  | Some c => mret (Some c)
  | None =>
      cfg ← gets (λ w, configsOf k (statics w) !! metricName);
      match cfg with
      | None => mret None
      | Some cfg =>
          let cfg := ensureDefaults k cfg in
          let cfg :=
            match cfg_labelNames cfg with
            | Some (_ :: _) => cfg
            | _ => with_labelNames (Some (definedKeys labels)) cfg
            end in
          modify (λ w, set_statics
            (setConfigs k (<[metricName := cfg]> (configsOf k (statics w)))
               (statics w)) w) ;;
          m ← Prom.new k cfg;
          storeInstance k metricName m ;;
          mret (Some m)
      end
  end.

Definition _ensureCounterWithLabels := _ensureWithLabels Counter.
Definition _ensureGaugeWithLabels := _ensureWithLabels Gauge.
Definition _ensureHistogramWithLabels := _ensureWithLabels Histogram.
Definition _ensureSummaryWithLabels := _ensureWithLabels Summary.

Definition kindName (k : MetricType) : string :=
  match k with
  | Counter => "Counter"
  | Gauge => "Gauge"
  | Histogram => "Histogram"
  | Summary => "Summary"
  end.

(** [new Error(`Counter with name ${metricName} not found.`)] *)
Definition notFound (k : MetricType) (metricName : string) : Value :=
  mkError "Error" (kindName k +:+ " with name " +:+ metricName +:+ " not found.").

(** The common body of [incrementCounter], [setGauge], [startGaugeTimer],
    [observeHistogram], [observeSummary] and [startSummaryTimer]: convert,
    ensure, filter, then call the metric with the labels when some are
    left and without them otherwise. *)
Definition write (k : MetricType) (op : BackendOp) (metricName : string)
    (labels : option Rec) (value : option Q) : M Metric :=
  let converted := _convertLabels labels in
  metric ← _ensureWithLabels k metricName (Some converted);
  match metric with
  | None => throw (notFound k metricName)
  | Some metric =>
      let filtered := _filterAllowed metric converted in
      (if bool_decide (size filtered = 0)
       then Prom.call metric op None value
       else Prom.call metric op (Some filtered) value) ;;
      mret metric
  end.

Definition incrementCounter (metricName : string) (labels : option Rec)
    (incrementValue : option Q) : M unit :=
  write Counter OpInc metricName labels incrementValue ;; mret tt.

Definition setGauge (metricName : string) (value : Q) (labels : option Rec) : M unit :=
  write Gauge OpSet metricName labels (Some value) ;; mret tt.

(** The returned end-function is identified by the metric it stops. *)
Definition startGaugeTimer (metricName : string) (labels : option Rec) : M Metric :=
  write Gauge OpStartTimer metricName labels None.

Definition observeHistogram (metricName : string) (value : Q)
    (labels : option Rec) : M unit :=
  write Histogram OpObserve metricName labels (Some value) ;; mret tt.

Definition observeSummary (metricName : string) (value : Q)
    (labels : option Rec) : M unit :=
  write Summary OpObserve metricName labels (Some value) ;; mret tt.

Definition startSummaryTimer (metricName : string) (labels : option Rec) : M Metric :=
  write Summary OpStartTimer metricName labels None.

(** [MetricDecoratorOptions] *)
Record MetricDecoratorOptions := mkMetricDecoratorOptions {
  md_metricName : string;
  md_help : string;
  md_labels : option Rec;
  md_dynamicLabels : option (list Value → Result (option Rec))
}.

(** [{ ...(options.labels || {}), ...dynamicLabels, error: 'none' }] *)
Definition counterLabels (options : MetricDecoratorOptions) (dynamicLabels : Rec) : Rec :=
  <["error" := VStr "none"]> (dynamicLabels ∪ default ∅ (md_labels options)).

(** The counter section of the wrapper, from [try] on. *)
Definition counted (original : Callee) (counter : Metric) (labels : loc)
    (this : Value) (args : list Value) : M Value :=
  try_catch
    (res ← applyFn original this args;
     match res with
     | VPromise p =>
         p1 ← Promise.then_ p CbIdentity;
         p2 ← Promise.catch_ p1 (CbLabelErr labels);
         p3 ← Promise.finally_ p2 (CbCounterInc counter labels);
         mret (VPromise p3)
     | _ => Promise.incWith counter labels ;; mret res
     end)
    (λ err,
       Promise.assignErrorLabel labels err ;;
       Promise.incWith counter labels ;;
       throw err).

(** [let counter = Metrics.getCounter(...); if (!counter) { ... }].  The
    second [getCounter] follows a registration and cannot come back empty;
    were it to, the first use of the missing counter would raise a
    [TypeError]. *)
Definition counterFor (options : MetricDecoratorOptions) (labels : loc) : M Metric :=
  counter ← getCounter (md_metricName options);
  match counter with
  | Some c => mret c
  | None =>
      ls ← Heap.readRecord labels;
      registerCounter
        (mkConfig (md_metricName options) (md_help options)
           (Some (map_to_list ls).*1) false None None) ;;
      c ← getCounter (md_metricName options);
      match c with
      | Some c => mret c
      | None => throw (mkError "TypeError" "counter is undefined")
      end
  end.

(** [let dynamicLabels = {};
     if (options.dynamicLabels) dynamicLabels = options.dynamicLabels(args) || {};] *)
Definition dynamicLabelsOf (options : MetricDecoratorOptions) (args : list Value)
    : M Rec :=
  match md_dynamicLabels options with
  | Some f => emit (EvDynamic args) ;; r ← lift (f args); mret (default ∅ r)
  | None => mret ∅
  end.

(** [private static _wrapWithCounter(original, options)], applied to a
    receiver and arguments. *)
Definition _wrapWithCounter (original : Callee) (options : MetricDecoratorOptions)
    (this : Value) (args : list Value) : M Value :=
  dynamicLabels ← dynamicLabelsOf options args;
  labels ← Heap.allocRecord (counterLabels options dynamicLabels);
  counter ← counterFor options labels;
  counted original counter labels this args.

(** [HistogramDecoratorOptions] and [SummaryDecoratorOptions] *)
Record HistogramDecoratorOptions := mkHistogramDecoratorOptions {
  hd_options : MetricDecoratorOptions;
  hd_buckets : option (list Q)
}.

Record SummaryDecoratorOptions := mkSummaryDecoratorOptions {
  sd_options : MetricDecoratorOptions;
  sd_percentiles : option (list Q)
}.

(** [{ ...(options.labels || {}), ...dynamicLabels }] *)
Definition plainLabels (options : MetricDecoratorOptions) (dynamicLabels : Rec) : Rec :=
  dynamicLabels ∪ default ∅ (md_labels options).

(** [let gauge = Metrics.getGauge(...); if (!gauge) { ... }] and the like
    in the gauge, histogram and summary wrappers, as [counterFor] in the
    counter wrapper. *)
Definition metricFor (k : MetricType) (options : MetricDecoratorOptions)
    (labels : loc) (buckets percentiles : option (list Q)) : M Metric :=
  metric ← getMetric k (md_metricName options);
  match metric with
  | Some m => mret m
  | None =>
      ls ← Heap.readRecord labels;
      registerMetric k
        (mkConfig (md_metricName options) (md_help options)
           (Some (map_to_list ls).*1) false buckets percentiles) ;;
      m ← getMetric k (md_metricName options);
      match m with
      | Some m => mret m
      | None => throw (mkError "TypeError" "metric is undefined")
      end
  end.

(** [metric.startTimer(labels)] *)
Definition startTimer (metric : Metric) (labels : loc) : M Timer :=
  ls ← Heap.readRecord labels;
  Prom.call metric OpStartTimer (Some ls) None ;;
  mret (Some (metric, labels)).

(** The section of [_wrapWithGauge] and of [_wrapWithSummary] from [try]
    on (the two are the same text but for [gauge.set] and
    [summary.observe], here [op]). *)
Definition measured (original : Callee) (metric : Metric) (op : BackendOp)
    (labels : loc) (timed : bool) (endTimer : Timer)
    (this : Value) (args : list Value) : M Value :=
  try_catch
    (res ← applyFn original this args;
     match res with
     | VPromise p =>
         p1 ← Promise.then_ p (CbStopWrite endTimer metric op labels timed);
         p2 ← Promise.catch_ p1 (CbStopThrow endTimer);
         mret (VPromise p2)
     | _ =>
         Promise.stopTimer endTimer ;;
         Promise.writeNumber metric op labels timed res ;;
         mret res
     end)
    (λ e, Promise.stopTimer endTimer ;; throw e).

(** The section of [_wrapWithHistogram] from [try] on. *)
Definition timedHistogram (original : Callee) (labels : loc) (endTimer : Timer)
    (this : Value) (args : list Value) : M Value :=
  try_catch
    (res ← applyFn original this args;
     match res with
     | VPromise p =>
         p1 ← Promise.then_ p (CbStop endTimer);
         p2 ← Promise.catch_ p1 (CbLabelErrStop labels endTimer);
         mret (VPromise p2)
     | _ => Promise.stopTimer endTimer ;; mret res
     end)
    (λ err,
       Promise.assignErrorLabel labels err ;;
       Promise.stopTimer endTimer ;;
       throw err).

(** [private static _wrapWithGauge(original, options, timed)], applied to
    a receiver and arguments. *)
Definition _wrapWithGauge (original : Callee) (options : MetricDecoratorOptions)
    (timed : bool) (this : Value) (args : list Value) : M Value :=
  dynamicLabels ← dynamicLabelsOf options args;
  labels ← Heap.allocRecord (plainLabels options dynamicLabels);
  gauge ← metricFor Gauge options labels None None;
  endTimer ← (if timed then startTimer gauge labels else mret None);
  measured original gauge OpSet labels timed endTimer this args.

(** [private static _wrapWithHistogram(original, options)] *)
Definition _wrapWithHistogram (original : Callee) (options : HistogramDecoratorOptions)
    (this : Value) (args : list Value) : M Value :=
  dynamicLabels ← dynamicLabelsOf (hd_options options) args;
  labels ← Heap.allocRecord (counterLabels (hd_options options) dynamicLabels);
  histogram ← metricFor Histogram (hd_options options) labels (hd_buckets options) None;
  endTimer ← startTimer histogram labels;
  timedHistogram original labels endTimer this args.

(** [private static _wrapWithSummary(original, options, timed)] *)
Definition _wrapWithSummary (original : Callee) (options : SummaryDecoratorOptions)
    (timed : bool) (this : Value) (args : list Value) : M Value :=
  dynamicLabels ← dynamicLabelsOf (sd_options options) args;
  labels ← Heap.allocRecord (plainLabels (sd_options options) dynamicLabels);
  summary ← metricFor Summary (sd_options options) labels None (sd_percentiles options);
  endTimer ← (if timed then startTimer summary labels else mret None);
  measured original summary OpObserve labels timed endTimer this args.

End Metrics.

(* ===================================================================== *)
(** * tracing-config.ts and tracingDecorator.ts: class [Traces]           *)
(* ===================================================================== *)

Module Traces.

(** [getTracingMode()] and [setTracingMode(m)] *)
Definition getTracingMode : M TracingMode := gets mode.
Definition setTracingMode (m : TracingMode) : M unit := modify (set_mode m).

Definition samplingKey : string := "otel.collector.sampling.keep".

(** [private static _setSamplingRule(spanOption)] *)
Definition _setSamplingRule (spanOption : option loc) : M loc :=
  spanOption ←
    match spanOption with
    | Some l => mret l
    | None =>
        la ← Heap.allocRecord ∅;
        Heap.allocOptions (mkSpanOptions (Some la) None None)
    end;
  o ← Heap.readOptions spanOption;
  attributes ←
    match so_attributes o with
    | Some la => mret la
    | None =>
        la ← Heap.allocRecord ∅;
        Heap.writeOptions spanOption (mkSpanOptions (Some la) (so_root o) (so_links o)) ;;
        mret la
    end;
  attrs ← Heap.readRecord attributes;
  (if truthy (default VUndefined (attrs !! samplingKey)) then mret tt
   else Heap.assign attributes samplingKey (VBool false)) ;;
  mret spanOption.

(** [static getCurrentSpan()] *)
Definition getCurrentSpan : M (option Span) := gets active.

(** [{ ...opts, root: true }] and
    [{ ...opts, root: true, links: [{ context }] }]: a new options object,
    seen by the tracer only, that shares the attributes object. *)
Definition asRoot (o : SpanOptions) : SpanOptions :=
  mkSpanOptions (so_attributes o) (Some true) (so_links o).
Definition asRootWithLink (o : SpanOptions) (context : Span) : SpanOptions :=
  mkSpanOptions (so_attributes o) (Some true) (Some [context]).

(** [static getCurrentSpanOrCreateNew(spanName, options, createNewSpan, moduleName)] *)
Definition getCurrentSpanOrCreateNew (spanName : string) (options : option loc)
    (createNewSpan : bool) (moduleName : string) : M (Span * bool) :=
  span ← gets active;
  optionsWithSamplingRule ← _setSamplingRule options;
  match span, createNewSpan with
  | Some span, false => mret (span, false)
  | _, _ =>
      o ← Heap.readOptions optionsWithSamplingRule;
      span ← Otel.startSpan moduleName spanName o;
      mret (span, true)
  end.

(** [static getSpan(spanName, options, mode, moduleName)] *)
Definition getSpan (spanName : string) (options : option loc) (mode : StartMode)
    (moduleName : string) : M (Span * bool) :=
  let tracer := moduleName in
  opts ← _setSamplingRule options;
  o ← Heap.readOptions opts;
  act ← gets active;
  match mode, act with
  | reuse, Some active => mret (active, false)
  | newTrace, _ =>
      span ← Otel.startSpan tracer spanName (asRoot o); mret (span, true)
  | newTraceWithLink, Some active =>
      span ← Otel.startSpan tracer spanName (asRootWithLink o active);
      mret (span, true)
  | newTraceWithLink, None =>
      span ← Otel.startSpan tracer spanName (asRoot o); mret (span, true)
  | _, _ =>
      span ← Otel.startSpan tracer spanName o; mret (span, true)
  end.

(** [traceOnlyIf]: a boolean, or a function of the arguments, the
    receiver and the current span. *)
Inductive Gate :=
  | GateBool (b : bool)
  | GateFn (f : list Value → Value → option Span → Result Value).

(** [TraceDecoratorOptions] *)
Record TraceDecoratorOptions := mkTraceDecoratorOptions {
  spanName : option string;
  attributes : option Rec;
  dynamicAttributes : option (list Value → Result Rec);
  moduleName : option string;
  startMode : option StartMode;
  traceOnlyIf : option Gate;
  createNewSpan : option bool
}.

(** What the closure [wrapped] has captured. *)
Record Wrapped := mkWrapped {
  wr_fn : Callee;
  wr_spanName : string;
  wr_attributes : Rec;
  wr_dynamicAttributes : option (list Value → Result Rec);
  wr_startMode : StartMode;
  wr_traceOnlyIf : Gate;
  wr_moduleName : string;
  wr_coerceToPromise : bool
}.

(** [a || b] on strings *)
Definition orString (a b : string) : string := if String.eqb a "" then b else a.

(** [startMode = options.createNewSpan ? 'createChild' : options.startMode ?? 'reuse'],
    a default that applies when [options.startMode] is undefined. *)
Definition resolveStartMode (options : TraceDecoratorOptions) : StartMode :=
  match startMode options with
  | Some m => m
  | None => if default false (createNewSpan options) then createChild else reuse
  end.

Definition isLegacy (m : TracingMode) : bool :=
  match m with legacy_always_promise => true | natural_sync_async => false end.

(** [static withTracing(fn, options)], up to the closure it returns.
    [callerFile] is what [getCallerFile()] finds on the stack. *)
Definition withTracing (callerFile : string) (fn : Callee)
    (options : TraceDecoratorOptions) : M Wrapped :=
  m ← getTracingMode;
  mret (mkWrapped fn
    (default (orString (fn_name fn) "anonymous") (spanName options))
    (default ∅ (attributes options))
    (dynamicAttributes options)
    (resolveStartMode options)
    (default (GateBool true) (traceOnlyIf options))
    (default callerFile (moduleName options))
    (isLegacy m)).

(** [private static _wrapCallableWithTracing(originalFn, options,
    inferredSpanName, inferredModuleName)], up to the closure. *)
Definition _wrapCallableWithTracing (callerFile : string) (originalFn : Callee)
    (options : TraceDecoratorOptions) (inferredSpanName inferredModuleName : string)
    : M Wrapped :=
  m ← getTracingMode;
  mret (mkWrapped originalFn
    (default (orString inferredSpanName (orString (fn_name originalFn) "anonymous"))
       (spanName options))
    (default ∅ (attributes options))
    (dynamicAttributes options)
    (resolveStartMode options)
    (default (GateBool true) (traceOnlyIf options))
    (default (orString inferredModuleName callerFile) (moduleName options))
    (isLegacy m)).

(** [...(fn.name ? { 'function.name': fn.name } : {})] *)
Definition functionNameAttr (fn : Callee) : Rec :=
  if String.eqb (fn_name fn) "" then ∅
  else {["function.name" := VStr (fn_name fn)]}.

(** The span section of [wrapped], from [try] on. *)
Definition traced (wr : Wrapped) (this : Value) (args : list Value)
    (span : Span) (createdSpan : bool) (spanEnded : loc) : M Value :=
  try_catch
    (result ← Otel.withSpan span (applyFn (wr_fn wr) this args);
     match result with
     | VPromise p =>
         p1 ← Promise.then_ p (CbTraceOk span);
         p2 ← Promise.catch_ p1 (CbTraceErr span);
         p3 ← Promise.finally_ p2 (CbEndSpan spanEnded span createdSpan);
         mret (VPromise p3)
     | _ =>
         Otel.setStatus span OK VUndefined ;;
         Promise.endSpan spanEnded span createdSpan ;;
         if wr_coerceToPromise wr then Promise.resolve result else mret result
     end)
    (λ error,
       Otel.setStatus span ERROR (get_prop error "message") ;;
       Otel.recordException span error ;;
       Promise.endSpan spanEnded span createdSpan ;;
       if wr_coerceToPromise wr then Promise.reject error else throw error).

(** The closure [wrapped] of [withTracing] and of
    [_wrapCallableWithTracing] (the two bodies are the same text),
    applied to a receiver and arguments. *)
Definition wrapped (wr : Wrapped) (this : Value) (args : list Value) : M Value :=
  currentSpan ← getCurrentSpan;
  shouldTrace ←
    match wr_traceOnlyIf wr with
    | GateFn f =>
        emit (EvGate args this currentSpan) ;;
        v ← lift (f args this currentSpan);
        mret (truthy v)
    | GateBool b => mret b
    end;
  if negb shouldTrace then
    res ← applyFn (wr_fn wr) this args;
    if wr_coerceToPromise wr then Promise.resolve res else mret res
  else
    dyn ←
      match wr_dynamicAttributes wr with
      | Some f => emit (EvDynamic args) ;; lift (f args)
      | None => mret ∅
      end;
    attrs ← Heap.allocRecord
      (functionNameAttr (wr_fn wr) ∪ (dyn ∪ wr_attributes wr));
    spanOptions ← Heap.allocOptions (mkSpanOptions (Some attrs) None None);
    r ← getSpan (wr_spanName wr) (Some spanOptions) (wr_startMode wr)
          (wr_moduleName wr);
    let '(span, createdSpan) := r in
    spanEnded ← Heap.allocFlag false;
    traced wr this args span createdSpan spanEnded.

End Traces.

(* ===================================================================== *)
(** * metrics.ts: the object [metrics]                                    *)
(* ===================================================================== *)

Module MetricsFacade.


(** The writes of [metrics]: [labels] defaults to [{}]. *)
Definition incrementCounter (name : string) (labels : option Rec)
    (incrementValue : option Q) : M unit :=
  Metrics.incrementCounter name (Some (default ∅ labels)) incrementValue.

Definition setGauge (name : string) (value : Q) (labels : option Rec) : M unit :=
  Metrics.setGauge name value (Some (default ∅ labels)).

Definition startGaugeTimer (name : string) (labels : option Rec) : M Metric :=
  Metrics.startGaugeTimer name (Some (default ∅ labels)).

Definition observeHistogram (name : string) (value : Q) (labels : option Rec)
    : M unit :=
  Metrics.observeHistogram name value (Some (default ∅ labels)).

Definition observeSummary (name : string) (value : Q) (labels : option Rec)
    : M unit :=
  Metrics.observeSummary name value (Some (default ∅ labels)).

Definition startSummaryTimer (name : string) (labels : option Rec) : M Metric :=
  Metrics.startSummaryTimer name (Some (default ∅ labels)).

End MetricsFacade.

(* ===================================================================== *)
(** * defineMetrics.ts                                                    *)
(* ===================================================================== *)

Module DefineMetrics.







(** The writes of the object that [defineMetrics] returns:
    [metrics.incrementCounter(name, labels ?? {}, value)] and the like. *)
Definition incrementCounter (name : string) (labels : option Rec)
    (value : option Q) : M unit :=
  MetricsFacade.incrementCounter name (Some (default ∅ labels)) value.

Definition setGauge (name : string) (value : Q) (labels : option Rec) : M unit :=
  MetricsFacade.setGauge name value (Some (default ∅ labels)).

Definition observeHistogram (name : string) (value : Q) (labels : option Rec)
    : M unit :=
  MetricsFacade.observeHistogram name value (Some (default ∅ labels)).

Definition observeSummary (name : string) (value : Q) (labels : option Rec)
    : M unit :=
  MetricsFacade.observeSummary name value (Some (default ∅ labels)).

End DefineMetrics.

(* ===================================================================== *)
(** * getCallerFile.ts                                                    *)
(* ===================================================================== *)

Module CallerFile.

(** What [callSite.getFileName()] returns for a frame of the stack. *)
Inductive FileName := FNull | FUndefined | FName (s : string).

(** [currentFile !== callerFile]: [currentFile] is a string, [null] or
    [undefined], [callerFile] a string or [undefined]. *)
Definition differ (currentFile : FileName) (callerFile : option string) : bool :=
  match currentFile, callerFile with
  | FName a, Some b => negb (String.eqb a b)
  | FUndefined, None => false
  | _, _ => true
  end.

(** The [while] loop, which takes the frames from the front of the stack. *)
Fixpoint walk (currentFile : FileName) (callerFile : option string)
    (stack : list FileName) : option string :=
  match stack with
  | [] => callerFile
  | fileName :: stack =>
      let callerFile :=
        match fileName with
        | FName s => Some s
        | FNull | FUndefined => callerFile
        end in
      if differ currentFile callerFile then callerFile
      else walk currentFile callerFile stack
  end.

(** [getCallerFile()], given the file names of the frames that [err.stack]
    holds once [Error.prepareStackTrace] has been replaced, innermost
    first.  [None] is a stack that is no array of call sites: the
    [TypeError] of [stack.shift] is caught, and [callerFile] is still
    [undefined]. *)
Definition getCallerFile (stack : option (list FileName)) : string :=
  let callerFile :=
    match stack with
    | Some (currentFile :: stack) => walk currentFile None stack
    | Some [] => None
    | None => None
    end in
  default "" callerFile.

End CallerFile.

(* ===================================================================== *)
(** * tracing-config.ts: the variables of the module                      *)
(* ===================================================================== *)

Module TracingConfig.

(** [let mode], [let enableSpanLimits], [let warnOncePromise] and
    [let warnOnceLimits].  [World] carries the first of them, which is all
    that class [Traces] reads. *)
Record State := mkState {
  mode : TracingMode;
  enableSpanLimits : bool;
  warnOncePromise : bool;
  warnOnceLimits : bool
}.

Definition setTracingMode (m : TracingMode) (s : State) : State :=
  mkState m (enableSpanLimits s) (warnOncePromise s) (warnOnceLimits s).

Definition getTracingMode (s : State) : TracingMode := mode s.

Definition getEnableSpanLimits (s : State) : bool := enableSpanLimits s.

Definition setEnableSpanLimits (enable : bool) (s : State) : State :=
  mkState (mode s) enable (warnOncePromise s) (warnOnceLimits s).

Definition legacyWarning : string :=
  "[Tracing] Legacy mode active: sync functions are wrapped into Promises. This behavior is deprecated; switch to TRACES_MODE=natural-sync-async.This behavior will be removed in future versions and only natural-sync-async mode will be supported.".

Definition limitsWarning : string :=
  "[Tracing] Span limits are disabled. This may lead to increased memory consumption. To enable span limits, set TRACES_ENABLE_LIMITS=1. You can set the span limits using the spanLimits option when initializing the SDK. Span limits are enabled by default in future versions.".

(** [maybeWarnLegacy(diag?)]: the messages handed to [diag.warn], in
    order, and the variables afterwards.  [diag] tells whether the
    argument was given. *)
Definition maybeWarnLegacy (diag : bool) (s : State) : list string * State :=
  let '(first, s) :=
    if Traces.isLegacy (mode s) && diag && negb (warnOncePromise s)
    then ([legacyWarning],
          mkState (mode s) (enableSpanLimits s) true (warnOnceLimits s))
    else ([], s) in
  let '(second, s) :=
    if negb (warnOnceLimits s) && negb (enableSpanLimits s) && diag
    then ([limitsWarning],
          mkState (mode s) (enableSpanLimits s) (warnOncePromise s) true)
    else ([], s) in
  (first ++ second, s).

End TracingConfig.

(* ===================================================================== *)
(** * instrumentation.ts                                                  *)
(* ===================================================================== *)

Module Instrumentation.

(** A span exporter: one of the three this file builds, or an object of
    the caller, which may carry the flag [__brokerize_noop_exporter__] and
    may have a function [forceFlush]. *)
Inductive Exporter :=
  | ConsoleSpanExporter
  | NoopExporter
  | OTLPTraceExporter (url : string) (concurrencyLimit : Q)
      (headers : option (list (string * string)))
  | CallerExporter (id : nat) (noopFlag : bool) (hasForceFlush : bool).

(** [exporter[NOOP_EXPORTER_FLAG]] *)
Definition noopFlagged (e : Exporter) : bool :=
  match e with
  | NoopExporter => true
  | CallerExporter _ flag _ => flag
  | ConsoleSpanExporter | OTLPTraceExporter _ _ _ => false
  end.

(** [typeof exporter.forceFlush === 'function'] *)
Definition canForceFlush (e : Exporter) : bool :=
  match e with
  | CallerExporter _ _ has => has
  | ConsoleSpanExporter | NoopExporter | OTLPTraceExporter _ _ _ => true
  end.

(** [ExporterInput] when it is given: an object with a function [export],
    or a descriptor, told apart by its [kind]. *)
Inductive ExporterInput :=
  | Concrete (e : Exporter)
  | KindOtlp (url : string) (concurrencyLimit : option Q)
      (headers : option (list (string * string)))
  | KindConsole
  | KindNoop
  | KindOther (kind : string).

Inductive SpanProcessor :=
  | BatchSpanProcessor (e : Exporter) (maxQueueSize scheduledDelayMillis : Q)
  | CallerProcessor (id : nat).

Record SpanLimits := mkSpanLimits {
  attributeValueLengthLimit : Q;
  attributeCountLimit : Q;
  eventCountLimit : Q;
  linkCountLimit : Q;
  attributePerEventCountLimit : Q;
  attributePerLinkCountLimit : Q
}.

(** [Partial<SpanLimits>]: a key is absent or holds a number. *)
Record PartialSpanLimits := mkPartialSpanLimits {
  p_attributeValueLengthLimit : option Q;
  p_attributeCountLimit : option Q;
  p_eventCountLimit : option Q;
  p_linkCountLimit : option Q;
  p_attributePerEventCountLimit : option Q;
  p_attributePerLinkCountLimit : option Q
}.

(** What goes to [diag.info] and [diag.warn]; the three messages that are
    built from data keep the data. *)
Inductive DiagEntry :=
  | Info (msg : string)
  | InfoCollectorOptions (url : string) (concurrencyLimit : Q)
      (headerNames : option (list string))
  | InfoSpanLimits (limits : SpanLimits)
  | Warn (msg : string)
  | WarnError (msg : string) (err : Value).

(** The argument of [resolveExporter], as far as its body reads it. *)
Record ExporterOptions := mkExporterOptions {
  eo_exporter : option ExporterInput;
  eo_url : option string;
  eo_localDebugging : option bool;
  eo_concurrencyLimit : option Q
}.

(** [!opts.url] and [!opts.localDebugging] *)
Definition noUrl (url : option string) : bool :=
  match url with
  | Some u => String.eqb u ""
  | None => true
  end.

(** The three legacy branches of [resolveExporter]. *)
Definition legacyExporter (opts : ExporterOptions) : Exporter * list DiagEntry :=
  if negb (default false (eo_localDebugging opts)) && noUrl (eo_url opts) then
    (NoopExporter, [Info "No exporter configured (legacy) → Noop exporter"])
  else if default false (eo_localDebugging opts) then
    (ConsoleSpanExporter, [Info "Using ConsoleSpanExporter (legacy localDebugging)"])
  else
    let url := default "" (eo_url opts) in
    let concurrencyLimit := default 10%Q (eo_concurrencyLimit opts) in
    (OTLPTraceExporter url concurrencyLimit None,
     [Info "Using OTLPTraceExporter (legacy)";
      InfoCollectorOptions url concurrencyLimit None]).

(** [function resolveExporter(opts)]: the exporter and what was logged.  A
    descriptor of a kind that the [switch] does not know falls through to
    the legacy branches. *)
Definition resolveExporter (opts : ExporterOptions)
    : option Exporter * list DiagEntry :=
  match eo_exporter opts with
  | Some (Concrete e) => (Some e, [])
  | Some KindConsole =>
      (Some ConsoleSpanExporter, [Info "Using ConsoleSpanExporter (explicit)"])
  | Some KindNoop =>
      (Some NoopExporter, [Info "Using Noop SpanExporter (explicit)"])
  | Some (KindOtlp url concurrencyLimit headers) =>
      let concurrencyLimit := default 10%Q concurrencyLimit in
      let headerNames := if headers is Some h then h.*1 else [] in
      (Some (OTLPTraceExporter url concurrencyLimit headers),
       [Info "Using OTLPTraceExporter (explicit)";
        InfoCollectorOptions url concurrencyLimit (Some headerNames)])
  | Some (KindOther _) | None =>
      let '(e, logged) := legacyExporter opts in (Some e, logged)
  end.

(** [function resolveSpanProcessors(exporter, provided)] *)
Definition resolveSpanProcessors (exporter : option Exporter)
    (provided : option (list SpanProcessor))
    : option (list SpanProcessor) * list DiagEntry :=
  match provided with
  | Some (p :: ps) => (Some (p :: ps), [])
  | _ =>
      match exporter with
      | None => (None, [])
      | Some e =>
          if noopFlagged e then (None, [])
          else (Some [BatchSpanProcessor e 1000%Q 5000%Q],
                [Info "Using default BatchSpanProcessor"])
      end
  end.

(** An instrumentation, as far as the file looks at it:
    [instrumentation?.constructor?.name]. *)
Definition Instr : Type := option string.

Record InitOptions := mkInitOptions {
  serviceName : string;
  exporter : option ExporterInput;
  url : option string;
  localDebugging : option bool;
  concurrencyLimit : option Q;
  instrumentations : option (list Instr);
  spanLimits : option PartialSpanLimits;
  tracingMode : option TracingMode;
  spanProcessors : option (list SpanProcessor)
}.

(** The configuration handed to [new NodeSDK].  [sdk_traceExporter] is
    [None] when the key is left out; [sdk_spanLimits] is [None] for [{}]. *)
Record NodeSDK := mkNodeSDK {
  sdk_serviceName : string;
  sdk_spanProcessors : option (list SpanProcessor);
  sdk_traceExporter : option Exporter;
  sdk_spanLimits : option SpanLimits;
  sdk_instrumentations : list Instr
}.

(** The calls on the collaborators that start and stop tracing. *)
Inductive Lifecycle :=
  | ContextManagerEnabled
  | SdkStarted (theSdk : NodeSDK)
  | ExporterFlushed (e : Exporter)
  | ExporterShutDown (e : Exporter)
  | SdkShutDown (theSdk : NodeSDK)
  | TraceDisabled
  | ContextManagerDisabled
  | PropagationDisabled
  | ContextDisabled.

(** The variables of the module, those of [tracing-config.ts], the calls
    on the collaborators and the log of [diag], both oldest first. *)
Record Process := mkProcess {
  sdk : option NodeSDK;
  contextManager : bool;
  createdTraceExporter : option Exporter;
  effectiveSpanProcessors : option (list SpanProcessor);
  tracing : TracingConfig.State;
  lifecycle : list Lifecycle;
  diagLog : list DiagEntry
}.

(** The first lines of [initInstrumentation]: the instrumentations are
    listed. *)
Definition listInstrumentations (instrumentations : option (list Instr))
    : list DiagEntry :=
  let invalid :=
    Warn "An instrumentation was provided without a valid constructor name." in
  match instrumentations with
  | Some (i :: rest) =>
      Info "Using instrumentations:" ::
      ((λ instrumentation : Instr,
          match instrumentation with
          | Some name =>
              if String.eqb name "" then invalid else Info ("- " +:+ name)
          | None => invalid
          end) <$> (i :: rest))
  | _ => [Info "No instrumentations specified, using none."]
  end.

(** [{ attributeValueLengthLimit: 12000, ..., ...options.spanLimits }] *)
Definition withLimitDefaults (given : option PartialSpanLimits) : SpanLimits :=
  let pick (d : Q) (f : PartialSpanLimits → option Q) : Q :=
    default d (given ≫= f) in
  mkSpanLimits
    (pick 12000%Q p_attributeValueLengthLimit)
    (pick 128%Q p_attributeCountLimit)
    (pick 128%Q p_eventCountLimit)
    (pick 128%Q p_linkCountLimit)
    (pick 16%Q p_attributePerEventCountLimit)
    (pick 16%Q p_attributePerLinkCountLimit).

(** What [initInstrumentation] returns. *)
Record Initialized := mkInitialized {
  r_sdk : NodeSDK;
  r_traceExporter : option Exporter;
  r_spanProcessors : option (list SpanProcessor)
}.

(** [export function initInstrumentation(options)] *)
Definition initInstrumentation (options : InitOptions) (p : Process)
    : Initialized * Process :=
  let logged0 :=
    [Info "Initializing OpenTelemetry instrumentation"] ++
    listInstrumentations (instrumentations options) in
  let '(exporter, logged1) :=
    resolveExporter
      (mkExporterOptions (exporter options) (url options)
         (localDebugging options) (concurrencyLimit options)) in
  let '(processors, logged2) :=
    resolveSpanProcessors exporter (spanProcessors options) in
  let limited :=
    bool_decide (is_Some (spanLimits options)) ||
    TracingConfig.getEnableSpanLimits (tracing p) in
  let spanLimitOptions :=
    if limited then Some (withLimitDefaults (spanLimits options)) else None in
  let tracing1 :=
    if limited then TracingConfig.setEnableSpanLimits true (tracing p)
    else tracing p in
  let logged3 :=
    match spanLimitOptions with
    | Some l => [InfoSpanLimits l]
    | None => []
    end in
  let theSdk :=
    mkNodeSDK (serviceName options) processors
      (match processors with
       | Some (_ :: _) => None
       | _ => exporter
       end)
      spanLimitOptions
      (default [] (instrumentations options)) in
  let tracing2 :=
    match tracingMode options with
    | Some m => TracingConfig.setTracingMode m tracing1
    | None => tracing1
    end in
  let '(warnings, tracing3) := TracingConfig.maybeWarnLegacy true tracing2 in
  (mkInitialized theSdk exporter processors,
   mkProcess (Some theSdk) true exporter processors tracing3
     (lifecycle p ++ [ContextManagerEnabled; SdkStarted theSdk])
     (diagLog p ++ logged0 ++ logged1 ++ logged2 ++ logged3 ++
      (Warn <$> warnings) ++ [Info "Tracing initialized"])).

(** How a promise that [shutDownInstrumentation] awaits settles. *)
Inductive Settles := Resolves | Rejects (err : Value).

(** The three promises awaited: of [forceFlush()] and [shutdown()] of the
    exporter and of [sdk.shutdown()]. *)
Record ShutdownOutcomes := mkShutdownOutcomes {
  flushed : Settles;
  exporterShutDown : Settles;
  sdkShutDown : Settles
}.

(** [await promise.catch((err) => { diag.warn(msg, err) })]: the call is
    made, and a rejection is logged and goes no further. *)
Definition awaited (call : Lifecycle) (outcome : Settles) (msg : string)
    (p : Process) : Process :=
  mkProcess (sdk p) (contextManager p) (createdTraceExporter p)
    (effectiveSpanProcessors p) (tracing p) (lifecycle p ++ [call])
    (diagLog p ++
     match outcome with
     | Resolves => []
     | Rejects err => [WarnError msg err]
     end).

Definition diagnosed (entries : list DiagEntry) (p : Process) : Process :=
  mkProcess (sdk p) (contextManager p) (createdTraceExporter p)
    (effectiveSpanProcessors p) (tracing p) (lifecycle p) (diagLog p ++ entries).

(** [export async function shutDownInstrumentation()], the body of its
    [try] run from await to await with no other code of the module in
    between.  The promises awaited are the collaborators' and settle as
    [outcomes] says; the calls themselves return, so the outer [catch] is
    not entered, and the promise of the function is fulfilled. *)
Definition shutDownInstrumentation (outcomes : ShutdownOutcomes) (p : Process)
    : Process :=
  let p := diagnosed [Info "Shutting down OpenTelemetry instrumentation"] p in
  match sdk p with
  | None =>
      diagnosed [Warn "No OpenTelemetry SDK instance found. Nothing to shut down."] p
  | Some theSdk =>
      let p :=
        match createdTraceExporter p with
        | None => diagnosed [Warn "No trace exporter found. Nothing to shut down."] p
        | Some e =>
            let p :=
              if canForceFlush e
              then awaited (ExporterFlushed e) (flushed outcomes)
                     "OTLP forceFlush failed. Ignoring and continuing shutdown." p
              else p in
            awaited (ExporterShutDown e) (exporterShutDown outcomes)
              "OTLP shutdown failed. Ignoring and continuing shutdown." p
        end in
      let p :=
        awaited (SdkShutDown theSdk) (sdkShutDown outcomes)
          "OpenTelemetry SDK shutdown failed. Ignoring and continuing shutdown." p in
      mkProcess None false None None (tracing p)
        (lifecycle p ++
         [TraceDisabled] ++
         (if contextManager p then [ContextManagerDisabled] else []) ++
         [PropagationDisabled; ContextDisabled])
        (diagLog p ++ [Info "Instrumentation shut down successfully."])
  end.

End Instrumentation.

(* ===================================================================== *)
(** * metricsDecorator.ts: the decorator factories                        *)
(* ===================================================================== *)

Module Decorators.

(** What a decorator is called with: a function, an object whose members
    may be functions (a decorator context, a property descriptor, a
    prototype), or any other value. *)
Inductive Arg :=
  | AFunction (f : Callee)
  | AObject (props : list (string * Arg))
  | APlain (v : Value).

(** [typeof a === 'function'] *)
Definition isFunction (a : Arg) : bool :=
  match a with AFunction _ => true | _ => false end.

(** [typeof a === 'object'], which holds of [null] *)
Definition isObject (a : Arg) : bool :=
  match a with
  | AObject _ => true
  | APlain (VNull | VObject _ | VPromise _) => true
  | APlain _ | AFunction _ => false
  end.

(** [!!a] *)
Definition truthyArg (a : Arg) : bool :=
  match a with
  | APlain v => truthy v
  | AFunction _ | AObject _ => true
  end.

(** [a === undefined || a === null], the test of [??] *)
Definition nullish (a : Arg) : bool :=
  match a with
  | APlain (VUndefined | VNull) => true
  | _ => false
  end.

Fixpoint member (key : string) (props : list (string * Arg)) : option Arg :=
  match props with
  | [] => None
  | (k, a) :: rest => if String.eqb k key then Some a else member key rest
  end.

(** [a[key]].  The members of an object are those that the lookup finds,
    its own or inherited; of a function the decorators read [name]. *)
Definition prop (a : Arg) (key : string) : Arg :=
  match a with
  | AObject props => default (APlain VUndefined) (member key props)
  | APlain v => APlain (get_prop v key)
  | AFunction f =>
      if String.eqb key "name" then APlain (VStr (fn_name f))
      else APlain VUndefined
  end.

(** [key in a] on an object *)
Definition hasKey (key : string) (a : Arg) : bool :=
  match a with
  | AObject props => bool_decide (is_Some (member key props))
  | APlain (VObject props) => existsb (λ kv, String.eqb kv.1 key) props
  | _ => false
  end.

(** [a === 'text'] *)
Definition isString (text : string) (a : Arg) : bool :=
  match a with
  | APlain (VStr s) => String.eqb s text
  | _ => false
  end.

Section Factory.

(** The wrappers, and what makes one of a function:
    [Metrics._wrapWithCounter(original, options)] and the like. *)
Context {W : Type} (wrap : Callee → W).

(** A member of the descriptor that the factory returns. *)
Inductive Member :=
  | Kept (a : Arg)
  | Wrapper (w : W).

(** What the factory returns: one of its arguments as it is, a wrapper,
    the initializer function of a field, the object [{ init }] of an
    auto-accessor, or the descriptor after the assignment. *)
Inductive Out :=
  | Returned (a : Arg)
  | OWrapper (w : W)
  | FieldInitializer
  | AccessorInitializer
  | Descriptor (members : list (string * Member)).

(** The body of the two initializers:
    [if (typeof initialValue !== 'function') return initialValue;
     return Metrics._wrapWith...(initialValue, options);] *)
Definition initialize (initialValue : Arg) : Out :=
  match initialValue with
  | AFunction f => OWrapper (wrap f)
  | _ => Returned initialValue
  end.

(** [descriptor[key] = wrapped]: the descriptor object of the caller is
    itself changed, and is what the factory returns. *)
Fixpoint assign (key : string) (wrapped : W) (props : list (string * Arg))
    : list (string * Member) :=
  match props with
  | [] => [(key, Wrapper wrapped)]
  | (k, a) :: rest =>
      if String.eqb k key then (k, Wrapper wrapped) :: (prod_map id Kept <$> rest)
      else (k, Kept a) :: assign key wrapped rest
  end.

(** [decoratorArgs[2]] *)
Definition third (decoratorArgs : list Arg) : Arg :=
  default (APlain VUndefined) (decoratorArgs !! 2).

(** The function [factory] that [Metrics.counter(options)],
    [Metrics.gauge(options, timed)], [Metrics.histogram(options)] and
    [Metrics.summary(options, timed)] return, applied to its arguments. *)
Definition factory (decoratorArgs : list Arg) : Out :=
  match decoratorArgs with
  | [value; ctx] =>
      match value with
      | AFunction f =>
          if truthyArg ctx && isObject ctx && hasKey "kind" ctx then
            let kind := prop ctx "kind" in
            if isString "field" kind then FieldInitializer
            else if isString "auto-accessor" kind then AccessorInitializer
            else if isString "method" kind || isString "getter" kind ||
                    isString "setter" kind
            then OWrapper (wrap f)
            else Returned value
          else Returned (third decoratorArgs)
      | _ => Returned (third decoratorArgs)
      end
  | [target; propertyKey; descriptor] =>
      if negb (match propertyKey with APlain VUndefined => true | _ => false end) &&
         truthyArg descriptor && isObject descriptor
      then
        let original :=
          if negb (nullish (prop descriptor "value")) then prop descriptor "value"
          else if negb (nullish (prop descriptor "get")) then prop descriptor "get"
          else prop descriptor "set" in
        match original, descriptor with
        | AFunction f, AObject props =>
            let wrapped := wrap f in
            if truthyArg (prop descriptor "value")
            then Descriptor (assign "value" wrapped props)
            else if truthyArg (prop descriptor "get")
            then Descriptor (assign "get" wrapped props)
            else if truthyArg (prop descriptor "set")
            then Descriptor (assign "set" wrapped props)
            else Returned descriptor
        | _, _ => Returned descriptor
        end
      else Returned (third decoratorArgs)
  | _ => Returned (third decoratorArgs)
  end.

End Factory.

Arguments Member : clear implicits.
Arguments Out : clear implicits.

(** A wrapper, applied to a receiver and arguments. *)
Definition Wrapper4 : Type := Value → list Value → M Value.

(** [static counter(options)], [static gauge(options, timed = false)],
    [static histogram(options)] and [static summary(options, timed = false)] *)
Definition counter (options : Metrics.MetricDecoratorOptions)
    : list Arg → Out Wrapper4 :=
  factory (λ original, Metrics._wrapWithCounter original options).

Definition gauge (options : Metrics.MetricDecoratorOptions) (timed : option bool)
    : list Arg → Out Wrapper4 :=
  factory (λ original, Metrics._wrapWithGauge original options (default false timed)).

Definition histogram (options : Metrics.HistogramDecoratorOptions)
    : list Arg → Out Wrapper4 :=
  factory (λ original, Metrics._wrapWithHistogram original options).

Definition summary (options : Metrics.SummaryDecoratorOptions) (timed : option bool)
    : list Arg → Out Wrapper4 :=
  factory (λ original, Metrics._wrapWithSummary original options (default false timed)).

End Decorators.

(* ===================================================================== *)
(** * tracingDecorator.ts: the decorator factory [Traces.trace]           *)
(* ===================================================================== *)

Module TraceDecorator.

Import Decorators.

(** [typeof x === 'string' ? x : 'anonymous'] *)
Definition stringOrAnonymous (x : Arg) : string :=
  match x with
  | APlain (VStr s) => s
  | _ => "anonymous"
  end.

(** [target?.constructor?.name], as the operand of [||] that it is: a name
    that is no string is taken as absent.  The constructor of a function
    (the class, which is the target of a static member) is [Function]. *)
Definition constructorName (target : Arg) : string :=
  match target with
  | AFunction _ => "Function"
  | _ =>
      if nullish target then ""
      else
        let c := prop target "constructor" in
        if nullish c then ""
        else match prop c "name" with
             | APlain (VStr s) => s
             | _ => ""
             end
  end.

(** What the factory returns: one of its arguments as it is, a wrapper,
    the initializer function of a field or the object [{ init }] of an
    auto-accessor with the names they have captured, or the descriptor
    after the assignment. *)
Inductive Out :=
  | Returned (a : Arg)
  | OWrapper (wr : Traces.Wrapped)
  | FieldInitializer (inferredName inferredModule : string)
  | AccessorInitializer (inferredName inferredModule : string)
  | Descriptor (members : list (string * Member Traces.Wrapped)).

(** The body of the two initializers; [callerFile] is what
    [getCallerFile()] finds inside [_wrapCallableWithTracing]. *)
Definition initialize (callerFile : string) (options : Traces.TraceDecoratorOptions)
    (inferredName inferredModule : string) (initialValue : Arg) : M Out :=
  match initialValue with
  | AFunction f =>
      wrapped ← Traces._wrapCallableWithTracing callerFile f options
                  inferredName inferredModule;
      mret (OWrapper wrapped)
  | _ => mret (Returned initialValue)
  end.

(** The function [factory] that [Traces.trace(options)] returns, applied
    to its arguments.  [factoryFile] is what [getCallerFile()] finds in
    the factory and [callerFile] what it finds inside
    [_wrapCallableWithTracing]. *)
Definition trace (factoryFile callerFile : string)
    (options : Traces.TraceDecoratorOptions) (decoratorArgs : list Arg) : M Out :=
  match decoratorArgs with
  | [value; ctx] =>
      match value with
      | AFunction f =>
          if truthyArg ctx && isObject ctx && hasKey "kind" ctx then
            let kind := prop ctx "kind" in
            let inferredName := stringOrAnonymous (prop ctx "name") in
            let inferredModule := factoryFile in
            if isString "field" kind
            then mret (FieldInitializer inferredName inferredModule)
            else if isString "auto-accessor" kind
            then mret (AccessorInitializer inferredName inferredModule)
            else if isString "method" kind || isString "getter" kind ||
                    isString "setter" kind
            then
              wrapped ← Traces._wrapCallableWithTracing callerFile f options
                          inferredName inferredModule;
              mret (OWrapper wrapped)
            else mret (Returned value)
          else mret (Returned (third decoratorArgs))
      | _ => mret (Returned (third decoratorArgs))
      end
  | [target; propertyKey; descriptor] =>
      if negb (match propertyKey with APlain VUndefined => true | _ => false end) &&
         truthyArg descriptor && isObject descriptor
      then
        let originalMethod :=
          if negb (nullish (prop descriptor "value")) then prop descriptor "value"
          else if negb (nullish (prop descriptor "get")) then prop descriptor "get"
          else prop descriptor "set" in
        match originalMethod, descriptor with
        | AFunction f, AObject props =>
            let moduleName :=
              Traces.orString (default "" (Traces.moduleName options))
                (Traces.orString (constructorName target) factoryFile) in
            let spanName :=
              Traces.orString (default "" (Traces.spanName options))
                (stringOrAnonymous propertyKey) in
            wrapped ← Traces._wrapCallableWithTracing callerFile f options
                        spanName moduleName;
            if truthyArg (prop descriptor "value")
            then mret (Descriptor (assign "value" wrapped props))
            else if truthyArg (prop descriptor "get")
            then mret (Descriptor (assign "get" wrapped props))
            else if truthyArg (prop descriptor "set")
            then mret (Descriptor (assign "set" wrapped props))
            else mret (Returned descriptor)
        | _, _ => mret (Returned descriptor)
        end
      else mret (Returned (third decoratorArgs))
  | _ => mret (Returned (third decoratorArgs))
  end.

End TraceDecorator.

(* ===================================================================== *)
(** * Properties                                                          *)
(* ===================================================================== *)

Section MonadFacts.

Lemma bind_unfold {A B} (m : M A) (k : A → M B) (w : World) :
  (m ≫= k) w =
  match m w with
  | (Ok a, w') => k a w'
  | (Throw e, w') => (Throw e, w')
  end.
Proof. reflexivity. Qed.

Lemma mret_unfold {A} (a : A) (w : World) : mret (M := M) a w = (Ok a, w).
Proof. reflexivity. Qed.

Lemma log_set_statics x w : log (set_statics x w) = log w.
Proof. by destruct w. Qed.
Lemma log_set_register x w : log (set_register x w) = log w.
Proof. by destruct w. Qed.
Lemma statics_set_statics x w : statics (set_statics x w) = x.
Proof. by destruct w. Qed.
Lemma statics_set_register x w : statics (set_register x w) = statics w.
Proof. by destruct w. Qed.
Lemma statics_set_log x w : statics (set_log x w) = statics w.
Proof. by destruct w. Qed.
Lemma log_set_log x w : log (set_log x w) = x.
Proof. by destruct w. Qed.

End MonadFacts.

(** Run the monadic plumbing of a goal as far as it goes. *)
Ltac msimpl :=
  repeat (progress (rewrite ?bind_unfold ?mret_unfold;
                    unfold gets, modify, emit, throw, lift, try_catch; simpl)).

(** Either way a call on a metric may go: taken or refused. *)
Ltac call_cases :=
  repeat match goal with
         | |- context [Prom.refused ?m ?op ?l ?v] =>
             destruct (Prom.refused m op l v); msimpl
         end.

(** Lookups in a map after stores at keys known to be equal or distinct. *)
Ltac map_lookup :=
  repeat first [rewrite lookup_insert_eq
               | rewrite lookup_insert_ne; [solve [done | congruence] |]].

(** The same, also reading back what was just stored. *)
Ltac hsimpl :=
  repeat first [rewrite lookup_insert_eq | rewrite lookup_empty | progress msimpl].

Section LabelGovernance.

Import Metrics.

(** What the specification says a label value becomes. *)
Definition convertedValue (v : Value) : option Value :=
  match v with
  | VUndefined => None
  | VBool true => Some (VStr "true")
  | VBool false => Some (VStr "false")
  | v => Some v
  end.

Lemma _convertLabels_lookup (labels : Rec) (k : string) :
  _convertLabels (Some labels) !! k = labels !! k ≫= convertedValue.
Proof.
  unfold _convertLabels.
  apply (map_fold_weak_ind (λ out m, out !! k = m !! k ≫= convertedValue)).
  - by rewrite !lookup_empty.
  - intros i x m r Hi IH.
    destruct (decide (i = k)) as [->|Hne].
    + rewrite lookup_insert_eq. simpl.
      destruct x as [| |[]| | | |]; rewrite ?lookup_insert_eq; try done.
      by rewrite IH Hi.
    + rewrite (lookup_insert_ne m) //.
      destruct x; rewrite ?lookup_insert_ne //.
Qed.

Lemma _convertLabels_None : _convertLabels None = ∅.
Proof. reflexivity. Qed.

Lemma _filterAllowed_lookup (metric : Metric) (labels : Rec) (k : string) :
  _filterAllowed metric labels !! k =
  if bool_decide (k ∈ labelNames metric) then labels !! k else None.
Proof.
  unfold _filterAllowed. case_bool_decide as Hlen.
  - apply length_zero_iff_nil in Hlen. rewrite Hlen lookup_empty.
    case_bool_decide as Hin; [by apply elem_of_nil in Hin | done].
  - rewrite map_lookup_filter. case_bool_decide as Hin.
    + destruct (labels !! k) as [v|] eqn:E; simpl; [|done].
      by rewrite option_guard_True.
    + destruct (labels !! k) as [v|] eqn:E; simpl; [|done].
      by rewrite option_guard_False.
Qed.

End LabelGovernance.

Section Acceptance.

Import Metrics.

(** The constructor of prom-client takes the configuration in [w]: the
    help text and the name are there, the name and the label names are
    well formed, the registry does not hold the name, and no label name is
    reserved. *)
Definition accepts (k : MetricType) (cfg : Config) (w : World) : bool :=
  match Prom.refusal cfg w, Prom.reserved k cfg with
  | None, None => true
  | _, _ => false
  end.

(** The configuration is one that the constructor takes when the
    registry does not hold its name. *)
Definition wellFormed (k : MetricType) (cfg : Config) : bool :=
  accepts k cfg (initialWorld natural_sync_async).

(** The constructor refuses the configuration in [w] with the error [e]. *)
Definition declined (k : MetricType) (cfg : Config) (w : World) (e : Value)
    : Prop :=
  Prom.refusal cfg w = Some e ∨
  (Prom.refusal cfg w = None ∧ Prom.reserved k cfg = Some e).

(** The metric has declared every key of the label object. *)
Definition fits (m : Metric) (labels : Rec) : bool :=
  bool_decide (Prom.undeclared m labels = []).

(** The operation takes the value: [inc] takes none that is negative. *)
Definition takes (op : BackendOp) (value : option Q) : bool :=
  match op, value with
  | OpInc, Some q => Qle_bool 0 q
  | _, _ => true
  end.

Lemma accepts_fresh (k : MetricType) (cfg : Config) (w : World) :
  register w !! cfg_name cfg = None → accepts k cfg w = wellFormed k cfg.
Proof.
  intros Hreg. unfold wellFormed, accepts, Prom.refusal. simpl.
  by rewrite Hreg lookup_empty.
Qed.

Lemma declined_accepts (k : MetricType) (cfg : Config) (w : World) (e : Value) :
  declined k cfg w e → accepts k cfg w = false.
Proof.
  unfold declined, accepts. intros [->|[-> ->]]; [done|done].
Qed.

Lemma declined_unique (k : MetricType) (cfg : Config) (w : World) (e e' : Value) :
  declined k cfg w e → declined k cfg w e' → e = e'.
Proof. unfold declined. intros [?|[? ?]] [?|[? ?]]; congruence. Qed.

Lemma new_accepted (k : MetricType) (cfg : Config) (w : World) :
  accepts k cfg w = true →
  Prom.new k cfg w
  = (Ok (mkMetric k cfg),
     set_register (<[cfg_name cfg := mkMetric k cfg]> (register w)) w).
Proof.
  unfold accepts, Prom.new.
  by destruct (Prom.refusal cfg w), (Prom.reserved k cfg).
Qed.

Lemma new_declined (k : MetricType) (cfg : Config) (w : World) :
  accepts k cfg w = false →
  ∃ (e : Value) (w' : World),
    Prom.new k cfg w = (Throw e, w') ∧ declined k cfg w e ∧
    w' = set_register (register w') w.
Proof.
  unfold accepts, Prom.new, declined.
  destruct (Prom.refusal cfg w) as [e|] eqn:Hr.
  - intros _. exists e, w. repeat split; [by left | by destruct w].
  - destruct (Prom.reserved k cfg) as [e|]; [|done].
    intros _. eexists e, _. repeat split; [by right | by destruct w].
Qed.

Lemma filter_none {A} (P : A → Prop) `{!∀ x, Decision (P x)} (l : list A) :
  filter P l = [] ↔ Forall (λ x, ¬ P x) l.
Proof.
  induction l as [|x l IH]; [by rewrite filter_nil|].
  rewrite filter_cons Forall_cons. destruct (decide (P x)) as [HP|HP].
  - split; [done|]. by intros [? _].
  - rewrite IH. tauto.
Qed.

Lemma fits_spec (m : Metric) (labels : Rec) :
  fits m labels = true ↔ ∀ key, is_Some (labels !! key) → key ∈ labelNames m.
Proof.
  unfold fits, Prom.undeclared. rewrite bool_decide_eq_true filter_none.
  rewrite Forall_forall. split.
  - intros H key [v Hv]. destruct (decide (key ∈ labelNames m)) as [|Hn]; [done|].
    destruct (H key); [|done].
    apply list_elem_of_fmap. exists (key, v). split; [done|].
    by apply elem_of_map_to_list.
  - intros H key Hin Hn. apply Hn, H.
    apply list_elem_of_fmap in Hin as ([k v] & -> & Hin).
    apply elem_of_map_to_list in Hin. by exists v.
Qed.

(** Assigning to a key that the object has keeps the object fitting. *)
Lemma fits_insert (m : Metric) (labels : Rec) (key : string) (v : Value) :
  is_Some (labels !! key) → fits m labels = true →
  fits m (<[key := v]> labels) = true.
Proof.
  rewrite !fits_spec. intros Hkey H key' Hin.
  destruct (decide (key = key')) as [<-|Hne]; [by apply H|].
  apply H. by rewrite lookup_insert_ne in Hin.
Qed.

Lemma fits_empty (m : Metric) : fits m ∅ = true.
Proof. apply fits_spec. intros key [v Hv]. by rewrite lookup_empty in Hv. Qed.

Lemma refused_fits (m : Metric) (op : BackendOp) (labels : option Rec)
    (value : option Q) :
  fits m (default ∅ labels) = true →
  Prom.refused m op labels value
  = if takes op value then None else Some Prom.decrease.
Proof.
  unfold fits, Prom.refused, Prom.validateLabel, takes.
  rewrite bool_decide_eq_true. intros ->.
  destruct op, value as [q|]; try done; by destruct (Qle_bool 0 q).
Qed.

(** A call that the metric takes is recorded. *)
Lemma call_taken (m : Metric) (op : BackendOp) (labels : option Rec)
    (value : option Q) (w : World) :
  fits m (default ∅ labels) = true → takes op value = true →
  Prom.call m op labels value w
  = (Ok tt, set_log (log w ++ [EvMetric m op labels value]) w).
Proof.
  intros Hfits Htakes. unfold Prom.call.
  by rewrite (refused_fits _ _ _ _ Hfits) Htakes.
Qed.

(** A timer is started whatever the labels. *)
Lemma call_startTimer (m : Metric) (labels : option Rec) (value : option Q)
    (w : World) :
  Prom.call m OpStartTimer labels value w
  = (Ok tt, set_log (log w ++ [EvMetric m OpStartTimer labels value]) w).
Proof. reflexivity. Qed.

(** A call that the metric refuses records nothing. *)
Lemma call_refused (m : Metric) (op : BackendOp) (labels : option Rec)
    (value : option Q) (e : Value) (w : World) :
  Prom.refused m op labels value = Some e →
  Prom.call m op labels value w = (Throw e, w).
Proof. intros H. unfold Prom.call. by rewrite H. Qed.

End Acceptance.

Section Writes.

Import Metrics.

(** What a write through class [Metrics] must look like from outside:
    one call on the metric registered under [name], whose label argument
    is the converted label set restricted to the declared label names; or
    no call at all and an error, which is the not-found error, or the
    error of prom-client's constructor when the metric has to be built
    from a configuration that the constructor refuses, or the error of a
    counter that is asked to decrease.  The error of prom-client for a
    label that the metric has not declared is not among them. *)
Definition governed {A} (k : MetricType) (op : BackendOp) (name : string)
    (labels : option Rec) (value : option Q) (w : World)
    (r : Result A * World) : Prop :=
  match r with
  | (Ok _, w') =>
      ∃ (m : Metric) (ls : option Rec),
        instancesOf k (statics w') !! name = Some m ∧
        log w' = log w ++ [EvMetric m op ls value] ∧
        ∀ key : string,
          default ∅ ls !! key =
          if bool_decide (key ∈ labelNames m)
          then default ∅ labels !! key ≫= convertedValue
          else None
  | (Throw e, w') =>
      log w' = log w ∧
      ((e = notFound k name ∧ w' = w ∧
        instancesOf k (statics w) !! name = None ∧
        configsOf k (statics w) !! name = None) ∨
       (instancesOf k (statics w) !! name = None ∧
        ∃ cfg : Config,
          configsOf k (statics w') !! name = Some cfg ∧ declined k cfg w e) ∨
       (e = Prom.decrease ∧ takes op value = false ∧
        is_Some (instancesOf k (statics w') !! name)))
  end.

Lemma instancesOf_setInstances k x s : instancesOf k (setInstances k x s) = x.
Proof. by destruct s, k. Qed.
Lemma instancesOf_setConfigs k k' x s :
  instancesOf k (setConfigs k' x s) = instancesOf k s.
Proof. by destruct s, k, k'. Qed.
Lemma configsOf_setConfigs k x s : configsOf k (setConfigs k x s) = x.
Proof. by destruct s, k. Qed.
Lemma configsOf_setInstances k k' x s :
  configsOf k (setInstances k' x s) = configsOf k s.
Proof. by destruct s, k, k'. Qed.

Lemma _convertLabels_default (labels : option Rec) (key : string) :
  _convertLabels labels !! key = default ∅ labels !! key ≫= convertedValue.
Proof.
  destruct labels as [labels|]; [apply _convertLabels_lookup|].
  by rewrite /= lookup_empty.
Qed.

(** What is left by the filter fits the metric. *)
Lemma fits_filterAllowed (m : Metric) (labels : Rec) :
  fits m (_filterAllowed m labels) = true.
Proof.
  apply fits_spec. intros key [v Hv]. rewrite _filterAllowed_lookup in Hv.
  by case_bool_decide.
Qed.

(** The label argument of the backend call of a write. *)
Definition labelArgument (m : Metric) (labels : option Rec) : option Rec :=
  let filtered := _filterAllowed m (_convertLabels labels) in
  if bool_decide (size filtered = 0) then None else Some filtered.

Lemma labelArgument_lookup (m : Metric) (labels : option Rec) (key : string) :
  default ∅ (labelArgument m labels) !! key =
  if bool_decide (key ∈ labelNames m)
  then default ∅ labels !! key ≫= convertedValue
  else None.
Proof.
  unfold labelArgument. case_bool_decide as Hsize; simpl.
  - apply map_size_empty_iff in Hsize.
    rewrite -_convertLabels_default -_filterAllowed_lookup Hsize.
    by rewrite lookup_empty.
  - by rewrite _filterAllowed_lookup _convertLabels_default.
Qed.

Lemma labelArgument_fits (m : Metric) (labels : option Rec) :
  fits m (default ∅ (labelArgument m labels)) = true.
Proof.
  unfold labelArgument. case_bool_decide; simpl;
    [apply fits_empty | apply fits_filterAllowed].
Qed.

(** The backend call of a write: it is refused only for its value. *)
Lemma call_governed (c : Metric) op (labels : option Rec) value w :
  (if bool_decide (size (_filterAllowed c (_convertLabels labels)) = 0)
   then Prom.call c op None value
   else Prom.call c op (Some (_filterAllowed c (_convertLabels labels))) value) w
  = if takes op value
    then (Ok tt, set_log (log w ++ [EvMetric c op (labelArgument c labels) value]) w)
    else (Throw Prom.decrease, w).
Proof.
  pose proof (labelArgument_fits c labels) as Hfits.
  assert (E : (if bool_decide (size (_filterAllowed c (_convertLabels labels)) = 0)
               then Prom.call c op None value
               else Prom.call c op (Some (_filterAllowed c (_convertLabels labels)))
                      value)
              = Prom.call c op (labelArgument c labels) value).
  { unfold labelArgument. by case_bool_decide. }
  rewrite E. unfold Prom.call. rewrite (refused_fits _ _ _ _ Hfits).
  by destruct (takes op value).
Qed.

Lemma write_governed {A} k op name labels value w (f : Metric → A) :
  governed k op name labels value w
    ((m ← write k op name labels value; mret (f m)) w).
Proof.
  unfold write, _ensureWithLabels. msimpl.
  destruct (instancesOf k (statics w) !! name) as [c|] eqn:Hinst.
  - msimpl. rewrite call_governed.
    destruct (takes op value) eqn:Htakes; simpl.
    + exists c, (labelArgument c labels).
      rewrite statics_set_log log_set_log.
      repeat split; try done. apply labelArgument_lookup.
    + split; [done|]. right. right. by rewrite Hinst.
  - msimpl.
    destruct (configsOf k (statics w) !! name) as [cfg|] eqn:Hcfg; msimpl;
      [|split; [done|]; by left].
    match goal with
    | |- context [Prom.new k ?c ?w1] => set (w1' := w1); set (cfg1 := c) in *
    end.
    assert (Hw1 : log w1' = log w ∧ register w1' = register w ∧
                  configsOf k (statics w1') !! name = Some cfg1).
    { subst w1'. rewrite log_set_statics statics_set_statics configsOf_setConfigs
        lookup_insert_eq. by destruct w. }
    destruct Hw1 as (Hlog1 & Hreg1 & Hcfg1).
    assert (Hsame : ∀ e, declined k cfg1 w1' e → declined k cfg1 w e).
    { unfold declined, Prom.refusal. by rewrite Hreg1. }
    destruct (accepts k cfg1 w1') eqn:Hadm.
    + rewrite (new_accepted _ _ _ Hadm). unfold storeInstance. msimpl.
      rewrite call_governed.
      match goal with
      | |- context [set_log _ ?w2] => set (w2' := w2)
      end.
      assert (Hw2 : log w2' = log w ∧
                    instancesOf k (statics w2') !! name = Some (mkMetric k cfg1)).
      { subst w2'. rewrite log_set_statics log_set_register Hlog1.
        by rewrite statics_set_statics instancesOf_setInstances lookup_insert_eq. }
      destruct Hw2 as [Hlog2 Hinst2].
      destruct (takes op value) eqn:Htakes; simpl.
      * exists (mkMetric k cfg1), (labelArgument (mkMetric k cfg1) labels).
        rewrite statics_set_log log_set_log Hlog2.
        repeat split; try done. apply labelArgument_lookup.
      * split; [done|]. right. right. by rewrite Hinst2.
    + destruct (new_declined _ _ _ Hadm) as (e & w2 & -> & Hdec & Hw2).
      simpl. split; [by rewrite Hw2 log_set_register|].
      right. left. split; [done|]. exists cfg1. split; [|by apply Hsame].
      by rewrite Hw2 statics_set_register.
Qed.

Lemma bind_mret_id {A} (m : M A) (w : World) : (a ← m; mret a) w = m w.
Proof. rewrite bind_unfold. by destruct (m w) as [[a|e] w']. Qed.

(** The label set of the example: [{a: "X", b: 2, flag: true, ignore: undefined}]. *)
Definition exampleLabels : Rec :=
  <["a" := VStr "X"]> (<["b" := VNum (2 # 1)]> (<["flag" := VBool true]>
    (<["ignore" := VUndefined]> ∅))).

Definition exampleConfig : Config :=
  mkConfig "test_counter_total" "test counter" (Some ["a"; "b"; "flag"])
    false None None.

(** C7. Every write of class [Metrics] ([incrementCounter], [setGauge],
    [startGaugeTimer], [observeHistogram], [observeSummary],
    [startSummaryTimer]) either issues exactly one call on the metric, whose
    label argument is the given label set with the undefined-valued keys
    dropped, booleans turned into the strings "true" and "false", and
    every key outside the declared label names of the metric dropped
    without an error; or it calls nothing and fails: with the not-found
    error of an unregistered name, with the error of prom-client's
    constructor when the metric has yet to be built and the constructor
    refuses its configuration, or with prom-client's error for a counter
    that is asked to decrease.  On the example of the specification the
    recorded sample is [{a: "X", b: 2, flag: "true"}]. *)
Theorem writes_convert_then_filter_labels
    (name : string) (labels : option Rec) (value : Q) (amount : option Q)
    (w : World) :
  governed Counter OpInc name labels amount w
    (incrementCounter name labels amount w) ∧
  governed Gauge OpSet name labels (Some value) w
    (setGauge name value labels w) ∧
  governed Gauge OpStartTimer name labels None w
    (startGaugeTimer name labels w) ∧
  governed Histogram OpObserve name labels (Some value) w
    (observeHistogram name value labels w) ∧
  governed Summary OpObserve name labels (Some value) w
    (observeSummary name value labels w) ∧
  governed Summary OpStartTimer name labels None w
    (startSummaryTimer name labels w) ∧
  log (incrementCounter "test_counter_total" (Some exampleLabels)
         (Some (3 # 1)%Q)
         (registerCounter exampleConfig (initialWorld natural_sync_async)).2).2
  = [EvMetric (mkMetric Counter exampleConfig) OpInc
       (Some (<["a" := VStr "X"]> (<["b" := VNum (2 # 1)]>
                (<["flag" := VStr "true"]> ∅))))
       (Some (3 # 1)%Q)].
Proof.
  repeat apply conj.
  - apply (write_governed _ _ _ _ _ _ (λ _, tt)).
  - apply (write_governed _ _ _ _ _ _ (λ _, tt)).
  - unfold startGaugeTimer. rewrite -bind_mret_id.
    apply (write_governed _ _ _ _ _ _ (λ m, m)).
  - apply (write_governed _ _ _ _ _ _ (λ _, tt)).
  - apply (write_governed _ _ _ _ _ _ (λ _, tt)).
  - unfold startSummaryTimer. rewrite -bind_mret_id.
    apply (write_governed _ _ _ _ _ _ (λ m, m)).
  - vm_compute. reflexivity.
Qed.

End Writes.

Section Reset.

Import Metrics.

(** C9. [Metrics.clear()] empties the global registry and the counter,
    gauge and histogram instance maps; the summary instance map and the
    four configuration maps are left as they were, so a summary that was
    materialised before the reset is still what [getSummary] returns
    after it, and every registered configuration is still there. *)
Theorem clear_leaves_summaries_and_configs (w : World) :
  let w' := (clear w).2 in
  (clear w).1 = Ok tt ∧
  register w' = ∅ ∧
  counters (statics w') = ∅ ∧
  gauges (statics w') = ∅ ∧
  histograms (statics w') = ∅ ∧
  summaries (statics w') = summaries (statics w) ∧
  counterConfigs (statics w') = counterConfigs (statics w) ∧
  gaugeConfigs (statics w') = gaugeConfigs (statics w) ∧
  histogramConfigs (statics w') = histogramConfigs (statics w) ∧
  summaryConfigs (statics w') = summaryConfigs (statics w) ∧
  ∀ metricName : string,
    match summaries (statics w) !! metricName with
    | Some m => getSummary metricName w' = (Ok (Some m), w')
    | None => True
    end.
Proof.
  destruct w as [md ac st oo rc fl pr jb [cc gc hc sc c g h su] rg lg].
  simpl. repeat apply conj; try reflexivity.
  intros metricName.
  destruct (su !! metricName) as [m|] eqn:Hm; [|done].
  unfold getSummary, getMetric, clear, Prom.clear. msimpl. rewrite Hm. msimpl.
  by rewrite Hm.
Qed.

End Reset.

Section Sampling.

Import Traces.

(** The options object and the attributes the caller handed in. *)
Definition callerOptions (options : option loc) (w : World) : SpanOptions :=
  match options with
  | Some l => default (mkSpanOptions None None None) (optionObjs w !! l)
  | None => mkSpanOptions None None None
  end.

Definition callerAttributes (options : option loc) (w : World) : Rec :=
  match so_attributes (callerOptions options w) with
  | Some la => default ∅ (records w !! la)
  | None => ∅
  end.

(** The attributes once the sampling rule has been through them. *)
Definition withSamplingRule (attrs : Rec) : Rec :=
  if truthy (default VUndefined (attrs !! samplingKey)) then attrs
  else <[samplingKey := VBool false]> attrs.

(** [_setSamplingRule] touches the two object heaps only. *)
Definition heapOnly (w w1 : World) : Prop :=
  w1 = set_optionObjs (optionObjs w1) (set_records (records w1) w).

Lemma _setSamplingRule_spec (options : option loc) (w : World) :
  ∃ (l la : loc) (w1 : World),
    _setSamplingRule options w = (Ok l, w1) ∧
    heapOnly w w1 ∧
    match options with
    | Some l0 => l = l0
    | None => l ∉ dom (optionObjs w)
    end ∧
    match so_attributes (callerOptions options w) with
    | Some la0 => la = la0 ∧ optionObjs w1 = optionObjs w
    | None => la ∉ dom (records w)
    end ∧
    optionObjs w1 !! l =
      Some (mkSpanOptions (Some la) (so_root (callerOptions options w))
              (so_links (callerOptions options w))) ∧
    records w1 !! la = Some (withSamplingRule (callerAttributes options w)).
Proof.
  destruct w as [md ac st oo rc fl pr jb sx rg lg].
  unfold _setSamplingRule, Heap.readOptions, Heap.allocRecord,
    Heap.allocOptions, Heap.writeOptions, Heap.readRecord, Heap.assign,
    callerAttributes, callerOptions, withSamplingRule, heapOnly.
  destruct options as [l|]; msimpl.
  - destruct (oo !! l) as [[[la|] rt lk]|] eqn:Ho; msimpl.
    + destruct (rc !! la) as [attrs|] eqn:Hrc; simpl.
      * destruct (truthy _) eqn:Ht; msimpl.
        -- by exists l, la; eexists.
        -- exists l, la; eexists; repeat apply conj; try done.
           by rewrite Hrc lookup_insert_eq.
      * rewrite lookup_empty. msimpl. rewrite Hrc.
        exists l, la; eexists; repeat apply conj; try done.
        by rewrite lookup_insert_eq.
    + hsimpl.
      exists l, (fresh (dom rc)). eexists. repeat apply conj; try done.
      * apply is_fresh.
      * by hsimpl.
      * by hsimpl.
    + hsimpl.
      exists l, (fresh (dom rc)). eexists. repeat apply conj; try done.
      * apply is_fresh.
      * by hsimpl.
      * by hsimpl.
  - hsimpl.
    exists (fresh (dom oo)), (fresh (dom rc)). eexists.
    repeat apply conj; try done.
    + apply is_fresh.
    + apply is_fresh.
    + by hsimpl.
    + by hsimpl.
Qed.


Lemma heapOnly_fields w w1 :
  heapOnly w w1 →
  mode w1 = mode w ∧ active w1 = active w ∧ started w1 = started w ∧
  log w1 = log w ∧ promises w1 = promises w ∧ jobs w1 = jobs w ∧
  flags w1 = flags w ∧ statics w1 = statics w ∧ register w1 = register w.
Proof. unfold heapOnly. intros ->. by destruct w. Qed.

(** Whether a span started in [mode] is a root, what it is linked to,
    and which span it is. *)
Definition startedRoot (mode : StartMode) (o : SpanOptions) : bool :=
  match mode with
  | newTrace | newTraceWithLink => true
  | reuse | createChild => default false (so_root o)
  end.

Definition startedLinks (mode : StartMode) (act : option Span) (o : SpanOptions)
    : list Span :=
  match mode, act with
  | newTraceWithLink, Some a => [a]
  | _, _ => default [] (so_links o)
  end.

Definition startedSpan (root : bool) (w : World) : Span :=
  let tid :=
    match (if root then None else active w) with
    | Some p => traceId p
    | None => Otel.freshTraceId w
    end in
  mkSpan tid (Otel.freshSpanId w).

Definition createsSpan (mode : StartMode) (act : option Span) : bool :=
  match mode, act with
  | reuse, Some _ => false
  | _, _ => true
  end.

Lemma getSpan_run (name : string) (options : option loc) (mode : StartMode)
    (module : string) (w : World) :
  let o := callerOptions options w in
  let root := startedRoot mode o in
  let span := startedSpan root w in
  ∃ (l : loc) (w1 : World),
    _setSamplingRule options w = (Ok l, w1) ∧
    getSpan name options mode module w =
      match mode, active w with
      | reuse, Some a => (Ok (a, false), w1)
      | _, _ =>
          (Ok (span, true),
           set_log (log w ++ [EvStartSpan module name
                                (withSamplingRule (callerAttributes options w))
                                root (startedLinks mode (active w) o) span])
             (set_started (started w ++ [span]) w1))
      end.
Proof.
  intros o root span.
  destruct (_setSamplingRule_spec options w)
    as (l & la & w1 & Hrun & Hheap & _ & _ & Hl & Hla).
  exists l, w1. split; [done|].
  apply heapOnly_fields in Hheap as (_ & Hact & Hst & Hlog & _).
  unfold getSpan. rewrite bind_unfold Hrun. unfold Heap.readOptions.
  msimpl. rewrite Hl /= Hact.
  subst span root o. unfold startedSpan, startedRoot, startedLinks.
  destruct mode, (active w) as [a|] eqn:Ha; try done;
    unfold Otel.startSpan, asRoot, asRootWithLink, Otel.freshTraceId,
      Otel.freshSpanId, Otel.known; msimpl; rewrite ?Hla ?Hact ?Hst ?Hlog ?Ha //=.
Qed.

Lemma getCurrentSpanOrCreateNew_run (name : string) (options : option loc)
    (createNewSpan : bool) (module : string) (w : World) :
  let o := callerOptions options w in
  let root := default false (so_root o) in
  let span := startedSpan root w in
  ∃ (l : loc) (w1 : World),
    _setSamplingRule options w = (Ok l, w1) ∧
    getCurrentSpanOrCreateNew name options createNewSpan module w =
      match active w, createNewSpan with
      | Some a, false => (Ok (a, false), w1)
      | _, _ =>
          (Ok (span, true),
           set_log (log w ++ [EvStartSpan module name
                                (withSamplingRule (callerAttributes options w))
                                root (default [] (so_links o)) span])
             (set_started (started w ++ [span]) w1))
      end.
Proof.
  intros o root span.
  destruct (_setSamplingRule_spec options w)
    as (l & la & w1 & Hrun & Hheap & _ & _ & Hl & Hla).
  exists l, w1. split; [done|].
  apply heapOnly_fields in Hheap as (_ & Hact & Hst & Hlog & _).
  unfold getCurrentSpanOrCreateNew. msimpl. rewrite Hrun.
  unfold Heap.readOptions. msimpl.
  subst span root o. unfold startedSpan.
  destruct (active w) as [a|] eqn:Ha, createNewSpan; try done;
    unfold Otel.startSpan, Otel.freshTraceId, Otel.freshSpanId, Otel.known; msimpl;
    rewrite ?Hl /= ?Hla ?Hact ?Hst ?Hlog ?Ha //=.
Qed.

Lemma heap_after_start x y w :
  optionObjs (set_log x (set_started y w)) = optionObjs w ∧
  records (set_log x (set_started y w)) = records w.
Proof. by destruct w. Qed.

(** What the attribute is after the rule, from what the caller supplied. *)
Definition samplingValue (supplied : option Value) : Value :=
  match supplied with
  | Some v => if truthy v then v else VBool false
  | None => VBool false
  end.

Lemma withSamplingRule_key (attrs : Rec) :
  withSamplingRule attrs !! samplingKey = Some (samplingValue (attrs !! samplingKey)).
Proof.
  unfold withSamplingRule, samplingValue.
  destruct (attrs !! samplingKey) as [v|] eqn:Hv; simpl.
  - destruct (truthy v); [done|]. by rewrite lookup_insert_eq.
  - by rewrite lookup_insert_eq.
Qed.

Lemma withSamplingRule_other (attrs : Rec) (k : string) :
  k ≠ samplingKey → withSamplingRule attrs !! k = attrs !! k.
Proof.
  intros Hk. unfold withSamplingRule.
  destruct (truthy _); [done|]. by rewrite lookup_insert_ne.
Qed.

End Sampling.

Section StartModes.

Import Traces.

(** C8, as the code has it.  Every span that [getSpan] or
    [getCurrentSpanOrCreateNew] creates is started with the attribute
    [otel.collector.sampling.keep]: the caller's value when the caller
    supplied a truthy one, and [false] otherwise, that is when the caller
    supplied none or a falsy one.  When no span is created the tracer is
    not called. *)
Theorem created_spans_carry_sampling_attribute
    (name module : string) (options : option loc) (mode : StartMode)
    (createNewSpan : bool) (w : World) :
  let kept :=
    match callerAttributes options w !! samplingKey with
    | Some v => if truthy v then v else VBool false
    | None => VBool false
    end in
  (if createsSpan mode (active w)
   then ∃ span attrs root links w',
          getSpan name options mode module w = (Ok (span, true), w') ∧
          log w' = log w ++ [EvStartSpan module name attrs root links span] ∧
          attrs !! samplingKey = Some kept
   else ∃ span w',
          getSpan name options mode module w = (Ok (span, false), w') ∧
          log w' = log w) ∧
  (if createNewSpan || bool_decide (active w = None)
   then ∃ span attrs root links w',
          getCurrentSpanOrCreateNew name options createNewSpan module w
            = (Ok (span, true), w') ∧
          log w' = log w ++ [EvStartSpan module name attrs root links span] ∧
          attrs !! samplingKey = Some kept
   else ∃ span w',
          getCurrentSpanOrCreateNew name options createNewSpan module w
            = (Ok (span, false), w') ∧
          log w' = log w).
Proof.
  intros kept. split.
  - destruct (getSpan_run name options mode module w) as (l & w1 & Hrule & ->).
    destruct (_setSamplingRule_spec options w)
      as (l' & la & w1' & Hrule' & Hheap & _).
    rewrite Hrule in Hrule'. injection Hrule' as <- <-.
    apply heapOnly_fields in Hheap as (_ & _ & _ & Hlog & _).
    destruct mode, (active w) as [a|]; simpl;
      try (do 5 eexists; repeat apply conj;
           [reflexivity | by rewrite log_set_log | apply withSamplingRule_key]).
    by exists a, w1.
  - destruct (getCurrentSpanOrCreateNew_run name options createNewSpan module w)
      as (l & w1 & Hrule & ->).
    destruct (_setSamplingRule_spec options w)
      as (l' & la & w1' & Hrule' & Hheap & _).
    rewrite Hrule in Hrule'. injection Hrule' as <- <-.
    apply heapOnly_fields in Hheap as (_ & _ & _ & Hlog & _).
    destruct (active w) as [a|], createNewSpan; simpl;
      try (do 5 eexists; repeat apply conj;
           [reflexivity | by rewrite log_set_log | apply withSamplingRule_key]).
    by exists a, w1.
Qed.

(** A caller who set the attribute to the number zero. *)
Definition zeroKeepWorld : World :=
  mkWorld natural_sync_async None []
    {[0 := mkSpanOptions (Some 0) None None]}
    {[0 := {[samplingKey := VNum 0]}]}
    ∅ ∅ [] emptyStatics ∅ [].

(** C8 as stated fails: the caller supplied [0] for the attribute, and the
    span is started with [false] instead. *)
Lemma falsy_caller_value_is_replaced :
  callerAttributes (Some 0) zeroKeepWorld !! samplingKey = Some (VNum 0) ∧
  log (getSpan "op" (Some 0) createChild "m" zeroKeepWorld).2
    = [EvStartSpan "m" "op" {[samplingKey := VBool false]} false []
         (mkSpan 0 0)] ∧
  ({[samplingKey := VBool false]} : Rec) !! samplingKey ≠ Some (VNum 0).
Proof. repeat apply conj; [reflexivity | reflexivity | discriminate]. Qed.

Lemma freshTraceId_known (w : World) (a : Span) :
  a ∈ Otel.known w → Otel.freshTraceId w ≠ traceId a.
Proof.
  intros Ha Heq. unfold Otel.freshTraceId in Heq.
  pose proof (is_fresh (list_to_set (traceId <$> Otel.known w) : gset nat)) as Hf.
  apply Hf. rewrite Heq. apply elem_of_list_to_set, list_elem_of_fmap.
  by exists a.
Qed.

Lemma freshTraceId_active (w : World) (a : Span) :
  active w = Some a → Otel.freshTraceId w ≠ traceId a.
Proof.
  intros Ha. apply freshTraceId_known. unfold Otel.known. rewrite Ha.
  apply elem_of_app. right. apply list_elem_of_here.
Qed.

(** C5, as the code has it.  In mode [newTraceWithLink], [getSpan] always
    creates a span, started as a root.  With an active span the new span
    has exactly one link, to the context of the active span, and lies in
    another trace than the active span; with no active span [getSpan]
    adds no link, so the span has the links of the caller's options and
    none when the caller gave none. *)
Theorem newTraceWithLink_starts_linked_root
    (name module : string) (options : option loc) (w : World) :
  ∃ span attrs w',
    getSpan name options newTraceWithLink module w = (Ok (span, true), w') ∧
    log w' = log w ++
      [EvStartSpan module name attrs true
         (match active w with
          | Some a => [a]
          | None => default [] (so_links (callerOptions options w))
          end) span] ∧
    match active w with
    | Some a => traceId span ≠ traceId a
    | None => True
    end.
Proof.
  destruct (getSpan_run name options newTraceWithLink module w)
    as (l & w1 & Hrule & ->).
  destruct (active w) as [a|] eqn:Ha; simpl.
  - do 3 eexists. repeat apply conj; [reflexivity | by rewrite log_set_log |].
    simpl. by apply freshTraceId_active.
  - do 3 eexists. repeat apply conj; [reflexivity | by rewrite log_set_log | done].
Qed.

(** A world in which a span of the tracer is active. *)
Definition activeWorld : World :=
  mkWorld natural_sync_async (Some (mkSpan 0 0)) [mkSpan 0 0]
    ∅ ∅ ∅ ∅ [] emptyStatics ∅ [].

(** With the span of [activeWorld] active, the new span is a root of
    trace 1, linked to that span of trace 0. *)
Lemma newTraceWithLink_links_the_active_span :
  (getSpan "job" None newTraceWithLink "batch" activeWorld).1
    = Ok (mkSpan 1 1, true) ∧
  log (getSpan "job" None newTraceWithLink "batch" activeWorld).2
    = [EvStartSpan "batch" "job" {[samplingKey := VBool false]} true
         [mkSpan 0 0] (mkSpan 1 1)].
Proof. split; vm_compute; reflexivity. Qed.

(** A caller who passes a link of their own while no span is active. *)
Definition callerLinkWorld : World :=
  mkWorld natural_sync_async None []
    {[0 := mkSpanOptions None None (Some [mkSpan 7 8])]}
    ∅ ∅ ∅ [] emptyStatics ∅ [].

(** C5 as stated fails: no span is active, and the span is started with a
    link all the same, the one of the caller's options. *)
Lemma newTraceWithLink_keeps_caller_links :
  active callerLinkWorld = None ∧
  log (getSpan "job" (Some 0) newTraceWithLink "batch" callerLinkWorld).2
    = [EvStartSpan "batch" "job" {[samplingKey := VBool false]} true
         [mkSpan 7 8] (mkSpan 0 0)] ∧
  [mkSpan 7 8] ≠ [].
Proof. repeat apply conj; [reflexivity | reflexivity | discriminate]. Qed.

(** The caller's attributes object exists and holds, under the key, a
    truthy value or [false]: the rule has nothing to change. *)
Definition alreadyRuled (o : SpanOptions) (w : World) : bool :=
  match so_attributes o with
  | Some la =>
      match records w !! la with
      | Some attrs =>
          match attrs !! samplingKey with
          | Some (VBool false) => true
          | Some v => truthy v
          | None => false
          end
      | None => false
      end
  | None => false
  end.

(** What a caller who passed the options object [l], then [o], finds
    after the call. *)
Definition optionsMutated (l : loc) (o : SpanOptions) (w w' : World) : Prop :=
  ∃ la : loc,
    optionObjs w' !! l = Some (mkSpanOptions (Some la) (so_root o) (so_links o)) ∧
    records w' !! la = Some (withSamplingRule (callerAttributes (Some l) w)) ∧
    match so_attributes o with
    | Some la0 =>
        la = la0 ∧ optionObjs w' = optionObjs w ∧
        if alreadyRuled o w then records w' = records w
        else records w' !! la ≠ records w !! la
    | None =>
        (la ∉ dom (records w)) ∧ optionObjs w' !! l ≠ optionObjs w !! l
    end.

(** The records after the rule, for a caller with an attributes object. *)
Lemma _setSamplingRule_records (w : World) (l la : loc) (o : SpanOptions) :
  optionObjs w !! l = Some o →
  so_attributes o = Some la →
  records (_setSamplingRule (Some l) w).2
  = if truthy (default VUndefined (default ∅ (records w !! la) !! samplingKey))
    then records w
    else <[la := <[samplingKey := VBool false]> (default ∅ (records w !! la))]>
           (records w).
Proof.
  destruct w as [md ac st oo rc fl pr jb sx rg lg]. simpl.
  intros Hobj Hso.
  unfold _setSamplingRule, Heap.readOptions, Heap.readRecord, Heap.assign.
  msimpl. rewrite Hobj /= Hso. msimpl.
  by destruct (truthy _).
Qed.

Lemma _setSamplingRule_mutates (w : World) (l : loc) (o : SpanOptions) :
  optionObjs w !! l = Some o →
  optionsMutated l o w (_setSamplingRule (Some l) w).2.
Proof.
  intros Hobj.
  pose proof (_setSamplingRule_records w l) as Hrec.
  destruct (_setSamplingRule_spec (Some l) w)
    as (l' & la & w1 & Hrun & Hheap & -> & Hattr & Hl & Hla).
  rewrite Hrun /= in Hrec. rewrite Hrun /=. exists la.
  assert (Ho : callerOptions (Some l) w = o).
  { by rewrite /= Hobj. }
  rewrite Ho in Hattr Hl.
  split; [done|]. split; [done|].
  unfold alreadyRuled.
  destruct (so_attributes o) as [la0|] eqn:Hso.
  - destruct Hattr as [-> Hoo]. split; [done|]. split; [done|].
    specialize (Hrec la0 o Hobj Hso).
    unfold callerAttributes, withSamplingRule in Hla. rewrite Ho Hso in Hla.
    destruct (records w !! la0) as [attrs|] eqn:Hattrs; simpl in *.
    + destruct (attrs !! samplingKey) as [v|] eqn:Hv; simpl in *.
      * destruct (truthy v) eqn:Ht.
        -- rewrite Hrec. by destruct v as [| |[]| | | |].
        -- assert (Hcase : v = VBool false ∨
                           match v with VBool false => False | _ => True end).
           { destruct v as [| |[]| | | |]; auto. }
           destruct Hcase as [-> | Hv'].
           ++ rewrite Hrec. by rewrite (insert_id attrs) // insert_id.
           ++ assert (Hne : records w1 !! la0 ≠ Some attrs).
              { rewrite Hla. intros [= Heq].
                assert (Hk : (<[samplingKey := VBool false]> attrs) !! samplingKey
                             = Some (VBool false)) by apply lookup_insert_eq.
                rewrite Heq Hv in Hk. injection Hk as ->. done. }
              by destruct v as [| |[]| | | |].
      * rewrite Hla. intros [= Heq].
        assert (Hk : (<[samplingKey := VBool false]> attrs) !! samplingKey
                     = Some (VBool false)) by apply lookup_insert_eq.
        rewrite Heq Hv in Hk. done.
    + by rewrite Hla.
  - split; [done|]. rewrite Hl Hobj. destruct o; simpl in *. congruence.
Qed.

Lemma optionsMutated_start l o w w1 x y :
  optionsMutated l o w w1 →
  optionsMutated l o w (set_log x (set_started y w1)).
Proof. by destruct w1. Qed.

(** C10, as the code has it.  [getSpan] and [getCurrentSpanOrCreateNew]
    work on the options object of the caller in place: afterwards that
    object refers to an attributes object (the caller's own when there
    was one, a new one assigned onto it otherwise), and this attributes
    object holds the caller's attributes with [false] under the key
    [otel.collector.sampling.keep] unless they held a truthy value there.
    A caller who had no attributes object finds the options object
    changed; a caller who had one finds the options object as it was, and
    the attributes object changed unless it already held a truthy value
    or [false] under the key: then every object is as it was. *)
Theorem sampling_rule_mutates_caller_options
    (name module : string) (mode : StartMode) (createNewSpan : bool)
    (w : World) (l : loc) (o : SpanOptions)
    (Hobj : optionObjs w !! l = Some o) :
  optionsMutated l o w (getSpan name (Some l) mode module w).2 ∧
  optionsMutated l o w
    (getCurrentSpanOrCreateNew name (Some l) createNewSpan module w).2.
Proof.
  pose proof (_setSamplingRule_mutates w l o Hobj) as Hrule.
  split.
  - destruct (getSpan_run name (Some l) mode module w) as (l1 & w1 & Hr & ->).
    rewrite Hr /= in Hrule.
    destruct mode, (active w); simpl; try done;
      by apply optionsMutated_start.
  - destruct (getCurrentSpanOrCreateNew_run name (Some l) createNewSpan module w)
      as (l1 & w1 & Hr & ->).
    rewrite Hr /= in Hrule.
    destruct (active w), createNewSpan; simpl; try done;
      by apply optionsMutated_start.
Qed.

Lemma sampling_rule_mutates_caller_options_witness :
  optionObjs callerLinkWorld !! 0
    = Some (mkSpanOptions None None (Some [mkSpan 7 8])) ∧
  optionsMutated 0 (mkSpanOptions None None (Some [mkSpan 7 8])) callerLinkWorld
    (getSpan "op" (Some 0) reuse "m" callerLinkWorld).2 ∧
  optionsMutated 0 (mkSpanOptions None None (Some [mkSpan 7 8])) callerLinkWorld
    (getCurrentSpanOrCreateNew "op" (Some 0) false "m" callerLinkWorld).2.
Proof.
  split; [reflexivity|].
  apply (sampling_rule_mutates_caller_options "op" "m" reuse false
           callerLinkWorld 0 (mkSpanOptions None None (Some [mkSpan 7 8]))).
  reflexivity.
Defined.

(** A caller who asks for the trace to be kept. *)
Definition keptWorld : World :=
  mkWorld natural_sync_async None []
    {[0 := mkSpanOptions (Some 0) None None]}
    {[0 := {[samplingKey := VBool true]}]}
    ∅ ∅ [] emptyStatics ∅ [].

(** C10 as stated fails: the caller's attributes hold [true] under the
    key, and after either call the options object and the attributes
    object are as they were. *)
Lemma truthy_caller_value_leaves_objects_untouched :
  optionObjs keptWorld !! 0 = Some (mkSpanOptions (Some 0) None None) ∧
  records keptWorld !! 0 = Some {[samplingKey := VBool true]} ∧
  optionObjs (getSpan "op" (Some 0) createChild "m" keptWorld).2
    = optionObjs keptWorld ∧
  records (getSpan "op" (Some 0) createChild "m" keptWorld).2
    = records keptWorld ∧
  optionObjs (getCurrentSpanOrCreateNew "op" (Some 0) true "m" keptWorld).2
    = optionObjs keptWorld ∧
  records (getCurrentSpanOrCreateNew "op" (Some 0) true "m" keptWorld).2
    = records keptWorld.
Proof. repeat apply conj; vm_compute; reflexivity. Qed.

End StartModes.

Section EventLoop.

Import Promise.

(** The world once promise [q] has settled with [o], reactions aside. *)
Definition afterSettle (q : nat) (o : Outcome) (w : World) : World :=
  set_log (log w ++ [EvSettled q o])
    (set_promises (<[q := Settled o]> (promises w)) w).

(** One reaction, run on its own: the callback, then the settlement of the
    derived promise. *)
Definition reactStep (r : Reaction) (o : Outcome) (w : World) : Outcome * World :=
  let '(m, cb, q) := r in
  match reactionOutcome m cb o w with
  | (Ok o', w') => (o', afterSettle q o' w')
  | (Throw e, w') => (Rejected e, afterSettle q (Rejected e) w')
  end.

Lemma runCallback_store (cb : Callback) (arg : Value) (w : World) :
  promises (runCallback cb arg w).2 = promises w ∧
  jobs (runCallback cb arg w).2 = jobs w.
Proof.
  destruct w as [md ac st oo rc fl pr jb sx rg lg].
  destruct cb; unfold runCallback, endSpan, assignErrorLabel, incWith,
    stopTimer, writeNumber,
    Otel.setStatus, Otel.recordException, Otel.end_, Heap.readFlag,
    Heap.writeFlag, Heap.assign, Heap.readRecord, Prom.call; msimpl; try done.
  - by destruct (negb _ && _); msimpl.
  - by call_cases.
  - destruct endTimer as [[m l]|]; msimpl; call_cases; destruct arg; msimpl;
      try done; destruct timed; msimpl; by call_cases.
  - destruct endTimer as [[m l]|]; msimpl; by call_cases.
  - destruct endTimer as [[m l]|]; msimpl; by call_cases.
  - destruct endTimer as [[m l]|]; msimpl; by call_cases.
Qed.

Lemma reactionOutcome_store (m : Method) (cb : Callback) (o : Outcome) (w : World) :
  (∃ o', (reactionOutcome m cb o w).1 = Ok o') ∧
  promises (reactionOutcome m cb o w).2 = promises w ∧
  jobs (reactionOutcome m cb o w).2 = jobs w.
Proof.
  unfold reactionOutcome, asOutcome.
  destruct m, o as [v|e]; try (by eauto);
    match goal with
    | |- context [runCallback ?c ?a w] =>
        pose proof (runCallback_store c a w) as [Hp Hj];
        destruct (runCallback c a w) as [[r|x] w']; simpl in *; eauto
    end.
Qed.

Lemma settle_unsettled (p : nat) (o : Outcome) (rs : list Reaction) (w : World) :
  promises w !! p = Some (Pending rs) →
  settle p o w =
    (Ok tt, set_jobs (jobs w ++ ((λ r, JReact r o) <$> rs)) (afterSettle p o w)).
Proof.
  intros Hp. unfold settle, afterSettle. rewrite Hp. by destruct w.
Qed.

(** Running the job of a reaction whose derived promise is pending. *)
Lemma runJob_react (r : Reaction) (o : Outcome) (rs : list Reaction) (w : World) :
  promises w !! r.2 = Some (Pending rs) →
  jobs w = [] →
  (runJob (JReact r o) w).2 =
    set_jobs ((λ r', JReact r' (reactStep r o w).1) <$> rs) (reactStep r o w).2.
Proof.
  intros Hq Hj. destruct r as [[m cb] q]. simpl in *.
  unfold reactStep. rewrite bind_unfold.
  destruct (reactionOutcome_store m cb o w) as ([o' Ho] & Hp & Hjb).
  destruct (reactionOutcome m cb o w) as [r w'] eqn:Hr. simpl in *. subst r.
  rewrite (settle_unsettled q o' rs); [by rewrite Hp|].
  simpl. rewrite Hjb Hj /=. by destruct w'.
Qed.

Lemma reactStep_store (r : Reaction) (o : Outcome) (w : World) :
  jobs (reactStep r o w).2 = jobs w ∧
  promises (reactStep r o w).2 = <[r.2 := Settled (reactStep r o w).1]> (promises w).
Proof.
  destruct r as [[m cb] q]. unfold reactStep.
  destruct (reactionOutcome_store m cb o w) as (_ & Hp & Hj).
  destruct (reactionOutcome m cb o w) as [[o'|e] w']; simpl in *;
    rewrite -Hp -Hj; by destruct w'.
Qed.

Lemma set_jobs_id (w : World) : set_jobs (jobs w) w = w.
Proof. by destruct w. Qed.

Lemma set_jobs_set_jobs x y (w : World) : set_jobs x (set_jobs y w) = set_jobs x w.
Proof. by destruct w. Qed.

Lemma jobs_set_jobs x (w : World) : jobs (set_jobs x w) = x.
Proof. by destruct w. Qed.

Lemma promises_set_jobs x (w : World) : promises (set_jobs x w) = promises w.
Proof. by destruct w. Qed.

Lemma runJobs_idle (k : nat) (w : World) : jobs w = [] → runJobs k w = w.
Proof. intros Hj. destruct k; unfold runJobs; by rewrite ?Hj. Qed.

Lemma runJobs_step (k : nat) (j : Job) (rest : list Job) (w : World) :
  jobs w = j :: rest →
  runJobs (S k) w = runJobs k (runJob j (set_jobs rest w)).2.
Proof. intros Hj. unfold runJobs at 1. by rewrite Hj. Qed.

(** The chain [p.then(c1).catch(c2).finally(c3)] once [p] has settled with
    [o]: three jobs, each the reaction of the promise derived before. *)
Lemma runJobs_chain (w : World) (c1 c2 c3 : Callback) (p1 p2 p3 : nat)
    (o : Outcome) (k : nat) :
  jobs w = [JReact (MThen, c1, p1) o] →
  promises w !! p1 = Some (Pending [(MCatch, c2, p2)]) →
  promises w !! p2 = Some (Pending [(MFinally, c3, p3)]) →
  promises w !! p3 = Some (Pending []) →
  p1 ≠ p2 → p1 ≠ p3 → p2 ≠ p3 →
  let s1 := reactStep (MThen, c1, p1) o (set_jobs [] w) in
  let s2 := reactStep (MCatch, c2, p2) s1.1 s1.2 in
  let s3 := reactStep (MFinally, c3, p3) s2.1 s2.2 in
  runJobs (3 + k) w = s3.2.
Proof.
  intros Hj H1 H2 H3 H12 H13 H23 s1 s2 s3.
  destruct (reactStep_store (MThen, c1, p1) o (set_jobs [] w)) as [Hj1 Hp1].
  fold s1 in Hj1, Hp1. rewrite jobs_set_jobs in Hj1.
  rewrite promises_set_jobs in Hp1. simpl in Hp1.
  destruct (reactStep_store (MCatch, c2, p2) s1.1 s1.2) as [Hj2 Hp2].
  fold s2 in Hj2, Hp2. simpl in Hp2.
  destruct (reactStep_store (MFinally, c3, p3) s2.1 s2.2) as [Hj3 Hp3].
  fold s3 in Hj3, Hp3.
  change (3 + k) with (S (S (S k))).
  rewrite (runJobs_step _ _ _ _ Hj).
  rewrite (runJob_react _ _ [(MCatch, c2, p2)]);
    [by rewrite promises_set_jobs | by rewrite jobs_set_jobs |].
  fold s1. simpl fmap.
  rewrite (runJobs_step _ (JReact (MCatch, c2, p2) s1.1) []);
    [by rewrite jobs_set_jobs |].
  rewrite set_jobs_set_jobs -Hj1 set_jobs_id.
  rewrite (runJob_react _ _ [(MFinally, c3, p3)]);
    [by rewrite Hp1 lookup_insert_ne | done |].
  fold s2. simpl fmap.
  rewrite (runJobs_step _ (JReact (MFinally, c3, p3) s2.1) []);
    [by rewrite jobs_set_jobs |].
  rewrite set_jobs_set_jobs -{1}Hj1 -{1}Hj2 set_jobs_id.
  rewrite (runJob_react _ _ []);
    [by rewrite Hp2 Hp1 /= !lookup_insert_ne | by rewrite Hj2 |].
  fold s3. simpl fmap.
  rewrite -{1}Hj1 -{1}Hj2 -{1}Hj3 set_jobs_id.
  apply runJobs_idle. by rewrite Hj3 Hj2.
Qed.

Lemma fresh_spec (p : nat) (P : gmap nat PromiseState) :
  fresh ({[p]} ∪ dom P) ≠ p ∧ fresh ({[p]} ∪ dom P) ∉ dom P.
Proof.
  pose proof (is_fresh ({[p]} ∪ dom P)) as Hf. set_solver.
Qed.

Lemma react_pending (m : Method) (p : nat) (cb : Callback) (rs : list Reaction)
    (w : World) :
  promises w !! p = Some (Pending rs) →
  let q := fresh ({[p]} ∪ dom (promises w)) in
  react m p cb w =
    (Ok q, set_promises (<[p := Pending (rs ++ [(m, cb, q)])]>
                           (<[q := Pending []]> (promises w))) w).
Proof.
  intros Hp q. destruct (fresh_spec p (promises w)) as [Hne _]. fold q in Hne.
  unfold react. fold q. destruct w as [md ac st oo rc fl pr jb sx rg lg].
  simpl in *. by rewrite lookup_insert_ne // Hp.
Qed.

Lemma react_settled (m : Method) (p : nat) (cb : Callback) (o : Outcome)
    (w : World) :
  promises w !! p = Some (Settled o) →
  let q := fresh ({[p]} ∪ dom (promises w)) in
  react m p cb w =
    (Ok q, set_jobs (jobs w ++ [JReact (m, cb, q) o])
             (set_promises (<[q := Pending []]> (promises w)) w)).
Proof.
  intros Hp q. destruct (fresh_spec p (promises w)) as [Hne _]. fold q in Hne.
  unfold react. fold q. destruct w as [md ac st oo rc fl pr jb sx rg lg].
  simpl in *. by rewrite lookup_insert_ne // Hp.
Qed.

(** [q1.catch(c2).finally(c3)] on a promise [q1] that has no reaction yet. *)
Lemma chain_tail (w : World) (q1 : nat) (c2 c3 : Callback) :
  promises w !! q1 = Some (Pending []) →
  ∃ (q2 q3 : nat) (w' : World),
    (p2 ← catch_ q1 c2; p3 ← finally_ p2 c3; mret (VPromise p3)) w
      = (Ok (VPromise q3), w') ∧
    (q2 ∉ dom (promises w)) ∧ (q3 ∉ dom (promises w)) ∧ q2 ≠ q3 ∧
    promises w' =
      <[q2 := Pending [(MFinally, c3, q3)]]> (<[q3 := Pending []]>
        (<[q1 := Pending [(MCatch, c2, q2)]]> (<[q2 := Pending []]> (promises w)))) ∧
    w' = set_promises (promises w') w.
Proof.
  intros H1.
  unfold catch_, finally_. rewrite bind_unfold (react_pending _ _ _ [] _ H1) /=.
  set (q2 := fresh ({[q1]} ∪ dom (promises w))).
  destruct (fresh_spec q1 (promises w)) as [H21 H2]. fold q2 in H21, H2.
  set (w1 := set_promises _ w).
  assert (Hw1 : promises w1 =
    <[q1 := Pending [(MCatch, c2, q2)]]> (<[q2 := Pending []]> (promises w))).
  { subst w1. by destruct w. }
  assert (H2' : promises w1 !! q2 = Some (Pending [])).
  { by rewrite Hw1 lookup_insert_ne // lookup_insert_eq. }
  rewrite bind_unfold (react_pending _ _ _ [] _ H2') /= mret_unfold.
  set (q3 := fresh ({[q2]} ∪ dom (promises w1))).
  destruct (fresh_spec q2 (promises w1)) as [H32 H3]. fold q3 in H32, H3.
  exists q2, q3. eexists. split; [reflexivity|].
  rewrite Hw1 !dom_insert_L in H3.
  repeat apply conj; try done.
  - set_solver.
  - subst w1. by destruct w.
  - subst w1. by destruct w.
Qed.

Lemma react_absent (m : Method) (p : nat) (cb : Callback) (w : World) :
  promises w !! p = None →
  let q := fresh ({[p]} ∪ dom (promises w)) in
  react m p cb w =
    (Ok q, set_promises (<[p := Pending [(m, cb, q)]]>
                           (<[q := Pending []]> (promises w))) w).
Proof.
  intros Hp q. destruct (fresh_spec p (promises w)) as [Hne _]. fold q in Hne.
  unfold react. fold q. destruct w as [md ac st oo rc fl pr jb sx rg lg].
  simpl in *. by rewrite lookup_insert_ne // Hp.
Qed.

(** What becomes of the promise that the original function returned:
    it had settled already, a job that is queued settles it, or nothing in
    sight settles it. *)
Inductive Fate :=
  | Already (o : Outcome)
  | Later (o : Outcome)
  | Unsettled.

(** The three reactions of a chain, one after the other. *)
Definition chainSteps (c1 c2 c3 : Callback) (p1 p2 p3 : nat) (o : Outcome)
    (w : World) : World :=
  let s1 := reactStep (MThen, c1, p1) o w in
  let s2 := reactStep (MCatch, c2, p2) s1.1 s1.2 in
  (reactStep (MFinally, c3, p3) s2.1 s2.2).2.

(** Only the promise store and the job queue differ. *)
Definition storeOnly (w w' : World) : Prop :=
  w' = set_promises (promises w') (set_jobs (jobs w') w).

Lemma storeOnly_fields w w' :
  storeOnly w w' →
  log w' = log w ∧ flags w' = flags w ∧ records w' = records w ∧
  active w' = active w ∧ statics w' = statics w.
Proof. unfold storeOnly. intros ->. by destruct w. Qed.

Lemma afterSettle_fields q o w :
  jobs (afterSettle q o w) = jobs w ∧ flags (afterSettle q o w) = flags w ∧
  records (afterSettle q o w) = records w ∧
  log (afterSettle q o w) = log w ++ [EvSettled q o] ∧
  promises (afterSettle q o w) = <[q := Settled o]> (promises w).
Proof. by destruct w. Qed.

(** [p.then(c1)], the head of a chain, on the promise [p] that the
    original function returned. *)
Lemma chain_head (c1 : Callback) (p : nat) (f : Fate) (w : World) :
  jobs w = match f with Later o => [JSettle p o] | _ => [] end →
  match f with
  | Already o => promises w !! p = Some (Settled o)
  | Later _ => promises w !! p = Some (Pending [])
  | Unsettled => ∀ o, promises w !! p ≠ Some (Settled o)
  end →
  let q1 := fresh ({[p]} ∪ dom (promises w)) in
  ∃ w1 : World,
    then_ p c1 w = (Ok q1, w1) ∧ storeOnly w w1 ∧
    promises w1 !! q1 = Some (Pending []) ∧
    dom (promises w1) = {[p; q1]} ∪ dom (promises w) ∧
    match f with
    | Already o => jobs w1 = [JReact (MThen, c1, q1) o]
    | Later o =>
        jobs w1 = [JSettle p o] ∧
        promises w1 !! p = Some (Pending [(MThen, c1, q1)])
    | Unsettled => jobs w1 = []
    end.
Proof.
  intros Hj Hp q1.
  destruct (fresh_spec p (promises w)) as [Hq1p Hq1]. fold q1 in Hq1p, Hq1.
  unfold then_.
  destruct f as [o|o|].
  - rewrite (react_settled _ _ _ _ _ Hp). fold q1. eexists. split; [done|].
    destruct w as [md ac st oo rc fl pr jb sx rg lg]. simpl in *. subst jb.
    repeat apply conj; try done.
    + by rewrite lookup_insert_eq.
    + rewrite dom_insert_L. apply elem_of_dom_2 in Hp. set_solver.
  - rewrite (react_pending _ _ _ _ _ Hp). fold q1. eexists. split; [done|].
    destruct w as [md ac st oo rc fl pr jb sx rg lg]. simpl in *. subst jb.
    repeat apply conj; try done.
    + by rewrite lookup_insert_ne // lookup_insert_eq.
    + rewrite !dom_insert_L. set_solver.
    + by rewrite lookup_insert_eq.
  - destruct (promises w !! p) as [[rs|o]|] eqn:Hpp.
    + rewrite (react_pending _ _ _ _ _ Hpp). fold q1. eexists. split; [done|].
      destruct w as [md ac st oo rc fl pr jb sx rg lg]. simpl in *. subst jb.
      repeat apply conj; try done.
      * by rewrite lookup_insert_ne // lookup_insert_eq.
      * rewrite !dom_insert_L. set_solver.
    + by destruct (Hp o).
    + rewrite (react_absent _ _ _ _ Hpp). fold q1. eexists. split; [done|].
      destruct w as [md ac st oo rc fl pr jb sx rg lg]. simpl in *. subst jb.
      repeat apply conj; try done.
      * by rewrite lookup_insert_ne // lookup_insert_eq.
      * rewrite !dom_insert_L. set_solver.
Qed.

(** The chain [p.then(c1).catch(c2).finally(c3)], from its registration to
    the end of the jobs it gives rise to. *)
Lemma chain_outcome (c1 c2 c3 : Callback) (p : nat) (f : Fate) (w : World) :
  jobs w = match f with Later o => [JSettle p o] | _ => [] end →
  match f with
  | Already o => promises w !! p = Some (Settled o)
  | Later _ => promises w !! p = Some (Pending [])
  | Unsettled => ∀ o, promises w !! p ≠ Some (Settled o)
  end →
  ∃ (p1 p2 q : nat) (w' : World),
    (p1 ← then_ p c1; p2 ← catch_ p1 c2; p3 ← finally_ p2 c3; mret (VPromise p3)) w
      = (Ok (VPromise q), w') ∧
    storeOnly w w' ∧
    promises w' !! q = Some (Pending []) ∧
    (q ∉ dom (promises w)) ∧ p ≠ q ∧ p1 ≠ q ∧ p2 ≠ q ∧
    ∀ k : nat,
      runJobs (4 + k) w' =
        match f with
        | Already o => chainSteps c1 c2 c3 p1 p2 q o (set_jobs [] w')
        | Later o =>
            chainSteps c1 c2 c3 p1 p2 q o (afterSettle p o (set_jobs [] w'))
        | Unsettled => w'
        end.
Proof.
  intros Hj Hp.
  set (q1 := fresh ({[p]} ∪ dom (promises w))).
  destruct (fresh_spec p (promises w)) as [Hq1p Hq1]. fold q1 in Hq1p, Hq1.
  destruct (chain_head c1 p f w Hj Hp) as (w1 & Hstep). fold q1 in Hstep.
  destruct Hstep as (Hthen & Hso1 & Hw1q1 & Hdom1 & Hf).
  destruct (chain_tail w1 q1 c2 c3 Hw1q1)
    as (q2 & q3 & w2 & Htail & Hq2 & Hq3 & Hq23 & Hpr2 & Hso2).
  rewrite Hdom1 in Hq2 Hq3.
  assert (Hne : q1 ≠ q2 ∧ q1 ≠ q3 ∧ p ≠ q2 ∧ p ≠ q3) by set_solver.
  destruct Hne as (H12 & H13 & Hp2 & Hp3).
  exists q1, q2, q3, w2.
  assert (Hw2 : storeOnly w w2).
  { unfold storeOnly in *. clear -Hso1 Hso2.
    destruct w, w1, w2. simpl in *. congruence. }
  assert (Hjobs2 : jobs w2 = jobs w1).
  { rewrite Hso2. by destruct w1. }
  repeat apply conj; try done.
  - by rewrite bind_unfold Hthen.
  - by rewrite Hpr2 lookup_insert_ne // lookup_insert_eq.
  - set_solver.
  - intros k.
    assert (L1 : promises w2 !! q1 = Some (Pending [(MCatch, c2, q2)])).
    { rewrite Hpr2. by map_lookup. }
    assert (L2 : promises w2 !! q2 = Some (Pending [(MFinally, c3, q3)])).
    { by rewrite Hpr2 lookup_insert_eq. }
    assert (L3 : promises w2 !! q3 = Some (Pending [])).
    { by rewrite Hpr2 lookup_insert_ne // lookup_insert_eq. }
    destruct f as [o|o|].
    + change (4 + k) with (3 + S k).
      rewrite (runJobs_chain w2 c1 c2 c3 q1 q2 q3 o); try done.
      by rewrite Hjobs2.
    + destruct Hf as [Hjw1 Hpw1].
      change (4 + k) with (S (3 + k)).
      rewrite (runJobs_step _ (JSettle p o) []); [by rewrite Hjobs2|].
      simpl runJob.
      rewrite (settle_unsettled p o [(MThen, c1, q1)]).
      { rewrite promises_set_jobs Hpr2. by map_lookup. }
      simpl snd. rewrite jobs_set_jobs. simpl app. simpl fmap.
      destruct (afterSettle_fields p o (set_jobs [] w2))
        as (Aj & _ & _ & _ & Ap).
      rewrite jobs_set_jobs in Aj. rewrite promises_set_jobs in Ap.
      rewrite (runJobs_chain _ c1 c2 c3 q1 q2 q3 o);
        rewrite ?jobs_set_jobs ?promises_set_jobs ?Ap; try done;
        try by map_lookup.
      assert (E : ∀ js, set_jobs [] (set_jobs js (afterSettle p o (set_jobs [] w2)))
                        = afterSettle p o (set_jobs [] w2)).
      { intros js. by destruct w2. }
      by rewrite E.
    + apply runJobs_idle. by rewrite Hjobs2.
Qed.

(** The two reactions of a chain [p.then(c1).catch(c2)]. *)
Definition chainSteps2 (c1 c2 : Callback) (p1 p2 : nat) (o : Outcome)
    (w : World) : World :=
  let s1 := reactStep (MThen, c1, p1) o w in
  (reactStep (MCatch, c2, p2) s1.1 s1.2).2.

(** The chain [p.then(c1).catch(c2)] once [p] has settled with [o]. *)
Lemma runJobs_chain2 (w : World) (c1 c2 : Callback) (p1 p2 : nat)
    (o : Outcome) (k : nat) :
  jobs w = [JReact (MThen, c1, p1) o] →
  promises w !! p1 = Some (Pending [(MCatch, c2, p2)]) →
  promises w !! p2 = Some (Pending []) →
  p1 ≠ p2 →
  runJobs (2 + k) w = chainSteps2 c1 c2 p1 p2 o (set_jobs [] w).
Proof.
  intros Hj H1 H2 H12. unfold chainSteps2.
  set (s1 := reactStep (MThen, c1, p1) o (set_jobs [] w)).
  set (s2 := reactStep (MCatch, c2, p2) s1.1 s1.2).
  destruct (reactStep_store (MThen, c1, p1) o (set_jobs [] w)) as [Hj1 Hp1].
  fold s1 in Hj1, Hp1. rewrite jobs_set_jobs in Hj1.
  rewrite promises_set_jobs in Hp1. simpl in Hp1.
  destruct (reactStep_store (MCatch, c2, p2) s1.1 s1.2) as [Hj2 Hp2].
  fold s2 in Hj2, Hp2.
  change (2 + k) with (S (S k)).
  rewrite (runJobs_step _ _ _ _ Hj).
  rewrite (runJob_react _ _ [(MCatch, c2, p2)]);
    [by rewrite promises_set_jobs | by rewrite jobs_set_jobs |].
  fold s1. simpl fmap.
  rewrite (runJobs_step _ (JReact (MCatch, c2, p2) s1.1) []);
    [by rewrite jobs_set_jobs |].
  rewrite set_jobs_set_jobs -Hj1 set_jobs_id.
  rewrite (runJob_react _ _ []);
    [by rewrite Hp1 lookup_insert_ne | done |].
  fold s2. simpl fmap.
  rewrite -{1}Hj1 -{1}Hj2 set_jobs_id.
  apply runJobs_idle. by rewrite Hj2.
Qed.

(** The chain [p.then(c1).catch(c2)], from its registration to the end of
    the jobs it gives rise to. *)
Lemma chain_outcome2 (c1 c2 : Callback) (p : nat) (f : Fate) (w : World) :
  jobs w = match f with Later o => [JSettle p o] | _ => [] end →
  match f with
  | Already o => promises w !! p = Some (Settled o)
  | Later _ => promises w !! p = Some (Pending [])
  | Unsettled => ∀ o, promises w !! p ≠ Some (Settled o)
  end →
  ∃ (p1 q : nat) (w' : World),
    (p1 ← then_ p c1; p2 ← catch_ p1 c2; mret (VPromise p2)) w
      = (Ok (VPromise q), w') ∧
    storeOnly w w' ∧
    promises w' !! q = Some (Pending []) ∧
    (q ∉ dom (promises w)) ∧ p ≠ q ∧ p1 ≠ q ∧
    ∀ k : nat,
      runJobs (4 + k) w' =
        match f with
        | Already o => chainSteps2 c1 c2 p1 q o (set_jobs [] w')
        | Later o => chainSteps2 c1 c2 p1 q o (afterSettle p o (set_jobs [] w'))
        | Unsettled => w'
        end.
Proof.
  intros Hj Hp.
  set (q1 := fresh ({[p]} ∪ dom (promises w))).
  destruct (fresh_spec p (promises w)) as [Hq1p Hq1]. fold q1 in Hq1p, Hq1.
  destruct (chain_head c1 p f w Hj Hp) as (w1 & Hstep). fold q1 in Hstep.
  destruct Hstep as (Hthen & Hso1 & Hw1q1 & Hdom1 & Hf).
  set (q2 := fresh ({[q1]} ∪ dom (promises w1))).
  destruct (fresh_spec q1 (promises w1)) as [H21 H2]. fold q2 in H21, H2.
  set (w2 := set_promises (<[q1 := Pending [(MCatch, c2, q2)]]>
                             (<[q2 := Pending []]> (promises w1))) w1).
  assert (Hcatch : catch_ q1 c2 w1 = (Ok q2, w2)).
  { unfold catch_. by rewrite (react_pending _ _ _ [] _ Hw1q1). }
  rewrite Hdom1 in H2.
  assert (Hne : p ≠ q2 ∧ q2 ∉ dom (promises w)) by set_solver.
  destruct Hne as [Hp2 Hq2].
  assert (Hpr2 : promises w2 =
    <[q1 := Pending [(MCatch, c2, q2)]]> (<[q2 := Pending []]> (promises w1))).
  { subst w2. by destruct w1. }
  assert (Hjobs2 : jobs w2 = jobs w1).
  { subst w2. by destruct w1. }
  assert (Hw2 : storeOnly w w2).
  { unfold storeOnly in *. subst w2. clear -Hso1.
    destruct w, w1. simpl in *. congruence. }
  assert (H12 : q1 ≠ q2) by (by apply not_eq_sym).
  exists q1, q2, w2.
  repeat apply conj; try done.
  - by rewrite bind_unfold Hthen bind_unfold Hcatch.
  - rewrite Hpr2. by map_lookup.
  - intros k.
    assert (L1 : promises w2 !! q1 = Some (Pending [(MCatch, c2, q2)])).
    { by rewrite Hpr2 lookup_insert_eq. }
    assert (L2 : promises w2 !! q2 = Some (Pending [])).
    { rewrite Hpr2. by map_lookup. }
    destruct f as [o|o|].
    + change (4 + k) with (2 + S (S k)).
      rewrite (runJobs_chain2 w2 c1 c2 q1 q2 o); try done.
      by rewrite Hjobs2.
    + destruct Hf as [Hjw1 Hpw1].
      change (4 + k) with (S (2 + S k)).
      rewrite (runJobs_step _ (JSettle p o) []); [by rewrite Hjobs2|].
      simpl runJob.
      rewrite (settle_unsettled p o [(MThen, c1, q1)]).
      { rewrite promises_set_jobs Hpr2. by map_lookup. }
      simpl snd. rewrite jobs_set_jobs. simpl app. simpl fmap.
      destruct (afterSettle_fields p o (set_jobs [] w2))
        as (Aj & _ & _ & _ & Ap).
      rewrite jobs_set_jobs in Aj. rewrite promises_set_jobs in Ap.
      rewrite (runJobs_chain2 _ c1 c2 q1 q2 o);
        rewrite ?jobs_set_jobs ?promises_set_jobs ?Ap; try done;
        try (by map_lookup).
      assert (E : ∀ js, set_jobs [] (set_jobs js (afterSettle p o (set_jobs [] w2)))
                        = afterSettle p o (set_jobs [] w2)).
      { intros js. by destruct w2. }
      by rewrite E.
    + apply runJobs_idle. by rewrite Hjobs2.
Qed.

End EventLoop.

Section Invocation.

Import Promise Traces.

(** The fate of the promise that a behaviour returns in a given promise
    store, when it returns one. *)
Definition fate (b : Behaviour) (store : gmap nat PromiseState) : option Fate :=
  match b with
  | BSettled o => Some (Already o)
  | BPending o => Some (Later o)
  | BNever => Some Unsettled
  | BReturn (VPromise p) =>
      match store !! p with
      | Some (Settled o) => Some (Already o)
      | _ => Some Unsettled
      end
  | BReturn _ | BThrow _ => None
  end.

(** The status calls of a tracing wrapper for an outcome. *)
Definition statusEvents (span : Span) (o : Outcome) : list Event :=
  match o with
  | Fulfilled _ => [EvSetStatus span OK VUndefined]
  | Rejected e =>
      [EvSetStatus span ERROR (get_prop e "message"); EvRecordException span e]
  end.

Definition endEvents (span : Span) (createdSpan : bool) : list Event :=
  if createdSpan then [EvEnd span] else [].

(** The log of the chain of a tracing wrapper, [p1] and [p2] being the
    promises of [then] and [catch] and [q] that of [finally]. *)
Definition traceChainEvents (span : Span) (createdSpan : bool) (p1 p2 q : nat)
    (o : Outcome) : list Event :=
  match o with
  | Fulfilled _ => statusEvents span o ++ [EvSettled p1 o; EvSettled p2 o]
  | Rejected _ => [EvSettled p1 o] ++ statusEvents span o ++ [EvSettled p2 o]
  end ++ endEvents span createdSpan ++ [EvSettled q o].

Lemma traceChain (w : World) (span : Span) (createdSpan : bool)
    (spanEnded : loc) (p1 p2 q : nat) (o : Outcome) :
  flags w !! spanEnded = Some false →
  let w' := chainSteps (CbTraceOk span) (CbTraceErr span)
              (CbEndSpan spanEnded span createdSpan) p1 p2 q o w in
  log w' = log w ++ traceChainEvents span createdSpan p1 p2 q o ∧
  promises w' !! q = Some (Settled o) ∧
  jobs w' = jobs w.
Proof.
  intros Hflag. destruct w as [md ac st oo rc fl pr jb sx rg lg].
  simpl in Hflag.
  unfold chainSteps, reactStep, reactionOutcome, asOutcome, runCallback,
    endSpan, Otel.setStatus, Otel.recordException, Otel.end_, Heap.readFlag,
    Heap.writeFlag, afterSettle, traceChainEvents, statusEvents, endEvents.
  destruct o as [v|e], createdSpan; msimpl; rewrite Hflag; msimpl;
    rewrite -?app_assoc /=; by map_lookup.
Qed.

Lemma applyFn_promise (fn : Callee) (this : Value) (args : list Value)
    (span : Span) (f : Fate) (w : World) :
  fate (fn_body fn args this (Some span)) (promises w) = Some f →
  jobs w = [] →
  ∃ (p : nat) (w1 : World),
    Otel.withSpan span (applyFn fn this args) w = (Ok (VPromise p), w1) ∧
    log w1 = log w ++ [EvCall (fn_name fn) args this (Some span)] ∧
    flags w1 = flags w ∧ records w1 = records w ∧ active w1 = active w ∧
    statics w1 = statics w ∧
    jobs w1 = match f with Later o => [JSettle p o] | _ => [] end ∧
    match f with
    | Already o => promises w1 !! p = Some (Settled o)
    | Later _ => promises w1 !! p = Some (Pending [])
    | Unsettled => ∀ o, promises w1 !! p ≠ Some (Settled o)
    end.
Proof.
  intros Hf Hj. destruct w as [md ac st oo rc fl pr jb sx rg lg].
  simpl in *. subst jb.
  unfold Otel.withSpan, applyFn, newPromise. msimpl.
  destruct (fn_body fn args this (Some span)) as [e|v|o|o|]; simpl in Hf;
    try done.
  - destruct v; try done. msimpl.
    destruct (pr !! p) as [[rs|o]|] eqn:Hp; injection Hf as <-;
      do 2 eexists; repeat apply conj; try done; simpl; congruence.
  - injection Hf as <-. msimpl. do 2 eexists. repeat apply conj; try done.
    simpl. by map_lookup.
  - injection Hf as <-. msimpl. do 2 eexists. repeat apply conj; try done.
    simpl. by map_lookup.
  - injection Hf as <-. msimpl. do 2 eexists. repeat apply conj; try done.
    simpl. intros o. by map_lookup.
Qed.

Definition callEvent (fn : Callee) (this : Value) (args : list Value)
    (cur : option Span) : Event :=
  EvCall (fn_name fn) args this cur.

(** A wrapped call whose original function returns a promise. *)
Lemma traced_promise (wr : Wrapped) (this : Value) (args : list Value)
    (span : Span) (createdSpan : bool) (spanEnded : loc) (f : Fate) (w : World) :
  fate (fn_body (wr_fn wr) args this (Some span)) (promises w) = Some f →
  jobs w = [] →
  flags w !! spanEnded = Some false →
  ∃ (p p1 p2 q : nat) (w1 : World),
    traced wr this args span createdSpan spanEnded w = (Ok (VPromise q), w1) ∧
    log w1 = log w ++ [callEvent (wr_fn wr) this args (Some span)] ∧
    active w1 = active w ∧
    promises w1 !! q = Some (Pending []) ∧
    p ≠ q ∧ p1 ≠ q ∧ p2 ≠ q ∧
    ∀ k : nat,
      match f with
      | Already o =>
          log (runJobs (4 + k) w1)
            = log w1 ++ traceChainEvents span createdSpan p1 p2 q o ∧
          promises (runJobs (4 + k) w1) !! q = Some (Settled o)
      | Later o =>
          log (runJobs (4 + k) w1)
            = log w1 ++ EvSettled p o :: traceChainEvents span createdSpan p1 p2 q o ∧
          promises (runJobs (4 + k) w1) !! q = Some (Settled o)
      | Unsettled => runJobs (4 + k) w1 = w1
      end.
Proof.
  intros Hf Hj Hflag.
  destruct (applyFn_promise _ this args span f w Hf Hj)
    as (p & w0 & Happ & Hlog0 & Hfl0 & _ & Hact0 & _ & Hj0 & Hp0).
  destruct (chain_outcome (CbTraceOk span) (CbTraceErr span)
              (CbEndSpan spanEnded span createdSpan) p f w0 Hj0 Hp0)
    as (p1 & p2 & q & w1 & Hchain & Hso & Hq & _ & Hpq & Hp1q & Hp2q & Hrun).
  apply storeOnly_fields in Hso as Hfields.
  destruct Hfields as (Hlog1 & Hfl1 & _ & Hact1 & _).
  exists p, p1, p2, q, w1.
  repeat apply conj; try done.
  - unfold traced, try_catch. by rewrite bind_unfold Happ Hchain.
  - by rewrite Hlog1 Hlog0.
  - by rewrite Hact1 Hact0.
  - intros k. rewrite Hrun.
    destruct f as [o|o|]; [| |done].
    + destruct (traceChain (set_jobs [] w1) span createdSpan spanEnded p1 p2 q o)
        as (Hl & Hpr & _).
      { rewrite -Hflag -Hfl0 -Hfl1. by destruct w1. }
      split; [|done]. rewrite Hl. by destruct w1.
    + destruct (traceChain (afterSettle p o (set_jobs [] w1)) span createdSpan
                  spanEnded p1 p2 q o) as (Hl & Hpr & _).
      { rewrite -Hflag -Hfl0 -Hfl1. by destruct w1. }
      split; [|done]. rewrite Hl.
      destruct w1; simpl. by rewrite -app_assoc.
Qed.

(** A wrapped call whose original function returns a value that is not a
    promise. *)
Lemma traced_value (wr : Wrapped) (this : Value) (args : list Value)
    (span : Span) (createdSpan : bool) (spanEnded : loc) (v : Value) (w : World) :
  fn_body (wr_fn wr) args this (Some span) = BReturn v →
  isThenable v = false →
  flags w !! spanEnded = Some false →
  let q := fresh (dom (promises w)) in
  ∃ w1 : World,
    traced wr this args span createdSpan spanEnded w
      = (Ok (if wr_coerceToPromise wr then VPromise q else v), w1) ∧
    log w1 = log w ++
      [callEvent (wr_fn wr) this args (Some span)] ++
      statusEvents span (Fulfilled v) ++ endEvents span createdSpan ++
      (if wr_coerceToPromise wr then [EvSettled q (Fulfilled v)] else []) ∧
    (if wr_coerceToPromise wr
     then promises w1 !! q = Some (Settled (Fulfilled v))
     else promises w1 = promises w) ∧
    jobs w1 = jobs w ∧ active w1 = active w.
Proof.
  intros Hb Hv Hflag q. destruct w as [md ac st oo rc fl pr jb sx rg lg].
  simpl in Hflag. subst q.
  unfold traced, Otel.withSpan, applyFn, endSpan, resolve, newPromise,
    Otel.setStatus, Otel.end_, Heap.readFlag, Heap.writeFlag, callEvent,
    statusEvents, endEvents.
  msimpl. rewrite Hb. msimpl.
  destruct v; try done; msimpl; rewrite Hflag;
    destruct createdSpan, (wr_coerceToPromise wr); msimpl;
    eexists; repeat apply conj; try done;
    rewrite -?app_assoc //=; by map_lookup.
Qed.

(** A wrapped call whose original function throws. *)
Lemma traced_throw (wr : Wrapped) (this : Value) (args : list Value)
    (span : Span) (createdSpan : bool) (spanEnded : loc) (e : Value) (w : World) :
  fn_body (wr_fn wr) args this (Some span) = BThrow e →
  flags w !! spanEnded = Some false →
  let q := fresh (dom (promises w)) in
  ∃ w1 : World,
    traced wr this args span createdSpan spanEnded w
      = (if wr_coerceToPromise wr then Ok (VPromise q) else Throw e, w1) ∧
    log w1 = log w ++
      [callEvent (wr_fn wr) this args (Some span)] ++
      statusEvents span (Rejected e) ++ endEvents span createdSpan ++
      (if wr_coerceToPromise wr then [EvSettled q (Rejected e)] else []) ∧
    (if wr_coerceToPromise wr
     then promises w1 !! q = Some (Settled (Rejected e))
     else promises w1 = promises w) ∧
    jobs w1 = jobs w ∧ active w1 = active w.
Proof.
  intros Hb Hflag q. destruct w as [md ac st oo rc fl pr jb sx rg lg].
  simpl in Hflag. subst q.
  unfold traced, Otel.withSpan, applyFn, endSpan, reject, newPromise,
    Otel.setStatus, Otel.recordException, Otel.end_, Heap.readFlag,
    Heap.writeFlag, callEvent, statusEvents, endEvents.
  msimpl. rewrite Hb. msimpl. rewrite Hflag.
  destruct createdSpan, (wr_coerceToPromise wr); msimpl;
    eexists; repeat apply conj; try done;
    rewrite -?app_assoc //=; by map_lookup.
Qed.

(** What the gate of a wrapper decides for a call, and the calls of the
    user callbacks that a wrapper logs. *)
Definition gateResult (wr : Wrapped) (this : Value) (args : list Value)
    (w : World) : Result bool :=
  match wr_traceOnlyIf wr with
  | GateBool b => Ok b
  | GateFn f =>
      match f args this (active w) with
      | Ok v => Ok (truthy v)
      | Throw e => Throw e
      end
  end.

Definition gateEvents (wr : Wrapped) (this : Value) (args : list Value)
    (w : World) : list Event :=
  match wr_traceOnlyIf wr with
  | GateFn _ => [EvGate args this (active w)]
  | GateBool _ => []
  end.

Definition dynResult (wr : Wrapped) (args : list Value) : Result Rec :=
  match wr_dynamicAttributes wr with
  | Some f => f args
  | None => Ok ∅
  end.

Definition dynEvents (wr : Wrapped) (args : list Value) : list Event :=
  match wr_dynamicAttributes wr with
  | Some _ => [EvDynamic args]
  | None => []
  end.

(** The span of a traced call: the active one when it is reused. *)
Definition spanOf (mode : StartMode) (w : World) : Span :=
  match mode, active w with
  | reuse, Some a => a
  | (newTrace | newTraceWithLink), _ => startedSpan true w
  | _, _ => startedSpan false w
  end.

(** A call that passes the gate: everything up to the [try]. *)
Lemma wrapped_traced (wr : Wrapped) (this : Value) (args : list Value)
    (dyn : Rec) (w : World) :
  gateResult wr this args w = Ok true →
  dynResult wr args = Ok dyn →
  let createdSpan := createsSpan (wr_startMode wr) (active w) in
  let span := spanOf (wr_startMode wr) w in
  ∃ (spanEnded : loc) (w0 : World) (attrs : Rec) (root : bool) (links : list Span),
    wrapped wr this args w = traced wr this args span createdSpan spanEnded w0 ∧
    flags w0 !! spanEnded = Some false ∧
    jobs w0 = jobs w ∧ promises w0 = promises w ∧ active w0 = active w ∧
    log w0 = log w ++ gateEvents wr this args w ++ dynEvents wr args ++
      (if createdSpan
       then [EvStartSpan (wr_moduleName wr) (wr_spanName wr) attrs root links span]
       else []).
Proof.
  intros Hgate Hdyn createdSpan span.
  unfold wrapped, getCurrentSpan. rewrite bind_unfold. unfold gets at 1.
  assert (Hg : ∃ wg : World,
    match wr_traceOnlyIf wr with
    | GateFn f =>
        emit (EvGate args this (active w)) ;;
        v ← lift (f args this (active w)); mret (truthy v)
    | GateBool b => mret b
    end w = (Ok true, wg) ∧
    wg = set_log (log w ++ gateEvents wr this args w) w).
  { unfold gateResult, gateEvents in *.
    destruct (wr_traceOnlyIf wr) as [b|g].
    - injection Hgate as ->. exists w. split; [done|].
      rewrite app_nil_r. by destruct w.
    - msimpl. destruct (g args this (active w)) as [v|e]; [|done].
      injection Hgate as ->. eexists. by split. }
  destruct Hg as (wg & Hg & Hwg). rewrite bind_unfold Hg. cbn [negb].
  assert (Hd : ∃ wd : World,
    match wr_dynamicAttributes wr with
    | Some f => emit (EvDynamic args) ;; lift (f args)
    | None => mret ∅
    end wg = (Ok dyn, wd) ∧
    wd = set_log (log wg ++ dynEvents wr args) wg).
  { unfold dynResult, dynEvents in *.
    destruct (wr_dynamicAttributes wr) as [d|].
    - msimpl. rewrite Hdyn. eexists. by split.
    - injection Hdyn as <-. exists wg. split; [done|].
      rewrite app_nil_r. by destruct wg. }
  destruct Hd as (wd & Hd & Hwd). rewrite bind_unfold Hd.
  unfold Heap.allocRecord at 1. rewrite bind_unfold.
  unfold Heap.allocOptions at 1. rewrite bind_unfold.
  set (la := fresh (dom (records wd))).
  set (merged := functionNameAttr (wr_fn wr) ∪ (dyn ∪ wr_attributes wr)).
  set (lo := fresh (dom (optionObjs (set_records (<[la:=merged]> (records wd)) wd)))).
  set (wa := set_optionObjs _ (set_records _ wd)).
  destruct (getSpan_run (wr_spanName wr) (Some lo) (wr_startMode wr)
              (wr_moduleName wr) wa) as (l & w1 & Hrule & Hget).
  destruct (_setSamplingRule_spec (Some lo) wa)
    as (l' & la' & w1' & Hrule' & Hheap & _).
  rewrite Hrule in Hrule'. injection Hrule' as <- <-.
  apply heapOnly_fields in Hheap
    as (_ & Hact1 & Hst1 & Hlog1 & Hpr1 & Hj1 & Hfl1 & _).
  rewrite bind_unfold Hget.
  assert (Hwa : active wa = active w ∧ started wa = started w ∧
                jobs wa = jobs w ∧ promises wa = promises w ∧
                log wa = log w ++ gateEvents wr this args w ++ dynEvents wr args).
  { subst wa wd wg. destruct w. simpl. by rewrite -app_assoc. }
  destruct Hwa as (Ha & Hs & Hj & Hp & Hl).
  assert (Hspan : startedSpan true wa = startedSpan true w ∧
                  startedSpan false wa = startedSpan false w).
  { unfold startedSpan, Otel.freshTraceId, Otel.freshSpanId, Otel.known.
    by rewrite Ha Hs. }
  destruct Hspan as [Hst Hsf].
  assert (Hco : callerOptions (Some lo) wa = mkSpanOptions (Some la) None None).
  { subst wa lo. destruct wd. simpl. by rewrite lookup_insert_eq. }
  rewrite Hco.
  subst createdSpan span. unfold spanOf, createsSpan. rewrite Ha.
  destruct (wr_startMode wr), (active w) as [a|] eqn:Hactive; simpl;
    rewrite ?Hst ?Hsf; unfold Heap.allocFlag; rewrite bind_unfold.
  all: first
    [ solve [ eexists _, _, ∅, false, []; split; [reflexivity|];
              destruct w1; simpl in *; subst;
              rewrite ?lookup_insert_eq ?Hl -?app_assoc ?app_nil_r;
              repeat apply conj; first [reflexivity | congruence] ]
    | solve [ do 5 eexists; split; [reflexivity|];
              destruct w1; simpl in *; subst;
              rewrite ?lookup_insert_eq ?Hl -?app_assoc ?app_nil_r;
              repeat apply conj; first [reflexivity | congruence] ] ].
Qed.

Lemma wrapped_gated_off (wr : Wrapped) (this : Value) (args : list Value)
    (w : World) :
  gateResult wr this args w = Ok false →
  wrapped wr this args w =
    (res ← applyFn (wr_fn wr) this args;
     if wr_coerceToPromise wr then resolve res else mret res)
      (set_log (log w ++ gateEvents wr this args w) w).
Proof.
  intros Hgate.
  unfold wrapped, getCurrentSpan. rewrite bind_unfold. unfold gets at 1.
  assert (Hg : ∃ wg : World,
    match wr_traceOnlyIf wr with
    | GateFn f =>
        emit (EvGate args this (active w)) ;;
        v ← lift (f args this (active w)); mret (truthy v)
    | GateBool b => mret b
    end w = (Ok false, wg) ∧
    wg = set_log (log w ++ gateEvents wr this args w) w).
  { unfold gateResult, gateEvents in *.
    destruct (wr_traceOnlyIf wr) as [b|g].
    - injection Hgate as ->. exists w. split; [done|].
      rewrite app_nil_r. by destruct w.
    - msimpl. destruct (g args this (active w)) as [v|e]; [|done].
      injection Hgate as ->. eexists. by split. }
  destruct Hg as (wg & Hg & ->). by rewrite bind_unfold Hg.
Qed.

(** A call that the gate turns away: the original function runs outside
    any span, and its completion is passed on or, in legacy mode, its
    value is wrapped. *)
Lemma wrapped_untraced (wr : Wrapped) (this : Value) (args : list Value)
    (w : World) (k : nat) :
  gateResult wr this args w = Ok false →
  jobs w = [] →
  let r := (wrapped wr this args w).1 in
  let w2 := runJobs (4 + k) (wrapped wr this args w).2 in
  ∃ C : list Event,
    log w2 = log w ++
      (gateEvents wr this args w ++ [callEvent (wr_fn wr) this args (active w)]) ++ C ∧
    (C = [] ∨ ∃ q o, C = [EvSettled q o] ∧ r = Ok (VPromise q)) ∧
    match fn_body (wr_fn wr) args this (active w) with
    | BThrow e => r = Throw e ∧ C = []
    | BReturn v =>
        if isThenable v then r = Ok v
        else if wr_coerceToPromise wr
             then ∃ q, r = Ok (VPromise q) ∧ C = [EvSettled q (Fulfilled v)] ∧
                       promises w2 !! q = Some (Settled (Fulfilled v))
             else r = Ok v ∧ C = []
    | _ => True
    end.
Proof.
  intros Hgate Hj r w2. subst r w2.
  rewrite (wrapped_gated_off _ _ _ _ Hgate).
  destruct w as [md ac st oo rc fl pr jb sx rg lg]. simpl in *. subst jb.
  unfold applyFn, resolve, newPromise, callEvent. msimpl.
  destruct (fn_body (wr_fn wr) args this ac) as [e|v|o|o|];
    destruct (wr_coerceToPromise wr); msimpl.
  - exists []. rewrite ?runJobs_idle //=. rewrite -!app_assoc. eauto.
  - exists []. rewrite ?runJobs_idle //=. rewrite -!app_assoc. eauto.
  - destruct v; msimpl; rewrite ?runJobs_idle //=;
      try (eexists [_]; rewrite -!app_assoc; split; [done|];
           split; [by eauto|]; eexists; repeat split; by map_lookup).
    exists []; rewrite -!app_assoc; by eauto.
  - destruct v; msimpl; rewrite ?runJobs_idle //=;
      exists []; rewrite -!app_assoc; by eauto.
  - rewrite ?runJobs_idle //=. exists []; rewrite -!app_assoc; by eauto.
  - rewrite ?runJobs_idle //=. exists []; rewrite -!app_assoc; by eauto.
  - (erewrite runJobs_step; [|reflexivity]).
    simpl runJob. unfold settle. simpl. rewrite lookup_insert_eq /=.
    rewrite ?runJobs_idle //=.
    eexists [_]. rewrite -!app_assoc. split; [done|]. split; eauto.
  - (erewrite runJobs_step; [|reflexivity]).
    simpl runJob. unfold settle. simpl. rewrite lookup_insert_eq /=.
    rewrite ?runJobs_idle //=.
    eexists [_]. rewrite -!app_assoc. split; [done|]. split; eauto.
  - rewrite ?runJobs_idle //=. exists []; rewrite -!app_assoc; by eauto.
  - rewrite ?runJobs_idle //=. exists []; rewrite -!app_assoc; by eauto.
Qed.


End Invocation.

Section Ordering.

(** Settlement side effects: status, recorded exception, error label. *)
Definition isEffect (e : Event) : bool :=
  match e with
  | EvSetStatus _ _ _ | EvRecordException _ _ | EvLabelAssign _ _ _ => true
  | _ => false
  end.

(** Lifecycle release: the end of a span, the stop of a timer, the write
    of a metric.  The start of a timer is none. *)
Definition isRelease (e : Event) : bool :=
  match e with
  | EvEnd _ => true
  | EvMetric _ op _ _ => if op is OpStartTimer then false else true
  | _ => false
  end.

Definition returnedPromise (r : Result Value) : option nat :=
  match r with
  | Ok (VPromise q) => Some q
  | _ => None
  end.

(** The settlement of the promise that the wrapper returned. *)
Definition completes (r : Result Value) (e : Event) : bool :=
  match e with
  | EvSettled p _ => bool_decide (returnedPromise r = Some p)
  | _ => false
  end.

(** The completion [r] of a wrapper conveys the outcome [o]: it throws the
    very error, returns the very value, or returns a promise that has
    settled with [o]. *)
Definition conveys (r : Result Value) (w : World) (o : Outcome) : Prop :=
  match r with
  | Throw e => o = Rejected e
  | Ok (VPromise q) => promises w !! q = Some (Settled o)
  | Ok v => o = Fulfilled v
  end.

(** The settlement of the returned promise, when a promise was returned. *)
Definition completion (r : Result Value) (o : Outcome) : list Event :=
  match returnedPromise r with
  | Some q => [EvSettled q o]
  | None => []
  end.

(** Events that are none of the three. *)
Definition quiet (r : Result Value) (e : Event) : bool :=
  match e with
  | EvGate _ _ _ | EvDynamic _ | EvStartSpan _ _ _ _ _ _ | EvCall _ _ _ _ => true
  | EvMetric _ op _ _ => if op is OpStartTimer then true else false
  | EvSettled p _ => negb (bool_decide (returnedPromise r = Some p))
  | _ => false
  end.

(** Every [P]-event of the list lies before every [Q]-event. *)
Definition inOrder (P Q : Event → bool) (l : list Event) : Prop :=
  ∀ (i j : nat) (x y : Event),
    l !! i = Some x → l !! j = Some y → P x = true → Q y = true → i < j.

(** The log of one invocation, in its phases: side effects [S], then
    release [R], then the settlement [C] of the returned promise, with
    quiet events before and between. *)
Definition phased (r : Result Value) (N1 S N2 R C : list Event) : Prop :=
  Forall (λ e, quiet r e = true) N1 ∧
  Forall (λ e, isEffect e = true) S ∧
  Forall (λ e, quiet r e = true) N2 ∧
  Forall (λ e, isRelease e = true) R ∧
  (C = [] ∨ ∃ q o, C = [EvSettled q o] ∧ r = Ok (VPromise q)).

Lemma quiet_neither (r : Result Value) (e : Event) :
  quiet r e = true →
  isEffect e = false ∧ isRelease e = false ∧ completes r e = false.
Proof.
  destruct e as [| | | | | | | |m [] l v|]; simpl; try done.
  intros H. by apply negb_true_iff in H.
Qed.

Lemma inOrder_app (P Q : Event → bool) (A B : list Event) :
  Forall (λ e, Q e = false) A →
  Forall (λ e, P e = false) B →
  inOrder P Q (A ++ B).
Proof.
  intros HA HB i j x y Hi Hj HP HQ.
  rewrite Forall_forall in HA. rewrite Forall_forall in HB.
  destruct (decide (j < length A)) as [Hlt|Hge].
  - rewrite lookup_app_l // in Hj.
    apply list_elem_of_lookup_2 in Hj. apply HA in Hj. congruence.
  - destruct (decide (i < length A)) as [Hlt|Hge']; [lia|].
    rewrite lookup_app_r in Hi; [lia|].
    apply list_elem_of_lookup_2 in Hi. apply HB in Hi. congruence.
Qed.

Lemma filter_nothing (P : Event → bool) (l : list Event) :
  Forall (λ e, P e = false) l → List.filter P l = [].
Proof.
  induction 1 as [|e l He _ IH]; [done|]. simpl. by rewrite He.
Qed.

Lemma filter_everything (P : Event → bool) (l : list Event) :
  Forall (λ e, P e = true) l → List.filter P l = l.
Proof.
  induction 1 as [|e l He _ IH]; [done|]. simpl. by rewrite He IH.
Qed.

(** The three orderings of one invocation's log. *)
Definition ordered (r : Result Value) (delta : list Event) : Prop :=
  inOrder isEffect isRelease delta ∧
  inOrder isRelease (completes r) delta ∧
  inOrder isEffect (completes r) delta.

(** The side effects, the releases and the completion found in a log. *)
Definition phases (r : Result Value) (delta S R C : list Event) : Prop :=
  List.filter isEffect delta = S ∧
  List.filter isRelease delta = R ∧
  List.filter (completes r) delta = C.

(** The log of one invocation where quiet events may also lie between the
    release and the settlement of the returned promise. *)
Definition staged (r : Result Value) (N1 S N2 R N3 C : list Event) : Prop :=
  Forall (λ e, quiet r e = true) N1 ∧
  Forall (λ e, isEffect e = true) S ∧
  Forall (λ e, quiet r e = true) N2 ∧
  Forall (λ e, isRelease e = true) R ∧
  Forall (λ e, quiet r e = true) N3 ∧
  (C = [] ∨ ∃ q o, C = [EvSettled q o] ∧ r = Ok (VPromise q)).

(** What each kind of event is not. *)
Lemma staged_kinds (r : Result Value) (N1 S N2 R N3 C : list Event) :
  staged r N1 S N2 R N3 C →
  let none (P : Event → bool) (l : list Event) := Forall (λ e, P e = false) l in
  (none isEffect N1 ∧ none isRelease N1 ∧ none (completes r) N1) ∧
  (none isRelease S ∧ none (completes r) S) ∧
  (none isEffect N2 ∧ none isRelease N2 ∧ none (completes r) N2) ∧
  (none isEffect R ∧ none (completes r) R) ∧
  (none isEffect N3 ∧ none isRelease N3 ∧ none (completes r) N3) ∧
  (none isEffect C ∧ none isRelease C ∧ Forall (λ e, completes r e = true) C).
Proof.
  intros (HN1 & HS & HN2 & HR & HN3 & HC) none. subst none. simpl.
  pose proof (quiet_neither r) as Hq.
  assert (HQ : ∀ N, Forall (λ e, quiet r e = true) N →
    Forall (λ e, isEffect e = false) N ∧ Forall (λ e, isRelease e = false) N ∧
    Forall (λ e, completes r e = false) N).
  { intros N HN. repeat apply conj; (eapply Forall_impl; [exact HN|]);
      intros e He; by apply Hq. }
  repeat apply conj; try (by apply HQ).
  - eapply Forall_impl; [exact HS|]. by intros [].
  - eapply Forall_impl; [exact HS|]. by intros [].
  - eapply Forall_impl; [exact HR|]. by intros [].
  - eapply Forall_impl; [exact HR|]. by intros [].
  - destruct HC as [->|(q & o & -> & _)]; by repeat constructor.
  - destruct HC as [->|(q & o & -> & _)]; by repeat constructor.
  - destruct HC as [->|(q & o & -> & ->)]; repeat constructor.
    simpl. by rewrite bool_decide_eq_true_2.
Qed.

Lemma staged_ordered (r : Result Value) (N1 S N2 R N3 C : list Event) :
  staged r N1 S N2 R N3 C →
  ordered r (N1 ++ S ++ N2 ++ R ++ N3 ++ C).
Proof.
  intros H. apply staged_kinds in H. simpl in H.
  destruct H as ((E1 & R1 & C1) & (R2 & C2) & (E3 & R3 & C3) & (E4 & C4) &
                 (E5 & R5 & C5) & (E6 & R6 & _)).
  repeat apply conj.
  - rewrite (assoc_L (++) N1) (assoc_L (++) (N1 ++ S)).
    apply inOrder_app; by rewrite !Forall_app.
  - rewrite (assoc_L (++) N1) (assoc_L (++) (N1 ++ S))
      (assoc_L (++) (_ ++ N2)) (assoc_L (++) (_ ++ R)).
    apply inOrder_app; by rewrite ?Forall_app.
  - rewrite (assoc_L (++) N1) (assoc_L (++) (N1 ++ S))
      (assoc_L (++) (_ ++ N2)) (assoc_L (++) (_ ++ R)).
    apply inOrder_app; by rewrite ?Forall_app.
Qed.

Lemma staged_phases (r : Result Value) (N1 S N2 R N3 C : list Event) :
  staged r N1 S N2 R N3 C →
  phases r (N1 ++ S ++ N2 ++ R ++ N3 ++ C) S R C.
Proof.
  intros H. pose proof H as (_ & HS & _ & HR & _).
  apply staged_kinds in H. simpl in H.
  destruct H as ((E1 & R1 & C1) & (R2 & C2) & (E3 & R3 & C3) & (E4 & C4) &
                 (E5 & R5 & C5) & (E6 & R6 & C6)).
  unfold phases. rewrite !List.filter_app.
  rewrite (filter_nothing isEffect N1) // (filter_nothing isEffect N2) //
    (filter_nothing isEffect R) // (filter_nothing isEffect N3) //
    (filter_nothing isEffect C) //.
  rewrite (filter_nothing isRelease N1) // (filter_nothing isRelease S) //
    (filter_nothing isRelease N2) // (filter_nothing isRelease N3) //
    (filter_nothing isRelease C) //.
  rewrite (filter_nothing (completes r) N1) // (filter_nothing (completes r) S) //
    (filter_nothing (completes r) N2) // (filter_nothing (completes r) R) //
    (filter_nothing (completes r) N3) //.
  rewrite (filter_everything isEffect S) // (filter_everything isRelease R) //
    (filter_everything (completes r) C) //.
  by rewrite /= !app_nil_r.
Qed.

Lemma phased_staged (r : Result Value) (N1 S N2 R C : list Event) :
  phased r N1 S N2 R C → staged r N1 S N2 R [] C.
Proof. intros (HN1 & HS & HN2 & HR & HC). by repeat split. Qed.


(** One invocation [call], made in world [w] and run to the end of its
    jobs, runs in order: its log is ordered, and when the original function
    settles with an outcome [o], the side effects are [S o], the releases
    [R o], and the wrapper conveys [o] after them. *)
Definition runsInOrder (call : M Value) (settled : option Outcome) (w : World)
    (k : nat) (S R : Outcome → list Event) : Prop :=
  let r := (call w).1 in
  let w2 := Promise.runJobs (4 + k) (call w).2 in
  ∃ delta : list Event,
    log w2 = log w ++ delta ∧ ordered r delta ∧
    match settled with
    | Some o => phases r delta (S o) (R o) (completion r o) ∧ conveys r w2 o
    | None => True
    end.

End Ordering.

Section TracingRuns.

Import Promise Traces.

(** The outcome with which a call settles within the run, if it does. *)
Definition settledWith (b : Behaviour) (store : gmap nat PromiseState)
    : option Outcome :=
  match b with
  | BThrow e => Some (Rejected e)
  | BReturn (VPromise p) =>
      match store !! p with
      | Some (Settled o) => Some o
      | _ => None
      end
  | BReturn v => Some (Fulfilled v)
  | BSettled o | BPending o => Some o
  | BNever => None
  end.

Lemma wrapped_gate_throws (wr : Wrapped) (this : Value) (args : list Value)
    (e : Value) (w : World) :
  gateResult wr this args w = Throw e →
  wrapped wr this args w
    = (Throw e, set_log (log w ++ gateEvents wr this args w) w).
Proof.
  intros Hgate. unfold wrapped, getCurrentSpan, gateResult, gateEvents in *.
  destruct (wr_traceOnlyIf wr) as [b|g]; [done|].
  msimpl. by destruct (g args this (active w)) as [v|e']; [|injection Hgate as ->].
Qed.

Lemma wrapped_dyn_throws (wr : Wrapped) (this : Value) (args : list Value)
    (e : Value) (w : World) :
  gateResult wr this args w = Ok true →
  dynResult wr args = Throw e →
  wrapped wr this args w
    = (Throw e,
       set_log (log w ++ gateEvents wr this args w ++ dynEvents wr args) w).
Proof.
  intros Hgate Hdyn.
  unfold wrapped, getCurrentSpan, gateResult, gateEvents, dynResult,
    dynEvents in *.
  destruct (wr_dynamicAttributes wr) as [d|]; [|done].
  destruct (wr_traceOnlyIf wr) as [b|g].
  - injection Hgate as ->. msimpl. rewrite Hdyn. by destruct w.
  - msimpl. destruct (g args this (active w)) as [v|e']; [|done].
    injection Hgate as ->. msimpl. rewrite Hdyn. destruct w; simpl.
    by rewrite -app_assoc.
Qed.

Lemma statusEvents_effect (span : Span) (o : Outcome) :
  Forall (λ e, isEffect e = true) (statusEvents span o).
Proof. destruct o; by repeat constructor. Qed.

Lemma endEvents_release (span : Span) (c : bool) :
  Forall (λ e, isRelease e = true) (endEvents span c).
Proof. destruct c; by repeat constructor. Qed.

Lemma endEvents_cases (span : Span) (c : bool) :
  endEvents span c = [] ∨ (endEvents span c = [EvEnd span] ∧ c = true).
Proof. destruct c; simpl; eauto. Qed.

Lemma quiet_settled (p q : nat) (o : Outcome) :
  p ≠ q → quiet (Ok (VPromise q)) (EvSettled p o) = true.
Proof.
  intros Hne. simpl. apply negb_true_iff, bool_decide_eq_false. congruence.
Qed.

(** The span section of a wrapped call, run to the end of its jobs. *)
Lemma traced_run (wr : Wrapped) (this : Value) (args : list Value)
    (span : Span) (createdSpan : bool) (spanEnded : loc) (w : World) (k : nat) :
  jobs w = [] →
  flags w !! spanEnded = Some false →
  let r := (traced wr this args span createdSpan spanEnded w).1 in
  let w2 := runJobs (4 + k) (traced wr this args span createdSpan spanEnded w).2 in
  ∃ N0 S N2 R C : list Event,
    log w2 = log w ++
      (callEvent (wr_fn wr) this args (Some span) :: N0) ++ S ++ N2 ++ R ++ C ∧
    Forall (λ e, quiet r e = true) N0 ∧
    Forall (λ e, quiet r e = true) N2 ∧
    (C = [] ∨ ∃ q o, C = [EvSettled q o] ∧ r = Ok (VPromise q)) ∧
    match settledWith (fn_body (wr_fn wr) args this (Some span)) (promises w) with
    | Some o =>
        S = statusEvents span o ∧ R = endEvents span createdSpan ∧
        conveys r w2 o ∧ C = completion r o
    | None => S = [] ∧ R = []
    end.
Proof.
  intros Hj Hflag r w2.
  destruct (fate (fn_body (wr_fn wr) args this (Some span)) (promises w))
    as [f|] eqn:Hf.
  - destruct (traced_promise wr this args span createdSpan spanEnded f w Hf Hj Hflag)
      as (p & p1 & p2 & q & w1 & Ht & Hl1 & _ & _ & Hpq & Hp1q & Hp2q & Hrun).
    subst r w2. rewrite Ht. simpl fst. simpl snd. specialize (Hrun k).
    assert (Hs : settledWith (fn_body (wr_fn wr) args this (Some span)) (promises w)
                 = match f with Already o | Later o => Some o | Unsettled => None end).
    { unfold fate, settledWith in *.
      destruct (fn_body (wr_fn wr) args this (Some span)) as [e|v|o|o|];
        try done; try (by injection Hf as <-).
      destruct v; try done. destruct (promises w !! p0) as [[rs|o]|];
        by injection Hf as <-. }
    rewrite Hs. clear Hs.
    destruct f as [o|o|].
    + destruct Hrun as [-> Hq]. rewrite Hl1. unfold traceChainEvents.
      destruct o as [v|e].
      * exists [], (statusEvents span (Fulfilled v)),
          [EvSettled p1 (Fulfilled v); EvSettled p2 (Fulfilled v)],
          (endEvents span createdSpan), [EvSettled q (Fulfilled v)].
        rewrite -!app_assoc /=. repeat apply conj; eauto.
        repeat constructor; by apply quiet_settled.
      * exists [EvSettled p1 (Rejected e)], (statusEvents span (Rejected e)),
          [EvSettled p2 (Rejected e)],
          (endEvents span createdSpan), [EvSettled q (Rejected e)].
        rewrite -!app_assoc /=. repeat apply conj; eauto;
          repeat constructor; by apply quiet_settled.
    + destruct Hrun as [-> Hq]. rewrite Hl1. unfold traceChainEvents.
      destruct o as [v|e].
      * exists [EvSettled p (Fulfilled v)], (statusEvents span (Fulfilled v)),
          [EvSettled p1 (Fulfilled v); EvSettled p2 (Fulfilled v)],
          (endEvents span createdSpan), [EvSettled q (Fulfilled v)].
        rewrite -!app_assoc /=. repeat apply conj; eauto;
          repeat constructor; by apply quiet_settled.
      * exists [EvSettled p (Rejected e); EvSettled p1 (Rejected e)],
          (statusEvents span (Rejected e)), [EvSettled p2 (Rejected e)],
          (endEvents span createdSpan), [EvSettled q (Rejected e)].
        rewrite -!app_assoc /=. repeat apply conj; eauto;
          repeat constructor; by apply quiet_settled.
    + rewrite Hrun Hl1. exists [], [], [], [], [].
      rewrite !app_nil_r. repeat apply conj; eauto.
  - destruct (fn_body (wr_fn wr) args this (Some span)) as [e|v|o|o|] eqn:Hb;
      try done.
    + destruct (traced_throw wr this args span createdSpan spanEnded e w Hb Hflag)
        as (w1 & Ht & Hl1 & Hpr1 & Hj1 & _).
      subst r w2. rewrite Ht. simpl fst. simpl snd.
      rewrite runJobs_idle; [by rewrite Hj1|]. rewrite Hl1.
      exists [], (statusEvents span (Rejected e)), [],
        (endEvents span createdSpan),
        (if wr_coerceToPromise wr
         then [EvSettled (fresh (dom (promises w))) (Rejected e)] else []).
      simpl. destruct (wr_coerceToPromise wr); repeat apply conj; eauto; done.
    + assert (Hv : isThenable v = false).
      { destruct v; try done. simpl in Hf. by destruct (promises w !! p) as [[]|]. }
      destruct (traced_value wr this args span createdSpan spanEnded v w Hb Hv Hflag)
        as (w1 & Ht & Hl1 & Hpr1 & Hj1 & _).
      subst r w2. rewrite Ht. simpl fst. simpl snd.
      rewrite runJobs_idle; [by rewrite Hj1|]. rewrite Hl1.
      exists [], (statusEvents span (Fulfilled v)), [],
        (endEvents span createdSpan),
        (if wr_coerceToPromise wr
         then [EvSettled (fresh (dom (promises w))) (Fulfilled v)] else []).
      simpl. destruct (wr_coerceToPromise wr), v; try done;
        repeat apply conj; eauto; done.
Qed.

Lemma gateEvents_quiet r wr this args w :
  Forall (λ e, quiet r e = true) (gateEvents wr this args w).
Proof. unfold gateEvents. destruct (wr_traceOnlyIf wr); by repeat constructor. Qed.

Lemma dynEvents_quiet r wr args :
  Forall (λ e, quiet r e = true) (dynEvents wr args).
Proof.
  unfold dynEvents. destruct (wr_dynamicAttributes wr); by repeat constructor.
Qed.

(** A wrapped call, run to the end of its jobs: the log in phases, at most
    one end of a span and only of a span this call created, and the
    status and end calls that a settled call makes. *)
Lemma wrapped_run (wr : Wrapped) (this : Value) (args : list Value)
    (w : World) (k : nat) :
  jobs w = [] →
  let r := (wrapped wr this args w).1 in
  let w2 := runJobs (4 + k) (wrapped wr this args w).2 in
  let span := spanOf (wr_startMode wr) w in
  let createdSpan := createsSpan (wr_startMode wr) (active w) in
  ∃ N1 S N2 R C : list Event,
    log w2 = log w ++ N1 ++ S ++ N2 ++ R ++ C ∧
    phased r N1 S N2 R C ∧
    (R = [] ∨ (R = [EvEnd span] ∧ createdSpan = true)) ∧
    match gateResult wr this args w, dynResult wr args with
    | Ok true, Ok _ =>
        match settledWith (fn_body (wr_fn wr) args this (Some span)) (promises w) with
        | Some o =>
            S = statusEvents span o ∧ R = endEvents span createdSpan ∧
            conveys r w2 o ∧ C = completion r o
        | None => S = [] ∧ R = []
        end
    | _, _ => S = [] ∧ R = []
    end.
Proof.
  intros Hj r w2 span createdSpan.
  destruct (gateResult wr this args w) as [[|]|e] eqn:Hgate.
  - destruct (dynResult wr args) as [dyn|e] eqn:Hdyn.
    + destruct (wrapped_traced wr this args dyn w Hgate Hdyn)
        as (fl & w0 & attrs & root & links & Hw & Hflag & Hj0 & Hp0 & _ & Hl0).
      fold span createdSpan in Hw, Hl0. rewrite Hj in Hj0.
      destruct (traced_run wr this args span createdSpan fl w0 k Hj0 Hflag)
        as (N0 & S & N2 & R & C & Hlog & HN0 & HN2 & HC & Hsettled).
      rewrite -Hw in Hlog HN0 HN2 HC Hsettled.
      fold r w2 in Hlog, HN0, HN2, HC, Hsettled.
      rewrite Hp0 in Hsettled.
      exists ((gateEvents wr this args w ++ dynEvents wr args ++
                (if createdSpan
                 then [EvStartSpan (wr_moduleName wr) (wr_spanName wr) attrs
                         root links span]
                 else [])) ++
              callEvent (wr_fn wr) this args (Some span) :: N0), S, N2, R, C.
      assert (HSR : Forall (λ e, isEffect e = true) S ∧
                    Forall (λ e, isRelease e = true) R ∧
                    (R = [] ∨ R = [EvEnd span] ∧ createdSpan = true)).
      { destruct (settledWith _ _) as [o|].
        - destruct Hsettled as (-> & -> & _).
          repeat apply conj; [apply statusEvents_effect | apply endEvents_release
                             | apply endEvents_cases].
        - destruct Hsettled as [-> ->]. repeat apply conj; eauto. }
      destruct HSR as (HS & HR & HRc).
      repeat apply conj; try done.
      * by rewrite Hlog Hl0 -!app_assoc.
      * rewrite !Forall_app. repeat apply conj;
          [apply gateEvents_quiet | apply dynEvents_quiet | | ].
        -- destruct createdSpan; by repeat constructor.
        -- by constructor.
    + subst r w2. rewrite (wrapped_dyn_throws _ _ _ _ _ Hgate Hdyn). simpl.
      rewrite runJobs_idle; [by destruct w|].
      exists (gateEvents wr this args w ++ dynEvents wr args), [], [], [], [].
      rewrite !app_nil_r. repeat apply conj; eauto.
      * by destruct w.
      * rewrite Forall_app. split; [apply gateEvents_quiet | apply dynEvents_quiet].
  - destruct (wrapped_untraced wr this args w k Hgate Hj) as (C & Hlog & HC & _).
    fold r w2 in Hlog, HC.
    exists (gateEvents wr this args w ++ [callEvent (wr_fn wr) this args (active w)]),
      [], [], [], C.
    repeat apply conj; eauto.
    rewrite Forall_app. split; [apply gateEvents_quiet | by repeat constructor].
  - subst r w2. rewrite (wrapped_gate_throws _ _ _ _ _ Hgate). simpl.
    rewrite runJobs_idle; [by destruct w|].
    exists (gateEvents wr this args w), [], [], [], [].
    rewrite !app_nil_r. repeat apply conj; eauto.
    + by destruct w.
    + apply gateEvents_quiet.
Qed.

End TracingRuns.

Section Admission.

Import Promise Metrics.

Lemma withDefaults_name k cfg : cfg_name (withDefaults k cfg) = cfg_name cfg.
Proof.
  destruct cfg as [n h l c b p]. by destruct k, l, b, p.
Qed.

Lemma withDefaults_collect k cfg : cfg_collect (withDefaults k cfg) = cfg_collect cfg.
Proof.
  destruct cfg as [n h l c b p]. by destruct k, l, b, p.
Qed.

Lemma withDefaults_labelNames k cfg :
  cfg_labelNames (withDefaults k cfg) = Some (default [] (cfg_labelNames cfg)).
Proof.
  destruct cfg as [n h l c b p]. by destruct k, l, b, p.
Qed.

(** The constructor looks at the registry only. *)
Lemma accepts_register (k : MetricType) (cfg : Config) (w w' : World) :
  register w' = register w → accepts k cfg w' = accepts k cfg w.
Proof. intros H. unfold accepts, Prom.refusal. by rewrite H. Qed.

(** [register...] with a [collect] function builds the metric at once,
    when the constructor takes the configuration; without one it stores
    the configuration. *)
Lemma registerMetric_run (k : MetricType) (cfg : Config) (w : World) :
  (cfg_collect cfg = true → accepts k (withDefaults k cfg) w = true) →
  let cfg' := withDefaults k cfg in
  let m := mkMetric k cfg' in
  registerMetric k cfg w =
    (Ok tt,
     if cfg_collect cfg
     then set_statics
            (setInstances k (<[cfg_name cfg := m]> (instancesOf k (statics w)))
               (statics w))
            (set_register (<[cfg_name cfg := m]> (register w)) w)
     else set_statics
            (setConfigs k (<[cfg_name cfg := cfg']> (configsOf k (statics w)))
               (statics w)) w).
Proof.
  intros Hadm cfg' m. unfold registerMetric. fold cfg'.
  rewrite (withDefaults_collect k cfg).
  destruct (cfg_collect cfg).
  - rewrite bind_unfold (new_accepted k cfg' w (Hadm eq_refl)).
    unfold storeInstance. msimpl. subst cfg'. rewrite ?withDefaults_name.
    by destruct w.
  - unfold storeConfig. msimpl. subst cfg'. by rewrite withDefaults_name.
Qed.

(** [register...] with a [collect] function throws what the constructor
    throws, and stores nothing. *)
Lemma registerMetric_declined (k : MetricType) (cfg : Config) (w : World) :
  cfg_collect cfg = true →
  accepts k (withDefaults k cfg) w = false →
  ∃ (e : Value) (w' : World),
    registerMetric k cfg w = (Throw e, w') ∧
    declined k (withDefaults k cfg) w e ∧
    w' = set_register (register w') w.
Proof.
  intros Hc Hadm. unfold registerMetric. rewrite withDefaults_collect Hc.
  destruct (new_declined _ _ _ Hadm) as (e & w' & Hnew & Hdec & Hw').
  exists e, w'. by rewrite bind_unfold Hnew.
Qed.

(** [get...] on a name that has an instance. *)
Lemma getMetric_instance (k : MetricType) (name : string) (m : Metric) (w : World) :
  instancesOf k (statics w) !! name = Some m →
  getMetric k name w = (Ok (Some m), w).
Proof.
  intros Hm. unfold getMetric. msimpl. rewrite Hm. msimpl. by rewrite Hm.
Qed.

(** [get...] on a name that has a configuration and no instance, when the
    constructor takes the configuration. *)
Lemma getMetric_config (k : MetricType) (name : string) (cfg : Config) (w : World) :
  instancesOf k (statics w) !! name = None →
  configsOf k (statics w) !! name = Some cfg →
  accepts k cfg w = true →
  let m := mkMetric k cfg in
  getMetric k name w =
    (Ok (Some m),
     set_statics
       (setInstances k (<[name := m]> (instancesOf k (statics w))) (statics w))
       (set_register (<[cfg_name cfg := m]> (register w)) w)).
Proof.
  intros Hm Hc Hadm m. unfold getMetric. msimpl.
  rewrite Hm. msimpl. rewrite Hc. msimpl.
  rewrite (new_accepted _ _ _ Hadm).
  unfold storeInstance. msimpl.
  rewrite statics_set_statics ?statics_set_register instancesOf_setInstances.
  rewrite lookup_insert_eq. by destruct w.
Qed.

(** The same when the constructor refuses the configuration: [get...]
    throws what the constructor throws, and no instance is stored. *)
Lemma getMetric_declined (k : MetricType) (name : string) (cfg : Config) (w : World) :
  instancesOf k (statics w) !! name = None →
  configsOf k (statics w) !! name = Some cfg →
  accepts k cfg w = false →
  ∃ (e : Value) (w' : World),
    getMetric k name w = (Throw e, w') ∧ declined k cfg w e ∧
    w' = set_register (register w') w.
Proof.
  intros Hm Hc Hadm. unfold getMetric. msimpl.
  rewrite Hm. msimpl. rewrite Hc. msimpl.
  destruct (new_declined _ _ _ Hadm) as (e & w' & Hnew & Hdec & Hw').
  exists e, w'. by rewrite Hnew.
Qed.

Lemma getMetric_unknown (k : MetricType) (name : string) (w : World) :
  instancesOf k (statics w) !! name = None →
  configsOf k (statics w) !! name = None →
  getMetric k name w = (Ok None, w).
Proof.
  intros Hm Hc. unfold getMetric. msimpl. rewrite Hm. msimpl. rewrite Hc. msimpl.
  by rewrite Hm.
Qed.

(** The configuration under which a wrapper registers its metric when the
    name is unknown: the name and the help text of the options, and the
    keys of the label object of this call as label names. *)
Definition ownConfig (k : MetricType) (options : MetricDecoratorOptions)
    (buckets percentiles : option (list Q)) (ls : Rec) : Config :=
  withDefaults k
    (mkConfig (md_metricName options) (md_help options)
       (Some (map_to_list ls).*1) false buckets percentiles).

(** The metric of a wrapper: the instance of the name, else the metric of
    the configuration of the name, else the metric of its own
    configuration. *)
Definition metricOf (k : MetricType) (options : MetricDecoratorOptions)
    (buckets percentiles : option (list Q)) (ls : Rec) (w : World) : Metric :=
  match instancesOf k (statics w) !! md_metricName options with
  | Some m => m
  | None =>
      mkMetric k (default (ownConfig k options buckets percentiles ls)
                    (configsOf k (statics w) !! md_metricName options))
  end.

(** prom-client lets the wrapper have its metric: the name has an
    instance, or the constructor takes the configuration from which the
    metric has to be built. *)
Definition obtains (k : MetricType) (options : MetricDecoratorOptions)
    (buckets percentiles : option (list Q)) (ls : Rec) (w : World) : bool :=
  if instancesOf k (statics w) !! md_metricName options is Some _ then true
  else accepts k (m_config (metricOf k options buckets percentiles ls w)) w.

(** prom-client lets the wrapper have its metric, and the metric has
    declared every key of the label object of the call. *)
Definition accepted (k : MetricType) (options : MetricDecoratorOptions)
    (buckets percentiles : option (list Q)) (ls : Rec) (w : World) : bool :=
  obtains k options buckets percentiles ls w
  && fits (metricOf k options buckets percentiles ls w) ls.

(** The metric of a wrapper, and whether prom-client lets the wrapper have
    it, depend on the maps of [Metrics] and on the registry only. *)
Lemma metricOf_frame (k : MetricType) (options : MetricDecoratorOptions)
    (buckets percentiles : option (list Q)) (ls : Rec) (w w' : World) :
  statics w' = statics w →
  metricOf k options buckets percentiles ls w'
  = metricOf k options buckets percentiles ls w.
Proof. intros Hs. unfold metricOf. by rewrite Hs. Qed.

Lemma obtains_frame (k : MetricType) (options : MetricDecoratorOptions)
    (buckets percentiles : option (list Q)) (ls : Rec) (w w' : World) :
  statics w' = statics w → register w' = register w →
  obtains k options buckets percentiles ls w'
  = obtains k options buckets percentiles ls w.
Proof.
  intros Hs Hr. unfold obtains.
  rewrite (metricOf_frame _ _ _ _ _ w w' Hs) Hs.
  by rewrite (accepts_register _ _ w w' Hr).
Qed.

Lemma accepted_frame (k : MetricType) (options : MetricDecoratorOptions)
    (buckets percentiles : option (list Q)) (ls : Rec) (w w' : World) :
  statics w' = statics w → register w' = register w →
  accepted k options buckets percentiles ls w'
  = accepted k options buckets percentiles ls w.
Proof.
  intros Hs Hr. unfold accepted.
  by rewrite (metricOf_frame _ _ _ _ _ w w' Hs) (obtains_frame _ _ _ _ _ w w' Hs Hr).
Qed.

(** The label object of a call through a metric wrapper. *)
Definition labelObject (w : World) : loc := fresh (dom (records w)).

(** The metric of its own configuration has declared the keys of the
    label object. *)
Lemma ownConfig_fits (k : MetricType) (options : MetricDecoratorOptions)
    (buckets percentiles : option (list Q)) (ls : Rec) :
  fits (mkMetric k (ownConfig k options buckets percentiles ls)) ls = true.
Proof.
  apply fits_spec. intros key [v Hv].
  unfold labelNames, ownConfig. simpl. rewrite withDefaults_labelNames. simpl.
  apply list_elem_of_fmap. exists (key, v). split; [done|].
  by apply elem_of_map_to_list.
Qed.

Lemma ownConfig_name k options buckets percentiles ls :
  cfg_name (ownConfig k options buckets percentiles ls) = md_metricName options.
Proof. unfold ownConfig. by rewrite withDefaults_name. Qed.

(** A wrapper that registers its metric itself has a metric that fits:
    for a name that is unknown, being let have the metric is all. *)
Lemma accepted_unknown (k : MetricType) (options : MetricDecoratorOptions)
    (buckets percentiles : option (list Q)) (ls : Rec) (w : World) :
  instancesOf k (statics w) !! md_metricName options = None →
  configsOf k (statics w) !! md_metricName options = None →
  accepted k options buckets percentiles ls w
  = obtains k options buckets percentiles ls w.
Proof.
  intros Hi Hc. unfold accepted, metricOf. rewrite Hi Hc. simpl.
  by rewrite ownConfig_fits andb_true_r.
Qed.

(** The world in which the configuration of the wrapper has been filed
    under the name. *)
Definition filed (k : MetricType) (options : MetricDecoratorOptions)
    (buckets percentiles : option (list Q)) (ls : Rec) (w : World) : World :=
  set_statics
    (setConfigs k
       (<[md_metricName options := ownConfig k options buckets percentiles ls]>
          (configsOf k (statics w)))
       (statics w)) w.

(** The lines of [metricFor] on a name that is unknown, up to the second
    [get...]. *)
Lemma metricFor_unknown (k : MetricType) (options : MetricDecoratorOptions)
    (labels : loc) (buckets percentiles : option (list Q)) (ls : Rec) (w : World) :
  records w !! labels = Some ls →
  instancesOf k (statics w) !! md_metricName options = None →
  configsOf k (statics w) !! md_metricName options = None →
  let w1 := filed k options buckets percentiles ls w in
  metricFor k options labels buckets percentiles w
  = (m ← getMetric k (md_metricName options);
     match m with
     | Some m => mret m
     | None => throw (mkError "TypeError" "metric is undefined")
     end) w1 ∧
  (k = Counter → buckets = None → percentiles = None →
   counterFor options labels w
   = (m ← getMetric Counter (md_metricName options);
      match m with
      | Some m => mret m
      | None => throw (mkError "TypeError" "counter is undefined")
      end) w1).
Proof.
  intros Hrec Hi Hc w1. split.
  - unfold metricFor.
    rewrite bind_unfold (getMetric_unknown k _ w Hi Hc).
    unfold Heap.readRecord. rewrite bind_unfold. unfold gets at 1.
    rewrite Hrec. simpl default.
    rewrite bind_unfold registerMetric_run; [done|]. simpl.
    subst w1. unfold filed, ownConfig. done.
  - intros -> -> ->.
    unfold counterFor, getCounter, registerCounter.
    rewrite bind_unfold (getMetric_unknown Counter _ w Hi Hc).
    unfold Heap.readRecord. rewrite bind_unfold. unfold gets at 1.
    rewrite Hrec. simpl default.
    rewrite bind_unfold registerMetric_run; [done|]. simpl.
    subst w1. unfold filed, ownConfig. done.
Qed.

Lemma filed_fields (k : MetricType) (options : MetricDecoratorOptions)
    (buckets percentiles : option (list Q)) (ls : Rec) (w : World) :
  let w1 := filed k options buckets percentiles ls w in
  instancesOf k (statics w1) = instancesOf k (statics w) ∧
  configsOf k (statics w1) !! md_metricName options
    = Some (ownConfig k options buckets percentiles ls) ∧
  register w1 = register w ∧
  w1 = set_statics (statics w1) w.
Proof.
  unfold filed. rewrite statics_set_statics instancesOf_setConfigs
    configsOf_setConfigs lookup_insert_eq. by destruct w.
Qed.


(** Finding or creating the metric of a wrapper touches the maps of
    [Metrics] and the registry only, and leaves the metric under its
    name. *)
Lemma metricFor_obtained (k : MetricType) (options : MetricDecoratorOptions)
    (labels : loc) (buckets percentiles : option (list Q)) (ls : Rec) (w : World) :
  records w !! labels = Some ls →
  obtains k options buckets percentiles ls w = true →
  let m := metricOf k options buckets percentiles ls w in
  ∃ w' : World,
    metricFor k options labels buckets percentiles w = (Ok m, w') ∧
    (k = Counter → buckets = None → percentiles = None →
     counterFor options labels w = (Ok m, w')) ∧
    w' = set_statics (statics w') (set_register (register w') w) ∧
    instancesOf k (statics w') !! md_metricName options = Some m.
Proof.
  intros Hrec Hnew m. subst m. unfold obtains, metricOf in *.
  set (name := md_metricName options) in *.
  destruct (instancesOf k (statics w) !! name) as [m|] eqn:Hi.
  - exists w. unfold metricFor, counterFor, getCounter. fold name.
    rewrite bind_unfold (getMetric_instance k name m w Hi).
    repeat split; try done; [|by destruct w].
    intros -> _ _. by rewrite bind_unfold (getMetric_instance Counter name m w Hi).
  - destruct (configsOf k (statics w) !! name) as [cfg|] eqn:Hc; simpl in *.
    + eexists. unfold metricFor, counterFor, getCounter. fold name.
      rewrite bind_unfold (getMetric_config k name cfg w Hi Hc Hnew).
      split; [reflexivity|].
      rewrite statics_set_statics instancesOf_setInstances lookup_insert_eq.
      repeat split; try done; [|by destruct w].
      intros -> _ _.
      by rewrite bind_unfold (getMetric_config Counter name cfg w Hi Hc Hnew).
    + destruct (metricFor_unknown k options labels buckets percentiles ls w
                  Hrec Hi Hc) as [Hm Hcf].
      destruct (filed_fields k options buckets percentiles ls w)
        as (Hi1 & Hc1 & Hr1 & Hw1).
      set (w1 := filed k options buckets percentiles ls w) in *.
      set (cfg := ownConfig k options buckets percentiles ls) in *.
      assert (Hadm1 : accepts k cfg w1 = true).
      { rewrite -Hnew. by apply accepts_register. }
      assert (Hi1' : instancesOf k (statics w1) !! name = None) by (by rewrite Hi1).
      eexists. rewrite Hm.
      rewrite bind_unfold (getMetric_config k name cfg w1 Hi1' Hc1 Hadm1).
      split; [reflexivity|].
      rewrite statics_set_statics instancesOf_setInstances lookup_insert_eq.
      repeat split; try done.
      * intros -> -> ->. rewrite Hcf //.
        by rewrite bind_unfold (getMetric_config Counter name cfg w1 Hi1' Hc1 Hadm1).
      * rewrite {3}Hw1. by destruct w.
Qed.

(** When prom-client does not let the wrapper have its metric, the lines
    that find or create it throw what the constructor throws, and the
    name has no instance. *)
Lemma metricFor_declined (k : MetricType) (options : MetricDecoratorOptions)
    (labels : loc) (buckets percentiles : option (list Q)) (ls : Rec) (w : World) :
  records w !! labels = Some ls →
  obtains k options buckets percentiles ls w = false →
  let m := metricOf k options buckets percentiles ls w in
  ∃ (e : Value) (w' : World),
    metricFor k options labels buckets percentiles w = (Throw e, w') ∧
    (k = Counter → buckets = None → percentiles = None →
     counterFor options labels w = (Throw e, w')) ∧
    declined k (m_config m) w e ∧
    w' = set_statics (statics w') (set_register (register w') w) ∧
    instancesOf k (statics w') !! md_metricName options = None.
Proof.
  intros Hrec Hnew m. subst m. unfold obtains, metricOf in *.
  set (name := md_metricName options) in *.
  destruct (instancesOf k (statics w) !! name) as [m|] eqn:Hi; [done|].
  destruct (configsOf k (statics w) !! name) as [cfg|] eqn:Hc; simpl in *.
  - destruct (getMetric_declined k name cfg w Hi Hc Hnew)
      as (e & w' & Hg & Hd & Hw').
    exists e, w'. unfold metricFor, counterFor, getCounter. fold name.
    rewrite bind_unfold Hg.
    repeat split; try done.
    + intros -> _ _. by rewrite bind_unfold Hg.
    + assert (statics w' = statics w) as Hs
        by (by rewrite Hw' statics_set_register).
      rewrite Hs {1}Hw'. by destruct w.
    + by rewrite Hw' statics_set_register.
  - destruct (metricFor_unknown k options labels buckets percentiles ls w
                Hrec Hi Hc) as [Hm Hcf].
    destruct (filed_fields k options buckets percentiles ls w)
      as (Hi1 & Hc1 & Hr1 & Hw1).
    set (w1 := filed k options buckets percentiles ls w) in *.
    set (cfg := ownConfig k options buckets percentiles ls) in *.
    assert (Hadm1 : accepts k cfg w1 = false).
    { rewrite -Hnew. by apply accepts_register. }
    assert (Hi1' : instancesOf k (statics w1) !! name = None) by (by rewrite Hi1).
    destruct (getMetric_declined k name cfg w1 Hi1' Hc1 Hadm1)
      as (e & w' & Hg & Hd & Hw').
    exists e, w'. rewrite Hm bind_unfold Hg.
    repeat split; try done.
    + intros -> -> ->. rewrite Hcf //. by rewrite bind_unfold Hg.
    + unfold declined, Prom.refusal in *. by rewrite -Hr1.
    + clear -Hw' Hw1. destruct w, w1, w'. simpl in *. congruence.
    + rewrite Hw' statics_set_register. by rewrite Hi1.
Qed.

Lemma metricFor_accepted (k : MetricType) (options : MetricDecoratorOptions)
    (labels : loc) (buckets percentiles : option (list Q)) (ls : Rec) (w : World) :
  records w !! labels = Some ls →
  accepted k options buckets percentiles ls w = true →
  let m := metricOf k options buckets percentiles ls w in
  ∃ w' : World,
    metricFor k options labels buckets percentiles w = (Ok m, w') ∧
    w' = set_statics (statics w') (set_register (register w') w) ∧
    instancesOf k (statics w') !! md_metricName options = Some m ∧
    fits m ls = true.
Proof.
  intros Hrec Hadm m. apply andb_true_iff in Hadm as [Hobt Hfits].
  destruct (metricFor_obtained k options labels buckets percentiles ls w Hrec Hobt)
    as (w' & Hrun & _ & Hw' & Hinst).
  by exists w'.
Qed.

End Admission.

Section CounterRuns.

Import Promise Metrics.

(** [err?.name || 'unknown_error'] *)
Definition errorLabel (err : Value) : Value :=
  or_else (get_prop err "name") (VStr "unknown_error").

(** The assignment of the error label for an outcome, and the label object
    after it. *)
Definition labelEvents (labels : loc) (o : Outcome) : list Event :=
  match o with
  | Fulfilled _ => []
  | Rejected e => [EvLabelAssign labels "error" (errorLabel e)]
  end.

Definition labelsAfter (ls : Rec) (o : Outcome) : Rec :=
  match o with
  | Fulfilled _ => ls
  | Rejected e => <["error" := errorLabel e]> ls
  end.

Definition incEvent (counter : Metric) (ls : Rec) : Event :=
  EvMetric counter OpInc (Some ls) None.

(** The log of the chain of a counter wrapper. *)
Definition counterChainEvents (counter : Metric) (labels : loc) (ls : Rec)
    (p1 p2 q : nat) (o : Outcome) : list Event :=
  [EvSettled p1 o] ++ labelEvents labels o ++ [EvSettled p2 o] ++
  [incEvent counter (labelsAfter ls o)] ++ [EvSettled q o].

(** The label object of a counter or histogram wrapper has the key
    [error] from the start, so the assignment of the error label adds no
    key. *)
Lemma fits_labelsAfter (m : Metric) (ls : Rec) (o : Outcome) :
  is_Some (ls !! "error") → fits m ls = true → fits m (labelsAfter ls o) = true.
Proof. intros Herr Hfits. destruct o; [done|]. by apply fits_insert. Qed.

Lemma counterChain (w : World) (counter : Metric) (labels : loc) (ls : Rec)
    (p1 p2 q : nat) (o : Outcome) :
  records w !! labels = Some ls →
  fits counter (labelsAfter ls o) = true →
  let w' := chainSteps CbIdentity (CbLabelErr labels)
              (CbCounterInc counter labels) p1 p2 q o w in
  log w' = log w ++ counterChainEvents counter labels ls p1 p2 q o ∧
  promises w' !! q = Some (Settled o) ∧
  jobs w' = jobs w.
Proof.
  intros Hrec Hfits. destruct w as [md ac st oo rc fl pr jb sx rg lg].
  simpl in Hrec.
  unfold chainSteps, reactStep, reactionOutcome, asOutcome, runCallback,
    assignErrorLabel, incWith, Heap.assign, Heap.readRecord,
    afterSettle, counterChainEvents, labelEvents, labelsAfter, incEvent,
    errorLabel in *.
  destruct o as [v|e]; msimpl; rewrite ?lookup_insert_eq ?Hrec; msimpl;
    rewrite call_taken //; msimpl;
    rewrite -?app_assoc /=; by map_lookup.
Qed.

Lemma applyFn_promise_plain (fn : Callee) (this : Value) (args : list Value)
    (f : Fate) (w : World) :
  fate (fn_body fn args this (active w)) (promises w) = Some f →
  jobs w = [] →
  ∃ (p : nat) (w1 : World),
    applyFn fn this args w = (Ok (VPromise p), w1) ∧
    log w1 = log w ++ [EvCall (fn_name fn) args this (active w)] ∧
    records w1 = records w ∧
    jobs w1 = match f with Later o => [JSettle p o] | _ => [] end ∧
    match f with
    | Already o => promises w1 !! p = Some (Settled o)
    | Later _ => promises w1 !! p = Some (Pending [])
    | Unsettled => ∀ o, promises w1 !! p ≠ Some (Settled o)
    end.
Proof.
  intros Hf Hj. destruct w as [md ac st oo rc fl pr jb sx rg lg].
  simpl in *. subst jb.
  unfold applyFn, newPromise. msimpl.
  destruct (fn_body fn args this ac) as [e|v|o|o|]; simpl in Hf; try done.
  - destruct v; try done. msimpl.
    destruct (pr !! p) as [[rs|o]|] eqn:Hp; injection Hf as <-;
      do 2 eexists; repeat apply conj; try done; simpl; congruence.
  - injection Hf as <-. msimpl. do 2 eexists. repeat apply conj; try done.
    simpl. by map_lookup.
  - injection Hf as <-. msimpl. do 2 eexists. repeat apply conj; try done.
    simpl. by map_lookup.
  - injection Hf as <-. msimpl. do 2 eexists. repeat apply conj; try done.
    simpl. intros o. by map_lookup.
Qed.

(** A counted call whose original function returns a promise. *)
Lemma counted_promise (original : Callee) (counter : Metric) (labels : loc)
    (ls : Rec) (this : Value) (args : list Value) (f : Fate) (w : World) :
  fate (fn_body original args this (active w)) (promises w) = Some f →
  jobs w = [] →
  records w !! labels = Some ls →
  (f ≠ Unsettled → is_Some (ls !! "error") ∧ fits counter ls = true) →
  ∃ (p p1 p2 q : nat) (w1 : World),
    counted original counter labels this args w = (Ok (VPromise q), w1) ∧
    log w1 = log w ++ [callEvent original this args (active w)] ∧
    p ≠ q ∧ p1 ≠ q ∧ p2 ≠ q ∧
    ∀ k : nat,
      match f with
      | Already o =>
          log (runJobs (4 + k) w1)
            = log w1 ++ counterChainEvents counter labels ls p1 p2 q o ∧
          promises (runJobs (4 + k) w1) !! q = Some (Settled o)
      | Later o =>
          log (runJobs (4 + k) w1)
            = log w1 ++ EvSettled p o :: counterChainEvents counter labels ls p1 p2 q o ∧
          promises (runJobs (4 + k) w1) !! q = Some (Settled o)
      | Unsettled => runJobs (4 + k) w1 = w1
      end.
Proof.
  intros Hf Hj Hrec Hfits.
  destruct (applyFn_promise_plain _ this args f w Hf Hj)
    as (p & w0 & Happ & Hlog0 & Hrc0 & Hj0 & Hp0).
  destruct (chain_outcome CbIdentity (CbLabelErr labels)
              (CbCounterInc counter labels) p f w0 Hj0 Hp0)
    as (p1 & p2 & q & w1 & Hchain & Hso & Hq & _ & Hpq & Hp1q & Hp2q & Hrun).
  apply storeOnly_fields in Hso as Hfields.
  destruct Hfields as (Hlog1 & _ & Hrc1 & _).
  exists p, p1, p2, q, w1.
  repeat apply conj; try done.
  - unfold counted, try_catch. by rewrite bind_unfold Happ Hchain.
  - by rewrite Hlog1 Hlog0.
  - intros k. rewrite Hrun.
    destruct f as [o|o|]; [| |done].
    + destruct (counterChain (set_jobs [] w1) counter labels ls p1 p2 q o)
        as (Hl & Hpr & _).
      { rewrite -Hrec -Hrc0 -Hrc1. by destruct w1. }
      { destruct Hfits as [Herr Hfits]; [done|]. by apply fits_labelsAfter. }
      split; [|done]. rewrite Hl. by destruct w1.
    + destruct (counterChain (afterSettle p o (set_jobs [] w1)) counter labels
                  ls p1 p2 q o) as (Hl & Hpr & _).
      { rewrite -Hrec -Hrc0 -Hrc1. by destruct w1. }
      { destruct Hfits as [Herr Hfits]; [done|]. by apply fits_labelsAfter. }
      split; [|done]. rewrite Hl.
      destruct w1; simpl. by rewrite -app_assoc.
Qed.




(** What [options.dynamicLabels(args) || {}] comes to. *)
Definition dynLabelsResult (options : MetricDecoratorOptions) (args : list Value)
    : Result Rec :=
  match md_dynamicLabels options with
  | Some f =>
      match f args with
      | Ok r => Ok (default ∅ r)
      | Throw e => Throw e
      end
  | None => Ok ∅
  end.

Definition dynLabelEvents (options : MetricDecoratorOptions) (args : list Value)
    : list Event :=
  match md_dynamicLabels options with
  | Some _ => [EvDynamic args]
  | None => []
  end.

Lemma labelEvents_effect (labels : loc) (o : Outcome) :
  Forall (λ e, isEffect e = true) (labelEvents labels o).
Proof. destruct o; by repeat constructor. Qed.

Lemma counterLabels_error (options : MetricDecoratorOptions) (dyn : Rec) :
  is_Some (counterLabels options dyn !! "error").
Proof. unfold counterLabels. rewrite lookup_insert_eq. by eexists. Qed.

(** What [dynamicLabelsOf] does when the callback returns. *)
Lemma dynamicLabelsOf_run (options : MetricDecoratorOptions) (args : list Value)
    (dyn : Rec) (w : World) :
  dynLabelsResult options args = Ok dyn →
  dynamicLabelsOf options args w
  = (Ok dyn, set_log (log w ++ dynLabelEvents options args) w).
Proof.
  intros Hdyn. unfold dynamicLabelsOf, dynLabelsResult, dynLabelEvents in *.
  destruct (md_dynamicLabels options) as [d|].
  - msimpl. destruct (d args) as [x|e]; [|done]. by injection Hdyn as <-.
  - injection Hdyn as <-. rewrite app_nil_r. by destruct w.
Qed.

(** The lines of a metric wrapper before [try], when prom-client lets the
    wrapper have its metric: the labels are made, and the metric is found
    or created. *)
Lemma metric_prelude (k : MetricType) (options : MetricDecoratorOptions)
    (lsOf : Rec → Rec) (buckets percentiles : option (list Q))
    (args : list Value) (dyn : Rec) (w : World) :
  dynLabelsResult options args = Ok dyn →
  accepted k options buckets percentiles (lsOf dyn) w = true →
  let m := metricOf k options buckets percentiles (lsOf dyn) w in
  let ll := labelObject w in
  ∃ wd wa w3 : World,
    dynamicLabelsOf options args w = (Ok dyn, wd) ∧
    Heap.allocRecord (lsOf dyn) wd = (Ok ll, wa) ∧
    metricFor k options ll buckets percentiles wa = (Ok m, w3) ∧
    fits m (lsOf dyn) = true ∧
    instancesOf k (statics w3) !! md_metricName options = Some m ∧
    jobs w3 = jobs w ∧
    records w3 !! ll = Some (lsOf dyn) ∧
    active w3 = active w ∧ promises w3 = promises w ∧
    log w3 = log w ++ dynLabelEvents options args.
Proof.
  intros Hdyn Hadm m ll.
  set (wd := set_log (log w ++ dynLabelEvents options args) w).
  set (wa := set_records (<[ll := lsOf dyn]> (records wd)) wd).
  assert (Hwa : records wa !! ll = Some (lsOf dyn) ∧
                statics wa = statics w ∧ register wa = register w).
  { subst wa wd. destruct w. simpl. by rewrite lookup_insert_eq. }
  destruct Hwa as (Hrec & Hst & Hreg).
  assert (Hm : metricOf k options buckets percentiles (lsOf dyn) wa = m).
  { subst m. unfold metricOf. by rewrite Hst. }
  assert (Hadm' : accepted k options buckets percentiles (lsOf dyn) wa = true).
  { by rewrite (accepted_frame _ _ _ _ _ w wa Hst Hreg). }
  destruct (metricFor_accepted k options ll buckets percentiles (lsOf dyn) wa
              Hrec Hadm') as (w3 & Hrun & Hw3 & Hinst & Hfits).
  rewrite Hm in Hrun Hinst Hfits.
  exists wd, wa, w3.
  split; [by apply dynamicLabelsOf_run|].
  split.
  { unfold Heap.allocRecord.
    assert (Hll : fresh (dom (records wd)) = ll) by (subst wd ll; by destruct w).
    by rewrite Hll. }
  do 3 (split; [done|]).
  rewrite Hw3. subst wa wd. destruct w. simpl in *.
  by rewrite lookup_insert_eq.
Qed.


(** Finding or creating the counter touches the maps of [Metrics] and the
    registry only, whether prom-client lets the wrapper have it or not. *)
Definition metricsOnly (w w' : World) : Prop :=
  w' = set_statics (statics w') (set_register (register w') w).

Lemma metricsOnly_refl (w : World) : metricsOnly w w.
Proof. unfold metricsOnly. by destruct w. Qed.

Lemma metricsOnly_trans (w w1 w2 : World) :
  metricsOnly w w1 → metricsOnly w1 w2 → metricsOnly w w2.
Proof.
  unfold metricsOnly. intros H1 H2.
  destruct w, w1, w2. simpl in *.
  injection H1 as -> -> -> -> -> -> -> -> ->.
  by injection H2 as -> -> -> -> -> -> -> -> ->.
Qed.

Lemma metricsOnly_statics (x : MetricsClass) (w : World) :
  metricsOnly w (set_statics x w).
Proof. unfold metricsOnly. by destruct w. Qed.

Lemma metricsOnly_register (x : gmap string Metric) (w : World) :
  metricsOnly w (set_register x w).
Proof. unfold metricsOnly. by destruct w. Qed.

Lemma new_frame (k : MetricType) (cfg : Config) (w : World) :
  metricsOnly w (Prom.new k cfg w).2.
Proof.
  unfold Prom.new. destruct (Prom.refusal cfg w); [apply metricsOnly_refl|].
  destruct (Prom.reserved k cfg); apply metricsOnly_register.
Qed.

Lemma getMetric_frame (k : MetricType) (name : string) (w : World) :
  metricsOnly w (getMetric k name w).2.
Proof.
  unfold getMetric. msimpl.
  destruct (instancesOf k (statics w) !! name) as [m|]; msimpl;
    [apply metricsOnly_refl|].
  destruct (configsOf k (statics w) !! name) as [cfg|]; msimpl;
    [|apply metricsOnly_refl].
  pose proof (new_frame k cfg w) as Hn.
  destruct (Prom.new k cfg w) as [[m|e] w1]; simpl in *; [|done].
  unfold storeInstance. msimpl.
  eapply metricsOnly_trans; [exact Hn | apply metricsOnly_statics].
Qed.

Lemma registerMetric_any_frame (k : MetricType) (cfg : Config) (w : World) :
  metricsOnly w (registerMetric k cfg w).2.
Proof.
  unfold registerMetric. destruct (cfg_collect (withDefaults k cfg)).
  - rewrite bind_unfold.
    pose proof (new_frame k (withDefaults k cfg) w) as Hn.
    destruct (Prom.new k (withDefaults k cfg) w) as [[m|e] w1]; simpl in *;
      [|done].
    unfold storeInstance. msimpl.
    eapply metricsOnly_trans; [exact Hn | apply metricsOnly_statics].
  - unfold storeConfig. msimpl. apply metricsOnly_statics.
Qed.

Lemma counterFor_frame (options : MetricDecoratorOptions) (labels : loc) (w : World) :
  metricsOnly w (counterFor options labels w).2.
Proof.
  unfold counterFor, getCounter, registerCounter. rewrite bind_unfold.
  pose proof (getMetric_frame Counter (md_metricName options) w) as H1.
  destruct (getMetric Counter (md_metricName options) w) as [[[c|]|e] w1];
    simpl in *; try done.
  rewrite bind_unfold. unfold Heap.readRecord at 1. unfold gets.
  rewrite bind_unfold.
  match goal with |- context [registerMetric Counter ?c w1] =>
    pose proof (registerMetric_any_frame Counter c w1) as H2;
    destruct (registerMetric Counter c w1) as [[[]|e] w2]
  end; simpl in *.
  - rewrite bind_unfold.
    pose proof (getMetric_frame Counter (md_metricName options) w2) as H3.
    destruct (getMetric Counter (md_metricName options) w2) as [[[c|]|e] w3];
      simpl in *;
      exact (metricsOnly_trans _ _ _ H1 (metricsOnly_trans _ _ _ H2 H3)).
  - exact (metricsOnly_trans _ _ _ H1 H2).
Qed.

(** A call through the counter wrapper whose function returns a promise
    that does not settle: nothing but the callback and the call of the
    function is logged, whatever prom-client makes of the counter. *)
Lemma _wrapWithCounter_unsettled (original : Callee)
    (options : MetricDecoratorOptions) (this : Value) (args : list Value)
    (dyn : Rec) (w : World) (k : nat) :
  jobs w = [] →
  dynLabelsResult options args = Ok dyn →
  settledWith (fn_body original args this (active w)) (promises w) = None →
  ∃ delta : list Event,
    log (runJobs (4 + k) (_wrapWithCounter original options this args w).2)
      = log w ++ delta ∧
    Forall (λ e, isEffect e = false ∧ isRelease e = false) delta.
Proof.
  intros Hj Hdyn Hnever. unfold _wrapWithCounter.
  rewrite bind_unfold (dynamicLabelsOf_run _ _ _ _ Hdyn).
  set (wd := set_log (log w ++ dynLabelEvents options args) w).
  unfold Heap.allocRecord at 1. rewrite bind_unfold.
  set (ll := fresh (dom (records wd))).
  set (wa := set_records (<[ll := counterLabels options dyn]> (records wd)) wd).
  rewrite bind_unfold.
  pose proof (counterFor_frame options ll wa) as Hframe.
  unfold metricsOnly in Hframe.
  assert (Hdynq : Forall (λ e, isEffect e = false ∧ isRelease e = false)
                    (dynLabelEvents options args)).
  { unfold dynLabelEvents. destruct (md_dynamicLabels options); by repeat constructor. }
  destruct (counterFor options ll wa) as [[c|e] w3]; simpl in Hframe.
  - assert (Hfields : jobs w3 = [] ∧
                      records w3 !! ll = Some (counterLabels options dyn) ∧
                      active w3 = active w ∧ promises w3 = promises w ∧
                      log w3 = log w ++ dynLabelEvents options args).
    { rewrite Hframe. subst wa wd. destruct w. simpl in *.
      by rewrite lookup_insert_eq. }
    destruct Hfields as (Hj3 & Hrec3 & Ha3 & Hp3 & Hl3).
    assert (Hf : fate (fn_body original args this (active w3)) (promises w3)
                 = Some Unsettled).
    { rewrite Ha3 Hp3. unfold settledWith, fate in *.
      destruct (fn_body original args this (active w)) as [e|v|o|o|]; try done.
      destruct v; try done. by destruct (promises w !! p) as [[]|]. }
    destruct (counted_promise original c ll (counterLabels options dyn) this args
                Unsettled w3 Hf Hj3 Hrec3 ltac:(done))
      as (p & p1 & p2 & q & w1 & -> & Hl1 & _ & _ & _ & Hrun).
    simpl. rewrite (Hrun k) Hl1 Hl3 Ha3 -app_assoc.
    eexists. split; [reflexivity|].
    apply Forall_app. split; [done|]. by repeat constructor.
  - simpl. rewrite runJobs_idle.
    { rewrite Hframe. subst wa wd. by destruct w. }
    exists (dynLabelEvents options args). split; [|done].
    rewrite Hframe. subst wa wd. by destruct w.
Qed.

End CounterRuns.

Section Settling.

Import Promise Metrics.

(** The gauge, histogram and summary wrappers share one shape: a callback
    for the value and one for the error, run at once when the function
    returns or throws, and as [then] and [catch] when it returns a
    promise.  The callbacks are kept abstract: all that is asked of them is
    what they log while the label object is [ls]. *)
Variables (original : Callee) (cOk cErr : Callback) (labels : loc) (ls : Rec).
Variables (okRel errEff errRel : Value → list Event).

Hypothesis cOk_returns : ∀ v w,
  records w !! labels = Some ls →
  ∃ w', runCallback cOk v w = (Ok v, w') ∧ log w' = log w ++ okRel v.
Hypothesis cErr_throws : ∀ e w,
  records w !! labels = Some ls →
  ∃ w', runCallback cErr e w = (Throw e, w') ∧
        log w' = log w ++ errEff e ++ errRel e.

Definition settling (this : Value) (args : list Value) : M Value :=
  try_catch
    (res ← applyFn original this args;
     match res with
     | VPromise p =>
         p1 ← then_ p cOk;
         p2 ← catch_ p1 cErr;
         mret (VPromise p2)
     | _ => runCallback cOk res
     end)
    (λ e, runCallback cErr e).

Definition settlingEffects (o : Outcome) : list Event :=
  match o with Fulfilled _ => [] | Rejected e => errEff e end.

Definition settlingReleases (o : Outcome) : list Event :=
  match o with Fulfilled v => okRel v | Rejected e => errRel e end.

(** The log of the chain, [p1] being the promise of [then] and [q] that
    of [catch]. *)
Definition settlingChainEvents (p1 q : nat) (o : Outcome) : list Event :=
  match o with
  | Fulfilled v => okRel v ++ [EvSettled p1 o; EvSettled q o]
  | Rejected e => [EvSettled p1 o] ++ errEff e ++ errRel e ++ [EvSettled q o]
  end.

Lemma settlingChain (w : World) (p1 q : nat) (o : Outcome) :
  records w !! labels = Some ls →
  let w' := chainSteps2 cOk cErr p1 q o w in
  log w' = log w ++ settlingChainEvents p1 q o ∧
  promises w' !! q = Some (Settled o) ∧
  jobs w' = jobs w.
Proof.
  intros Hrec. unfold chainSteps2, reactStep, reactionOutcome, asOutcome.
  destruct o as [v|e].
  - destruct (cOk_returns v w Hrec) as (w1 & Hrun & Hlog).
    pose proof (runCallback_store cOk v w) as [Hp Hj].
    rewrite Hrun in Hp Hj |- *. simpl in *.
    destruct w1 as [md ac st oo rc fl pr jb sx rg lg]. simpl in *.
    subst lg pr jb. rewrite -!app_assoc. by map_lookup.
  - simpl.
    assert (Hrec1 : records (afterSettle p1 (Rejected e) w) !! labels = Some ls).
    { by destruct w. }
    destruct (cErr_throws e _ Hrec1) as (w1 & Hrun & Hlog).
    pose proof (runCallback_store cErr e (afterSettle p1 (Rejected e) w)) as [Hp Hj].
    rewrite Hrun in Hp Hj |- *. simpl in *.
    destruct w1 as [md ac st oo rc fl pr jb sx rg lg].
    destruct w as [md' ac' st' oo' rc' fl' pr' jb' sx' rg' lg']. simpl in *.
    subst lg pr jb. rewrite -!app_assoc. by map_lookup.
Qed.

Lemma applyFn_value (fn : Callee) (this : Value) (args : list Value)
    (v : Value) (w : World) :
  fn_body fn args this (active w) = BReturn v →
  applyFn fn this args w
    = (Ok v, set_log (log w ++ [EvCall (fn_name fn) args this (active w)]) w).
Proof.
  intros Hb. destruct w. simpl in *. unfold applyFn. msimpl. by rewrite Hb.
Qed.

Lemma applyFn_throw (fn : Callee) (this : Value) (args : list Value)
    (e : Value) (w : World) :
  fn_body fn args this (active w) = BThrow e →
  applyFn fn this args w
    = (Throw e, set_log (log w ++ [EvCall (fn_name fn) args this (active w)]) w).
Proof.
  intros Hb. destruct w. simpl in *. unfold applyFn. msimpl. by rewrite Hb.
Qed.

Lemma settling_value (this : Value) (args : list Value) (v : Value) (w : World) :
  fn_body original args this (active w) = BReturn v →
  isThenable v = false →
  records w !! labels = Some ls →
  ∃ w1 : World,
    settling this args w = (Ok v, w1) ∧
    log w1 = log w ++ [callEvent original this args (active w)] ++ okRel v ∧
    jobs w1 = jobs w.
Proof.
  intros Hb Hv Hrec.
  set (w0 := set_log (log w ++ [EvCall (fn_name original) args this (active w)]) w).
  assert (Hrec0 : records w0 !! labels = Some ls) by (by destruct w).
  destruct (cOk_returns v w0 Hrec0) as (w1 & Hrun & Hlog).
  pose proof (runCallback_store cOk v w0) as [_ Hj]. rewrite Hrun /= in Hj.
  exists w1. unfold settling, try_catch.
  rewrite bind_unfold (applyFn_value _ _ _ _ _ Hb). fold w0.
  assert (Hbody : match v with
                  | VPromise p =>
                      p1 ← then_ p cOk; p2 ← catch_ p1 cErr; mret (VPromise p2)
                  | _ => runCallback cOk v
                  end w0 = (Ok v, w1)).
  { by destruct v. }
  rewrite Hbody. repeat split; [|by rewrite Hj; destruct w].
  rewrite Hlog. unfold callEvent. subst w0. destruct w. simpl.
  by rewrite -app_assoc.
Qed.

Lemma settling_throw (this : Value) (args : list Value) (e : Value) (w : World) :
  fn_body original args this (active w) = BThrow e →
  records w !! labels = Some ls →
  ∃ w1 : World,
    settling this args w = (Throw e, w1) ∧
    log w1 = log w ++ [callEvent original this args (active w)] ++
               errEff e ++ errRel e ∧
    jobs w1 = jobs w.
Proof.
  intros Hb Hrec.
  set (w0 := set_log (log w ++ [EvCall (fn_name original) args this (active w)]) w).
  assert (Hrec0 : records w0 !! labels = Some ls) by (by destruct w).
  destruct (cErr_throws e w0 Hrec0) as (w1 & Hrun & Hlog).
  pose proof (runCallback_store cErr e w0) as [_ Hj]. rewrite Hrun /= in Hj.
  exists w1. unfold settling, try_catch.
  rewrite bind_unfold (applyFn_throw _ _ _ _ _ Hb). fold w0. rewrite Hrun.
  repeat split; [|by rewrite Hj; destruct w].
  rewrite Hlog. unfold callEvent. subst w0. destruct w. simpl.
  by rewrite -app_assoc.
Qed.

Lemma settling_promise (this : Value) (args : list Value) (f : Fate) (w : World) :
  fate (fn_body original args this (active w)) (promises w) = Some f →
  jobs w = [] →
  records w !! labels = Some ls →
  ∃ (p p1 q : nat) (w1 : World),
    settling this args w = (Ok (VPromise q), w1) ∧
    log w1 = log w ++ [callEvent original this args (active w)] ∧
    p ≠ q ∧ p1 ≠ q ∧
    ∀ k : nat,
      match f with
      | Already o =>
          log (runJobs (4 + k) w1) = log w1 ++ settlingChainEvents p1 q o ∧
          promises (runJobs (4 + k) w1) !! q = Some (Settled o)
      | Later o =>
          log (runJobs (4 + k) w1)
            = log w1 ++ EvSettled p o :: settlingChainEvents p1 q o ∧
          promises (runJobs (4 + k) w1) !! q = Some (Settled o)
      | Unsettled => runJobs (4 + k) w1 = w1
      end.
Proof.
  intros Hf Hj Hrec.
  destruct (applyFn_promise_plain _ this args f w Hf Hj)
    as (p & w0 & Happ & Hlog0 & Hrc0 & Hj0 & Hp0).
  destruct (chain_outcome2 cOk cErr p f w0 Hj0 Hp0)
    as (p1 & q & w1 & Hchain & Hso & Hq & _ & Hpq & Hp1q & Hrun).
  apply storeOnly_fields in Hso as Hfields.
  destruct Hfields as (Hlog1 & _ & Hrc1 & _).
  exists p, p1, q, w1.
  repeat apply conj; try done.
  - unfold settling, try_catch. by rewrite bind_unfold Happ Hchain.
  - by rewrite Hlog1 Hlog0.
  - intros k. rewrite Hrun.
    destruct f as [o|o|]; [| |done].
    + destruct (settlingChain (set_jobs [] w1) p1 q o) as (Hl & Hpr & _).
      { rewrite -Hrec -Hrc0 -Hrc1. by destruct w1. }
      split; [|done]. rewrite Hl. by destruct w1.
    + destruct (settlingChain (afterSettle p o (set_jobs [] w1)) p1 q o)
        as (Hl & Hpr & _).
      { rewrite -Hrec -Hrc0 -Hrc1. by destruct w1. }
      split; [|done]. rewrite Hl.
      destruct w1; simpl. by rewrite -app_assoc.
Qed.

(** A call through the common shape, run to the end of its jobs. *)
Lemma settling_run (this : Value) (args : list Value) (w : World) (k : nat) :
  jobs w = [] →
  records w !! labels = Some ls →
  let r := (settling this args w).1 in
  let w2 := runJobs (4 + k) (settling this args w).2 in
  ∃ N0 N2 N3 C : list Event,
    let S := default [] (settlingEffects <$>
               settledWith (fn_body original args this (active w)) (promises w)) in
    let R := default [] (settlingReleases <$>
               settledWith (fn_body original args this (active w)) (promises w)) in
    log w2 = log w ++
      (callEvent original this args (active w) :: N0) ++ S ++ N2 ++ R ++ N3 ++ C ∧
    Forall (λ e, quiet r e = true) N0 ∧
    Forall (λ e, quiet r e = true) N2 ∧
    Forall (λ e, quiet r e = true) N3 ∧
    (C = [] ∨ ∃ q o, C = [EvSettled q o] ∧ r = Ok (VPromise q)) ∧
    match settledWith (fn_body original args this (active w)) (promises w) with
    | Some o => conveys r w2 o ∧ C = completion r o
    | None => True
    end.
Proof.
  intros Hj Hrec r w2.
  destruct (fate (fn_body original args this (active w)) (promises w))
    as [f|] eqn:Hf.
  - destruct (settling_promise this args f w Hf Hj Hrec)
      as (p & p1 & q & w1 & Ht & Hl1 & Hpq & Hp1q & Hrun).
    subst r w2. rewrite Ht. simpl fst. simpl snd. specialize (Hrun k).
    assert (Hs : settledWith (fn_body original args this (active w)) (promises w)
                 = match f with Already o | Later o => Some o | Unsettled => None end).
    { unfold fate, settledWith in *.
      destruct (fn_body original args this (active w)) as [e|v|o|o|];
        try done; try (by injection Hf as <-).
      destruct v; try done. destruct (promises w !! p0) as [[rs|o]|];
        by injection Hf as <-. }
    rewrite Hs. clear Hs.
    destruct f as [o|o|].
    + destruct Hrun as [-> Hq]. rewrite Hl1. unfold settlingChainEvents.
      destruct o as [v|e]; simpl.
      * exists [], [], [EvSettled p1 (Fulfilled v)], [EvSettled q (Fulfilled v)].
        rewrite -!app_assoc /=. repeat apply conj; eauto;
          repeat constructor; by apply quiet_settled.
      * exists [EvSettled p1 (Rejected e)], [], [], [EvSettled q (Rejected e)].
        rewrite -!app_assoc /=. repeat apply conj; eauto;
          repeat constructor; by apply quiet_settled.
    + destruct Hrun as [-> Hq]. rewrite Hl1. unfold settlingChainEvents.
      destruct o as [v|e]; simpl.
      * exists [EvSettled p (Fulfilled v)], [],
          [EvSettled p1 (Fulfilled v)], [EvSettled q (Fulfilled v)].
        rewrite -!app_assoc /=. repeat apply conj; eauto;
          repeat constructor; by apply quiet_settled.
      * exists [EvSettled p (Rejected e); EvSettled p1 (Rejected e)], [], [],
          [EvSettled q (Rejected e)].
        rewrite -!app_assoc /=. repeat apply conj; eauto;
          repeat constructor; by apply quiet_settled.
    + rewrite Hrun Hl1. exists [], [], [], []. simpl.
      rewrite ?app_nil_r. repeat apply conj; eauto.
  - destruct (fn_body original args this (active w)) as [e|v|o|o|] eqn:Hb;
      try done.
    + destruct (settling_throw this args e w Hb Hrec) as (w1 & Ht & Hl1 & Hj1).
      subst r w2. rewrite Ht. simpl fst. simpl snd.
      rewrite runJobs_idle; [by rewrite Hj1|]. rewrite Hl1.
      exists [], [], [], []. simpl. rewrite ?app_nil_r.
      repeat apply conj; eauto.
    + assert (Hv : isThenable v = false).
      { destruct v; try done. simpl in Hf. by destruct (promises w !! p) as [[]|]. }
      destruct (settling_value this args v w Hb Hv Hrec) as (w1 & Ht & Hl1 & Hj1).
      subst r w2. rewrite Ht. simpl fst. simpl snd.
      rewrite runJobs_idle; [by rewrite Hj1|]. rewrite Hl1.
      exists [], [], [], []. simpl.
      destruct v; try done; simpl; rewrite ?app_nil_r; repeat apply conj; eauto.
Qed.

Hypothesis okRel_release : ∀ v, Forall (λ e, isRelease e = true) (okRel v).
Hypothesis errEff_effect : ∀ e, Forall (λ x, isEffect x = true) (errEff e).
Hypothesis errRel_release : ∀ e, Forall (λ x, isRelease x = true) (errRel e).

(** The same for a call made by a wrapper: [w] is the world at the call of
    the wrapper and [w4] the world once the lines before [try] have run,
    which logged the quiet events [pre]. *)
Lemma settling_after (this : Value) (args : list Value) (w w4 : World)
    (pre : list Event) (k : nat) :
  jobs w4 = [] →
  records w4 !! labels = Some ls →
  active w4 = active w → promises w4 = promises w →
  log w4 = log w ++ pre →
  (∀ r, Forall (λ e, quiet r e = true) pre) →
  let r := (settling this args w4).1 in
  let w2 := runJobs (4 + k) (settling this args w4).2 in
  ∃ delta : list Event,
    log w2 = log w ++ delta ∧ ordered r delta ∧
    match settledWith (fn_body original args this (active w)) (promises w) with
    | Some o =>
        phases r delta (settlingEffects o) (settlingReleases o) (completion r o) ∧
        conveys r w2 o
    | None => True
    end.
Proof.
  intros Hj Hrec Hact Hpr Hlog Hpre r w2.
  destruct (settling_run this args w4 k Hj Hrec)
    as (N0 & N2 & N3 & C & Hl & HN0 & HN2 & HN3 & HC & Hsettled).
  fold r w2 in Hl, HN0, HN2, HN3, HC, Hsettled.
  rewrite Hact Hpr in Hl Hsettled.
  set (settled := settledWith (fn_body original args this (active w)) (promises w))
    in *.
  set (S := default [] (settlingEffects <$> settled)) in *.
  set (R := default [] (settlingReleases <$> settled)) in *.
  assert (Hst : staged r (pre ++ callEvent original this args (active w) :: N0)
                  S N2 R N3 C).
  { repeat split; try done.
    - rewrite Forall_app. split; [apply Hpre | by constructor].
    - subst S. destruct settled as [[v|e]|]; simpl; try done.
    - subst R. destruct settled as [[v|e]|]; simpl; try done. }
  exists ((pre ++ callEvent original this args (active w) :: N0) ++
          S ++ N2 ++ R ++ N3 ++ C).
  split; [by rewrite Hl Hlog -!app_assoc|].
  split; [by apply staged_ordered|].
  pose proof (staged_phases _ _ _ _ _ _ _ Hst) as Hph.
  subst S R. destruct settled as [o|]; [|done].
  destruct Hsettled as [Hconv ->]. by split.
Qed.

End Settling.

Section TimerRuns.

Import Promise Metrics.

(** [endTimer] as the wrappers set it. *)
Definition timerOf (timed : bool) (metric : Metric) (labels : loc) : Timer :=
  if timed then Some (metric, labels) else None.

Definition timerStarted (metric : Metric) (timed : bool) (ls : Rec) : list Event :=
  if timed then [EvMetric metric OpStartTimer (Some ls) None] else [].

Definition timerStopped (metric : Metric) (timed : bool) (ls : Rec) : list Event :=
  if timed then [EvMetric metric OpEndTimer (Some ls) None] else [].




Lemma timerStopped_release metric timed ls :
  Forall (λ e, isRelease e = true) (timerStopped metric timed ls).
Proof. unfold timerStopped. destruct timed; by repeat constructor. Qed.

Lemma timerStarted_quiet r metric timed ls :
  Forall (λ e, quiet r e = true) (timerStarted metric timed ls).
Proof. unfold timerStarted. destruct timed; by repeat constructor. Qed.




Lemma CbStop_returns metric labels ls v w :
  fits metric ls = true →
  records w !! labels = Some ls →
  ∃ w', runCallback (CbStop (timerOf true metric labels)) v w = (Ok v, w') ∧
        log w' = log w ++ timerStopped metric true (labelsAfter ls (Fulfilled v)).
Proof.
  intros Hfits Hrec. destruct w as [md ac st oo rc fl pr jb sx rg lg]. simpl in *.
  unfold runCallback, stopTimer, timerOf, Heap.readRecord, timerStopped.
  msimpl. rewrite Hrec. msimpl. rewrite call_taken //. msimpl. by eexists.
Qed.

Lemma CbLabelErrStop_throws metric labels ls e w :
  is_Some (ls !! "error") → fits metric ls = true →
  records w !! labels = Some ls →
  ∃ w', runCallback (CbLabelErrStop labels (timerOf true metric labels)) e w
          = (Throw e, w') ∧
        log w' = log w ++ labelEvents labels (Rejected e) ++
                   timerStopped metric true (labelsAfter ls (Rejected e)).
Proof.
  intros Herr Hfits Hrec. destruct w as [md ac st oo rc fl pr jb sx rg lg].
  simpl in *.
  unfold runCallback, assignErrorLabel, stopTimer, timerOf, Heap.readRecord,
    Heap.assign, timerStopped, labelEvents, labelsAfter, errorLabel.
  msimpl. rewrite ?lookup_insert_eq Hrec. msimpl.
  rewrite call_taken; [by apply fits_insert | done |]. msimpl. eexists.
  split; [reflexivity|]. by rewrite /= -?app_assoc.
Qed.


Lemma timedHistogram_settling original labels endTimer this args w :
  timedHistogram original labels endTimer this args w
  = settling original (CbStop endTimer) (CbLabelErrStop labels endTimer) this args w.
Proof. reflexivity. Qed.

Lemma timer_started metric labels timed ls w :
  records w !! labels = Some ls →
  (if timed then startTimer metric labels else mret None) w
  = (Ok (timerOf timed metric labels),
     set_log (log w ++ timerStarted metric timed ls) w).
Proof.
  intros Hrec. destruct w as [md ac st oo rc fl pr jb sx rg lg]. simpl in *.
  unfold startTimer, timerOf, timerStarted, Heap.readRecord.
  destruct timed; msimpl; rewrite ?Hrec ?call_startTimer ?app_nil_r //.
Qed.

Lemma set_log_fields x w :
  jobs (set_log x w) = jobs w ∧ records (set_log x w) = records w ∧
  active (set_log x w) = active w ∧ promises (set_log x w) = promises w.
Proof. by destruct w. Qed.




Lemma _wrapWithHistogram_run (original : Callee) (options : HistogramDecoratorOptions)
    (this : Value) (args : list Value) (dyn : Rec) (w : World) (k : nat) :
  jobs w = [] →
  dynLabelsResult (hd_options options) args = Ok dyn →
  accepted Histogram (hd_options options) (hd_buckets options) None
    (counterLabels (hd_options options) dyn) w = true →
  let histogram := metricOf Histogram (hd_options options) (hd_buckets options) None
                     (counterLabels (hd_options options) dyn) w in
  runsInOrder (_wrapWithHistogram original options this args)
    (settledWith (fn_body original args this (active w)) (promises w)) w k
    (labelEvents (labelObject w))
    (λ o, timerStopped histogram true
            (labelsAfter (counterLabels (hd_options options) dyn) o)).
Proof.
  intros Hj Hdyn Hadm metric.
  destruct (metric_prelude Histogram (hd_options options)
              (counterLabels (hd_options options)) (hd_buckets options) None
              args dyn w Hdyn Hadm)
    as (wd & wa & w3 & Hd & Ha & Hm & Hfits & _ & Hj3 & Hrec3 & Ha3 & Hp3 & Hl3).
  fold metric in Hm, Hfits.
  set (ll := labelObject w) in *.
  unfold runsInOrder, _wrapWithHistogram.
  set (ls := counterLabels (hd_options options) dyn) in *.
  set (w4 := set_log (log w3 ++ timerStarted metric true ls) w3).
  destruct (set_log_fields (log w3 ++ timerStarted metric true ls) w3)
    as (Hj4 & Hrec4 & Ha4 & Hp4). fold w4 in Hj4, Hrec4, Ha4, Hp4.
  rewrite bind_unfold Hd bind_unfold Ha bind_unfold Hm.
  rewrite bind_unfold.
  pose proof (timer_started metric ll true ls w3 Hrec3) as Hst.
  simpl in Hst. rewrite Hst. fold w4.
  rewrite timedHistogram_settling.
  destruct (settling_after original
              (CbStop (timerOf true metric ll))
              (CbLabelErrStop ll (timerOf true metric ll)) ll ls
              (λ v, timerStopped metric true (labelsAfter ls (Fulfilled v)))
              (λ e, labelEvents ll (Rejected e))
              (λ e, timerStopped metric true (labelsAfter ls (Rejected e)))
              (λ v w, CbStop_returns metric ll ls v w Hfits)
              (λ e w, CbLabelErrStop_throws metric ll ls e w
                 (counterLabels_error (hd_options options) dyn) Hfits)
              (λ v, timerStopped_release metric true _)
              (λ e, labelEvents_effect ll (Rejected e))
              (λ e, timerStopped_release metric true _)
              this args w w4
              (dynLabelEvents (hd_options options) args ++ timerStarted metric true ls) k)
    as (delta & Hlog & Hord & Hsettled).
  - by rewrite Hj4 Hj3.
  - by rewrite Hrec4.
  - by rewrite Ha4.
  - by rewrite Hp4.
  - subst w4. destruct w3. simpl in *. by rewrite Hl3 -app_assoc.
  - intros r. rewrite Forall_app. split; [|apply timerStarted_quiet].
    unfold dynLabelEvents. destruct (md_dynamicLabels _); by repeat constructor.
  - exists delta. split; [done|]. split; [done|].
    destruct (settledWith _ _) as [o|]; [|done].
    by destruct o.
Qed.

End TimerRuns.

Section Claims.

Import Promise Traces Metrics.

Definition isEnd (e : Event) : bool :=
  match e with EvEnd _ => true | _ => false end.

(** Filtering a phased log for events that are releases leaves what the
    release phase holds. *)
Lemma phased_filter (P : Event → bool) (r : Result Value)
    (N1 S N2 R C : list Event) :
  (∀ e, P e = true → isRelease e = true) →
  phased r N1 S N2 R C →
  List.filter P (N1 ++ S ++ N2 ++ R ++ C) = List.filter P R.
Proof.
  intros HP (HN1 & HS & HN2 & HR & HC).
  assert (Hnot : ∀ e, isRelease e = false → P e = false).
  { intros e He. destruct (P e) eqn:HPe; [|done]. apply HP in HPe. congruence. }
  rewrite !List.filter_app.
  rewrite (filter_nothing P N1); [|rewrite (filter_nothing P S);
    [|rewrite (filter_nothing P N2); [|rewrite (filter_nothing P C)]]].
  - eapply Forall_impl; [exact HN1|]. intros e He.
    by apply Hnot, (quiet_neither r).
  - eapply Forall_impl; [exact HS|]. intros e He. apply Hnot. by destruct e.
  - eapply Forall_impl; [exact HN2|]. intros e He.
    by apply Hnot, (quiet_neither r).
  - destruct HC as [->|(q & o & -> & _)]; repeat constructor. by apply Hnot.
  - by rewrite /= app_nil_r.
Qed.

(** The calls of [end()] in the log of one invocation of a tracing wrapper
    on [w]: there is at most one, on the span of the invocation, made only
    when the invocation created that span; a reused span is never ended. *)
Definition endsOnlyOwnSpan (wr : Wrapped) (this : Value) (args : list Value)
    (w : World) (k : nat) : Prop :=
  ∃ delta : list Event,
    log (runJobs (4 + k) (wrapped wr this args w).2) = log w ++ delta ∧
    (List.filter isEnd delta = [] ∨
     List.filter isEnd delta = [EvEnd (spanOf (wr_startMode wr) w)] ∧
     createsSpan (wr_startMode wr) (active w) = true) ∧
    match wr_startMode wr, active w with
    | reuse, Some a =>
        spanOf (wr_startMode wr) w = a ∧ ∀ s, EvEnd s ∉ delta
    | _, _ => True
    end.

(** C1.  In mode [reuse] with an active span, [getSpan] returns the active
    span with [createdSpan = false]; a wrapper in that mode never calls
    [end()] on it, whether the original function returns, throws, or
    returns a promise that is fulfilled or rejected; and in any mode a
    wrapper calls [end()] at most once per invocation, only on a span the
    invocation created. *)
Theorem reused_span_is_never_ended
    (wr : Wrapped) (this : Value) (args : list Value) (w : World) (k : nat)
    (name module : string) (options : option loc)
    (Hidle : jobs w = []) :
  match active w with
  | Some a => ∃ w', getSpan name options reuse module w = (Ok (a, false), w')
  | None => ∃ s w', getSpan name options reuse module w = (Ok (s, true), w')
  end ∧
  endsOnlyOwnSpan wr this args w k.
Proof.
  split.
  - destruct (getSpan_run name options reuse module w) as (l & w1 & _ & ->).
    destruct (active w); eauto.
  - destruct (wrapped_run wr this args w k Hidle)
      as (N1 & S & N2 & R & C & Hlog & Hph & HR & _).
    exists (N1 ++ S ++ N2 ++ R ++ C). split; [done|].
    assert (Hf : List.filter isEnd (N1 ++ S ++ N2 ++ R ++ C) = List.filter isEnd R).
    { eapply phased_filter; [by intros [] | exact Hph]. }
    rewrite Hf. split.
    + destruct HR as [->|[-> Hc]]; [by left | by right].
    + destruct (wr_startMode wr) eqn:Hm; try done.
      destruct (active w) as [a|] eqn:Ha; [|done].
      split; [by rewrite /spanOf Ha|].
      intros s Hs.
      assert (Hin : In (EvEnd s) (List.filter isEnd (N1 ++ S ++ N2 ++ R ++ C))).
      { apply List.filter_In. split; [by apply list_elem_of_In | done]. }
      rewrite Hf in Hin.
      destruct HR as [->|[_ Hc]]; [done|]. by rewrite /createsSpan in Hc.
Qed.

(** What [withTracing] captures: the mode is read when the function is
    wrapped, and nothing else of the world is touched. *)
Lemma withTracing_run (callerFile : string) (fn : Callee)
    (options : TraceDecoratorOptions) (w0 : World) :
  ∃ wr : Wrapped,
    withTracing callerFile fn options w0 = (Ok wr, w0) ∧
    wr_fn wr = fn ∧
    wr_coerceToPromise wr = isLegacy (mode w0) ∧
    wr_traceOnlyIf wr = default (GateBool true) (traceOnlyIf options).
Proof.
  unfold withTracing, getTracingMode. msimpl. eexists. by repeat split.
Qed.

(** A call that is not traced and whose function returns a plain value. *)
Lemma untraced_value (wr : Wrapped) (this : Value) (args : list Value)
    (v : Value) (w : World) :
  gateResult wr this args w = Ok false →
  fn_body (wr_fn wr) args this (active w) = BReturn v →
  isThenable v = false →
  let q := fresh (dom (promises w)) in
  let r := wrapped wr this args w in
  r.1 = Ok (if wr_coerceToPromise wr then VPromise q else v) ∧
  (if wr_coerceToPromise wr
   then promises r.2 !! q = Some (Settled (Fulfilled v))
   else promises r.2 = promises w).
Proof.
  intros Hgate Hb Hv q r. subst q r.
  rewrite (wrapped_gated_off _ _ _ _ Hgate).
  destruct w as [md ac st oo rc fl pr jb sx rg lg]. simpl in *.
  unfold applyFn, resolve, newPromise. msimpl. rewrite Hb.
  destruct (wr_coerceToPromise wr); msimpl; [|done].
  destruct v; try done; msimpl; split; try done; by map_lookup.
Qed.

(** C3.  Let [f] return the value [x], not a thenable, whatever span is
    active, and let [wr] be [withTracing(f, options)] with callbacks that
    return.  Wrapped under [natural-sync-async], a call of [wr] returns [x]
    itself and creates no promise; wrapped under [legacy-always-promise],
    it returns a new promise that is fulfilled with [x]. *)
Theorem sync_value_round_trip
    (callerFile : string) (f : Callee) (options : TraceDecoratorOptions)
    (this : Value) (args : list Value) (x : Value)
    (w0 w0' w : World) (wr : Wrapped) (traceIt : bool) (dyn : Rec)
    (Hsync : ∀ cur, fn_body f args this cur = BReturn x)
    (Hplain : isThenable x = false)
    (Hwrap : withTracing callerFile f options w0 = (Ok wr, w0'))
    (Hgate : gateResult wr this args w = Ok traceIt)
    (Hdyn : dynResult wr args = Ok dyn) :
  let r := wrapped wr this args w in
  match mode w0 with
  | natural_sync_async => r.1 = Ok x ∧ promises r.2 = promises w
  | legacy_always_promise =>
      ∃ q : nat, r.1 = Ok (VPromise q) ∧ (q ∉ dom (promises w)) ∧
        promises r.2 !! q = Some (Settled (Fulfilled x))
  end.
Proof.
  intros r. subst r.
  destruct (withTracing_run callerFile f options w0) as (wr' & Hw & Hfn & Hc & _).
  rewrite Hw in Hwrap. injection Hwrap as -> <-.
  assert (Hfresh : fresh (dom (promises w)) ∉ dom (promises w)) by apply is_fresh.
  destruct traceIt.
  - destruct (wrapped_traced wr this args dyn w Hgate Hdyn)
      as (spanEnded & w1 & attrs & root & links & -> & Hflag & _ & Hpr & _).
    destruct (traced_value wr this args (spanOf (wr_startMode wr) w)
                (createsSpan (wr_startMode wr) (active w)) spanEnded x w1
                ltac:(rewrite Hfn; apply Hsync) Hplain Hflag)
      as (w2 & -> & _ & Hp2 & _).
    rewrite Hc in Hp2 |- *. rewrite Hpr in Hp2 |- *.
    destruct (mode w0); simpl in *; [by eexists | done].
  - destruct (untraced_value wr this args x w Hgate
                ltac:(rewrite Hfn; apply Hsync) Hplain) as [-> Hp2].
    rewrite Hc in Hp2 |- *.
    destruct (mode w0); simpl in *; [by eexists | done].
Qed.

(** The events that start a span. *)
Definition startsSpan (e : Event) : bool :=
  match e with EvStartSpan _ _ _ _ _ _ => true | _ => false end.

(** C4.  A call whose [traceOnlyIf] is false: the predicate is evaluated
    once, first, on the active span; no span is started nor made active;
    the original function is called next.  A plain value it returns comes
    back as it is when the function was wrapped under
    [natural-sync-async], in a new fulfilled promise when wrapped under
    [legacy-always-promise].  What the function throws is raised by the
    wrapper under either mode: it is not turned into a rejected promise
    under [legacy-always-promise], and no promise is created. *)
Theorem untraced_call_raises_what_the_function_throws
    (callerFile : string) (f : Callee) (options : TraceDecoratorOptions)
    (this : Value) (args : list Value) (w0 w0' w : World) (wr : Wrapped)
    (Hwrap : withTracing callerFile f options w0 = (Ok wr, w0'))
    (Hgate : gateResult wr this args w = Ok false) :
  let r := wrapped wr this args w in
  ∃ C : list Event,
    log r.2 = log w ++ gateEvents wr this args w ++
                [EvCall (fn_name f) args this (active w)] ++ C ∧
    Forall (λ e, startsSpan e = false) (gateEvents wr this args w ++ C) ∧
    started r.2 = started w ∧ active r.2 = active w ∧
    match fn_body f args this (active w) with
    | BThrow e => r.1 = Throw e ∧ C = [] ∧ promises r.2 = promises w
    | BReturn v =>
        if isThenable v then r.1 = Ok v
        else if isLegacy (mode w0)
             then ∃ q, r.1 = Ok (VPromise q) ∧ (q ∉ dom (promises w)) ∧
                       promises r.2 !! q = Some (Settled (Fulfilled v))
             else r.1 = Ok v ∧ promises r.2 = promises w
    | BSettled o =>
        ∃ q, r.1 = Ok (VPromise q) ∧ (q ∉ dom (promises w)) ∧
             promises r.2 !! q = Some (Settled o)
    | BPending _ | BNever =>
        ∃ q, r.1 = Ok (VPromise q) ∧ (q ∉ dom (promises w)) ∧
             promises r.2 !! q = Some (Pending [])
    end.
Proof.
  intros r. subst r.
  destruct (withTracing_run callerFile f options w0) as (wr' & Hw & Hfn & Hc & _).
  rewrite Hw in Hwrap. injection Hwrap as -> <-.
  rewrite (wrapped_gated_off _ _ _ _ Hgate).
  assert (Hfresh : fresh (dom (promises w)) ∉ dom (promises w)) by apply is_fresh.
  assert (HG : Forall (λ e, startsSpan e = false) (gateEvents wr this args w)).
  { unfold gateEvents. destruct (wr_traceOnlyIf wr); by repeat constructor. }
  rewrite Hc Hfn. clear Hc Hw Hgate.
  destruct w as [md ac st oo rc fl pr jb sx rg lg]. simpl in *.
  unfold applyFn, resolve, newPromise. msimpl.
  destruct (fn_body f args this ac) as [e|v|o|o|];
    destruct (isLegacy (mode w0)); msimpl.
  - exists []. rewrite -!app_assoc app_nil_r. by repeat split.
  - exists []. rewrite -!app_assoc app_nil_r. by repeat split.
  - destruct v; msimpl;
      try (eexists [_]; rewrite -!app_assoc; split; [done|];
           split; [apply Forall_app; split; [done | by repeat constructor]|];
           do 2 (split; [done|]); eexists; repeat split; [done | by map_lookup]).
    exists []; rewrite -!app_assoc app_nil_r; by repeat split.
  - exists []. rewrite -!app_assoc app_nil_r.
    destruct v; by repeat split.
  - exists []. rewrite -!app_assoc app_nil_r.
    repeat split; try done. eexists; repeat split; [done | by map_lookup].
  - exists []. rewrite -!app_assoc app_nil_r.
    repeat split; try done. eexists; repeat split; [done | by map_lookup].
  - exists []. rewrite -!app_assoc app_nil_r.
    repeat split; try done. eexists; repeat split; [done | by map_lookup].
  - exists []. rewrite -!app_assoc app_nil_r.
    repeat split; try done. eexists; repeat split; [done | by map_lookup].
  - exists []. rewrite -!app_assoc app_nil_r.
    repeat split; try done. eexists; repeat split; [done | by map_lookup].
  - exists []. rewrite -!app_assoc app_nil_r.
    repeat split; try done. eexists; repeat split; [done | by map_lookup].
Qed.

Lemma phased_phases (r : Result Value) (N1 S N2 R C : list Event) :
  phased r N1 S N2 R C →
  phases r (N1 ++ S ++ N2 ++ R ++ C) S R C.
Proof.
  intros H. exact (staged_phases _ _ _ _ _ [] _ (phased_staged _ _ _ _ _ _ H)).
Qed.



(** The value of the label [error] for an outcome. *)
Definition errorLabelOf (o : Outcome) : Value :=
  match o with
  | Fulfilled _ => VStr "none"
  | Rejected e =>
      if truthy (get_prop e "name") then get_prop e "name"
      else VStr "unknown_error"
  end.


End Claims.

Section Examples.

Import Promise Traces Metrics.

Definition rangeError : Value := mkError "RangeError" "neg".

(** [async function fetchRow() { throw new RangeError('neg') }]: a promise
    that is rejected in a later job. *)
Definition fetchRow : Callee :=
  mkCallee "fetchRow" (λ _ _ _, BPending (Rejected rangeError)).

(** [function answer() { return 'done' }] *)
Definition answer : Callee :=
  mkCallee "answer" (λ _ _ _, BReturn (VStr "done")).

(** [function rejectNegative() { throw new RangeError('neg') }] *)
Definition rejectNegative : Callee :=
  mkCallee "rejectNegative" (λ _ _ _, BThrow rangeError).

Definition noOptions : TraceDecoratorOptions :=
  mkTraceDecoratorOptions None None None None None None None.

(** [{ traceOnlyIf: false }] *)
Definition neverTraced : TraceDecoratorOptions :=
  mkTraceDecoratorOptions None None None None None (Some (GateBool false)) None.

Definition fetchRowReusing : Wrapped :=
  mkWrapped fetchRow "fetchRow" ∅ None reuse (GateBool true) "svc.ts" false.

Definition fetchRowChild : Wrapped :=
  mkWrapped fetchRow "fetchRow" ∅ None createChild (GateBool true) "svc.ts" false.

Definition answerLegacy : Wrapped :=
  mkWrapped answer "answer" ∅ None reuse (GateBool true) "svc.ts" true.

Definition rejectNegativeUntraced : Wrapped :=
  mkWrapped rejectNegative "rejectNegative" ∅ None reuse (GateBool false) "svc.ts" true.

Definition rejectNegativeTraced : Wrapped :=
  mkWrapped rejectNegative "rejectNegative" ∅ None reuse (GateBool true) "svc.ts" true.

Definition fetchRowCounter : MetricDecoratorOptions :=
  mkMetricDecoratorOptions "load_total" "calls of fetchRow" None None.

Lemma reused_span_is_never_ended_witness :
  jobs activeWorld = [] ∧
  (∃ w', getSpan "fetchRow" None reuse "svc.ts" activeWorld
           = (Ok (mkSpan 0 0, false), w')) ∧
  endsOnlyOwnSpan fetchRowReusing VUndefined [] activeWorld 0.
Proof.
  split; [reflexivity|].
  exact (reused_span_is_never_ended fetchRowReusing VUndefined [] activeWorld 0
           "fetchRow" "svc.ts" None eq_refl).
Defined.







Lemma sync_value_round_trip_witness :
  (∀ cur, fn_body answer [] VUndefined cur = BReturn (VStr "done")) ∧
  isThenable (VStr "done") = false ∧
  withTracing "svc.ts" answer noOptions (initialWorld legacy_always_promise)
    = (Ok answerLegacy, initialWorld legacy_always_promise) ∧
  gateResult answerLegacy VUndefined [] activeWorld = Ok true ∧
  dynResult answerLegacy [] = Ok ∅ ∧
  ∃ q : nat,
    (wrapped answerLegacy VUndefined [] activeWorld).1 = Ok (VPromise q) ∧
    (q ∉ dom (promises activeWorld)) ∧
    promises (wrapped answerLegacy VUndefined [] activeWorld).2 !! q
      = Some (Settled (Fulfilled (VStr "done"))).
Proof.
  split; [intros cur; reflexivity|].
  do 4 (split; [reflexivity|]).
  exact (sync_value_round_trip "svc.ts" answer noOptions VUndefined []
           (VStr "done") (initialWorld legacy_always_promise)
           (initialWorld legacy_always_promise) activeWorld answerLegacy
           true ∅ (λ _, eq_refl) eq_refl eq_refl eq_refl eq_refl).
Defined.

(** Wrapped under [legacy-always-promise] with [traceOnlyIf: false], [rejectNegative]
    makes the wrapper throw. *)
Lemma untraced_call_raises_what_the_function_throws_witness :
  withTracing "svc.ts" rejectNegative neverTraced (initialWorld legacy_always_promise)
    = (Ok rejectNegativeUntraced, initialWorld legacy_always_promise) ∧
  gateResult rejectNegativeUntraced VUndefined [] (initialWorld legacy_always_promise)
    = Ok false ∧
  wr_coerceToPromise rejectNegativeUntraced = true ∧
  (wrapped rejectNegativeUntraced VUndefined [] (initialWorld legacy_always_promise)).1
    = Throw rangeError.
Proof.
  do 3 (split; [reflexivity|]).
  destruct (untraced_call_raises_what_the_function_throws "svc.ts" rejectNegative
              neverTraced VUndefined [] (initialWorld legacy_always_promise)
              (initialWorld legacy_always_promise)
              (initialWorld legacy_always_promise) rejectNegativeUntraced
              eq_refl eq_refl) as (C & _ & _ & _ & _ & H).
  exact (proj1 H).
Defined.

(** The same function and mode, the call traced: the wrapper returns a
    rejected promise. *)
Lemma traced_call_returns_rejected_promise :
  let r := wrapped rejectNegativeTraced VUndefined [] (initialWorld legacy_always_promise) in
  r.1 = Ok (VPromise 0) ∧
  promises r.2 !! 0 = Some (Settled (Rejected rangeError)).
Proof. split; reflexivity. Qed.



End Examples.

(* ===================================================================== *)
(** * Further properties: the metric registry of class [Metrics]          *)
(* ===================================================================== *)

Section Registry.

Import Metrics.

(** A name is known to class [Metrics] for a kind when it has an instance
    or a configuration of that kind. *)
Definition registered (k : MetricType) (name : string) (w : World) : Prop :=
  is_Some (instancesOf k (statics w) !! name) ∨
  is_Some (configsOf k (statics w) !! name).

(** X1.  A metric that is registered is built on the first [get...] and
    kept.  Let the constructor of prom-client take the configuration (it
    has a help text, its name and label names are well formed, the
    registry does not hold the name, and no label name is reserved), and
    let the configuration carry [collect] or the name have no instance
    yet.  Then [getCounter] (and [getGauge], [getHistogram],
    [getSummary]) after the registration returns the metric of that
    configuration, with [labelNames] defaulting to the empty list,
    [buckets] to the eleven default buckets and [percentiles] to the four
    default percentiles; the metric is in the instance map and in the
    registry, and a second [get...] returns the same metric and changes
    nothing. *)
Theorem registered_metric_is_built_on_first_get
    (k : MetricType) (cfg : Config) (w : World)
    (Hfirst : cfg_collect cfg = true ∨
              instancesOf k (statics w) !! cfg_name cfg = None)
    (Htaken : accepts k (withDefaults k cfg) w = true) :
  let name := cfg_name cfg in
  let m := mkMetric k (withDefaults k cfg) in
  let r := getMetric k name (registerMetric k cfg w).2 in
  r.1 = Ok (Some m) ∧
  instancesOf k (statics r.2) !! name = Some m ∧
  register r.2 !! name = Some m ∧
  labelNames m = default [] (cfg_labelNames cfg) ∧
  match k with
  | Histogram =>
      cfg_buckets (m_config m) = Some (default defaultBuckets (cfg_buckets cfg))
  | Summary =>
      cfg_percentiles (m_config m)
        = Some (default defaultPercentiles (cfg_percentiles cfg))
  | Counter | Gauge => True
  end ∧
  getMetric k name r.2 = (Ok (Some m), r.2).
Proof.
  intros name m r. subst r.
  rewrite registerMetric_run; [done|]. simpl snd. fold m. fold name.
  assert (Hshape : labelNames m = default [] (cfg_labelNames cfg) ∧
    match k with
    | Histogram =>
        cfg_buckets (m_config m) = Some (default defaultBuckets (cfg_buckets cfg))
    | Summary =>
        cfg_percentiles (m_config m)
          = Some (default defaultPercentiles (cfg_percentiles cfg))
    | Counter | Gauge => True
    end).
  { subst m. unfold labelNames. simpl. rewrite withDefaults_labelNames.
    split; [done|]. destruct cfg as [n h l c b p]. by destruct k, l, b, p. }
  destruct Hshape as [Hl Hb].
  destruct (cfg_collect cfg) eqn:Hcollect.
  - set (w1 := set_statics _ _).
    assert (Hi : instancesOf k (statics w1) !! name = Some m).
    { subst w1. by rewrite statics_set_statics instancesOf_setInstances
        lookup_insert_eq. }
    rewrite (getMetric_instance k name m w1 Hi). simpl.
    repeat split; try done.
    + subst w1. destruct w. simpl. by rewrite lookup_insert_eq.
    + by apply getMetric_instance.
  - destruct Hfirst as [?|Hnone]; [done|].
    set (w1 := set_statics _ _).
    assert (Hi : instancesOf k (statics w1) !! name = None).
    { subst w1. by rewrite statics_set_statics instancesOf_setConfigs. }
    assert (Hc : configsOf k (statics w1) !! name = Some (withDefaults k cfg)).
    { subst w1. by rewrite statics_set_statics configsOf_setConfigs
        lookup_insert_eq. }
    assert (Ha : accepts k (withDefaults k cfg) w1 = true).
    { rewrite -Htaken. apply accepts_register. subst w1. by destruct w. }
    rewrite (getMetric_config k name _ w1 Hi Hc Ha). fold m. simpl.
    rewrite withDefaults_name. fold name.
    set (w2 := set_statics _ _).
    assert (Hi2 : instancesOf k (statics w2) !! name = Some m).
    { subst w2. by rewrite statics_set_statics instancesOf_setInstances
        lookup_insert_eq. }
    repeat split; try done.
    + subst w2 w1. destruct w. simpl. by rewrite lookup_insert_eq.
    + by apply getMetric_instance.
Qed.

Lemma registered_metric_is_built_on_first_get_witness :
  (cfg_collect exampleConfig = true ∨
   instancesOf Counter (statics (initialWorld natural_sync_async))
     !! cfg_name exampleConfig = None) ∧
  accepts Counter (withDefaults Counter exampleConfig)
    (initialWorld natural_sync_async) = true ∧
  (getCounter "test_counter_total"
     (registerCounter exampleConfig (initialWorld natural_sync_async)).2).1
  = Ok (Some (mkMetric Counter exampleConfig)).
Proof.
  split; [by right|]. split; [vm_compute; reflexivity|].
  exact (proj1 (registered_metric_is_built_on_first_get Counter exampleConfig
                  (initialWorld natural_sync_async) (or_intror eq_refl)
                  ltac:(vm_compute; reflexivity))).
Defined.

(** X2.  [get...] returns [undefined] exactly for a name that has neither
    an instance nor a configuration of the kind, and then it changes
    nothing.  It throws exactly when the name has no instance and a
    configuration that the constructor of prom-client refuses: it then
    throws the error of the constructor, and the name still has no
    instance. *)
Theorem get_is_undefined_exactly_for_unknown_names
    (k : MetricType) (name : string) (w : World) :
  let r := getMetric k name w in
  (r.1 = Ok None ↔ ¬ registered k name w) ∧
  (r.1 = Ok None → r.2 = w) ∧
  (∀ e, r.1 = Throw e ↔
        instancesOf k (statics w) !! name = None ∧
        ∃ cfg, configsOf k (statics w) !! name = Some cfg ∧ declined k cfg w e) ∧
  (∀ e, r.1 = Throw e → instancesOf k (statics r.2) !! name = None).
Proof.
  intros r. subst r. unfold registered.
  destruct (instancesOf k (statics w) !! name) as [m|] eqn:Hm.
  - rewrite (getMetric_instance k name m w Hm). simpl.
    split; [|split; [|split]]; try done.
    + split; [done|]. intros H. destruct H. left. by eexists.
    + intros e. split; [done|]. by intros [? _].
  - destruct (configsOf k (statics w) !! name) as [cfg|] eqn:Hc.
    + destruct (accepts k cfg w) eqn:Ha.
      * rewrite (getMetric_config k name cfg w Hm Hc Ha). simpl.
        split; [|split; [|split]]; try done.
        -- split; [done|]. intros H. destruct H. right. by eexists.
        -- intros e. split; [done|].
           intros (_ & cfg' & [= <-] & Hd).
           apply declined_accepts in Hd. congruence.
      * destruct (getMetric_declined k name cfg w Hm Hc Ha)
          as (e & w' & -> & Hd & Hw'). simpl.
        split; [|split; [|split]]; try done.
        -- split; [done|]. intros H. destruct H. right. by eexists.
        -- intros e'. split.
           ++ intros [= <-]. split; [done|]. by exists cfg.
           ++ intros (_ & cfg' & [= <-] & Hd'). f_equal.
              by apply (declined_unique k cfg w).
        -- intros e' _. by rewrite Hw' statics_set_register.
    + rewrite (getMetric_unknown k name w Hm Hc). simpl.
      split; [|split; [|split]]; try done.
      * split; [|done]. intros _ [[? ?]|[? ?]]; done.
      * intros e. split; [done|]. by intros (_ & cfg & ? & _).
Qed.

(** [_ensure...WithLabels] on a name that has an instance. *)
Lemma _ensureWithLabels_instance (k : MetricType) (name : string)
    (labels : option Rec) (m : Metric) (w : World) :
  instancesOf k (statics w) !! name = Some m →
  _ensureWithLabels k name labels w = (Ok (Some m), w).
Proof. intros Hm. unfold _ensureWithLabels. msimpl. by rewrite Hm. Qed.

(** X3.  Once a metric has been built, a configuration registered later
    under its name (without [collect]) is stored but not used: [get...]
    and the writes still find the metric that was built first. *)
Theorem built_metric_shadows_later_config
    (k : MetricType) (cfg : Config) (m : Metric) (labels : option Rec) (w : World)
    (Hbuilt : instancesOf k (statics w) !! cfg_name cfg = Some m)
    (Hlazy : cfg_collect cfg = false) :
  let w1 := (registerMetric k cfg w).2 in
  configsOf k (statics w1) !! cfg_name cfg = Some (withDefaults k cfg) ∧
  getMetric k (cfg_name cfg) w1 = (Ok (Some m), w1) ∧
  _ensureWithLabels k (cfg_name cfg) labels w1 = (Ok (Some m), w1).
Proof.
  intros w1. subst w1. rewrite registerMetric_run; [by rewrite Hlazy|].
  rewrite Hlazy. simpl snd.
  set (w1 := set_statics _ _).
  assert (Hi : instancesOf k (statics w1) !! cfg_name cfg = Some m).
  { subst w1. by rewrite statics_set_statics instancesOf_setConfigs. }
  repeat split.
  - subst w1. by rewrite statics_set_statics configsOf_setConfigs lookup_insert_eq.
  - by apply getMetric_instance.
  - by apply _ensureWithLabels_instance.
Qed.

(** The world in which the counter of the example has been registered
    and built, and a configuration that comes too late. *)
Definition builtWorld : World :=
  (getCounter "test_counter_total"
     (registerCounter exampleConfig (initialWorld natural_sync_async)).2).2.

Definition laterConfig : Config :=
  mkConfig "test_counter_total" "other" (Some ["z"]) false None None.

Lemma built_metric_shadows_later_config_witness :
  instancesOf Counter (statics builtWorld) !! cfg_name laterConfig
    = Some (mkMetric Counter exampleConfig) ∧
  cfg_collect laterConfig = false ∧
  getCounter "test_counter_total" (registerCounter laterConfig builtWorld).2
  = (Ok (Some (mkMetric Counter exampleConfig)),
     (registerCounter laterConfig builtWorld).2).
Proof.
  split; [reflexivity|]. split; [reflexivity|].
  exact (proj1 (proj2 (built_metric_shadows_later_config Counter laterConfig
                  (mkMetric Counter exampleConfig) None builtWorld
                  eq_refl eq_refl))).
Defined.

(** X4.  After [Metrics.clear()] a counter, gauge or histogram exists
    exactly when its name has a configuration: [get...] builds it anew
    from the configuration and registers it again, and a metric that was
    registered with [collect], which has no configuration, is gone.  The
    configuration is taken to be well formed (a help text, a well-formed
    name and label names, no reserved label): the registry, just cleared,
    does not hold its name. *)
Theorem clear_rebuilds_from_configurations
    (k : MetricType) (name : string) (w : World)
    (Hkind : k ≠ Summary)
    (Hwell : from_option (wellFormed k) true (configsOf k (statics w) !! name)
             = true) :
  let r := getMetric k name (clear w).2 in
  r.1 = Ok (mkMetric k <$> configsOf k (statics w) !! name) ∧
  register r.2 =
    match configsOf k (statics w) !! name with
    | Some cfg => {[cfg_name cfg := mkMetric k cfg]}
    | None => ∅
    end.
Proof.
  intros r. subst r.
  assert (Hclear : ∃ w1, (clear w).2 = w1 ∧ register w1 = ∅ ∧
            instancesOf k (statics w1) !! name = None ∧
            configsOf k (statics w1) = configsOf k (statics w)).
  { eexists. split; [reflexivity|].
    destruct w as [md ac st oo rc fl pr jb [cc gc hc sc c g h su] rg lg].
    by destruct k. }
  destruct Hclear as (w1 & -> & Hreg & Hi & Hc).
  destruct (configsOf k (statics w) !! name) as [cfg|] eqn:Hcfg.
  - simpl in Hwell.
    rewrite (getMetric_config k name cfg w1 Hi); [by rewrite Hc | |].
    { rewrite accepts_fresh; [by rewrite Hreg lookup_empty | done]. }
    simpl. split; [done|]. destruct w1. simpl in *. by rewrite Hreg.
  - rewrite (getMetric_unknown k name w1 Hi); [by rewrite Hc|]. by split.
Qed.

Lemma clear_rebuilds_from_configurations_witness :
  let w := (registerCounter (mkConfig "made_at_once" "help" None true None None)
              (initialWorld natural_sync_async)).2 in
  Counter ≠ Summary ∧
  from_option (wellFormed Counter) true
    (configsOf Counter (statics w) !! "made_at_once") = true ∧
  (getCounter "made_at_once" (clear w).2).1 = Ok None.
Proof.
  intros w. split; [discriminate|]. split; [vm_compute; reflexivity|].
  exact (proj1 (clear_rebuilds_from_configurations Counter "made_at_once" w
                  ltac:(discriminate) ltac:(vm_compute; reflexivity))).
Defined.

(** The keys that [_ensure...WithLabels] takes as label names. *)
Lemma definedKeys_spec (labels : Rec) (key : string) :
  key ∈ definedKeys (Some labels) ↔
  ∃ v, labels !! key = Some v ∧ is_undefined v = false.
Proof.
  unfold definedKeys. rewrite list_elem_of_fmap. split.
  - intros ([k v] & -> & Hin). apply elem_of_map_to_list in Hin.
    apply map_lookup_filter_Some in Hin as [Hl Hv]. by exists v.
  - intros (v & Hl & Hv). exists (key, v). split; [done|].
    apply elem_of_map_to_list, map_lookup_filter_Some. by split.
Qed.

Lemma converted_defined (v v' : Value) :
  convertedValue v = Some v' → is_undefined v' = false.
Proof. destruct v as [| |[]| | | |]; simpl; intros H; by simplify_eq. Qed.

(** The label names after a first write are the keys that the caller gave
    a value other than [undefined]. *)
Lemma definedKeys_converted (labels : option Rec) (key : string) :
  key ∈ definedKeys (Some (_convertLabels labels)) ↔
  ∃ v, default ∅ labels !! key = Some v ∧ is_undefined v = false.
Proof.
  rewrite definedKeys_spec. setoid_rewrite _convertLabels_default. split.
  - intros (v' & Hl & _).
    destruct (default ∅ labels !! key) as [v|] eqn:E; [|done].
    exists v. split; [done|]. by destruct v.
  - intros (v & -> & Hv). simpl.
    destruct (convertedValue v) as [v'|] eqn:E;
      [|by destruct v as [| |[]| | | |]].
    exists v'. split; [done|]. by eapply converted_defined.
Qed.

(** The first write on a name that has a configuration and no instance:
    the metric is built, with the label names of the configuration when
    it has some and with the keys of this write otherwise. *)
Definition firstConfig (k : MetricType) (cfg : Config) (labels : option Rec)
    : Config :=
  let cfg1 := ensureDefaults k cfg in
  match cfg_labelNames cfg1 with
  | Some (_ :: _) => cfg1
  | _ => with_labelNames (Some (definedKeys (Some (_convertLabels labels)))) cfg1
  end.

Lemma write_first (k : MetricType) (op : BackendOp) (name : string)
    (labels : option Rec) (value : option Q) (cfg : Config) (w : World) :
  instancesOf k (statics w) !! name = None →
  configsOf k (statics w) !! name = Some cfg →
  accepts k (firstConfig k cfg labels) w = true →
  takes op value = true →
  let m := mkMetric k (firstConfig k cfg labels) in
  let filtered := _filterAllowed m (_convertLabels labels) in
  ∃ w1 : World,
    write k op name labels value w =
      (Ok m,
       set_log (log w ++ [EvMetric m op
                            (if bool_decide (size filtered = 0) then None
                             else Some filtered) value]) w1) ∧
    log w1 = log w ∧
    instancesOf k (statics w1) !! name = Some m ∧
    configsOf k (statics w1) !! name = Some (firstConfig k cfg labels).
Proof.
  intros Hi Hc Hadm Htakes m filtered. unfold write, _ensureWithLabels. msimpl.
  rewrite Hi. msimpl. rewrite Hc. msimpl.
  fold (firstConfig k cfg labels).
  match goal with
  | |- context [Prom.new k _ ?w1] => set (w1' := w1)
  end.
  assert (Ha : accepts k (firstConfig k cfg labels) w1' = true).
  { rewrite -Hadm. apply accepts_register. subst w1'. by destruct w. }
  rewrite (new_accepted _ _ _ Ha). unfold storeInstance. msimpl.
  fold m. rewrite call_governed Htakes. msimpl.
  match goal with
  | |- context [set_log _ ?w2] => exists w2
  end.
  split.
  { unfold labelArgument. fold filtered.
    by rewrite log_set_statics log_set_register log_set_statics. }
  subst w1'.
  rewrite !statics_set_statics instancesOf_setInstances lookup_insert_eq.
  rewrite configsOf_setInstances statics_set_register statics_set_statics.
  rewrite configsOf_setConfigs lookup_insert_eq.
  by rewrite log_set_statics log_set_register log_set_statics.
Qed.

(** A write on a name that has an instance. *)
Lemma write_instance (k : MetricType) (op : BackendOp) (name : string)
    (labels : option Rec) (value : option Q) (m : Metric) (w : World) :
  instancesOf k (statics w) !! name = Some m →
  takes op value = true →
  let filtered := _filterAllowed m (_convertLabels labels) in
  write k op name labels value w =
    (Ok m,
     set_log (log w ++ [EvMetric m op
                          (if bool_decide (size filtered = 0) then None
                           else Some filtered) value]) w).
Proof.
  intros Hi Htakes filtered. unfold write. msimpl.
  rewrite (_ensureWithLabels_instance k name _ m w Hi). msimpl.
  by rewrite call_governed Htakes.
Qed.

(** The key has a value other than [undefined] in the label set. *)
Definition definedIn (labels : option Rec) (key : string) : bool :=
  match default ∅ labels !! key with
  | Some v => negb (is_undefined v)
  | None => false
  end.

Lemma definedIn_spec (labels : option Rec) (key : string) :
  definedIn labels key = true ↔
  ∃ v, default ∅ labels !! key = Some v ∧ is_undefined v = false.
Proof.
  unfold definedIn. destruct (default ∅ labels !! key) as [v|]; split.
  - intros H. exists v. split; [done|]. by apply negb_true_iff.
  - intros (v' & [= <-] & H). by apply negb_true_iff.
  - done.
  - by intros (v' & ? & _).
Qed.

Lemma firstConfig_open (k : MetricType) (cfg : Config) (labels : option Rec) :
  default [] (cfg_labelNames cfg) = [] →
  labelNames (mkMetric k (firstConfig k cfg labels))
  = definedKeys (Some (_convertLabels labels)).
Proof.
  intros Hopen. unfold firstConfig, labelNames.
  destruct cfg as [n h l c b p]. simpl in Hopen.
  destruct l as [[|x l]|]; try done; by destruct k, b, p.
Qed.

(** With the label names of a first write, the filter lets the whole
    converted label set through. *)
Lemma filterAllowed_first (m : Metric) (labels : option Rec) :
  labelNames m = definedKeys (Some (_convertLabels labels)) →
  _filterAllowed m (_convertLabels labels) = _convertLabels labels.
Proof.
  intros Hnames. apply map_eq. intros key. rewrite _filterAllowed_lookup.
  case_bool_decide as Hin; [done|].
  destruct (_convertLabels labels !! key) as [v|] eqn:E; [|done].
  destruct Hin. rewrite Hnames. apply definedKeys_spec. exists v. split; [done|].
  rewrite _convertLabels_default in E.
  destruct (default ∅ labels !! key) as [v0|]; [|done].
  by eapply converted_defined.
Qed.

(** X5.  A metric whose configuration declares no label names takes them
    from its first write: [incrementCounter], [setGauge],
    [startGaugeTimer], [observeHistogram], [observeSummary] and
    [startSummaryTimer] on a name that has such a configuration and no
    instance build the metric with exactly the keys to which this write
    gives a value other than [undefined], store these label names in the
    configuration, and record the sample with the whole converted label
    set.  This is so when the constructor of prom-client takes the
    configuration with these label names (the registry does not hold the
    name, the names are well formed) and the operation takes the value
    (a counter is not decreased). *)
Theorem first_write_fixes_the_label_names
    (k : MetricType) (op : BackendOp) (name : string) (labels : option Rec)
    (value : option Q) (cfg : Config) (w : World)
    (Hnone : instancesOf k (statics w) !! name = None)
    (Hcfg : configsOf k (statics w) !! name = Some cfg)
    (Hopen : default [] (cfg_labelNames cfg) = [])
    (Htaken : accepts k (firstConfig k cfg labels) w = true)
    (Hvalue : takes op value = true) :
  ∃ (m : Metric) (w' : World),
    write k op name labels value w = (Ok m, w') ∧
    instancesOf k (statics w') !! name = Some m ∧
    (∀ key, key ∈ labelNames m ↔ definedIn labels key = true) ∧
    cfg_labelNames <$> configsOf k (statics w') !! name
      = Some (Some (labelNames m)) ∧
    log w' = log w ++
      [EvMetric m op
         (if bool_decide (_convertLabels labels = ∅) then None
          else Some (_convertLabels labels)) value].
Proof.
  destruct (write_first k op name labels value cfg w Hnone Hcfg Htaken Hvalue)
    as (w1 & Hw & Hl1 & Hi1 & Hc1).
  pose proof (firstConfig_open k cfg labels Hopen) as Hnames.
  rewrite (filterAllowed_first _ labels Hnames) in Hw.
  eexists _, _. split; [exact Hw|].
  rewrite statics_set_log log_set_log. repeat split.
  - done.
  - rewrite Hnames definedKeys_converted. by apply definedIn_spec.
  - rewrite Hnames definedKeys_converted. by apply definedIn_spec.
  - rewrite Hc1 /=. f_equal.
    unfold firstConfig, labelNames in *. simpl in *.
    destruct cfg as [n h l c b p]. simpl in Hopen.
    destruct l as [[|x l]|]; try done; by destruct k, b, p.
  - by rewrite (bool_decide_ext _ _ (map_size_empty_iff (_convertLabels labels))).
Qed.

(** A counter configuration without label names. *)
Definition openConfig : Config :=
  mkConfig "jobs_total" "jobs" None false None None.

Definition openWorld : World :=
  (registerCounter openConfig (initialWorld natural_sync_async)).2.

Lemma first_write_fixes_the_label_names_witness :
  instancesOf Counter (statics openWorld) !! "jobs_total" = None ∧
  configsOf Counter (statics openWorld) !! "jobs_total"
    = Some (withDefaults Counter openConfig) ∧
  default [] (cfg_labelNames (withDefaults Counter openConfig)) = [] ∧
  accepts Counter
    (firstConfig Counter (withDefaults Counter openConfig) (Some exampleLabels))
    openWorld = true ∧
  takes OpInc None = true ∧
  ∃ (m : Metric) (w' : World),
    write Counter OpInc "jobs_total" (Some exampleLabels) None openWorld
      = (Ok m, w') ∧
    instancesOf Counter (statics w') !! "jobs_total" = Some m ∧
    (∀ key, key ∈ labelNames m ↔ definedIn (Some exampleLabels) key = true) ∧
    cfg_labelNames <$> configsOf Counter (statics w') !! "jobs_total"
      = Some (Some (labelNames m)) ∧
    log w' = log openWorld ++
      [EvMetric m OpInc
         (if bool_decide (_convertLabels (Some exampleLabels) = ∅) then None
          else Some (_convertLabels (Some exampleLabels))) None].
Proof.
  do 3 (split; [reflexivity|]).
  split; [vm_compute; reflexivity|]. split; [reflexivity|].
  exact (first_write_fixes_the_label_names Counter OpInc "jobs_total"
           (Some exampleLabels) None (withDefaults Counter openConfig) openWorld
           eq_refl eq_refl eq_refl ltac:(vm_compute; reflexivity) eq_refl).
Defined.

(** X6.  The label names of a first write bind every later write on the
    metric: of a later label set only the keys that the first write gave
    a value are recorded (converted as usual), and every other key is
    dropped without an error.  This is so when the constructor of
    prom-client takes the configuration with the label names of the first
    write and the operations take their values (a counter is not
    decreased). *)
Theorem later_writes_keep_the_first_label_names
    (k : MetricType) (op op2 : BackendOp) (name : string)
    (labels labels2 : option Rec) (value value2 : option Q)
    (cfg : Config) (w : World)
    (Hnone : instancesOf k (statics w) !! name = None)
    (Hcfg : configsOf k (statics w) !! name = Some cfg)
    (Hopen : default [] (cfg_labelNames cfg) = [])
    (Htaken : accepts k (firstConfig k cfg labels) w = true)
    (Hvalue : takes op value = true)
    (Hvalue2 : takes op2 value2 = true) :
  let first := write k op name labels value w in
  ∃ (ls : option Rec),
    first.1 = Ok (mkMetric k (firstConfig k cfg labels)) ∧
    write k op2 name labels2 value2 first.2 =
      (Ok (mkMetric k (firstConfig k cfg labels)),
       set_log (log first.2 ++
                  [EvMetric (mkMetric k (firstConfig k cfg labels)) op2 ls value2])
         first.2) ∧
    ∀ key,
      default ∅ ls !! key =
      if definedIn labels key
      then default ∅ labels2 !! key ≫= convertedValue
      else None.
Proof.
  intros first. subst first.
  destruct (write_first k op name labels value cfg w Hnone Hcfg Htaken Hvalue)
    as (w1 & Hw & Hl1 & Hi1 & Hc1).
  rewrite Hw. simpl fst. simpl snd.
  set (m := mkMetric k (firstConfig k cfg labels)) in *.
  set (w2 := set_log _ w1).
  assert (Hi2 : instancesOf k (statics w2) !! name = Some m).
  { subst w2. by rewrite statics_set_log. }
  rewrite (write_instance k op2 name labels2 value2 m w2 Hi2 Hvalue2).
  eexists. split; [done|]. split; [reflexivity|].
  intros key.
  assert (Hf : default ∅
            (if bool_decide (size (_filterAllowed m (_convertLabels labels2)) = 0)
             then None else Some (_filterAllowed m (_convertLabels labels2)))
            !! key = _filterAllowed m (_convertLabels labels2) !! key).
  { destruct (bool_decide (size (_filterAllowed m (_convertLabels labels2)) = 0))
      eqn:Hs; simpl; [|done].
    apply bool_decide_eq_true, map_size_empty_iff in Hs. by rewrite Hs. }
  rewrite Hf _filterAllowed_lookup _convertLabels_default.
  pose proof (firstConfig_open k cfg labels Hopen) as Hnames. fold m in Hnames.
  rewrite Hnames.
  destruct (definedIn labels key) eqn:Hd.
  - rewrite bool_decide_eq_true_2 //.
    apply definedKeys_converted. by apply definedIn_spec.
  - rewrite bool_decide_eq_false_2 //.
    intros Hin. apply definedKeys_converted, definedIn_spec in Hin. congruence.
Qed.

Lemma later_writes_keep_the_first_label_names_witness :
  instancesOf Counter (statics openWorld) !! "jobs_total" = None ∧
  configsOf Counter (statics openWorld) !! "jobs_total"
    = Some (withDefaults Counter openConfig) ∧
  default [] (cfg_labelNames (withDefaults Counter openConfig)) = [] ∧
  accepts Counter (firstConfig Counter (withDefaults Counter openConfig) None)
    openWorld = true ∧
  takes OpInc None = true ∧
  ∃ (ls : option Rec),
    (write Counter OpInc "jobs_total" None None openWorld).1
      = Ok (mkMetric Counter (firstConfig Counter (withDefaults Counter openConfig) None)) ∧
    write Counter OpInc "jobs_total" (Some exampleLabels) None
      (write Counter OpInc "jobs_total" None None openWorld).2 =
      (Ok (mkMetric Counter (firstConfig Counter (withDefaults Counter openConfig) None)),
       set_log (log (write Counter OpInc "jobs_total" None None openWorld).2 ++
                  [EvMetric (mkMetric Counter
                               (firstConfig Counter (withDefaults Counter openConfig) None))
                     OpInc ls None])
         (write Counter OpInc "jobs_total" None None openWorld).2) ∧
    ∀ key,
      default ∅ ls !! key =
      if definedIn None key
      then default ∅ (Some exampleLabels) !! key ≫= convertedValue
      else None.
Proof.
  do 3 (split; [reflexivity|]).
  split; [vm_compute; reflexivity|]. split; [reflexivity|].
  exact (later_writes_keep_the_first_label_names Counter OpInc OpInc "jobs_total"
           None (Some exampleLabels) None None
           (withDefaults Counter openConfig) openWorld eq_refl eq_refl eq_refl
           ltac:(vm_compute; reflexivity) eq_refl eq_refl).
Defined.

(** X7.  Asking for the metric before the first write changes what is
    recorded: [get...] builds a metric without label names from a
    configuration that declares none, and every write after it is recorded
    without any label, whatever labels it is given.  This is so when the
    constructor of prom-client takes the configuration and the operation
    takes the value (a counter is not decreased). *)
Theorem get_before_first_write_drops_all_labels
    (k : MetricType) (op : BackendOp) (cfg : Config) (labels : option Rec)
    (value : option Q) (w : World)
    (Hnone : instancesOf k (statics w) !! cfg_name cfg = None)
    (Hlazy : cfg_collect cfg = false)
    (Hopen : default [] (cfg_labelNames cfg) = [])
    (Htaken : accepts k (withDefaults k cfg) w = true)
    (Hvalue : takes op value = true) :
  let name := cfg_name cfg in
  let m := mkMetric k (withDefaults k cfg) in
  let w2 := (getMetric k name (registerMetric k cfg w).2).2 in
  write k op name labels value w2
  = (Ok m, set_log (log w2 ++ [EvMetric m op None value]) w2).
Proof.
  intros name m w2. subst w2.
  rewrite registerMetric_run; [by rewrite Hlazy|]. rewrite Hlazy. simpl snd.
  set (w1 := set_statics _ _).
  assert (Hi : instancesOf k (statics w1) !! name = None).
  { subst w1. by rewrite statics_set_statics instancesOf_setConfigs. }
  assert (Hc : configsOf k (statics w1) !! name = Some (withDefaults k cfg)).
  { subst w1. by rewrite statics_set_statics configsOf_setConfigs
      lookup_insert_eq. }
  assert (Ha : accepts k (withDefaults k cfg) w1 = true).
  { rewrite -Htaken. apply accepts_register. subst w1. by destruct w. }
  rewrite (getMetric_config k name _ w1 Hi Hc Ha). fold m. simpl snd.
  set (w2 := set_statics _ _).
  assert (Hi2 : instancesOf k (statics w2) !! name = Some m).
  { subst w2. by rewrite statics_set_statics instancesOf_setInstances
      lookup_insert_eq. }
  rewrite (write_instance k op name labels value m w2 Hi2 Hvalue).
  assert (Hempty : _filterAllowed m (_convertLabels labels) = ∅).
  { unfold _filterAllowed.
    assert (Hn : labelNames m = []).
    { subst m. unfold labelNames. simpl. by rewrite withDefaults_labelNames. }
    by rewrite Hn. }
  by rewrite Hempty.
Qed.

Lemma get_before_first_write_drops_all_labels_witness :
  instancesOf Counter (statics (initialWorld natural_sync_async))
    !! cfg_name openConfig = None ∧
  cfg_collect openConfig = false ∧
  default [] (cfg_labelNames openConfig) = [] ∧
  accepts Counter (withDefaults Counter openConfig)
    (initialWorld natural_sync_async) = true ∧
  takes OpInc None = true ∧
  log (write Counter OpInc "jobs_total" (Some exampleLabels) None
         (getCounter "jobs_total" openWorld).2).2
  = [EvMetric (mkMetric Counter (withDefaults Counter openConfig)) OpInc None None].
Proof.
  do 3 (split; [reflexivity|]).
  split; [vm_compute; reflexivity|]. split; [reflexivity|].
  pose proof (get_before_first_write_drops_all_labels Counter OpInc openConfig
                (Some exampleLabels) None (initialWorld natural_sync_async)
                eq_refl eq_refl eq_refl ltac:(vm_compute; reflexivity) eq_refl)
    as H.
  simpl in H. unfold openWorld, registerCounter, getCounter.
  by rewrite H.
Defined.

End Registry.

Section Definitions.

Import Metrics.

#[local] Instance MetricType_eq_dec : EqDecision MetricType.
Proof. solve_decision. Defined.



Lemma instancesOf_setInstances_ne k k' x s :
  k ≠ k' → instancesOf k (setInstances k' x s) = instancesOf k s.
Proof. by destruct s, k, k'. Qed.














End Definitions.

(* ===================================================================== *)
(** * Further properties: the wrappers                                    *)
(* ===================================================================== *)

Section Wrappers.

Import Promise Traces Metrics.

(** The calls of the callbacks that the options of a wrapper carry. *)
Definition isCallbackCall (e : Event) : bool :=
  match e with EvGate _ _ _ | EvDynamic _ => true | _ => false end.

(** X9.  When [traceOnlyIf] throws, or [dynamicAttributes] throws in a call
    that passed the gate, the tracing wrapper throws the same error, also
    under [legacy-always-promise].  The world is as before the call but for
    the log of the callbacks called: the original function was not called,
    no span was started, no promise was made. *)
Theorem throwing_callback_stops_the_traced_call
    (wr : Wrapped) (this : Value) (args : list Value) (e : Value) (w : World)
    (Hthrows : gateResult wr this args w = Throw e ∨
               (gateResult wr this args w = Ok true ∧
                dynResult wr args = Throw e)) :
  ∃ N : list Event,
    wrapped wr this args w = (Throw e, set_log (log w ++ N) w) ∧
    Forall (λ ev, isCallbackCall ev = true) N.
Proof.
  destruct Hthrows as [Hgate|[Hgate Hdyn]].
  - exists (gateEvents wr this args w).
    split; [by apply wrapped_gate_throws|].
    unfold gateEvents. destruct (wr_traceOnlyIf wr); by repeat constructor.
  - exists (gateEvents wr this args w ++ dynEvents wr args).
    split; [by apply wrapped_dyn_throws|].
    unfold gateEvents, dynEvents.
    destruct (wr_traceOnlyIf wr), (wr_dynamicAttributes wr); by repeat constructor.
Qed.

(** [withTracing(answer, { traceOnlyIf: () => { throw new RangeError('neg') } })]
    under [legacy-always-promise] *)
Definition answerGateThrows : Wrapped :=
  mkWrapped answer "answer" ∅ None reuse (GateFn (λ _ _ _, Throw rangeError))
    "svc.ts" true.

Lemma throwing_callback_stops_the_traced_call_witness :
  gateResult answerGateThrows VUndefined [] (initialWorld legacy_always_promise)
    = Throw rangeError ∧
  ∃ N : list Event,
    wrapped answerGateThrows VUndefined [] (initialWorld legacy_always_promise)
      = (Throw rangeError,
         set_log (log (initialWorld legacy_always_promise) ++ N)
           (initialWorld legacy_always_promise)) ∧
    Forall (λ ev, isCallbackCall ev = true) N.
Proof.
  split; [reflexivity|].
  exact (throwing_callback_stops_the_traced_call answerGateThrows VUndefined []
           rangeError (initialWorld legacy_always_promise) (or_introl eq_refl)).
Defined.

(** X10.  When [dynamicLabels] throws, each of the four metric wrappers
    throws the same error at once: the callback is the only thing called,
    no metric is looked up, registered or written, and the original
    function is not called. *)
Theorem throwing_dynamicLabels_stops_the_metric_wrappers
    (original : Callee) (options : MetricDecoratorOptions)
    (buckets percentiles : option (list Q)) (timed : bool)
    (this : Value) (args : list Value) (e : Value) (w : World)
    (Hthrows : dynLabelsResult options args = Throw e) :
  let stopped : Result Value * World :=
    (Throw e, set_log (log w ++ [EvDynamic args]) w) in
  _wrapWithCounter original options this args w = stopped ∧
  _wrapWithGauge original options timed this args w = stopped ∧
  _wrapWithHistogram original (mkHistogramDecoratorOptions options buckets)
    this args w = stopped ∧
  _wrapWithSummary original (mkSummaryDecoratorOptions options percentiles)
    timed this args w = stopped.
Proof.
  intros stopped. subst stopped.
  unfold _wrapWithCounter, _wrapWithGauge, _wrapWithHistogram, _wrapWithSummary,
    dynamicLabelsOf, dynLabelsResult in *. simpl.
  destruct (md_dynamicLabels options) as [f|]; [|done].
  destruct (f args) as [r|e']; [done|]. injection Hthrows as ->.
  by msimpl.
Qed.

(** [{ metricName: 'load_total', dynamicLabels: () => { throw new RangeError('neg') } }] *)
Definition labelsThrow : MetricDecoratorOptions :=
  mkMetricDecoratorOptions "load_total" "calls of fetchRow" None
    (Some (λ _, Throw rangeError)).

Lemma throwing_dynamicLabels_stops_the_metric_wrappers_witness :
  dynLabelsResult labelsThrow [] = Throw rangeError ∧
  _wrapWithCounter fetchRow labelsThrow VUndefined [] (initialWorld natural_sync_async)
    = (Throw rangeError,
       set_log [EvDynamic []] (initialWorld natural_sync_async)).
Proof.
  split; [reflexivity|].
  exact (proj1 (throwing_dynamicLabels_stops_the_metric_wrappers fetchRow labelsThrow
                  None None false VUndefined [] rangeError
                  (initialWorld natural_sync_async) eq_refl)).
Defined.

(** X11.  A traced call, and a call through the counter wrapper, whose
    original function returns a promise that does not settle within the
    run: no status is set and no exception recorded, the span is not ended,
    no error label is assigned and the counter is not incremented. *)
Theorem unsettled_call_releases_nothing
    (wr : Wrapped) (this : Value) (args : list Value) (dyn : Rec) (w : World)
    (k : nat)
    (original : Callee) (options : MetricDecoratorOptions)
    (cthis : Value) (cargs : list Value) (cdyn : Rec) (cw : World) (ck : nat)
    (Hidle : jobs w = [])
    (Hgate : gateResult wr this args w = Ok true)
    (Hdyn : dynResult wr args = Ok dyn)
    (Hnever : settledWith
                (fn_body (wr_fn wr) args this (Some (spanOf (wr_startMode wr) w)))
                (promises w) = None)
    (Hcidle : jobs cw = [])
    (Hcdyn : dynLabelsResult options cargs = Ok cdyn)
    (Hcnever : settledWith (fn_body original cargs cthis (active cw)) (promises cw)
               = None) :
  (∃ delta : list Event,
     log (runJobs (4 + k) (wrapped wr this args w).2) = log w ++ delta ∧
     List.filter isEffect delta = [] ∧ List.filter isRelease delta = []) ∧
  (∃ delta : list Event,
     log (runJobs (4 + ck) (_wrapWithCounter original options cthis cargs cw).2)
       = log cw ++ delta ∧
     List.filter isEffect delta = [] ∧ List.filter isRelease delta = []).
Proof.
  split.
  - destruct (wrapped_run wr this args w k Hidle)
      as (N1 & S & N2 & R & C & Hlog & Hph & _ & Hcase).
    rewrite Hgate Hdyn Hnever in Hcase. destruct Hcase as [-> ->].
    exists (N1 ++ [] ++ N2 ++ [] ++ C). split; [done|].
    destruct (phased_phases _ _ _ _ _ _ Hph) as (HS & HR & _). by split.
  - destruct (_wrapWithCounter_unsettled original options cthis cargs cdyn cw ck
                Hcidle Hcdyn Hcnever) as (delta & Hlog & Hquiet).
    exists delta. split; [done|].
    split; apply filter_nothing; (eapply Forall_impl; [exact Hquiet|]);
      by intros e [? ?].
Qed.

(** [function waitForever() { return new Promise(() => {}) }] *)
Definition waitForever : Callee := mkCallee "waitForever" (λ _ _ _, BNever).

Definition waitForeverChild : Wrapped :=
  mkWrapped waitForever "waitForever" ∅ None createChild (GateBool true) "svc.ts" false.

Lemma unsettled_call_releases_nothing_witness :
  (∃ delta : list Event,
     log (runJobs 4 (wrapped waitForeverChild VUndefined [] activeWorld).2)
       = log activeWorld ++ delta ∧
     List.filter isEffect delta = [] ∧ List.filter isRelease delta = []) ∧
  (∃ delta : list Event,
     log (runJobs 4 (_wrapWithCounter waitForever fetchRowCounter VUndefined []
                       (initialWorld natural_sync_async)).2)
       = log (initialWorld natural_sync_async) ++ delta ∧
     List.filter isEffect delta = [] ∧ List.filter isRelease delta = []).
Proof.
  exact (unsettled_call_releases_nothing waitForeverChild VUndefined [] ∅ activeWorld 0
           waitForever fetchRowCounter VUndefined [] ∅
           (initialWorld natural_sync_async) 0
           eq_refl eq_refl eq_refl eq_refl eq_refl eq_refl eq_refl).
Defined.

(** X12.  Let prom-client let the wrapper have the histogram of
    [options.metricName], and let that histogram have declared every key
    of the label object of the call (which is so when the wrapper itself
    registers the histogram at this call).  Then a call through the
    histogram wrapper that settles stops the timer it started exactly
    once, and makes no other write of a metric.  The labels of the stop
    carry [error]: ["none"] after a success, the [name] of the error
    after a failure when that is truthy, ["unknown_error"] otherwise.  The
    wrapper conveys the outcome of the function. *)
Theorem histogram_wrapper_stops_its_timer_once
    (original : Callee) (options : HistogramDecoratorOptions)
    (this : Value) (args : list Value) (dyn : Rec) (w : World) (k : nat)
    (o : Outcome)
    (Hidle : jobs w = [])
    (Hdyn : dynLabelsResult (hd_options options) args = Ok dyn)
    (Haccepted : accepted Histogram (hd_options options) (hd_buckets options) None
                   (counterLabels (hd_options options) dyn) w = true)
    (Hsettled : settledWith (fn_body original args this (active w)) (promises w)
                  = Some o) :
  let r := (_wrapWithHistogram original options this args w).1 in
  let w2 := runJobs (4 + k) (_wrapWithHistogram original options this args w).2 in
  let histogram := metricOf Histogram (hd_options options) (hd_buckets options) None
                     (counterLabels (hd_options options) dyn) w in
  ∃ (ls : Rec) (delta : list Event),
    log w2 = log w ++ delta ∧
    List.filter isRelease delta = [EvMetric histogram OpEndTimer (Some ls) None] ∧
    ls !! "error" = Some (errorLabelOf o) ∧
    (∀ key, key ≠ "error" →
       ls !! key = counterLabels (hd_options options) dyn !! key) ∧
    conveys r w2 o.
Proof.
  intros r w2 histogram. subst r w2.
  destruct (_wrapWithHistogram_run original options this args dyn w k Hidle Hdyn
              Haccepted)
    as (delta & Hlog & _ & Hcase).
  fold histogram in Hcase.
  rewrite Hsettled in Hcase. destruct Hcase as [(_ & HR & _) Hconv].
  exists (labelsAfter (counterLabels (hd_options options) dyn) o), delta.
  split; [done|]. split; [done|]. split; [|split; [|done]].
  - unfold labelsAfter, counterLabels, errorLabelOf, errorLabel, or_else.
    destruct o; by rewrite lookup_insert_eq.
  - intros key Hkey. unfold labelsAfter. destruct o; [done|].
    by rewrite lookup_insert_ne.
Qed.

Lemma histogram_wrapper_stops_its_timer_once_witness :
  let w0 := initialWorld natural_sync_async in
  let options := mkHistogramDecoratorOptions fetchRowCounter None in
  jobs w0 = [] ∧
  dynLabelsResult fetchRowCounter [] = Ok ∅ ∧
  accepted Histogram fetchRowCounter None None (counterLabels fetchRowCounter ∅) w0
    = true ∧
  settledWith (fn_body fetchRow [] VUndefined (active w0)) (promises w0)
    = Some (Rejected rangeError) ∧
  ∃ (ls : Rec) (delta : list Event),
    log (runJobs 4 (_wrapWithHistogram fetchRow options VUndefined [] w0).2)
      = log w0 ++ delta ∧
    List.filter isRelease delta
      = [EvMetric (metricOf Histogram fetchRowCounter None None
                     (counterLabels fetchRowCounter ∅) w0)
           OpEndTimer (Some ls) None] ∧
    ls !! "error" = Some (VStr "RangeError").
Proof.
  intros w0 options.
  assert (Hadm : accepted Histogram fetchRowCounter None None
                   (counterLabels fetchRowCounter ∅) w0 = true)
    by (vm_compute; reflexivity).
  do 2 (split; [reflexivity|]). split; [exact Hadm|]. split; [reflexivity|].
  destruct (histogram_wrapper_stops_its_timer_once fetchRow options VUndefined [] ∅
              w0 0 (Rejected rangeError) eq_refl eq_refl Hadm eq_refl)
    as (ls & delta & Hlog & HR & Herr & _).
  exists ls, delta. exact (conj Hlog (conj HR Herr)).
Defined.






(** X14.  The deprecated [getCurrentSpanOrCreateNew] is [getSpan] in mode
    [createChild] when [createNewSpan] is true and in mode [reuse]
    otherwise: on every world the two return the same span and the same
    [createdSpan], and leave the same world, that is, the same options
    object after the sampling rule and the same call of [startSpan].
    (That [getSpan] asks for the tracer also when it reuses the active
    span is no part of the world.) *)
Theorem getCurrentSpanOrCreateNew_is_getSpan
    (spanName : string) (options : option loc) (createNewSpan : bool)
    (moduleName : string) (w : World) :
  getCurrentSpanOrCreateNew spanName options createNewSpan moduleName w
  = getSpan spanName options (if createNewSpan then createChild else reuse)
      moduleName w.
Proof.
  destruct (getSpan_run spanName options
              (if createNewSpan then createChild else reuse) moduleName w)
    as (l & w1 & Hrule & ->).
  destruct (getCurrentSpanOrCreateNew_run spanName options createNewSpan moduleName w)
    as (l' & w1' & Hrule' & ->).
  rewrite Hrule in Hrule'. injection Hrule' as <- <-.
  by destruct createNewSpan, (active w).
Qed.

End Wrappers.

Section CallsAndSpans.

Import Promise Traces Metrics.

(** The attributes a tracing wrapper starts its span with:
    [{ ...attributes, ...dyn, 'function.name': fn.name }], then the
    sampling rule. *)
Definition spanAttributes (wr : Wrapped) (dyn : Rec) : Rec :=
  withSamplingRule (functionNameAttr (wr_fn wr) ∪ (dyn ∪ wr_attributes wr)).

(** The call of [tracer.startSpan] that a traced call makes when it creates
    its span. *)
Definition startEvent (wr : Wrapped) (dyn : Rec) (w : World) : Event :=
  EvStartSpan (wr_moduleName wr) (wr_spanName wr) (spanAttributes wr dyn)
    (match wr_startMode wr with
     | newTrace | newTraceWithLink => true
     | reuse | createChild => false
     end)
    (match wr_startMode wr, active w with
     | newTraceWithLink, Some a => [a]
     | _, _ => []
     end)
    (spanOf (wr_startMode wr) w).

(** A call that passes the gate, up to the [try], with the span start
    written out. *)
Lemma wrapped_traced_start (wr : Wrapped) (this : Value) (args : list Value)
    (dyn : Rec) (w : World) :
  gateResult wr this args w = Ok true →
  dynResult wr args = Ok dyn →
  let createdSpan := createsSpan (wr_startMode wr) (active w) in
  let span := spanOf (wr_startMode wr) w in
  ∃ (spanEnded : loc) (w0 : World),
    wrapped wr this args w = traced wr this args span createdSpan spanEnded w0 ∧
    flags w0 !! spanEnded = Some false ∧
    jobs w0 = jobs w ∧ promises w0 = promises w ∧ active w0 = active w ∧
    log w0 = log w ++ gateEvents wr this args w ++ dynEvents wr args ++
      (if createdSpan then [startEvent wr dyn w] else []).
Proof.
  intros Hgate Hdyn createdSpan span.
  unfold wrapped, getCurrentSpan. rewrite bind_unfold. unfold gets at 1.
  assert (Hg : ∃ wg : World,
    match wr_traceOnlyIf wr with
    | GateFn f =>
        emit (EvGate args this (active w)) ;;
        v ← lift (f args this (active w)); mret (truthy v)
    | GateBool b => mret b
    end w = (Ok true, wg) ∧
    wg = set_log (log w ++ gateEvents wr this args w) w).
  { unfold gateResult, gateEvents in *.
    destruct (wr_traceOnlyIf wr) as [b|g].
    - injection Hgate as ->. exists w. split; [done|].
      rewrite app_nil_r. by destruct w.
    - msimpl. destruct (g args this (active w)) as [v|e]; [|done].
      injection Hgate as ->. eexists. by split. }
  destruct Hg as (wg & Hg & Hwg). rewrite bind_unfold Hg. cbn [negb].
  assert (Hd : ∃ wd : World,
    match wr_dynamicAttributes wr with
    | Some f => emit (EvDynamic args) ;; lift (f args)
    | None => mret ∅
    end wg = (Ok dyn, wd) ∧
    wd = set_log (log wg ++ dynEvents wr args) wg).
  { unfold dynResult, dynEvents in *.
    destruct (wr_dynamicAttributes wr) as [d|].
    - msimpl. rewrite Hdyn. eexists. by split.
    - injection Hdyn as <-. exists wg. split; [done|].
      rewrite app_nil_r. by destruct wg. }
  destruct Hd as (wd & Hd & Hwd). rewrite bind_unfold Hd.
  unfold Heap.allocRecord at 1. rewrite bind_unfold.
  unfold Heap.allocOptions at 1. rewrite bind_unfold.
  set (la := fresh (dom (records wd))).
  set (merged := functionNameAttr (wr_fn wr) ∪ (dyn ∪ wr_attributes wr)).
  set (lo := fresh (dom (optionObjs (set_records (<[la:=merged]> (records wd)) wd)))).
  set (wa := set_optionObjs _ (set_records _ wd)).
  destruct (getSpan_run (wr_spanName wr) (Some lo) (wr_startMode wr)
              (wr_moduleName wr) wa) as (l & w1 & Hrule & Hget).
  destruct (_setSamplingRule_spec (Some lo) wa)
    as (l' & la' & w1' & Hrule' & Hheap & _).
  rewrite Hrule in Hrule'. injection Hrule' as <- <-.
  apply heapOnly_fields in Hheap
    as (_ & Hact1 & Hst1 & Hlog1 & Hpr1 & Hj1 & Hfl1 & _).
  rewrite bind_unfold Hget.
  assert (Hwa : active wa = active w ∧ started wa = started w ∧
                jobs wa = jobs w ∧ promises wa = promises w ∧
                log wa = log w ++ gateEvents wr this args w ++ dynEvents wr args).
  { subst wa wd wg. destruct w. simpl. by rewrite -app_assoc. }
  destruct Hwa as (Ha & Hs & Hj & Hp & Hl).
  assert (Hspan : startedSpan true wa = startedSpan true w ∧
                  startedSpan false wa = startedSpan false w).
  { unfold startedSpan, Otel.freshTraceId, Otel.freshSpanId, Otel.known.
    by rewrite Ha Hs. }
  destruct Hspan as [Hst Hsf].
  assert (Hco : callerOptions (Some lo) wa = mkSpanOptions (Some la) None None).
  { subst wa lo. destruct wd. simpl. by rewrite lookup_insert_eq. }
  assert (Hca : callerAttributes (Some lo) wa = merged).
  { unfold callerAttributes. rewrite Hco. subst wa. destruct wd. simpl.
    by rewrite lookup_insert_eq. }
  rewrite Hco Hca.
  subst createdSpan span. unfold startEvent, spanAttributes, spanOf, createsSpan.
  fold merged. rewrite Ha.
  destruct (wr_startMode wr), (active w) as [a|] eqn:Hactive; simpl;
    rewrite ?Hst ?Hsf; unfold Heap.allocFlag; rewrite bind_unfold.
  all: do 2 eexists; split; [reflexivity|];
    destruct w1; simpl in *; subst;
    rewrite ?lookup_insert_eq ?Hl -?app_assoc ?app_nil_r;
    repeat apply conj; first [reflexivity | congruence].
Qed.

(** The events a reaction may log: neither a call of a user callback, nor
    the start of a span, nor a call of the original function. *)
Definition afterCall (e : Event) : bool :=
  match e with
  | EvGate _ _ _ | EvDynamic _ | EvStartSpan _ _ _ _ _ _ | EvCall _ _ _ _ => false
  | _ => true
  end.

(** What no job touches: the active span, the spans issued, the maps of
    [Metrics], the registry and the mode. *)
Definition sameSetting (w w' : World) : Prop :=
  active w' = active w ∧ started w' = started w ∧ statics w' = statics w ∧
  register w' = register w ∧ mode w' = mode w.

Definition reaction (w w' : World) : Prop :=
  sameSetting w w' ∧
  ∃ N : list Event, log w' = log w ++ N ∧ Forall (λ e, afterCall e = true) N.

Lemma reaction_refl (w : World) : reaction w w.
Proof. split; [done|]. exists []. by rewrite app_nil_r. Qed.

Lemma reaction_trans (w1 w2 w3 : World) :
  reaction w1 w2 → reaction w2 w3 → reaction w1 w3.
Proof.
  intros [(A1 & A2 & A3 & A4 & A5) (N & HN & HF)]
         [(B1 & B2 & B3 & B4 & B5) (N' & HN' & HF')].
  split; [repeat split; congruence|].
  exists (N ++ N'). rewrite HN' HN -app_assoc. split; [done|].
  by apply Forall_app.
Qed.

Lemma reaction_set_jobs (x : list Job) (w : World) : reaction w (set_jobs x w).
Proof. destruct w. split; [done|]. exists []. by rewrite /= app_nil_r. Qed.

Ltac reaction_done :=
  split; [done|]; simpl;
  first [ by exists []; rewrite app_nil_r
        | by eexists [_]; split; [reflexivity | repeat constructor]
        | by eexists [_; _]; rewrite -?app_assoc; split;
            [reflexivity | repeat constructor] ].

Lemma runCallback_reaction (cb : Callback) (arg : Value) (w : World) :
  reaction w (runCallback cb arg w).2.
Proof.
  destruct w as [md ac st oo rc fl pr jb sx rg lg].
  destruct cb; unfold runCallback, endSpan, assignErrorLabel, incWith,
    stopTimer, writeNumber,
    Otel.setStatus, Otel.recordException, Otel.end_, Heap.readFlag,
    Heap.writeFlag, Heap.assign, Heap.readRecord, Prom.call; msimpl;
    try reaction_done.
  - destruct (negb _ && _); msimpl; reaction_done.
  - call_cases; reaction_done.
  - destruct endTimer as [[m l]|]; msimpl; call_cases; destruct arg; msimpl;
      try reaction_done; destruct timed; msimpl; call_cases; reaction_done.
  - destruct endTimer as [[m l]|]; msimpl; call_cases; reaction_done.
  - destruct endTimer as [[m l]|]; msimpl; call_cases; reaction_done.
  - destruct endTimer as [[m l]|]; msimpl; call_cases; reaction_done.
Qed.

Lemma settle_reaction (p : nat) (o : Outcome) (w : World) :
  reaction w (settle p o w).2.
Proof.
  destruct w as [md ac st oo rc fl pr jb sx rg lg]. unfold settle. simpl.
  destruct (pr !! p) as [[rs|o']|]; simpl; reaction_done.
Qed.

Lemma runJob_reaction (j : Job) (w : World) : reaction w (runJob j w).2.
Proof.
  destruct j as [[[m cb] q] o|p o]; simpl; [|apply settle_reaction].
  rewrite bind_unfold.
  assert (Hr : reaction w (reactionOutcome m cb o w).2 ∧
               ∃ o', (reactionOutcome m cb o w).1 = Ok o').
  { unfold reactionOutcome, asOutcome.
    destruct m, o as [v|e]; try (split; [apply reaction_refl | by eauto]);
      match goal with
      | |- context [runCallback ?c ?a w] =>
          pose proof (runCallback_reaction c a w);
          destruct (runCallback c a w) as [[r|x] w']; simpl in *; eauto
      end. }
  destruct Hr as [Hr [o' Ho']].
  destruct (reactionOutcome m cb o w) as [r w'] eqn:Hro. simpl in *. subst r.
  eapply reaction_trans; [exact Hr | apply settle_reaction].
Qed.

(** The event loop only reacts: whatever the jobs, it calls no user
    callback and no original function, starts no span, and leaves the
    active span, the maps of [Metrics] and the mode as they were. *)
Lemma runJobs_reaction (k : nat) (w : World) : reaction w (runJobs k w).
Proof.
  revert w. induction k as [|k IH]; intros w.
  - unfold runJobs. destruct (jobs w); apply reaction_refl.
  - destruct (jobs w) as [|j rest] eqn:Hj.
    + rewrite runJobs_idle //. apply reaction_refl.
    + rewrite (runJobs_step _ _ _ _ Hj).
      eapply reaction_trans; [apply reaction_set_jobs|].
      eapply reaction_trans; [apply runJob_reaction | apply IH].
Qed.

Lemma statusEvents_afterCall (span : Span) (o : Outcome) :
  Forall (λ e, afterCall e = true) (statusEvents span o).
Proof. destruct o; by repeat constructor. Qed.

Lemma endEvents_afterCall (span : Span) (c : bool) :
  Forall (λ e, afterCall e = true) (endEvents span c).
Proof. destruct c; by repeat constructor. Qed.

(** The span section of a wrapped call and the jobs after it: one call of
    the original function, under the span, and reactions. *)
Lemma traced_calls_once (wr : Wrapped) (this : Value) (args : list Value)
    (span : Span) (createdSpan : bool) (spanEnded : loc) (w : World) (k : nat) :
  jobs w = [] →
  flags w !! spanEnded = Some false →
  let w1 := (traced wr this args span createdSpan spanEnded w).2 in
  active w1 = active w ∧ active (runJobs k w1) = active w ∧
  ∃ N : list Event,
    log (runJobs k w1) = log w ++ callEvent (wr_fn wr) this args (Some span) :: N ∧
    Forall (λ e, afterCall e = true) N.
Proof.
  intros Hj Hflag w1.
  destruct (runJobs_reaction k w1) as [(Hact & _) (N & HN & HF)].
  assert (H1 : active w1 = active w ∧
               ∃ N1, log w1 = log w ++ callEvent (wr_fn wr) this args (Some span) :: N1 ∧
                     Forall (λ e, afterCall e = true) N1).
  { subst w1.
    destruct (fate (fn_body (wr_fn wr) args this (Some span)) (promises w))
      as [f|] eqn:Hf.
    - destruct (traced_promise wr this args span createdSpan spanEnded f w Hf Hj Hflag)
        as (p & p1 & p2 & q & w1 & Ht & Hl1 & Ha1 & _).
      rewrite Ht. simpl. split; [done|]. exists []. by rewrite Hl1.
    - destruct (fn_body (wr_fn wr) args this (Some span)) as [e|v|o|o|] eqn:Hb;
        try done.
      + destruct (traced_throw wr this args span createdSpan spanEnded e w Hb Hflag)
          as (w1 & Ht & Hl1 & _ & _ & Ha1).
        rewrite Ht. simpl. split; [done|]. eexists. split; [exact Hl1|].
        rewrite !Forall_app. repeat split;
          [apply statusEvents_afterCall | apply endEvents_afterCall|].
        destruct (wr_coerceToPromise wr); by repeat constructor.
      + assert (Hv : isThenable v = false).
        { destruct v; try done. simpl in Hf. by destruct (promises w !! p) as [[]|]. }
        destruct (traced_value wr this args span createdSpan spanEnded v w Hb Hv Hflag)
          as (w1 & Ht & Hl1 & _ & _ & Ha1).
        rewrite Ht. simpl. split; [done|]. eexists. split; [exact Hl1|].
        rewrite !Forall_app. repeat split;
          [apply statusEvents_afterCall | apply endEvents_afterCall|].
        destruct (wr_coerceToPromise wr); by repeat constructor. }
  destruct H1 as [Ha1 (N1 & HN1 & HF1)].
  split; [done|]. split; [congruence|].
  exists (N1 ++ N). rewrite HN HN1 -app_assoc /=. split; [done|].
  by apply Forall_app.
Qed.

(** The events that call the original function. *)
Definition isCall (e : Event) : bool :=
  match e with EvCall _ _ _ _ => true | _ => false end.

(** A traced call, run to the end of its jobs. *)
Lemma wrapped_calls_once (wr : Wrapped) (this : Value) (args : list Value)
    (dyn : Rec) (w : World) (k : nat) :
  jobs w = [] →
  gateResult wr this args w = Ok true →
  dynResult wr args = Ok dyn →
  let span := spanOf (wr_startMode wr) w in
  let createdSpan := createsSpan (wr_startMode wr) (active w) in
  let w1 := (wrapped wr this args w).2 in
  active w1 = active w ∧ active (runJobs k w1) = active w ∧
  ∃ N : list Event,
    log (runJobs k w1) = log w ++
      gateEvents wr this args w ++ dynEvents wr args ++
      (if createdSpan then [startEvent wr dyn w] else []) ++
      [EvCall (fn_name (wr_fn wr)) args this (Some span)] ++ N ∧
    Forall (λ e, afterCall e = true) N.
Proof.
  intros Hj Hgate Hdyn span createdSpan w1. subst w1.
  destruct (wrapped_traced_start wr this args dyn w Hgate Hdyn)
    as (fl & w0 & Hw & Hflag & Hj0 & _ & Ha0 & Hl0).
  fold span createdSpan in Hw, Hl0. rewrite Hj in Hj0.
  destruct (traced_calls_once wr this args span createdSpan fl w0 k Hj0 Hflag)
    as (Ha1 & Ha2 & N & HN & HF).
  rewrite -Hw in Ha1 Ha2 HN. rewrite Ha0 in Ha1 Ha2.
  split; [done|]. split; [done|].
  exists N. split; [|done]. by rewrite HN Hl0 -!app_assoc.
Qed.

(** X15.  A traced call, whatever its function does, calls the original
    function exactly once, with the receiver and the arguments of the call
    and with the span of the call active.  The callbacks of the options
    come first, then the start of the span when the call creates one; all
    that follows the call of the function, to the end of the jobs, is
    reactions.  The active span is afterwards what it was before the
    call, both when the wrapper returns and when the jobs have run. *)
Theorem traced_call_runs_the_function_once_under_its_span
    (wr : Wrapped) (this : Value) (args : list Value) (dyn : Rec) (w : World)
    (k : nat)
    (Hidle : jobs w = [])
    (Hgate : gateResult wr this args w = Ok true)
    (Hdyn : dynResult wr args = Ok dyn) :
  let span := spanOf (wr_startMode wr) w in
  let createdSpan := createsSpan (wr_startMode wr) (active w) in
  let w1 := (wrapped wr this args w).2 in
  ∃ pre post : list Event,
    log (runJobs k w1) = log w ++ pre ++
      [EvCall (fn_name (wr_fn wr)) args this (Some span)] ++ post ∧
    List.filter isCall (pre ++ post) = [] ∧
    List.filter startsSpan (pre ++ post)
      = (if createdSpan then [startEvent wr dyn w] else []) ∧
    List.filter startsSpan post = [] ∧
    active w1 = active w ∧ active (runJobs k w1) = active w.
Proof.
  intros span createdSpan w1.
  destruct (wrapped_calls_once wr this args dyn w k Hidle Hgate Hdyn)
    as (Ha1 & Ha2 & N & HN & HF).
  fold span createdSpan w1 in Ha1, Ha2, HN.
  exists (gateEvents wr this args w ++ dynEvents wr args ++
          (if createdSpan then [startEvent wr dyn w] else [])), N.
  assert (HNc : List.filter isCall N = [] ∧ List.filter startsSpan N = []).
  { split; apply filter_nothing; (eapply Forall_impl; [exact HF|]);
      by intros []. }
  destruct HNc as [HNc HNs].
  split; [by rewrite HN -!app_assoc|].
  rewrite !List.filter_app HNc HNs !app_nil_r.
  unfold gateEvents, dynEvents.
  by destruct (wr_traceOnlyIf wr), (wr_dynamicAttributes wr), createdSpan.
Qed.

Lemma traced_call_runs_the_function_once_under_its_span_witness :
  ∃ pre post : list Event,
    log (runJobs 4 (wrapped fetchRowChild VUndefined [] activeWorld).2)
      = log activeWorld ++ pre ++
          [EvCall "fetchRow" [] VUndefined (Some (spanOf createChild activeWorld))] ++
          post ∧
    List.filter isCall (pre ++ post) = [] ∧
    List.filter startsSpan (pre ++ post) = [startEvent fetchRowChild ∅ activeWorld] ∧
    List.filter startsSpan post = [] ∧
    active (wrapped fetchRowChild VUndefined [] activeWorld).2 = active activeWorld ∧
    active (runJobs 4 (wrapped fetchRowChild VUndefined [] activeWorld).2)
      = active activeWorld.
Proof.
  exact (traced_call_runs_the_function_once_under_its_span fetchRowChild VUndefined []
           ∅ activeWorld 4 eq_refl eq_refl eq_refl).
Defined.

(** [{ ...attributes, ...dyn }] at a key. *)
Definition suppliedAttribute (wr : Wrapped) (dyn : Rec) (key : string)
    : option Value :=
  match dyn !! key with
  | Some v => Some v
  | None => wr_attributes wr !! key
  end.

(** X16.  The span that a traced call creates is started once, under the
    span name and the tracer name of the wrapper, with these attributes:
    [function.name] is the name of the function when it has one, whatever
    the options supply under that key; at any other key a dynamic attribute
    takes precedence over a static one; and the sampling attribute is the
    supplied value when that is truthy and [false] otherwise. *)
Theorem started_span_attribute_precedence
    (wr : Wrapped) (this : Value) (args : list Value) (dyn : Rec) (w : World)
    (k : nat)
    (Hidle : jobs w = [])
    (Hgate : gateResult wr this args w = Ok true)
    (Hdyn : dynResult wr args = Ok dyn)
    (Hcreates : createsSpan (wr_startMode wr) (active w) = true) :
  ∃ (delta : list Event) (attrs : Rec) (root : bool) (links : list Span),
    log (runJobs k (wrapped wr this args w).2) = log w ++ delta ∧
    List.filter startsSpan delta
      = [EvStartSpan (wr_moduleName wr) (wr_spanName wr) attrs root links
           (spanOf (wr_startMode wr) w)] ∧
    (fn_name (wr_fn wr) ≠ "" →
       attrs !! "function.name" = Some (VStr (fn_name (wr_fn wr)))) ∧
    (∀ key, key ≠ samplingKey →
            key ≠ "function.name" ∨ fn_name (wr_fn wr) = "" →
       attrs !! key = suppliedAttribute wr dyn key) ∧
    attrs !! samplingKey
      = Some (samplingValue (suppliedAttribute wr dyn samplingKey)).
Proof.
  destruct (wrapped_calls_once wr this args dyn w k Hidle Hgate Hdyn)
    as (_ & _ & N & HN & HF).
  rewrite Hcreates in HN.
  eexists _, (spanAttributes wr dyn), _, _. split; [exact HN|].
  assert (Hmerged : ∀ key, key ≠ "function.name" ∨ fn_name (wr_fn wr) = "" →
            (functionNameAttr (wr_fn wr) ∪ (dyn ∪ wr_attributes wr)) !! key
            = suppliedAttribute wr dyn key).
  { intros key Hkey. unfold functionNameAttr, suppliedAttribute.
    rewrite lookup_union.
    assert (Hnone : (if String.eqb (fn_name (wr_fn wr)) "" then ∅
                     else {["function.name" := VStr (fn_name (wr_fn wr))]} : Rec)
                    !! key = None).
    { destruct (String.eqb_spec (fn_name (wr_fn wr)) "") as [He|Hne].
      - apply lookup_empty.
      - destruct Hkey as [Hkey|Hkey]; [|done]. by rewrite lookup_singleton_ne. }
    rewrite Hnone left_id lookup_union.
    by destruct (dyn !! key), (wr_attributes wr !! key). }
  split; [|split; [|split]].
  - rewrite !List.filter_app.
    rewrite (filter_nothing startsSpan N);
      [eapply Forall_impl; [exact HF|]; by intros []|].
    unfold gateEvents, dynEvents, startEvent.
    by destruct (wr_traceOnlyIf wr), (wr_dynamicAttributes wr).
  - intros Hname. unfold spanAttributes.
    rewrite withSamplingRule_other; [done|].
    unfold functionNameAttr.
    destruct (String.eqb_spec (fn_name (wr_fn wr)) "") as [He|Hne]; [done|].
    rewrite lookup_union lookup_singleton_eq.
    by destruct ((dyn ∪ wr_attributes wr) !! "function.name").
  - intros key Hs Hkey. unfold spanAttributes.
    rewrite withSamplingRule_other; [done|]. by apply Hmerged.
  - unfold spanAttributes. rewrite withSamplingRule_key. do 2 f_equal.
    apply Hmerged. by left.
Qed.

Lemma started_span_attribute_precedence_witness :
  ∃ (delta : list Event) (attrs : Rec) (root : bool) (links : list Span),
    log (runJobs 4 (wrapped fetchRowChild VUndefined [] activeWorld).2)
      = log activeWorld ++ delta ∧
    List.filter startsSpan delta
      = [EvStartSpan "svc.ts" "fetchRow" attrs root links
           (spanOf createChild activeWorld)] ∧
    attrs !! "function.name" = Some (VStr "fetchRow") ∧
    attrs !! samplingKey = Some (VBool false).
Proof.
  destruct (started_span_attribute_precedence fetchRowChild VUndefined [] ∅
              activeWorld 4 eq_refl eq_refl eq_refl eq_refl)
    as (delta & attrs & root & links & Hlog & Hs & Hname & _ & Hkeep).
  exists delta, attrs, root, links.
  exact (conj Hlog (conj Hs (conj (Hname ltac:(done)) Hkeep))).
Defined.

End CallsAndSpans.

Section Resolution.

Import Promise Traces Metrics.

(** Computations that leave the maps of [Metrics] and the registry as they
    are. *)
Definition keepsMetrics {A} (m : M A) : Prop :=
  ∀ w, statics (m w).2 = statics w ∧ register (m w).2 = register w.

Lemma keepsMetrics_bind {A B} (m : M A) (f : A → M B) :
  keepsMetrics m → (∀ a, keepsMetrics (f a)) → keepsMetrics (m ≫= f).
Proof.
  intros Hm Hf w. rewrite bind_unfold. specialize (Hm w).
  destruct (m w) as [[a|e] w']; simpl in *; [|done].
  destruct Hm as [Hs Hr]. destruct (Hf a w') as [H1 H2]. split; congruence.
Qed.

Lemma keepsMetrics_try_catch {A} (body : M A) (handler : Value → M A) :
  keepsMetrics body → (∀ e, keepsMetrics (handler e)) →
  keepsMetrics (try_catch body handler).
Proof.
  intros Hm Hf w. unfold try_catch. specialize (Hm w).
  destruct (body w) as [[a|e] w']; simpl in *; [done|].
  destruct Hm as [Hs Hr]. destruct (Hf e w') as [H1 H2]. split; congruence.
Qed.

Lemma keepsMetrics_mret {A} (a : A) : keepsMetrics (mret a).
Proof. by intros w. Qed.

Lemma keepsMetrics_throw {A} (e : Value) : keepsMetrics (throw e : M A).
Proof. by intros w. Qed.

Lemma keepsMetrics_runCallback (cb : Callback) (arg : Value) :
  keepsMetrics (runCallback cb arg).
Proof.
  intros w. by destruct (runCallback_reaction cb arg w) as [(_ & _ & ? & ? & _) _].
Qed.

Lemma keepsMetrics_applyFn (fn : Callee) (this : Value) (args : list Value) :
  keepsMetrics (applyFn fn this args).
Proof.
  intros [md ac st oo rc fl pr jb sx rg lg]. unfold applyFn, newPromise. msimpl.
  by destruct (fn_body fn args this ac); msimpl.
Qed.

Lemma keepsMetrics_react (m : Method) (p : nat) (cb : Callback) :
  keepsMetrics (react m p cb).
Proof.
  intros [md ac st oo rc fl pr jb sx rg lg]. unfold react. simpl.
  by destruct (_ !! p) as [[rs|o]|].
Qed.

Lemma keepsMetrics_call (m : Metric) (op : BackendOp) (labels : option Rec)
    (value : option Q) :
  keepsMetrics (Prom.call m op labels value).
Proof.
  intros w. unfold Prom.call. destruct (Prom.refused m op labels value);
    by destruct w.
Qed.

Lemma keepsMetrics_readRecord (labels : loc) :
  keepsMetrics (Heap.readRecord labels).
Proof. by intros w. Qed.

Lemma keepsMetrics_incWith (counter : Metric) (labels : loc) :
  keepsMetrics (incWith counter labels).
Proof.
  apply keepsMetrics_bind; [apply keepsMetrics_readRecord|].
  intros ls. apply keepsMetrics_call.
Qed.

Lemma keepsMetrics_assignErrorLabel (labels : loc) (err : Value) :
  keepsMetrics (assignErrorLabel labels err).
Proof. by intros [md ac st oo rc fl pr jb sx rg lg]. Qed.

Lemma keepsMetrics_stopTimer (endTimer : Timer) : keepsMetrics (stopTimer endTimer).
Proof.
  destruct endTimer as [[m l]|]; [|by intros w].
  apply keepsMetrics_bind; [apply keepsMetrics_readRecord|].
  intros ls. apply keepsMetrics_call.
Qed.

Lemma keepsMetrics_writeNumber metric op labels timed v :
  keepsMetrics (writeNumber metric op labels timed v).
Proof.
  destruct v, timed; try (by intros w).
  apply keepsMetrics_bind; [apply keepsMetrics_readRecord|].
  intros ls. apply keepsMetrics_call.
Qed.

Lemma keepsMetrics_startTimer (metric : Metric) (labels : loc) :
  keepsMetrics (startTimer metric labels).
Proof.
  apply keepsMetrics_bind; [apply keepsMetrics_readRecord|].
  intros ls. apply keepsMetrics_bind; [apply keepsMetrics_call|].
  by intros [] w.
Qed.

Ltac keeps :=
  repeat first
    [ apply keepsMetrics_mret
    | apply keepsMetrics_throw
    | apply keepsMetrics_applyFn
    | apply keepsMetrics_react
    | apply keepsMetrics_incWith
    | apply keepsMetrics_assignErrorLabel
    | apply keepsMetrics_stopTimer
    | apply keepsMetrics_writeNumber
    | apply keepsMetrics_startTimer
    | apply keepsMetrics_try_catch
    | apply keepsMetrics_bind
    | match goal with |- ∀ _, keepsMetrics _ => intros ? end ].

Lemma keepsMetrics_counted original counter labels this args :
  keepsMetrics (counted original counter labels this args).
Proof.
  unfold counted, then_, catch_, finally_. keeps.
  match goal with |- keepsMetrics (match ?v with _ => _ end) => destruct v end;
    keeps.
Qed.

Lemma keepsMetrics_measured original metric op labels timed endTimer this args :
  keepsMetrics (measured original metric op labels timed endTimer this args).
Proof.
  unfold measured, then_, catch_. keeps.
  match goal with |- keepsMetrics (match ?v with _ => _ end) => destruct v end;
    keeps.
Qed.

Lemma keepsMetrics_timedHistogram original labels endTimer this args :
  keepsMetrics (timedHistogram original labels endTimer this args).
Proof.
  unfold timedHistogram, then_, catch_. keeps.
  match goal with |- keepsMetrics (match ?v with _ => _ end) => destruct v end;
    keeps.
Qed.

(** The metric a wrapper works with, for the names known before the call:
    the instance of the name when there is one; else the metric built from
    the configuration of the name; else a metric of the configuration the
    wrapper registers, which has the name and the help of the options, the
    keys of the labels of this call as label names, and the buckets or
    percentiles of the options or the defaults. *)
Definition resolves (k : MetricType) (options : MetricDecoratorOptions)
    (ls : Rec) (buckets percentiles : option (list Q)) (w : World)
    (m : Metric) : Prop :=
  match instancesOf k (statics w) !! md_metricName options,
        configsOf k (statics w) !! md_metricName options with
  | Some existing, _ => m = existing
  | None, Some cfg => m = mkMetric k cfg
  | None, None =>
      m_type m = k ∧
      cfg_name (m_config m) = md_metricName options ∧
      cfg_help (m_config m) = md_help options ∧
      cfg_collect (m_config m) = false ∧
      (∀ key, key ∈ labelNames m ↔ is_Some (ls !! key)) ∧
      (k = Histogram →
         cfg_buckets (m_config m) = Some (default defaultBuckets buckets)) ∧
      (k = Summary →
         cfg_percentiles (m_config m)
           = Some (default defaultPercentiles percentiles))
  end.

Lemma keys_spec (ls : Rec) (key : string) :
  key ∈ (map_to_list ls).*1 ↔ is_Some (ls !! key).
Proof.
  rewrite list_elem_of_fmap. split.
  - intros ([k' v] & -> & H). apply elem_of_map_to_list in H. by eexists.
  - intros [v H]. exists (key, v). split; [done|]. by apply elem_of_map_to_list.
Qed.

Lemma registered_resolves (k : MetricType) (options : MetricDecoratorOptions)
    (ls : Rec) (buckets percentiles : option (list Q)) (w : World) :
  instancesOf k (statics w) !! md_metricName options = None →
  configsOf k (statics w) !! md_metricName options = None →
  resolves k options ls buckets percentiles w
    (mkMetric k (withDefaults k
       (mkConfig (md_metricName options) (md_help options)
          (Some (map_to_list ls).*1) false buckets percentiles))).
Proof.
  intros Hi Hc. unfold resolves. rewrite Hi Hc.
  unfold labelNames. simpl.
  rewrite withDefaults_name withDefaults_collect withDefaults_labelNames. simpl.
  repeat split; try done.
  - by destruct k, buckets, percentiles.
  - by apply keys_spec.
  - by apply keys_spec.
  - intros ->. by destruct buckets.
  - intros ->. by destruct percentiles.
Qed.

(** The metric of a wrapper is the one the names known before the call
    come to. *)
Lemma metricOf_resolves (k : MetricType) (options : MetricDecoratorOptions)
    (ls : Rec) (buckets percentiles : option (list Q)) (w : World) :
  resolves k options ls buckets percentiles w
    (metricOf k options buckets percentiles ls w).
Proof.
  generalize (registered_resolves k options ls buckets percentiles w).
  unfold resolves, metricOf, ownConfig.
  destruct (instancesOf k (statics w) !! md_metricName options) as [m|]; [done|].
  destruct (configsOf k (statics w) !! md_metricName options) as [cfg|]; [done|].
  intros H. by apply H.
Qed.

(** The label object of a call, and the world in which the wrapper looks
    for its metric. *)
Lemma prelude_labels (options : MetricDecoratorOptions) (ls : Rec)
    (args : list Value) (w : World) :
  let wd := set_log (log w ++ dynLabelEvents options args) w in
  let wa := set_records (<[labelObject w := ls]> (records wd)) wd in
  Heap.allocRecord ls wd = (Ok (labelObject w), wa) ∧
  records wa !! labelObject w = Some ls ∧
  statics wa = statics w ∧ register wa = register w ∧
  log wa = log w ++ dynLabelEvents options args.
Proof.
  unfold Heap.allocRecord, labelObject. destruct w. simpl.
  by rewrite lookup_insert_eq.
Qed.

(** The lines of a metric wrapper before [try], when prom-client lets the
    wrapper have its metric. *)
Lemma prelude_obtained (k : MetricType) (options : MetricDecoratorOptions)
    (lsOf : Rec → Rec) (buckets percentiles : option (list Q))
    (args : list Value) (dyn : Rec) (w : World) :
  dynLabelsResult options args = Ok dyn →
  obtains k options buckets percentiles (lsOf dyn) w = true →
  let m := metricOf k options buckets percentiles (lsOf dyn) w in
  let ll := labelObject w in
  ∃ w3 : World,
    (∀ K : loc → Metric → M Value,
       (d ← dynamicLabelsOf options args;
        l ← Heap.allocRecord (lsOf d);
        m ← metricFor k options l buckets percentiles;
        K l m) w = K ll m w3) ∧
    (∀ K : loc → Metric → M Value,
       k = Counter → buckets = None → percentiles = None →
       (d ← dynamicLabelsOf options args;
        l ← Heap.allocRecord (lsOf d);
        m ← counterFor options l;
        K l m) w = K ll m w3) ∧
    instancesOf k (statics w3) !! md_metricName options = Some m.
Proof.
  intros Hdyn Hobt m ll.
  destruct (prelude_labels options (lsOf dyn) args w)
    as (Ha & Hrec & Hst & Hreg & _).
  set (wd := set_log (log w ++ dynLabelEvents options args) w) in *.
  set (wa := set_records (<[labelObject w := lsOf dyn]> (records wd)) wd) in *.
  fold ll in Ha, Hrec.
  assert (Hobt' : obtains k options buckets percentiles (lsOf dyn) wa = true).
  { by rewrite (obtains_frame _ _ _ _ _ w wa Hst Hreg). }
  destruct (metricFor_obtained k options ll buckets percentiles (lsOf dyn) wa
              Hrec Hobt') as (w3 & Hm & Hc & _ & Hinst).
  rewrite (metricOf_frame _ _ _ _ _ w wa Hst) in Hm Hc Hinst. fold m in Hm, Hc, Hinst.
  exists w3. split; [|split; [|done]].
  - intros K.
    by rewrite bind_unfold (dynamicLabelsOf_run _ _ _ _ Hdyn) bind_unfold Ha
      bind_unfold Hm.
  - intros K Hk Hb Hp.
    by rewrite bind_unfold (dynamicLabelsOf_run _ _ _ _ Hdyn) bind_unfold Ha
      bind_unfold (Hc Hk Hb Hp).
Qed.

(** The same lines when the constructor of prom-client refuses: the call
    ends there, with the error of the constructor. *)
Lemma prelude_declined (k : MetricType) (options : MetricDecoratorOptions)
    (lsOf : Rec → Rec) (buckets percentiles : option (list Q))
    (args : list Value) (dyn : Rec) (w : World) :
  dynLabelsResult options args = Ok dyn →
  obtains k options buckets percentiles (lsOf dyn) w = false →
  let m := metricOf k options buckets percentiles (lsOf dyn) w in
  ∃ (e : Value) (w3 : World),
    (∀ K : loc → Metric → M Value,
       (d ← dynamicLabelsOf options args;
        l ← Heap.allocRecord (lsOf d);
        m ← metricFor k options l buckets percentiles;
        K l m) w = (Throw e, w3)) ∧
    (∀ K : loc → Metric → M Value,
       k = Counter → buckets = None → percentiles = None →
       (d ← dynamicLabelsOf options args;
        l ← Heap.allocRecord (lsOf d);
        m ← counterFor options l;
        K l m) w = (Throw e, w3)) ∧
    declined k (m_config m) w e ∧
    log w3 = log w ++ dynLabelEvents options args.
Proof.
  intros Hdyn Hobt m.
  destruct (prelude_labels options (lsOf dyn) args w)
    as (Ha & Hrec & Hst & Hreg & Hlog).
  set (wd := set_log (log w ++ dynLabelEvents options args) w) in *.
  set (wa := set_records (<[labelObject w := lsOf dyn]> (records wd)) wd) in *.
  assert (Hobt' : obtains k options buckets percentiles (lsOf dyn) wa = false).
  { by rewrite (obtains_frame _ _ _ _ _ w wa Hst Hreg). }
  destruct (metricFor_declined k options (labelObject w) buckets percentiles
              (lsOf dyn) wa Hrec Hobt') as (e & w3 & Hm & Hc & Hd & Hw3 & _).
  rewrite (metricOf_frame _ _ _ _ _ w wa Hst) in Hd. fold m in Hd.
  exists e, w3. split; [|split; [|split]].
  - intros K.
    by rewrite bind_unfold (dynamicLabelsOf_run _ _ _ _ Hdyn) bind_unfold Ha
      bind_unfold Hm.
  - intros K Hk Hb Hp.
    by rewrite bind_unfold (dynamicLabelsOf_run _ _ _ _ Hdyn) bind_unfold Ha
      bind_unfold (Hc Hk Hb Hp).
  - unfold declined, Prom.refusal in *. by rewrite -Hreg.
  - rewrite -Hlog Hw3. by destruct w3, wa.
Qed.

(** What a section that keeps the maps leaves for the jobs, and the jobs
    for a later [get...]. *)
Lemma resolved_after (kind : MetricType) (name : string) (m : Metric)
    (body : M Value) (w3 : World) (k : nat) :
  keepsMetrics body →
  instancesOf kind (statics w3) !! name = Some m →
  getMetric kind name (runJobs k (body w3).2)
    = (Ok (Some m), runJobs k (body w3).2).
Proof.
  intros Hbody Hinst. apply getMetric_instance.
  destruct (runJobs_reaction k (body w3).2) as [(_ & _ & Hs & _) _].
  destruct (Hbody w3) as [Hs' _]. by rewrite Hs Hs'.
Qed.

(** What a call through a metric wrapper comes to, by whether prom-client
    lets the wrapper have its metric. *)
Definition resolved (options : MetricDecoratorOptions) (w : World) (k : nat)
    (args : list Value) (kind : MetricType) (call : M Value) (ls : Rec)
    (b p : option (list Q)) (section : Metric → loc → M Value) : Prop :=
  let m := metricOf kind options b p ls w in
  resolves kind options ls b p w m ∧
  (obtains kind options b p ls w = true →
   ∃ w3 : World,
     call w = section m (labelObject w) w3 ∧
     getMetric kind (md_metricName options) (runJobs k (call w).2)
       = (Ok (Some m), runJobs k (call w).2)) ∧
  (obtains kind options b p ls w = false →
   ∃ (e : Value) (w3 : World),
     call w = (Throw e, w3) ∧
     declined kind (m_config m) w e ∧
     log w3 = log w ++ dynLabelEvents options args).

(** X17.  A call through a metric wrapper whose [dynamicLabels] returns
    works with the instance of the metric name when one exists, else with
    the metric built from the configuration registered under the name, and
    else with the metric it registers itself: under the name and the help
    of the options, without [collect], with exactly the keys of the labels
    of this first call as label names ([error] among them for a counter
    and a histogram), and with the buckets or percentiles of the options
    or the defaults.  When the name has an instance, or the constructor of
    prom-client takes the configuration from which the metric is to be
    built, the call runs its section from [try] on with that metric and
    with a new label object, and, whatever the function does, a [get...]
    of the name after the call and its jobs returns that metric.  When the
    constructor refuses (the registry already holds the name, a name is
    not well formed, the help text is missing), the call throws the error
    of the constructor: the function is not called, and nothing but the
    call of [dynamicLabels] is logged. *)
Theorem metric_wrappers_resolve_their_metric
    (original : Callee) (options : MetricDecoratorOptions)
    (buckets percentiles : option (list Q)) (timed : bool)
    (this : Value) (args : list Value) (dyn : Rec) (w : World) (k : nat)
    (Hdyn : dynLabelsResult options args = Ok dyn) :
  resolved options w k args Counter
    (_wrapWithCounter original options this args)
    (counterLabels options dyn) None None
    (λ counter labels, counted original counter labels this args) ∧
  resolved options w k args Gauge
    (_wrapWithGauge original options timed this args)
    (plainLabels options dyn) None None
    (λ gauge labels,
       endTimer ← (if timed then startTimer gauge labels else mret None);
       measured original gauge OpSet labels timed endTimer this args) ∧
  resolved options w k args Histogram
    (_wrapWithHistogram original (mkHistogramDecoratorOptions options buckets)
       this args)
    (counterLabels options dyn) buckets None
    (λ histogram labels,
       endTimer ← startTimer histogram labels;
       timedHistogram original labels endTimer this args) ∧
  resolved options w k args Summary
    (_wrapWithSummary original (mkSummaryDecoratorOptions options percentiles)
       timed this args)
    (plainLabels options dyn) None percentiles
    (λ summary labels,
       endTimer ← (if timed then startTimer summary labels else mret None);
       measured original summary OpObserve labels timed endTimer this args).
Proof.
  unfold resolved.
  repeat apply conj; try apply metricOf_resolves.
  - intros Hobt.
    destruct (prelude_obtained Counter options (counterLabels options) None None
                args dyn w Hdyn Hobt) as (w3 & _ & HK & Hinst).
    exists w3. unfold _wrapWithCounter.
    rewrite (HK (λ labels counter, counted original counter labels this args)) //.
    split; [done|].
    apply resolved_after; [apply keepsMetrics_counted | done].
  - intros Hobt.
    destruct (prelude_declined Counter options (counterLabels options) None None
                args dyn w Hdyn Hobt) as (e & w3 & _ & HK & Hd & Hlog).
    exists e, w3. unfold _wrapWithCounter.
    by rewrite (HK (λ labels counter, counted original counter labels this args)).
  - intros Hobt.
    destruct (prelude_obtained Gauge options (plainLabels options) None None
                args dyn w Hdyn Hobt) as (w3 & HK & _ & Hinst).
    exists w3. unfold _wrapWithGauge.
    rewrite (HK (λ labels gauge,
      endTimer ← (if timed then startTimer gauge labels else mret None);
      measured original gauge OpSet labels timed endTimer this args)).
    split; [done|].
    apply (resolved_after _ _ _
             (endTimer ← (if timed then startTimer _ _ else mret None);
              measured original _ OpSet _ timed endTimer this args)); [|done].
    apply keepsMetrics_bind; [destruct timed; keeps|].
    intros t. apply keepsMetrics_measured.
  - intros Hobt.
    destruct (prelude_declined Gauge options (plainLabels options) None None
                args dyn w Hdyn Hobt) as (e & w3 & HK & _ & Hd & Hlog).
    exists e, w3. unfold _wrapWithGauge.
    by rewrite (HK (λ labels gauge,
      endTimer ← (if timed then startTimer gauge labels else mret None);
      measured original gauge OpSet labels timed endTimer this args)).
  - intros Hobt.
    destruct (prelude_obtained Histogram options (counterLabels options) buckets None
                args dyn w Hdyn Hobt) as (w3 & HK & _ & Hinst).
    exists w3. unfold _wrapWithHistogram. simpl.
    rewrite (HK (λ labels histogram,
      endTimer ← startTimer histogram labels;
      timedHistogram original labels endTimer this args)).
    split; [done|].
    apply (resolved_after _ _ _
             (endTimer ← startTimer _ _;
              timedHistogram original _ endTimer this args)); [|done].
    apply keepsMetrics_bind; [keeps|].
    intros t. apply keepsMetrics_timedHistogram.
  - intros Hobt.
    destruct (prelude_declined Histogram options (counterLabels options) buckets None
                args dyn w Hdyn Hobt) as (e & w3 & HK & _ & Hd & Hlog).
    exists e, w3. unfold _wrapWithHistogram. simpl.
    by rewrite (HK (λ labels histogram,
      endTimer ← startTimer histogram labels;
      timedHistogram original labels endTimer this args)).
  - intros Hobt.
    destruct (prelude_obtained Summary options (plainLabels options) None percentiles
                args dyn w Hdyn Hobt) as (w3 & HK & _ & Hinst).
    exists w3. unfold _wrapWithSummary. simpl.
    rewrite (HK (λ labels summary,
      endTimer ← (if timed then startTimer summary labels else mret None);
      measured original summary OpObserve labels timed endTimer this args)).
    split; [done|].
    apply (resolved_after _ _ _
             (endTimer ← (if timed then startTimer _ _ else mret None);
              measured original _ OpObserve _ timed endTimer this args)); [|done].
    apply keepsMetrics_bind; [destruct timed; keeps|].
    intros t. apply keepsMetrics_measured.
  - intros Hobt.
    destruct (prelude_declined Summary options (plainLabels options) None percentiles
                args dyn w Hdyn Hobt) as (e & w3 & HK & _ & Hd & Hlog).
    exists e, w3. unfold _wrapWithSummary. simpl.
    by rewrite (HK (λ labels summary,
      endTimer ← (if timed then startTimer summary labels else mret None);
      measured original summary OpObserve labels timed endTimer this args)).
Qed.

Lemma metric_wrappers_resolve_their_metric_witness :
  dynLabelsResult fetchRowCounter [] = Ok ∅ ∧
  obtains Counter fetchRowCounter None None (counterLabels fetchRowCounter ∅)
    (initialWorld natural_sync_async) = true ∧
  ∃ w3 : World,
    _wrapWithCounter fetchRow fetchRowCounter VUndefined []
      (initialWorld natural_sync_async)
    = counted fetchRow
        (metricOf Counter fetchRowCounter None None
           (counterLabels fetchRowCounter ∅) (initialWorld natural_sync_async))
        (labelObject (initialWorld natural_sync_async)) VUndefined [] w3 ∧
    getMetric Counter "load_total"
      (runJobs 4 (_wrapWithCounter fetchRow fetchRowCounter VUndefined []
                    (initialWorld natural_sync_async)).2)
    = (Ok (Some (metricOf Counter fetchRowCounter None None
                   (counterLabels fetchRowCounter ∅)
                   (initialWorld natural_sync_async))),
       runJobs 4 (_wrapWithCounter fetchRow fetchRowCounter VUndefined []
                    (initialWorld natural_sync_async)).2).
Proof.
  split; [reflexivity|].
  split; [vm_compute; reflexivity|].
  apply (proj1 (proj2 (proj1
    (metric_wrappers_resolve_their_metric fetchRow fetchRowCounter
       None None false VUndefined [] ∅ (initialWorld natural_sync_async) 4
       eq_refl)))).
  vm_compute; reflexivity.
Defined.

End Resolution.

(* ===================================================================== *)
(** * Further properties: the caller file                                 *)
(* ===================================================================== *)

Section CallerFiles.

Import CallerFile.

(** Frames that the walk passes over once it has seen a frame of the
    current file: frames of that file and frames without a file name. *)
Definition ownOrNameless (cur : string) (f : FileName) : bool :=
  match f with
  | FName s => String.eqb s cur
  | FNull | FUndefined => true
  end.

(** A run of such frames that does not begin with a nameless one. *)
Definition ownFrames (cur : string) (own : list FileName) : bool :=
  forallb (ownOrNameless cur) own &&
  match own with
  | (FNull | FUndefined) :: _ => false
  | _ => true
  end.

Lemma differ_same (cur : string) : differ (FName cur) (Some cur) = false.
Proof. by rewrite /= String.eqb_refl. Qed.

Lemma differ_other (cur other : string) :
  other ≠ cur → differ (FName cur) (Some other) = true.
Proof.
  intros Hne. simpl. apply negb_true_iff, String.eqb_neq. congruence.
Qed.

Lemma walk_other (cur other : string) (callerFile : option string)
    (rest : list FileName) :
  other ≠ cur →
  walk (FName cur) callerFile (FName other :: rest) = Some other.
Proof.
  intros Hne. cbn [walk]. by rewrite (differ_other cur other Hne).
Qed.

Lemma walk_own (cur : string) (own rest : list FileName) :
  forallb (ownOrNameless cur) own = true →
  walk (FName cur) (Some cur) (own ++ rest) = walk (FName cur) (Some cur) rest.
Proof.
  induction own as [|f own IH]; [done|]. simpl.
  intros [Hf Hown]%andb_true_iff. destruct f as [| |s]; simpl in *.
  - rewrite String.eqb_refl /=. by apply IH.
  - rewrite String.eqb_refl /=. by apply IH.
  - apply String.eqb_eq in Hf as ->. rewrite String.eqb_refl /=. by apply IH.
Qed.

Lemma walk_from_first (cur : string) (own rest : list FileName) :
  ownFrames cur own = true →
  walk (FName cur) None (own ++ rest)
  = match own with
    | [] => walk (FName cur) None rest
    | _ :: _ => walk (FName cur) (Some cur) rest
    end.
Proof.
  intros [Hall Hhead]%andb_true_iff.
  destruct own as [|[| |s] own]; try done. simpl in *.
  apply andb_true_iff in Hall as [Hs Hall]. apply String.eqb_eq in Hs as ->.
  rewrite String.eqb_refl /=. by apply walk_own.
Qed.

(** X18.  [getCallerFile] passes over the frames of its own file and
    returns the file of the first frame of another file; what lies deeper
    in the stack does not matter.  Frames without a file name are passed
    over as well once a frame of its own file has been seen.  When the
    stack holds no frame of another file, it returns its own file. *)
Theorem getCallerFile_returns_the_first_other_file
    (cur other : string) (own rest : list FileName)
    (Hother : other ≠ cur)
    (Hown : ownFrames cur own = true) :
  getCallerFile (Some (FName cur :: own ++ FName other :: rest)) = other ∧
  getCallerFile (Some (FName cur :: own))
    = match own with [] => "" | _ :: _ => cur end.
Proof.
  unfold getCallerFile. split.
  - rewrite (walk_from_first cur own _ Hown).
    destruct own; by rewrite (walk_other cur other _ _ Hother).
  - rewrite -(app_nil_r own) (walk_from_first cur own _ Hown).
    by destruct own.
Qed.

Lemma getCallerFile_returns_the_first_other_file_witness :
  getCallerFile
    (Some [FName "getCallerFile.ts"; FName "getCallerFile.ts"; FNull;
           FName "svc.ts"; FName "main.ts"]) = "svc.ts" ∧
  getCallerFile (Some [FName "getCallerFile.ts"; FName "getCallerFile.ts"; FNull])
    = "getCallerFile.ts".
Proof.
  exact (getCallerFile_returns_the_first_other_file "getCallerFile.ts" "svc.ts"
           [FName "getCallerFile.ts"; FNull] [FName "main.ts"]
           ltac:(done) eq_refl).
Defined.

Lemma walk_names_a_frame (cur : FileName) (callerFile : option string)
    (stack : list FileName) (s : string) :
  walk cur callerFile stack = Some s →
  callerFile = Some s ∨ FName s ∈ stack.
Proof.
  revert callerFile. induction stack as [|f stack IH]; intros callerFile; simpl.
  - by left.
  - destruct (differ cur _) eqn:Hd.
    + destruct f as [| |n]; intros H; [by left | by left|].
      injection H as ->. right. by left.
    + intros H. apply IH in H as [H|H]; [|right; by right].
      destruct f as [| |n]; [by left | by left|].
      injection H as ->. right. by left.
Qed.

(** X19.  [getCallerFile] never makes a name up: it returns the empty
    string, or the file name of a frame that lies behind the first one.  It
    returns the empty string on an empty stack, on a stack of one frame, on
    a stack it cannot walk, and whenever the frame behind the first one has
    no file name while the first one has, whatever frames follow. *)
Theorem getCallerFile_names_a_frame_or_nothing
    (stack : option (list FileName)) (cur : string) (f : FileName)
    (rest : list FileName) :
  (getCallerFile stack = "" ∨
   ∃ first behind, stack = Some (first :: behind) ∧
                   FName (getCallerFile stack) ∈ behind) ∧
  getCallerFile None = "" ∧ getCallerFile (Some []) = "" ∧
  getCallerFile (Some [f]) = "" ∧
  match f with
  | FName _ => True
  | FNull | FUndefined => getCallerFile (Some (FName cur :: f :: rest)) = ""
  end.
Proof.
  split; [|by destruct f].
  destruct stack as [[|first behind]|]; [by left| |by left].
  unfold getCallerFile.
  destruct (walk first None behind) as [s|] eqn:Hw; [|by left].
  right. exists first, behind. split; [done|].
  by apply walk_names_a_frame in Hw as [?|?].
Qed.

End CallerFiles.

(* ===================================================================== *)
(** * Further properties: initialisation and its warnings                 *)
(* ===================================================================== *)

Section Initialisation.

Import Instrumentation.

(** How often a message was handed to [diag.warn]. *)
Definition isWarning (msg : string) (e : DiagEntry) : bool :=
  match e with
  | Warn m => String.eqb m msg
  | _ => false
  end.

Definition warnedIn (msg : string) (entries : list DiagEntry) : nat :=
  length (List.filter (isWarning msg) entries).

Lemma warnedIn_app (msg : string) (a b : list DiagEntry) :
  warnedIn msg (a ++ b) = warnedIn msg a + warnedIn msg b.
Proof. unfold warnedIn. by rewrite List.filter_app length_app. Qed.

(** The messages of [tracing-config.ts] are not among what the rest of
    [initInstrumentation] logs. *)
Definition ofTracingConfig (msg : string) : Prop :=
  msg = TracingConfig.legacyWarning ∨ msg = TracingConfig.limitsWarning.

Lemma warnedIn_none (msg : string) (entries : list DiagEntry) :
  Forall (λ e, isWarning msg e = false) entries → warnedIn msg entries = 0.
Proof.
  unfold warnedIn. induction 1 as [|e l He _ IH]; [done|]. simpl. by rewrite He.
Qed.

Lemma listInstrumentations_warnedIn (msg : string) (given : option (list Instr)) :
  ofTracingConfig msg → warnedIn msg (listInstrumentations given) = 0.
Proof.
  intros Hmsg. unfold listInstrumentations.
  destruct given as [[|i rest]|]; try done.
  apply warnedIn_none. constructor; [done|].
  apply Forall_fmap, Forall_forall. intros [name|] _; simpl.
  - destruct (String.eqb name ""); [|done]. by destruct Hmsg as [-> | ->].
  - by destruct Hmsg as [-> | ->].
Qed.

Lemma resolveExporter_warnedIn (msg : string) (opts : ExporterOptions) :
  warnedIn msg (resolveExporter opts).2 = 0.
Proof.
  unfold resolveExporter, legacyExporter.
  destruct (eo_exporter opts) as [[e|u c h| | |k]|]; try done;
    by destruct (negb _ && _), (default false (eo_localDebugging opts)).
Qed.

Lemma resolveSpanProcessors_warnedIn (msg : string) (e : option Exporter)
    (provided : option (list SpanProcessor)) :
  warnedIn msg (resolveSpanProcessors e provided).2 = 0.
Proof.
  unfold resolveSpanProcessors.
  destruct provided as [[|q qs]|], e as [e|]; try done; by destruct (noopFlagged e).
Qed.

(** The condition of each of the two warnings of [maybeWarnLegacy]. *)
Definition legacyDue (diag : bool) (s : TracingConfig.State) : bool :=
  Traces.isLegacy (TracingConfig.mode s) && diag &&
  negb (TracingConfig.warnOncePromise s).

Definition limitsDue (diag : bool) (s : TracingConfig.State) : bool :=
  negb (TracingConfig.warnOnceLimits s) &&
  negb (TracingConfig.enableSpanLimits s) && diag.

Lemma maybeWarnLegacy_run (diag : bool) (s : TracingConfig.State) :
  TracingConfig.maybeWarnLegacy diag s
  = ((if legacyDue diag s then [TracingConfig.legacyWarning] else []) ++
     (if limitsDue diag s then [TracingConfig.limitsWarning] else []),
     TracingConfig.mkState (TracingConfig.mode s)
       (TracingConfig.enableSpanLimits s)
       (TracingConfig.warnOncePromise s || legacyDue diag s)
       (TracingConfig.warnOnceLimits s || limitsDue diag s)).
Proof.
  unfold TracingConfig.maybeWarnLegacy, legacyDue, limitsDue.
  destruct s as [m l wp wl], m, l, wp, wl, diag; reflexivity.
Qed.

Lemma warnings_warnedIn (diag : bool) (s : TracingConfig.State) :
  warnedIn TracingConfig.legacyWarning
    (Warn <$> (TracingConfig.maybeWarnLegacy diag s).1)
    = (if legacyDue diag s then 1 else 0) ∧
  warnedIn TracingConfig.limitsWarning
    (Warn <$> (TracingConfig.maybeWarnLegacy diag s).1)
    = (if limitsDue diag s then 1 else 0).
Proof.
  rewrite maybeWarnLegacy_run. simpl.
  by destruct (legacyDue diag s), (limitsDue diag s).
Qed.

(** The settings of [tracing-config.ts] that a call of
    [initInstrumentation] leaves in force. *)
Definition modeInForce (options : InitOptions) (p : Process) : TracingMode :=
  default (TracingConfig.mode (tracing p)) (tracingMode options).

Definition limitsInForce (options : InitOptions) (p : Process) : bool :=
  bool_decide (is_Some (spanLimits options)) ||
  TracingConfig.enableSpanLimits (tracing p).

(** The state of [tracing-config.ts] when [initInstrumentation] comes to
    [maybeWarnLegacy]. *)
Definition settingsAtWarning (options : InitOptions) (p : Process)
    : TracingConfig.State :=
  TracingConfig.mkState (modeInForce options p) (limitsInForce options p)
    (TracingConfig.warnOncePromise (tracing p))
    (TracingConfig.warnOnceLimits (tracing p)).

Lemma initInstrumentation_run (options : InitOptions) (p : Process) :
  ∃ others : list DiagEntry,
    (∀ msg, ofTracingConfig msg → warnedIn msg others = 0) ∧
    diagLog (initInstrumentation options p).2
      = diagLog p ++ others ++
        (Warn <$> (TracingConfig.maybeWarnLegacy true (settingsAtWarning options p)).1)
        ++ [Info "Tracing initialized"] ∧
    tracing (initInstrumentation options p).2
      = (TracingConfig.maybeWarnLegacy true (settingsAtWarning options p)).2.
Proof.
  unfold initInstrumentation.
  pose proof (resolveExporter_warnedIn) as He.
  specialize (He) .
  destruct (resolveExporter _) as [e logged1] eqn:Hre.
  pose proof (λ msg, resolveSpanProcessors_warnedIn msg e (spanProcessors options))
    as Hp.
  destruct (resolveSpanProcessors e _) as [ps logged2] eqn:Hrp.
  assert (Hs : (match tracingMode options with
                | Some m =>
                    TracingConfig.setTracingMode m
                      (if bool_decide (is_Some (spanLimits options)) ||
                          TracingConfig.getEnableSpanLimits (tracing p)
                       then TracingConfig.setEnableSpanLimits true (tracing p)
                       else tracing p)
                | None =>
                    if bool_decide (is_Some (spanLimits options)) ||
                       TracingConfig.getEnableSpanLimits (tracing p)
                    then TracingConfig.setEnableSpanLimits true (tracing p)
                    else tracing p
                end) = settingsAtWarning options p).
  { unfold settingsAtWarning, modeInForce, limitsInForce,
      TracingConfig.getEnableSpanLimits, TracingConfig.setTracingMode,
      TracingConfig.setEnableSpanLimits.
    destruct (tracing p) as [m l wp wl]. simpl.
    destruct (tracingMode options), (bool_decide _), l; reflexivity. }
  rewrite Hs.
  destruct (TracingConfig.maybeWarnLegacy true (settingsAtWarning options p))
    as [warnings t3] eqn:Hw.
  simpl.
  eexists (([Info "Initializing OpenTelemetry instrumentation"] ++
            listInstrumentations (instrumentations options)) ++
           logged1 ++ logged2 ++ _).
  split; [|split; [by rewrite -!app_assoc|done]].
  intros msg Hmsg. rewrite !warnedIn_app.
  rewrite (listInstrumentations_warnedIn msg _ Hmsg).
  specialize (He msg (mkExporterOptions (exporter options) (url options)
                        (localDebugging options) (concurrencyLimit options))).
  rewrite Hre in He. simpl in He. rewrite He.
  specialize (Hp msg). simpl in Hp. rewrite Hp.
  by destruct (bool_decide _ || _).
Qed.

(** X20.  What a call of [initInstrumentation] warns about follows the
    settings it leaves in force: the mode is the one of the options, or the
    previous one when the options name none, and span limits are enabled
    when the options carry [spanLimits] or limits were enabled before.  The
    call gives the legacy warning once when that mode is
    [legacy-always-promise] and the warning was not given before, and the
    limits warning once when limits are not enabled and that warning was
    not given before; otherwise it gives neither. *)
Theorem init_warns_for_the_settings_in_force
    (options : InitOptions) (p : Process) :
  let p' := (initInstrumentation options p).2 in
  ∃ new : list DiagEntry,
    diagLog p' = diagLog p ++ new ∧
    TracingConfig.mode (tracing p') = modeInForce options p ∧
    TracingConfig.enableSpanLimits (tracing p') = limitsInForce options p ∧
    warnedIn TracingConfig.legacyWarning new
      = (if Traces.isLegacy (modeInForce options p) &&
            negb (TracingConfig.warnOncePromise (tracing p))
         then 1 else 0) ∧
    warnedIn TracingConfig.limitsWarning new
      = (if negb (limitsInForce options p) &&
            negb (TracingConfig.warnOnceLimits (tracing p))
         then 1 else 0).
Proof.
  intros p'. subst p'.
  destruct (initInstrumentation_run options p) as (others & Hq & Hlog & Ht).
  destruct (warnings_warnedIn true (settingsAtWarning options p)) as [Hl Hm].
  eexists. split; [exact Hlog|].
  rewrite !warnedIn_app Hl Hm.
  rewrite (Hq _ (or_introl eq_refl)) (Hq _ (or_intror eq_refl)).
  rewrite Ht maybeWarnLegacy_run. simpl.
  split; [done|]. split; [done|].
  unfold legacyDue, limitsDue. simpl.
  rewrite !andb_true_r.
  split.
  - by destruct (Traces.isLegacy _ && _).
  - rewrite (andb_comm (negb (TracingConfig.warnOnceLimits _))).
    by destruct (negb (limitsInForce _ _) && _).
Qed.

(** What a rejection of an awaited promise leaves in the log. *)
Definition rejection (msg : string) (outcome : Settles) : list DiagEntry :=
  match outcome with
  | Resolves => []
  | Rejects err => [WarnError msg err]
  end.

Lemma shutDownInstrumentation_run (outcomes : ShutdownOutcomes) (p : Process) :
  ∃ others : list DiagEntry,
    (∀ msg, ofTracingConfig msg → warnedIn msg others = 0) ∧
    diagLog (shutDownInstrumentation outcomes p) = diagLog p ++ others ∧
    tracing (shutDownInstrumentation outcomes p) = tracing p.
Proof.
  unfold shutDownInstrumentation, awaited, diagnosed.
  destruct p as [s cm ex ps t lc dl]. simpl.
  destruct s as [theSdk|]; simpl.
  - destruct ex as [e|]; simpl; [destruct (canForceFlush e); simpl|];
      eexists; (split; [|split; [rewrite -?app_assoc; reflexivity | done]]);
      intros msg Hmsg; rewrite ?warnedIn_app;
      destruct outcomes as [[|e1] [|e2] [|e3]]; simpl;
      by destruct Hmsg as [-> | ->].
  - eexists. split; [|split; [rewrite -?app_assoc; reflexivity | done]].
    intros msg Hmsg. by destruct Hmsg as [-> | ->].
Qed.

(** The calls that read or write the variables of [tracing-config.ts], or
    log beside them. *)
Inductive ConfigCall :=
  | CallSetTracingMode (m : TracingMode)
  | CallSetEnableSpanLimits (enable : bool)
  | CallMaybeWarnLegacy (diag : bool)
  | CallInitInstrumentation (options : InitOptions)
  | CallShutDownInstrumentation (outcomes : ShutdownOutcomes).

Definition onTracing (f : TracingConfig.State → TracingConfig.State)
    (p : Process) : Process :=
  mkProcess (sdk p) (contextManager p) (createdTraceExporter p)
    (effectiveSpanProcessors p) (f (tracing p)) (lifecycle p) (diagLog p).

(** One call; the warnings of [maybeWarnLegacy] go to the one log, whatever
    [diag] object the call was given. *)
Definition configCall (c : ConfigCall) (p : Process) : Process :=
  match c with
  | CallSetTracingMode m => onTracing (TracingConfig.setTracingMode m) p
  | CallSetEnableSpanLimits b => onTracing (TracingConfig.setEnableSpanLimits b) p
  | CallMaybeWarnLegacy diag =>
      let '(warnings, s) := TracingConfig.maybeWarnLegacy diag (tracing p) in
      mkProcess (sdk p) (contextManager p) (createdTraceExporter p)
        (effectiveSpanProcessors p) s (lifecycle p)
        (diagLog p ++ (Warn <$> warnings))
  | CallInitInstrumentation options => (initInstrumentation options p).2
  | CallShutDownInstrumentation outcomes => shutDownInstrumentation outcomes p
  end.

Definition configCalls (cs : list ConfigCall) (p : Process) : Process :=
  foldl (λ p c, configCall c p) p cs.

(** The process when the modules have been loaded: the mode and the limits
    come from the environment, and nothing was warned about. *)
Definition loaded (m : TracingMode) (limits : bool) : Process :=
  mkProcess None false None None (TracingConfig.mkState m limits false false) [] [].

(** A warning that was given has its flag set, and was given once. *)
Definition warnedOnce (p : Process) : Prop :=
  warnedIn TracingConfig.legacyWarning (diagLog p)
    = (if TracingConfig.warnOncePromise (tracing p) then 1 else 0) ∧
  warnedIn TracingConfig.limitsWarning (diagLog p)
    = (if TracingConfig.warnOnceLimits (tracing p) then 1 else 0).

Lemma configCall_warnedOnce (c : ConfigCall) (p : Process) :
  warnedOnce p → warnedOnce (configCall c p).
Proof.
  intros [Hl Hm]. destruct c as [m|b|diag|options|outcomes]; simpl.
  - by destruct p as [? ? ? ? [] ? ?].
  - by destruct p as [? ? ? ? [] ? ?].
  - destruct (warnings_warnedIn diag (tracing p)) as [Hl' Hm'].
    rewrite maybeWarnLegacy_run in Hl' Hm' |- *. simpl in *.
    unfold warnedOnce. simpl. rewrite !warnedIn_app Hl Hm Hl' Hm'.
    unfold legacyDue, limitsDue.
    destruct (tracing p) as [md l wp wl]. simpl.
    by destruct md, l, wp, wl, diag.
  - destruct (initInstrumentation_run options p) as (others & Hq & Hlog & Ht).
    destruct (warnings_warnedIn true (settingsAtWarning options p)) as [Hl' Hm'].
    unfold warnedOnce. rewrite Hlog Ht.
    rewrite !warnedIn_app Hl Hm Hl' Hm'.
    rewrite (Hq _ (or_introl eq_refl)) (Hq _ (or_intror eq_refl)).
    rewrite maybeWarnLegacy_run. simpl.
    unfold legacyDue, limitsDue. simpl.
    destruct (modeInForce options p), (limitsInForce options p),
      (TracingConfig.warnOncePromise (tracing p)),
      (TracingConfig.warnOnceLimits (tracing p)); done.
  - destruct (shutDownInstrumentation_run outcomes p) as (others & Hq & Hlog & Ht).
    unfold warnedOnce. rewrite Hlog Ht !warnedIn_app Hl Hm.
    by rewrite (Hq _ (or_introl eq_refl)) (Hq _ (or_intror eq_refl)) !Nat.add_0_r.
Qed.

(** X21.  From the load of the modules on, through any sequence of calls
    of [setTracingMode], [setEnableSpanLimits], [maybeWarnLegacy] (with or
    without [diag]), [initInstrumentation] and [shutDownInstrumentation],
    each of the two warnings of [tracing-config.ts] is given at most
    once. *)
Theorem each_warning_is_given_at_most_once
    (m : TracingMode) (limits : bool) (cs : list ConfigCall) :
  let p := configCalls cs (loaded m limits) in
  warnedIn TracingConfig.legacyWarning (diagLog p) ≤ 1 ∧
  warnedIn TracingConfig.limitsWarning (diagLog p) ≤ 1.
Proof.
  intros p.
  assert (H : warnedOnce p).
  { subst p. unfold configCalls.
    assert (H0 : warnedOnce (loaded m limits)) by done.
    revert H0. generalize (loaded m limits).
    induction cs as [|c cs IH]; intros q Hq; [done|].
    simpl. apply IH. by apply configCall_warnedOnce. }
  destruct H as [-> ->].
  split; [destruct (TracingConfig.warnOncePromise (tracing p))
         | destruct (TracingConfig.warnOnceLimits (tracing p))]; lia.
Qed.

(** What [initInstrumentation] leaves in the variables of the module. *)
Lemma init_state (options : InitOptions) (p : Process) :
  ∃ e : Exporter,
    r_traceExporter (initInstrumentation options p).1 = Some e ∧
    sdk (initInstrumentation options p).2
      = Some (r_sdk (initInstrumentation options p).1) ∧
    contextManager (initInstrumentation options p).2 = true ∧
    createdTraceExporter (initInstrumentation options p).2 = Some e.
Proof.
  unfold initInstrumentation.
  assert (He : ∃ e logged,
    resolveExporter (mkExporterOptions (exporter options) (url options)
                       (localDebugging options) (concurrencyLimit options))
    = (Some e, logged)).
  { unfold resolveExporter, legacyExporter. simpl.
    destruct (exporter options) as [[e|u c h| | |k]|]; try (by eauto);
      destruct (negb _ && _), (default false (localDebugging options)); by eauto. }
  destruct He as (e & logged1 & ->).
  exists e.
  destruct (resolveSpanProcessors _ _) as [ps logged2].
  by destruct (TracingConfig.maybeWarnLegacy _ _) as [warnings t3].
Qed.

(** X22.  [initInstrumentation] always comes to an exporter, and attaches
    it at most once.  With a non-empty [spanProcessors] in the options the
    SDK gets those processors as they are and no [traceExporter].
    Otherwise an exporter that carries the no-op flag goes to the SDK as
    [traceExporter], without any processor, and any other exporter goes
    into one [BatchSpanProcessor] with a queue of 1000 and a delay of 5000
    milliseconds, the SDK getting no [traceExporter].  What the call
    returns is what it has stored in the variables of the module. *)
Theorem init_attaches_the_exporter_once
    (options : InitOptions) (p : Process) :
  let r := (initInstrumentation options p).1 in
  let p' := (initInstrumentation options p).2 in
  ∃ e : Exporter,
    r_traceExporter r = Some e ∧
    sdk p' = Some (r_sdk r) ∧
    createdTraceExporter p' = r_traceExporter r ∧
    effectiveSpanProcessors p' = r_spanProcessors r ∧
    sdk_spanProcessors (r_sdk r) = r_spanProcessors r ∧
    lifecycle p' = lifecycle p ++ [ContextManagerEnabled; SdkStarted (r_sdk r)] ∧
    match spanProcessors options with
    | Some (q :: qs) =>
        r_spanProcessors r = Some (q :: qs) ∧ sdk_traceExporter (r_sdk r) = None
    | _ =>
        if noopFlagged e
        then r_spanProcessors r = None ∧ sdk_traceExporter (r_sdk r) = Some e
        else r_spanProcessors r = Some [BatchSpanProcessor e 1000%Q 5000%Q] ∧
             sdk_traceExporter (r_sdk r) = None
    end.
Proof.
  intros r p'. subst r p'. unfold initInstrumentation.
  assert (He : ∃ e logged,
    resolveExporter (mkExporterOptions (exporter options) (url options)
                       (localDebugging options) (concurrencyLimit options))
    = (Some e, logged)).
  { unfold resolveExporter, legacyExporter. simpl.
    destruct (exporter options) as [[e|u c h| | |k]|]; try (by eauto);
      destruct (negb _ && _), (default false (localDebugging options)); by eauto. }
  destruct He as (e & logged1 & ->).
  exists e. unfold resolveSpanProcessors.
  destruct (TracingConfig.maybeWarnLegacy _ _) as [warnings t3].
  destruct (spanProcessors options) as [[|q qs]|]; simpl;
    destruct (noopFlagged e); simpl; by repeat split.
Qed.

Lemma shutDown_started (outcomes : ShutdownOutcomes) (theSdk : NodeSDK)
    (e : Exporter) (ps : option (list SpanProcessor)) (t : TracingConfig.State)
    (lc : list Lifecycle) (dl : list DiagEntry) :
  shutDownInstrumentation outcomes (mkProcess (Some theSdk) true (Some e) ps t lc dl)
  = mkProcess None false None None t
      (lc ++ (if canForceFlush e then [ExporterFlushed e] else []) ++
       [ExporterShutDown e; SdkShutDown theSdk; TraceDisabled;
        ContextManagerDisabled; PropagationDisabled; ContextDisabled])
      (dl ++ [Info "Shutting down OpenTelemetry instrumentation"] ++
       (if canForceFlush e
        then rejection "OTLP forceFlush failed. Ignoring and continuing shutdown."
               (flushed outcomes)
        else []) ++
       rejection "OTLP shutdown failed. Ignoring and continuing shutdown."
         (exporterShutDown outcomes) ++
       rejection "OpenTelemetry SDK shutdown failed. Ignoring and continuing shutdown."
         (sdkShutDown outcomes) ++
       [Info "Instrumentation shut down successfully."]).
Proof.
  unfold shutDownInstrumentation, awaited, diagnosed, rejection. simpl.
  destruct (canForceFlush e); simpl; by rewrite -!app_assoc.
Qed.

(** X23.  [shutDownInstrumentation] after [initInstrumentation] stops what
    the initialisation started, whether the promises it awaits are
    fulfilled or rejected: the exporter that [initInstrumentation] returned
    is flushed, when it can be, and shut down, then the SDK is shut down,
    then tracing, the context manager, propagation and the context are
    disabled, in this order.  Each rejection is logged as one warning and
    stops nothing.  Afterwards the four variables of the module are
    undefined and those of [tracing-config.ts] are untouched, and a second
    [shutDownInstrumentation] calls nothing and only warns that there is no
    SDK. *)
Theorem shutdown_stops_what_init_started
    (options : InitOptions) (outcomes again : ShutdownOutcomes) (p : Process) :
  let r := (initInstrumentation options p).1 in
  let p1 := (initInstrumentation options p).2 in
  let p2 := shutDownInstrumentation outcomes p1 in
  let p3 := shutDownInstrumentation again p2 in
  ∃ e : Exporter,
    r_traceExporter r = Some e ∧
    lifecycle p2 = lifecycle p1 ++
      (if canForceFlush e then [ExporterFlushed e] else []) ++
      [ExporterShutDown e; SdkShutDown (r_sdk r); TraceDisabled;
       ContextManagerDisabled; PropagationDisabled; ContextDisabled] ∧
    diagLog p2 = diagLog p1 ++
      [Info "Shutting down OpenTelemetry instrumentation"] ++
      (if canForceFlush e
       then rejection "OTLP forceFlush failed. Ignoring and continuing shutdown."
              (flushed outcomes)
       else []) ++
      rejection "OTLP shutdown failed. Ignoring and continuing shutdown."
        (exporterShutDown outcomes) ++
      rejection "OpenTelemetry SDK shutdown failed. Ignoring and continuing shutdown."
        (sdkShutDown outcomes) ++
      [Info "Instrumentation shut down successfully."] ∧
    sdk p2 = None ∧ contextManager p2 = false ∧
    createdTraceExporter p2 = None ∧ effectiveSpanProcessors p2 = None ∧
    tracing p2 = tracing p1 ∧
    p3 = diagnosed
           [Info "Shutting down OpenTelemetry instrumentation";
            Warn "No OpenTelemetry SDK instance found. Nothing to shut down."] p2.
Proof.
  intros r p1 p2 p3. subst r p1 p2 p3.
  destruct (init_state options p) as (e & Hr & Hsdk & Hcm & Hex).
  exists e. split; [done|].
  destruct (initInstrumentation options p) as [r [s cm ex ps t lc dl]].
  simpl in *. subst s cm ex.
  rewrite shutDown_started. simpl. do 7 (split; [done|]).
  unfold shutDownInstrumentation, diagnosed. simpl. by rewrite -app_assoc.
Qed.

End Initialisation.

(* ===================================================================== *)
(** * Further properties: the decorator factories of [Metrics]            *)
(* ===================================================================== *)

Section DecoratorFactories.

Import Decorators.

Context {W : Type} (wrap : Callee → W).

(** The member that [descriptor.value ?? descriptor.get ?? descriptor.set]
    comes to, with its key. *)
Definition found (props : list (string * Arg)) : option (string * Arg) :=
  let descriptor := AObject props in
  if negb (nullish (prop descriptor "value"))
  then Some ("value", prop descriptor "value")
  else if negb (nullish (prop descriptor "get"))
  then Some ("get", prop descriptor "get")
  else if negb (nullish (prop descriptor "set"))
  then Some ("set", prop descriptor "set")
  else None.

(** [descriptor[key]] on the descriptor that the factory returns. *)
Fixpoint memberOut (key : string) (members : list (string * Member W))
    : option (Member W) :=
  match members with
  | [] => None
  | (k, m) :: rest => if String.eqb k key then Some m else memberOut key rest
  end.

Lemma memberOut_kept (key : string) (props : list (string * Arg)) :
  memberOut key (prod_map id Kept <$> props) = Kept <$> member key props.
Proof.
  induction props as [|[k a] props IH]; [done|]. simpl.
  by destruct (String.eqb k key).
Qed.

Lemma assign_spec (slot : string) (w : W) (props : list (string * Arg)) :
  memberOut slot (assign slot w props) = Some (Wrapper w) ∧
  ∀ key, key ≠ slot →
    memberOut key (assign slot w props) = Kept <$> member key props.
Proof.
  induction props as [|[k a] props [IH1 IH2]]; simpl.
  - rewrite String.eqb_refl. split; [done|]. intros key Hkey.
    apply not_eq_sym, String.eqb_neq in Hkey. by rewrite Hkey.
  - destruct (String.eqb k slot) eqn:Hk; simpl.
    + apply String.eqb_eq in Hk as ->. rewrite String.eqb_refl.
      split; [done|]. intros key Hkey.
      apply not_eq_sym, String.eqb_neq in Hkey. rewrite Hkey.
      apply memberOut_kept.
    + rewrite Hk. split; [done|]. intros key Hkey.
      destruct (String.eqb k key); [done|]. by apply IH2.
Qed.

Lemma prop_function (props : list (string * Arg)) (key : string) (f : Callee) :
  prop (AObject props) key = AFunction f →
  truthyArg (prop (AObject props) key) = true.
Proof. by intros ->. Qed.

Lemma nullish_falsy (a : Arg) : nullish a = true → truthyArg a = false.
Proof. by destruct a as [| |[]]. Qed.

(** X24.  A legacy decorator call, with three arguments of which the
    second is defined and the third is a descriptor object: the factory
    takes the first of [value], [get] and [set] that is neither [null] nor
    [undefined].  When that member is a function, it is replaced in the
    descriptor by the wrapper of that very function, every other member of
    the descriptor is left as it was, and the descriptor is returned; so on
    an accessor with a getter and a setter only the getter is wrapped.
    When that member is no function, or none is there, the descriptor is
    returned unchanged. *)
Theorem legacy_decorator_wraps_the_member_it_found
    (target propertyKey : Arg) (props : list (string * Arg))
    (Hkey : propertyKey ≠ APlain VUndefined) :
  match found props with
  | Some (slot, AFunction f) =>
      ∃ members : list (string * Member W),
        factory wrap [target; propertyKey; AObject props] = Descriptor members ∧
        memberOut slot members = Some (Wrapper (wrap f)) ∧
        ∀ key, key ≠ slot → memberOut key members = Kept <$> member key props
  | _ =>
      factory wrap [target; propertyKey; AObject props] = Returned (AObject props)
  end.
Proof.
  assert (Hk : match propertyKey with APlain VUndefined => true | _ => false end
               = false).
  { destruct propertyKey as [| |[]]; done. }
  unfold found, factory. rewrite Hk. cbn [negb andb truthyArg isObject].
  destruct (nullish (prop (AObject props) "value")) eqn:Hv; cbn [negb].
  - rewrite (nullish_falsy _ Hv).
    destruct (nullish (prop (AObject props) "get")) eqn:Hg; cbn [negb].
    + rewrite (nullish_falsy _ Hg).
      destruct (nullish (prop (AObject props) "set")) eqn:Hs; cbn [negb].
      * by destruct (prop (AObject props) "set") as [| |[]].
      * destruct (prop (AObject props) "set") as [f|o|v] eqn:Hp; try done.
        cbn [truthyArg]. eexists. split; [done|]. apply assign_spec.
    + destruct (prop (AObject props) "get") as [f|o|v] eqn:Hp; try done.
      cbn [truthyArg]. eexists. split; [done|]. apply assign_spec.
  - destruct (prop (AObject props) "value") as [f|o|v] eqn:Hp; try done.
    cbn [truthyArg]. eexists. split; [done|]. apply assign_spec.
Qed.

(** [function load() {}] and [function store(v) {}] *)
Definition getter : Callee := mkCallee "load" (λ _ _ _, BReturn (VNum 1)).
Definition setter : Callee := mkCallee "store" (λ _ _ _, BReturn VUndefined).


(** X25.  The factory wraps nothing but a function it was given: a
    wrapper it returns is the wrapper of its first argument, a function,
    in a call with two arguments whose second is a context of kind
    [method], [getter] or [setter]; a descriptor it returns comes from a
    call with three arguments; anything else it returns is one of its
    arguments or [undefined].  In particular a call with two arguments of
    which the first is no function returns [undefined], whatever the kind
    of the context. *)
Theorem decorator_wraps_only_a_function_it_was_given
    (decoratorArgs : list Arg) (value ctx : Arg) :
  match factory wrap decoratorArgs with
  | OWrapper w =>
      ∃ f c, decoratorArgs = [AFunction f; c] ∧ w = wrap f ∧
             (isString "method" (prop c "kind") ||
              isString "getter" (prop c "kind") ||
              isString "setter" (prop c "kind")) = true
  | FieldInitializer =>
      ∃ f c, decoratorArgs = [AFunction f; c] ∧
             isString "field" (prop c "kind") = true
  | AccessorInitializer =>
      ∃ f c, decoratorArgs = [AFunction f; c] ∧
             isString "auto-accessor" (prop c "kind") = true
  | Descriptor _ =>
      ∃ target propertyKey props,
        decoratorArgs = [target; propertyKey; AObject props]
  | Returned a => a ∈ decoratorArgs ∨ a = APlain VUndefined
  end ∧
  (if isFunction value then True
   else factory wrap [value; ctx] = Returned (APlain VUndefined)).
Proof.
  split; [|by destruct value].
  assert (Hthird : third decoratorArgs ∈ decoratorArgs ∨
                   third decoratorArgs = APlain VUndefined).
  { unfold third. destruct (decoratorArgs !! 2) as [a|] eqn:Ha; [|by right].
    left. by apply list_elem_of_lookup_2 in Ha. }
  unfold factory.
  destruct decoratorArgs as [|a0 [|a1 [|a2 [|a3 rest]]]]; try done.
  - destruct a0 as [f|o|v]; try done.
    destruct (truthyArg a1 && isObject a1 && hasKey "kind" a1); [|done].
    destruct (isString "field" _) eqn:H1; [by eauto|].
    destruct (isString "auto-accessor" _) eqn:H2; [by eauto|].
    destruct (isString "method" _ || _ || _) eqn:H3; [by eauto 6|].
    left. by left.
  - destruct (negb _ && _ && _); [|done].
    assert (Hd : a2 ∈ [a0; a1; a2]) by (do 2 right; by left).
    destruct (if negb (nullish (prop a2 "value")) then _ else _) as [f|o|v];
      [|by left | by left].
    destruct a2 as [g|props|v]; [by left| |by left].
    destruct (truthyArg (prop (AObject props) "value")); [by eauto|].
    destruct (truthyArg (prop (AObject props) "get")); [by eauto|].
    destruct (truthyArg (prop (AObject props) "set")); [by eauto|].
    by left.
Qed.

End DecoratorFactories.

Section DecoratedAccessor.

Import Decorators.

(** [@Metrics.counter({ metricName: 'load_total', ... })] on an accessor
    [size] with a getter and a setter, under legacy decorators. *)
Lemma legacy_decorator_wraps_the_member_it_found_witness :
  ∃ members : list (string * Member Wrapper4),
    counter fetchRowCounter
      [AObject []; APlain (VStr "size");
       AObject [("get", AFunction getter); ("set", AFunction setter)]]
      = Descriptor members ∧
    memberOut "get" members
      = Some (Wrapper (λ this args,
                Metrics._wrapWithCounter getter fetchRowCounter this args)) ∧
    memberOut "set" members = Some (Kept (AFunction setter)).
Proof.
  destruct (legacy_decorator_wraps_the_member_it_found
              (λ original, Metrics._wrapWithCounter original fetchRowCounter)
              (AObject []) (APlain (VStr "size"))
              [("get", AFunction getter); ("set", AFunction setter)]
              ltac:(done))
    as (members & Hf & Hget & Hrest).
  exists members. split; [exact Hf|]. split; [exact Hget|].
  exact (Hrest "set" ltac:(done)).
Defined.

End DecoratedAccessor.

(* ===================================================================== *)
(** * Further properties: the names of a decorated member                 *)
(* ===================================================================== *)

Section TracedMembers.

Import Decorators Traces.

Lemma orString_assoc (a b c : string) :
  orString (orString a b) c = orString a (orString b c).
Proof.
  unfold orString. destruct (String.eqb a "") eqn:Ha; [done|]. by rewrite Ha.
Qed.

Lemma _wrapCallableWithTracing_run (callerFile : string) (f : Callee)
    (options : TraceDecoratorOptions) (inferredSpanName inferredModuleName : string)
    (w : World) :
  ∃ wr : Wrapped,
    _wrapCallableWithTracing callerFile f options inferredSpanName
      inferredModuleName w = (Ok wr, w) ∧
    wr_fn wr = f ∧
    wr_spanName wr
      = default (orString inferredSpanName (orString (fn_name f) "anonymous"))
          (spanName options) ∧
    wr_moduleName wr
      = default (orString inferredModuleName callerFile) (moduleName options) ∧
    wr_coerceToPromise wr = isLegacy (mode w).
Proof.
  unfold _wrapCallableWithTracing, getTracingMode. msimpl. eexists.
  by repeat split.
Qed.

(** X26.  A member decorated with [@Traces.trace(options)] under legacy
    decorators is replaced by a wrapper of the very function found in the
    descriptor, every other member being left as it was.  The span name of
    the wrapper is [options.spanName] whenever the options carry one, even
    the empty string; else the property key when it is a string that is not
    empty, ["anonymous"] when the key is no string, and for the empty key
    the name of the function or ["anonymous"].  Its tracer name is
    [options.moduleName] whenever the options carry one; else the name of
    the constructor of the target, else the caller file.  The tracing mode
    is the one in force when the member is decorated. *)
Theorem decorated_member_names
    (factoryFile callerFile : string) (options : TraceDecoratorOptions)
    (target propertyKey : Arg) (props : list (string * Arg))
    (slot : string) (f : Callee) (w : World)
    (Hkey : propertyKey ≠ APlain VUndefined)
    (Hfound : found props = Some (slot, AFunction f)) :
  ∃ (wr : Wrapped) (members : list (string * Member Wrapped)),
    TraceDecorator.trace factoryFile callerFile options
      [target; propertyKey; AObject props] w
      = (Ok (TraceDecorator.Descriptor members), w) ∧
    memberOut slot members = Some (Wrapper wr) ∧
    (∀ key, key ≠ slot → memberOut key members = Kept <$> member key props) ∧
    wr_fn wr = f ∧
    wr_spanName wr
      = match spanName options with
        | Some s => s
        | None =>
            orString (TraceDecorator.stringOrAnonymous propertyKey)
              (orString (fn_name f) "anonymous")
        end ∧
    wr_moduleName wr
      = match moduleName options with
        | Some s => s
        | None =>
            orString (TraceDecorator.constructorName target)
              (orString factoryFile callerFile)
        end ∧
    wr_coerceToPromise wr = isLegacy (mode w).
Proof.
  assert (Hk : match propertyKey with APlain VUndefined => true | _ => false end
               = false).
  { destruct propertyKey as [| |[]]; done. }
  set (passedModule :=
         orString (default "" (moduleName options))
           (orString (TraceDecorator.constructorName target) factoryFile)).
  set (passedSpan :=
         orString (default "" (spanName options))
           (TraceDecorator.stringOrAnonymous propertyKey)).
  destruct (_wrapCallableWithTracing_run callerFile f options passedSpan
              passedModule w) as (wr & Hrun & Hfn & Hspan & Hmod & Hmode).
  assert (Hnames :
    wr_spanName wr
      = match spanName options with
        | Some s => s
        | None =>
            orString (TraceDecorator.stringOrAnonymous propertyKey)
              (orString (fn_name f) "anonymous")
        end ∧
    wr_moduleName wr
      = match moduleName options with
        | Some s => s
        | None =>
            orString (TraceDecorator.constructorName target)
              (orString factoryFile callerFile)
        end).
  { rewrite Hspan Hmod. subst passedSpan passedModule.
    destruct (spanName options), (moduleName options); simpl;
      by rewrite ?orString_assoc. }
  destruct Hnames as [Hs Hm].
  unfold found in Hfound. unfold TraceDecorator.trace. rewrite Hk.
  cbn [negb andb truthyArg isObject].
  fold passedModule passedSpan.
  destruct (nullish (prop (AObject props) "value")) eqn:Hv; cbn [negb] in *.
  - rewrite (nullish_falsy _ Hv).
    destruct (nullish (prop (AObject props) "get")) eqn:Hg; cbn [negb] in *.
    + rewrite (nullish_falsy _ Hg).
      destruct (nullish (prop (AObject props) "set")) eqn:Hset; cbn [negb] in *;
        [done|].
      injection Hfound as <- Hp.
      change (prop (AObject props) "set" = AFunction f) in Hp.
      rewrite Hp. cbn [truthyArg].
      rewrite bind_unfold Hrun. exists wr. eexists. split; [done|].
      destruct (assign_spec "set" wr props) as [H1 H2]. by repeat split.
    + injection Hfound as <- Hp.
      change (prop (AObject props) "get" = AFunction f) in Hp.
      rewrite Hp. cbn [truthyArg].
      rewrite bind_unfold Hrun. exists wr. eexists. split; [done|].
      destruct (assign_spec "get" wr props) as [H1 H2]. by repeat split.
  - injection Hfound as <- Hp.
    change (prop (AObject props) "value" = AFunction f) in Hp.
    rewrite Hp. cbn [truthyArg].
    rewrite bind_unfold Hrun. exists wr. eexists. split; [done|].
    destruct (assign_spec "value" wr props) as [H1 H2]. by repeat split.
Qed.

(** [class OrderService { @Traces.trace({ spanName: '' }) submit() {} }] *)
Definition submit : Callee := mkCallee "submit" (λ _ _ _, BReturn VUndefined).

Definition OrderService : Callee :=
  mkCallee "OrderService" (λ _ _ _, BReturn VUndefined).

Definition emptySpanName : TraceDecoratorOptions :=
  mkTraceDecoratorOptions (Some "") None None None None None None.

Lemma decorated_member_names_witness :
  ∃ (wr : Wrapped) (members : list (string * Member Wrapped)),
    TraceDecorator.trace "trace.ts" "trace.ts" emptySpanName
      [AObject [("constructor", AFunction OrderService)]; APlain (VStr "submit");
       AObject [("value", AFunction submit)]]
      (initialWorld natural_sync_async)
      = (Ok (TraceDecorator.Descriptor members), initialWorld natural_sync_async) ∧
    memberOut "value" members = Some (Wrapper wr) ∧
    wr_fn wr = submit ∧
    wr_spanName wr = "" ∧
    wr_moduleName wr = "OrderService".
Proof.
  destruct (decorated_member_names "trace.ts" "trace.ts" emptySpanName
              (AObject [("constructor", AFunction OrderService)])
              (APlain (VStr "submit")) [("value", AFunction submit)]
              "value" submit (initialWorld natural_sync_async)
              ltac:(done) eq_refl)
    as (wr & members & Hrun & Hslot & _ & Hfn & Hspan & Hmod & _).
  exists wr, members.
  exact (conj Hrun (conj Hslot (conj Hfn (conj Hspan Hmod)))).
Defined.

End TracedMembers.
